(** * libtmc task-isolation manager: shallow embedding of [isol.c]

    The development follows the layout of the C sources:
    - the 7-in-8 block codec ([write_encode_bytes], [read_decode_bytes] and
      their header variants);
    - the shared-memory request ring ([memipc_add_req], [memipc_get_req]);
    - the text scanners and the timer-list parser ([process_all_timers]);
    - the thread sweeper ([process_all_threads]);
    - the manager's launch pass ([memipc_isolation_process_ready_launch]);
    - the control-socket line handler ([client_text_handler]).

    C integers are modelled as [Z] with the narrowing conversions written
    out ([u8], [u32], [u64]); pointers into the ring area and into the
    caller's buffers are byte offsets from the start of the object. *)

From stdpp Require Import base numbers list strings pretty gmap.
From Stdlib Require Import ZArith Lia.

Local Open Scope Z_scope.

(** ** Machine integers *)

Definition u8 (x : Z) : Z := x mod 256.
Definition u32 (x : Z) : Z := x mod 2 ^ 32.
Definition u64 (x : Z) : Z := x mod 2 ^ 64.

(** [SEVEN], [EIGHT], [AREA_SIZE] and [sizeof(struct memipc_req_header)]
    (the header is packed: one [char] and one [uint32_t]). *)
Definition SEVEN : Z := 7.
Definition EIGHT : Z := 8.
Definition AREA_SIZE : Z := 4096.
Definition HDR : Z := 5.

(** ** Byte arrays

    An [unsigned char] array is a [list Z]; [peek] is a load and [poke] a
    store.  A load or a store outside the array is undefined in C; here the
    load gives 0 and the store leaves the array as it is, and the theorems
    state the bounds under which neither happens. *)

Definition peek (m : list Z) (p : Z) : Z := default 0 (m !! Z.to_nat p).
Definition poke (m : list Z) (p v : Z) : list Z := <[Z.to_nat p := v]> m.

(** The shared area of a ring, together with a journal of the block stores
    made by the producer (most recent first).  The journal is not part of
    the C state; it records the order of the stores so that statements
    about that order can be made. *)
Inductive store_event : Type :=
  | StoreHeader (off : Z)
  | StoreData (off : Z).

Record shmem : Type := Shmem {
  cells : list Z;
  journal : list store_event
}.

Global Instance store_event_eq_dec : EqDecision store_event.
Proof. solve_decision. Defined.

Global Instance shmem_eq_dec : EqDecision shmem.
Proof. solve_decision. Defined.

(** ** The 7-in-8 codec *)

(** [1 & (dst[0] | ... | dst[7])]: nonzero when some presence bit is set. *)
Definition presence_any (m : list Z) (p : Z) : Z :=
  Z.land 1
    (Z.lor (Z.lor (Z.lor (Z.lor (Z.lor (Z.lor (Z.lor
      (peek m p) (peek m (p + 1))) (peek m (p + 2))) (peek m (p + 3)))
      (peek m (p + 4))) (peek m (p + 5))) (peek m (p + 6))) (peek m (p + 7))).

(** [1 & src0 & ... & src7]: 1 when every presence bit is set. *)
Definition presence_all (m : list Z) (p : Z) : Z :=
  Z.land (Z.land (Z.land (Z.land (Z.land (Z.land (Z.land (Z.land 1
      (peek m p)) (peek m (p + 1))) (peek m (p + 2))) (peek m (p + 3)))
      (peek m (p + 4))) (peek m (p + 5))) (peek m (p + 6))) (peek m (p + 7)).

(** The "Encode" paragraph shared by both writers; every right-hand side is
    computed in [int] and narrowed to [unsigned char] by the assignment. *)
Definition encode7 (s0 s1 s2 s3 s4 s5 s6 : Z) : list Z :=
  [ u8 (Z.lor (Z.shiftl s0 1) 1);
    u8 (Z.lor (Z.lor (Z.shiftr (Z.land s0 0x80) 6) (Z.shiftl s1 2)) 1);
    u8 (Z.lor (Z.lor (Z.shiftr (Z.land s1 0xc0) 5) (Z.shiftl s2 3)) 1);
    u8 (Z.lor (Z.lor (Z.shiftr (Z.land s2 0xe0) 4) (Z.shiftl s3 4)) 1);
    u8 (Z.lor (Z.lor (Z.shiftr (Z.land s3 0xf0) 3) (Z.shiftl s4 5)) 1);
    u8 (Z.lor (Z.lor (Z.shiftr (Z.land s4 0xf8) 2) (Z.shiftl s5 6)) 1);
    u8 (Z.lor (Z.lor (Z.shiftr (Z.land s5 0xfc) 1) (Z.shiftl s6 7)) 1);
    u8 (Z.lor s6 1) ].

(** The "Write" paragraph: [dst[0] = dst0; ... dst[7] = dst7;]. *)
Fixpoint store_bytes (m : list Z) (p : Z) (bs : list Z) : list Z :=
  match bs with
  | [] => m
  | b :: bs' => store_bytes (poke m p b) (p + 1) bs'
  end.

(** Value of the local [srcK] after the two fall-through switches of
    [write_encode_bytes]: [src[K]] when [K < size <= 7], 0 when
    [size <= K].  For [size > 7] no case matches and the C local is left
    uninitialised (0 here); [memipc_add_req] clamps the size to [SEVEN]. *)
Definition src_local (src : list Z) (soff size k : Z) : Z :=
  if (k <? size) && (size <=? 7) then peek src (soff + k) else 0.

Definition write_encode_bytes (m : shmem) (dst : Z) (src : list Z)
    (soff size : Z) : Z * shmem :=
  if negb (presence_any (cells m) dst =? 0) then (-1, m)
  else
    let s k := src_local src soff size k in
    (0, Shmem (store_bytes (cells m) dst
                 (encode7 (s 0) (s 1) (s 2) (s 3) (s 4) (s 5) (s 6)))
              (StoreData dst :: journal m)).

(** [char] is the signed 8-bit type of the x86-64 and most other GCC
    targets (on targets where [char] is unsigned the two agree on the
    request types, which are all below 128). *)
Definition to_char (x : Z) : Z :=
  let b := x mod 256 in if b <? 128 then b else b - 256.

(** Locals [src5], [src6] of [write_encode_bytes_with_header]: payload
    bytes when [size] is 1 or 2, zero when it says so, uninitialised (0
    here) for any other size. *)
Definition hdr_local5 (src : list Z) (size : Z) : Z :=
  if (size =? 1) || (size =? 2) then peek src 0 else 0.
Definition hdr_local6 (src : list Z) (size : Z) : Z :=
  if size =? 2 then peek src 1 else 0.

Definition write_encode_bytes_with_header (m : shmem) (dst : Z)
    (src : list Z) (size : Z) (t : Z) (msize : Z) : Z * shmem :=
  if negb (presence_any (cells m) dst =? 0) then (-1, m)
  else
    let src4 := u8 (Z.land (Z.shiftr msize 24) 0xff) in
    let src3 := u8 (Z.land (Z.shiftr msize 16) 0xff) in
    let src2 := u8 (Z.land (Z.shiftr msize 8) 0xff) in
    let src1 := u8 (Z.land msize 0xff) in
    let src0 := u8 (to_char t) in
    (0, Shmem (store_bytes (cells m) dst
                 (encode7 src0 src1 src2 src3 src4
                    (hdr_local5 src size) (hdr_local6 src size)))
              (StoreHeader dst :: journal m)).

(** The seven "Decode" right-hand sides as [int] expressions over the
    bytes [e 0 .. e 7] loaded from the block. *)
Definition decode_raw (k : Z) (e : Z -> Z) : Z :=
  if k =? 0 then Z.lor (Z.shiftr (e 0) 1) (Z.land (Z.shiftl (e 1) 6) 0x80)
  else if k =? 1 then Z.lor (Z.shiftr (e 1) 2) (Z.land (Z.shiftl (e 2) 5) 0xc0)
  else if k =? 2 then Z.lor (Z.shiftr (e 2) 3) (Z.land (Z.shiftl (e 3) 4) 0xe0)
  else if k =? 3 then Z.lor (Z.shiftr (e 3) 4) (Z.land (Z.shiftl (e 4) 3) 0xf0)
  else if k =? 4 then Z.lor (Z.shiftr (e 4) 5) (Z.land (Z.shiftl (e 5) 2) 0xf8)
  else if k =? 5 then Z.lor (Z.shiftr (e 5) 6) (Z.land (Z.shiftl (e 6) 1) 0xfc)
  else Z.lor (Z.shiftr (e 6) 7) (Z.land (e 7) 0xfe).

(** A decoded value stored into an [unsigned char]. *)
Definition decode_at (k : Z) (e : Z -> Z) : Z := u8 (decode_raw k e).

(** One arm of the fall-through decode switch: [dst[k]] is stored when the
    switch was entered at a case above [k], i.e. when [k < size <= 7]. *)
Definition decode_arm (size k : Z) (e : Z -> Z) (doff : Z) (dst : list Z)
    : list Z :=
  if (k <? size) && (size <=? 7) then poke dst (doff + k) (decode_at k e)
  else dst.

(** [read_decode_bytes(dst, src, size)]: the cases fall through from
    [dst[6]] down to [dst[0]]. *)
Definition read_decode_bytes (dst : list Z) (doff : Z) (m : list Z)
    (src size : Z) : Z * list Z :=
  let e k := peek m (src + k) in
  if negb (presence_all m src =? 1) then (-1, dst)
  else
    (0, decode_arm size 0 e doff
          (decode_arm size 1 e doff
          (decode_arm size 2 e doff
          (decode_arm size 3 e doff
          (decode_arm size 4 e doff
          (decode_arm size 5 e doff
          (decode_arm size 6 e doff dst))))))).

(** Result of [read_decode_bytes_with_header]: return code, destination
    buffer, [*type] and [*msize] (the last two keep the caller's values
    when the block is not ready). *)
Definition read_decode_bytes_with_header (dst : list Z) (m : list Z)
    (src size : Z) (type0 msize0 : Z) : Z * list Z * Z * Z :=
  let e k := peek m (src + k) in
  if negb (presence_all m src =? 1) then (-1, dst, type0, msize0)
  else
    let dst1 := if size =? 2 then poke dst 1 (decode_at 6 e) else dst in
    let dst2 := if (size =? 2) || (size =? 1)
                then poke dst1 0 (decode_at 5 e) else dst1 in
    let msize :=
      Z.lor (Z.lor (Z.lor
        (u32 (Z.shiftl (decode_raw 4 e) 24))
        (u32 (Z.shiftl (decode_raw 3 e) 16)))
        (u32 (Z.shiftl (decode_raw 2 e) 8)))
        (u32 (decode_raw 1 e)) in
    (0, dst2, to_char (decode_raw 0 e), msize).

(** ** The request ring *)

(** [struct memipc_area]; [area] itself is offset 0 of the shared cells,
    [wptr] and [rptr] are offsets from it.  Each side of a ring holds its
    own descriptor over the same cells. *)
Record memipc_area : Type := MemipcArea {
  wptr : Z;
  rptr : Z;
  size : Z;
  inbuffer : Z;
  writer : Z;
  reader : Z
}.

Global Instance memipc_area_eq_dec : EqDecision memipc_area.
Proof. solve_decision. Defined.

(** [memipc_area_create(size, ...)]: a descriptor over a freshly mapped
    area (the [mmap] is taken to succeed), and [memipc_area_dup], the copy
    given to the other side of the ring.  [writer] and [reader] start as 0
    and are set by the thread that attaches. *)
Definition memipc_area_create (size : Z) : memipc_area :=
  MemipcArea 0 0 size 0 0 0.

Definition memipc_area_dup (src : memipc_area) : memipc_area := src.

(** The cells of a shared-memory object right after
    [shm_open(O_CREAT | O_TRUNC)] and [ftruncate]: all zero. *)
Definition fresh_cells (size : Z) : shmem :=
  Shmem (replicate (Z.to_nat size) 0) [].

(** [enum memipc_req_type]. *)
Inductive memipc_req_type : Type :=
  | MEMIPC_REQ_NONE | MEMIPC_REQ_INIT | MEMIPC_REQ_START_READY
  | MEMIPC_REQ_START_LAUNCH | MEMIPC_REQ_START_LAUNCH_DONE
  | MEMIPC_REQ_START_LAUNCH_FAILURE | MEMIPC_REQ_START_CONFIRMED
  | MEMIPC_REQ_TERMINATE | MEMIPC_REQ_EXIT_ISOLATION | MEMIPC_REQ_EXITING
  | MEMIPC_REQ_LEAVE_ISOLATION | MEMIPC_REQ_OK_LEAVE_ISOLATION
  | MEMIPC_REQ_PING | MEMIPC_REQ_PONG | MEMIPC_REQ_CMD | MEMIPC_REQ_PRINT.

Definition req_code (t : memipc_req_type) : Z :=
  match t with
  | MEMIPC_REQ_NONE => 0 | MEMIPC_REQ_INIT => 1 | MEMIPC_REQ_START_READY => 2
  | MEMIPC_REQ_START_LAUNCH => 3 | MEMIPC_REQ_START_LAUNCH_DONE => 4
  | MEMIPC_REQ_START_LAUNCH_FAILURE => 5 | MEMIPC_REQ_START_CONFIRMED => 6
  | MEMIPC_REQ_TERMINATE => 7 | MEMIPC_REQ_EXIT_ISOLATION => 8
  | MEMIPC_REQ_EXITING => 9 | MEMIPC_REQ_LEAVE_ISOLATION => 10
  | MEMIPC_REQ_OK_LEAVE_ISOLATION => 11 | MEMIPC_REQ_PING => 12
  | MEMIPC_REQ_PONG => 13 | MEMIPC_REQ_CMD => 14 | MEMIPC_REQ_PRINT => 15
  end.

(** The producer's scan at the head of [memipc_add_req]: step the cached
    read pointer over bytes whose presence bit the consumer has cleared.
    Every turn decrements [inbuffer], so [inbuffer] turns are enough. *)
Fixpoint scan_released (fuel : nat) (m : list Z) (sz localptr inb : Z)
    : Z * Z :=
  match fuel with
  | O => (localptr, inb)
  | S fuel' =>
      if (Z.land (peek m localptr) 1 =? 0) && (0 <? inb) then
        let lp := localptr + 1 in
        let lp := if sz <=? lp then 0 else lp in
        scan_released fuel' m sz lp (inb - 1)
      else (localptr, inb)
  end.

(** The consumer's scan at the head of [memipc_get_req]: step the cached
    write pointer over bytes whose presence bit is set; bounded by
    [size - inbuffer] turns. *)
Fixpoint scan_written (fuel : nat) (m : list Z) (sz localptr inb : Z)
    : Z * Z :=
  match fuel with
  | O => (localptr, inb)
  | S fuel' =>
      if (Z.land (peek m localptr) 1 =? 1) && (inb <? sz) then
        let lp := localptr + 1 in
        let lp := if sz <=? lp then 0 else lp in
        scan_written fuel' m sz lp (inb + 1)
      else (localptr, inb)
  end.

(** Number of SEVEN-byte blocks of a request of [total] bytes. *)
Definition blocks_for (total : Z) : Z :=
  let blocks_count := total / SEVEN in
  let remainder := total - blocks_count * SEVEN in
  if remainder =? 0 then blocks_count else blocks_count + 1.

(** Body shared by the two store loops of [memipc_add_req]
    ([for (i = ...; i > 0; i--)]).  The loops differ in the base of the
    destination ([area->area] for the wrapped part, [area->wptr] for the
    rest) and in the blocks skipped in the source ([blocks_available_1],
    resp. none): [srcptr - req_data] is [skip * SEVEN + i * SEVEN - 5]. *)
Fixpoint write_blocks (i : nat) (m : shmem) (base skip : Z)
    (req_type req_size : Z) (req_data : list Z) : Z * shmem :=
  match i with
  | O => (0, m)
  | S i' =>
      let iz := Z.of_nat i in
      let srcoff := skip * SEVEN + iz * SEVEN - HDR in
      let r :=
        if SEVEN <=? srcoff then
          let srcsize := u64 (req_size - (srcoff - SEVEN)) in
          let srcsize := if SEVEN <? srcsize then SEVEN else srcsize in
          write_encode_bytes m (base + (iz - 1) * EIGHT) req_data
            (srcoff - SEVEN) (u32 srcsize)
        else
          let srcoff := if req_size <? srcoff then req_size else srcoff in
          let srcsize := u64 srcoff in
          write_encode_bytes_with_header m (base + (iz - 1) * EIGHT)
            req_data (u32 srcsize) req_type (u32 (u64 (req_size + HDR)))
      in
      if negb (r.1 =? 0) then (-1, r.2)
      else write_blocks i' r.2 base skip req_type req_size req_data
  end.

(** [memipc_add_req(area, req_type, req_size, req_data)], run by the
    thread whose id is [my_pid]. *)
Definition memipc_add_req (my_pid : Z) (area : memipc_area) (m : shmem)
    (req_type req_size : Z) (req_data : list Z)
    : Z * memipc_area * shmem :=
  if negb (writer area =? my_pid) then (-1, area, m)
  else
    let endptr := size area in
    let '(localptr, inb) :=
      scan_released (Z.to_nat (u32 (inbuffer area))) (cells m) (size area)
        (rptr area) (u32 (inbuffer area)) in
    let area := MemipcArea (wptr area) localptr (size area) inb
                  (writer area) (reader area) in
    if inbuffer area =? size area then (-1, area, m)
    else
      let total_req_size := u64 (req_size + HDR) in
      let blocks_count := blocks_for total_req_size in
      let blocks_available_1 :=
        if wptr area <? rptr area then (rptr area - wptr area) / EIGHT
        else (endptr - wptr area) / EIGHT in
      let blocks_available_2 :=
        if wptr area <? rptr area then 0 else rptr area / EIGHT in
      let blocks_available := blocks_available_1 + blocks_available_2 in
      if blocks_available <? blocks_count then (-1, area, m)
      else
        let wrapped :=
          if blocks_available_1 <? blocks_count then
            write_blocks (Z.to_nat (u32 (blocks_count - blocks_available_1)))
              m 0 blocks_available_1 req_type req_size req_data
          else (0, m) in
        if negb (wrapped.1 =? 0) then (-1, area, wrapped.2)
        else
          let blocks_write :=
            if blocks_available_1 <? blocks_count then blocks_available_1
            else blocks_count in
          let next_wptr :=
            if blocks_available_1 <? blocks_count
            then (blocks_count - blocks_available_1) * EIGHT
            else
              let nw := wptr area + blocks_write * EIGHT in
              if endptr <=? nw then 0 else nw in
          let direct :=
            write_blocks (Z.to_nat (u32 blocks_write)) wrapped.2
              (wptr area) 0 req_type req_size req_data in
          if negb (direct.1 =? 0) then (-1, area, direct.2)
          else
            (0,
             MemipcArea next_wptr (rptr area) (size area)
               (inbuffer area + blocks_count * EIGHT)
               (writer area) (reader area),
             direct.2).

(** [memipc_clearmem(p, size)]: one store of 0 per byte, ascending. *)
Fixpoint memipc_clearmem (m : list Z) (p : Z) (n : nat) : list Z :=
  match n with
  | O => m
  | S n' => memipc_clearmem (poke m p 0) (p + 1) n'
  end.

(** Body shared by the two decode loops of [memipc_get_req]
    ([for (i = 1; i < blocks_count_1; i++)] over [area->rptr] and
    [for (i = 0; i < blocks_count_2; i++)] over [area->area], the latter
    past the [blocks_count_1] blocks already read).  [n] is the number of
    turns left; the result carries the advanced [dstptr]. *)
Fixpoint read_blocks (n : nat) (i : Z) (m : list Z) (base skip total : Z)
    (dst : list Z) (dstptr : Z) : Z * list Z * Z :=
  match n with
  | O => (0, dst, dstptr)
  | S n' =>
      let dstsize := u64 (total - (skip + i) * SEVEN) in
      let dstsize := if SEVEN <? dstsize then SEVEN else dstsize in
      let r := read_decode_bytes dst dstptr m (base + i * EIGHT)
                 (u32 dstsize) in
      if negb (r.1 =? 0) then (-1, r.2, dstptr)
      else read_blocks n' (i + 1) m base skip total r.2 (dstptr + dstsize)
  end.

(** Outcome of [memipc_get_req]: return code, the caller's descriptor, the
    shared cells, and the three out-parameters [*req_type], [*req_size],
    [req_data]. *)
Record get_result : Type := GetResult {
  g_ret : Z;
  g_area : memipc_area;
  g_mem : shmem;
  g_type : Z;
  g_size : Z;
  g_data : list Z
}.

(** [ssize_t] value of a [size_t]. *)
Definition s64 (x : Z) : Z :=
  let w := x mod 2 ^ 64 in if w <? 2 ^ 63 then w else w - 2 ^ 64.

(** [int] value of an [unsigned]. *)
Definition s32 (x : Z) : Z :=
  let w := x mod 2 ^ 32 in if w <? 2 ^ 31 then w else w - 2 ^ 32.

(** [memipc_get_req(area, &req_type, &req_size, req_data)], run by the
    thread whose id is [my_pid]; [req_type0] and [req_size0] are the
    values the caller left in [*req_type] and [*req_size].  The final
    update of the thread-local probe pointer [memipc_check_newdata_ptr]
    (to the new [area->rptr]) is not part of the result. *)
Definition memipc_get_req (my_pid : Z) (area : memipc_area) (m : shmem)
    (req_type0 req_size0 : Z) (req_data : list Z) : get_result :=
  if negb (reader area =? my_pid)
  then GetResult (-1) area m req_type0 req_size0 req_data
  else
    let endptr := size area in
    let '(localptr, inb) :=
      scan_written (Z.to_nat (size area - u32 (inbuffer area))) (cells m)
        (size area) (wptr area) (u32 (inbuffer area)) in
    let area := MemipcArea localptr (rptr area) (size area) inb
                  (writer area) (reader area) in
    if inbuffer area <? EIGHT
    then GetResult (-1) area m req_type0 req_size0 req_data
    else
      let '(rc, data1, l_req_type, l_req_size) :=
        read_decode_bytes_with_header req_data (cells m) (rptr area)
          (SEVEN - HDR) 0 0 in
      if negb (rc =? 0)
      then GetResult (-1) area m req_type0 req_size0 data1
      else
        let total_req_size := l_req_size in
        if u64 (req_size0 + HDR) <? total_req_size
        then GetResult (-2) area m req_type0 req_size0 data1
        else
          let req_size1 := s64 (total_req_size - HDR) in
          let req_type1 := l_req_type in
          if total_req_size <=? SEVEN then
            let cells1 := memipc_clearmem (cells m) (rptr area)
                            (Z.to_nat EIGHT) in
            let r1 := rptr area + EIGHT in
            let r1 := if endptr <=? r1 then 0 else r1 in
            GetResult 0
              (MemipcArea (wptr area) r1 (size area)
                 (inbuffer area - EIGHT) (writer area) (reader area))
              (Shmem cells1 (journal m)) req_type1 req_size1 data1
          else
            let blocks_count := blocks_for total_req_size in
            if inbuffer area <? blocks_count * EIGHT
            then GetResult (-1) area m req_type1 req_size1 data1
            else
              let bc1_0 := (endptr - rptr area) / EIGHT in
              let blocks_count_1 :=
                if blocks_count <=? bc1_0 then blocks_count else bc1_0 in
              let blocks_count_2 :=
                if blocks_count <=? bc1_0 then 0
                else blocks_count - bc1_0 in
              let dstptr := SEVEN - HDR in
              let '(rc1, data2, dstptr1) :=
                read_blocks (Z.to_nat (blocks_count_1 - 1)) 1 (cells m)
                  (rptr area) 0 total_req_size data1 dstptr in
              if negb (rc1 =? 0)
              then GetResult (-1) area m req_type1 req_size1 data2
              else
                let curr_rptr := rptr area + blocks_count_1 * EIGHT in
                let wraps := endptr <=? curr_rptr in
                let '(rc2, data3, _) :=
                  if wraps && (0 <? blocks_count_2) then
                    read_blocks (Z.to_nat blocks_count_2) 0 (cells m)
                      0 blocks_count_1 total_req_size data2 dstptr1
                  else (0, data2, dstptr1) in
                if negb (rc2 =? 0)
                then GetResult (-1) area m req_type1 req_size1 data3
                else
                  let curr_rptr :=
                    if wraps then
                      if 0 <? blocks_count_2 then blocks_count_2 * EIGHT
                      else 0
                    else curr_rptr in
                  let cells1 :=
                    if wraps && (0 <? blocks_count_2) then
                      memipc_clearmem (cells m) 0
                        (Z.to_nat (blocks_count_2 * EIGHT))
                    else cells m in
                  let cells2 :=
                    memipc_clearmem cells1 (rptr area)
                      (Z.to_nat (blocks_count_1 * EIGHT)) in
                  GetResult 0
                    (MemipcArea (wptr area) curr_rptr (size area)
                       (inbuffer area - blocks_count * EIGHT)
                       (writer area) (reader area))
                    (Shmem cells2 (journal m)) req_type1 req_size1 data3.

(** * The manager's launch pass ([memipc_isolation_process_ready_launch]) *)

(** [cpu_set_t] with the macros of [sched.h] the code uses. *)
Definition cpu_set_t : Type := gset Z.

Definition CPU_COUNT (s : cpu_set_t) : Z := Z.of_nat (base.size s).
Definition CPU_AND (a b : cpu_set_t) : cpu_set_t := a ∩ b.
Definition CPU_OR (a b : cpu_set_t) : cpu_set_t := a ∪ b.
Definition CPU_XOR (a b : cpu_set_t) : cpu_set_t := (a ∖ b) ∪ (b ∖ a).
Definition CPU_ISSET (c : Z) (s : cpu_set_t) : bool := bool_decide (c ∈ s).

(** [enum memipc_thread_state]. *)
Inductive memipc_thread_state : Type :=
  | MEMIPC_STATE_OFF
  | MEMIPC_STATE_STARTED
  | MEMIPC_STATE_READY
  | MEMIPC_STATE_LAUNCHING
  | MEMIPC_STATE_LAUNCHED
  | MEMIPC_STATE_RUNNING
  | MEMIPC_STATE_TMP_EXITING_ISOLATION
  | MEMIPC_STATE_EXITING_ISOLATION
  | MEMIPC_STATE_LOST_ISOLATION.

Global Instance memipc_thread_state_eq_dec : EqDecision memipc_thread_state.
Proof. solve_decision. Defined.

Global Instance memipc_req_type_eq_dec : EqDecision memipc_req_type.
Proof. solve_decision. Defined.

(** [KTIME_MAX], [((int64_t)~((uint64_t)1 << 63))]. *)
Definition KTIME_MAX : Z := 2 ^ 63 - 1.

(** [enum isol_timer_type] and [struct isol_linux_timer] (without the
    names kept under [DEBUG_ISOL_NAMES]); the [next] links of a list of
    timers are the list. *)
Inductive isol_timer_type : Type :=
  | ISOL_TIMER_HRTIMER
  | ISOL_TIMER_CPUTIMER
  | ISOL_TIMER_BTICKDEV
  | ISOL_TIMER_CPUTICKDEV.

Record isol_linux_timer : Type := IsolLinuxTimer {
  timer_type : isol_timer_type;
  last_updated : Z;
  expires : Z
}.

(** [struct timespec]. *)
Record timespec : Type := Timespec { tv_sec : Z; tv_nsec : Z }.

(** The fields of [struct memipc_thread_params] the launch pass, the
    timer scan and the handler of the text commands read or write.
    [m_memipc_mosi] is the manager's descriptor of the ring to
    the worker and [mosi_cells] the cells of that ring; [counter_ptr] is
    [None] for a null pointer and otherwise holds the pointed-to count. *)
Record memipc_thread_params : Type := ThreadParams {
  cpu : Z;
  state : memipc_thread_state;
  exit_request : Z;
  isol_exit_time : timespec;
  m_memipc_mosi : memipc_area;
  mosi_cells : shmem;
  counter_ptr : option Z;
  timers : list isol_linux_timer;
  lasttimer : Z;
  updatetimer : Z;
  index : Z;
  thread_id : Z;
  pid : Z;
  tid : Z;
  claim_counter : Z;
  isolated : Z;
  memipc_check_signal_ptr : option Z
}.

(** The globals of the manager the pass works on, the number of
    [clock_gettime] calls made so far, and two traces: the requests
    accepted by a worker's ring (worker index and request type, most
    recent first) and the [cmd] arguments of the calls of
    [process_all_threads]. *)
Record manager : Type := Manager {
  memipc_my_pid : Z;
  _global_isolated_threads : list memipc_thread_params;
  _global_isolated_threads_timeout_started : Z;
  _global_isolated_threads_start_time : Z;
  _global_isolated_threads_start_timeout : Z;
  _global_isolated_threads_restart_delay : Z;
  _global_running_cpuset : cpu_set_t;
  last_thread_scan : Z;
  clock_calls : nat;
  sent : list (nat * memipc_req_type);
  sweeps : list Z
}.

Definition ISOL_PROC_LIST_CMD_PUSH_AWAY : Z := 2.

(** State threaded through the launch loop: clock calls, accepted
    requests, [show_running_threads_flag]. *)
Record loop_state : Type := LoopState {
  l_clock : nat;
  l_sent : list (nat * memipc_req_type);
  l_show : bool
}.

(** [memipc_add_req(thread->m_memipc_mosi, ty, 0, NULL) == 0] with the
    counter increment that follows every accepted request. *)
Definition send_req (my_pid : Z) (i : nat) (ty : memipc_req_type)
    (th : memipc_thread_params) (l : loop_state)
    : bool * memipc_thread_params * loop_state :=
  let r := memipc_add_req my_pid (m_memipc_mosi th) (mosi_cells th)
             (req_code ty) 0 [] in
  let th1 := ThreadParams (cpu th) (state th) (exit_request th)
               (isol_exit_time th) r.1.2 r.2 (counter_ptr th)
               (timers th) (lasttimer th) (updatetimer th)
               (index th) (thread_id th) (pid th) (tid th)
               (claim_counter th) (isolated th)
               (memipc_check_signal_ptr th) in
  if r.1.1 =? 0 then
    (true,
     ThreadParams (cpu th1) (state th1) (exit_request th1)
       (isol_exit_time th1) (m_memipc_mosi th1) (mosi_cells th1)
       ((fun c => s32 (c + 1)) <$> counter_ptr th1)
       (timers th1) (lasttimer th1) (updatetimer th1)
       (index th1) (thread_id th1) (pid th1) (tid th1)
       (claim_counter th1) (isolated th1) (memipc_check_signal_ptr th1),
     LoopState (l_clock l) ((i, ty) :: l_sent l) (l_show l))
  else (false, th1, l).

Definition set_state (th : memipc_thread_params) (s : memipc_thread_state)
    : memipc_thread_params :=
  ThreadParams (cpu th) s (exit_request th) (isol_exit_time th)
    (m_memipc_mosi th) (mosi_cells th) (counter_ptr th)
    (timers th) (lasttimer th) (updatetimer th)
    (index th) (thread_id th) (pid th) (tid th)
    (claim_counter th) (isolated th) (memipc_check_signal_ptr th).

Definition set_exit_request (th : memipc_thread_params) (v : Z)
    : memipc_thread_params :=
  ThreadParams (cpu th) (state th) v (isol_exit_time th)
    (m_memipc_mosi th) (mosi_cells th) (counter_ptr th)
    (timers th) (lasttimer th) (updatetimer th)
    (index th) (thread_id th) (pid th) (tid th)
    (claim_counter th) (isolated th) (memipc_check_signal_ptr th).

Definition set_isol_exit_time (th : memipc_thread_params) (ts : timespec)
    : memipc_thread_params :=
  ThreadParams (cpu th) (state th) (exit_request th) ts
    (m_memipc_mosi th) (mosi_cells th) (counter_ptr th)
    (timers th) (lasttimer th) (updatetimer th)
    (index th) (thread_id th) (pid th) (tid th)
    (claim_counter th) (isolated th) (memipc_check_signal_ptr th).

(** "Send exit requests if there are any pending.  This happens
    regardless of state." *)
Definition pending_exit_request (my_pid : Z) (i : nat)
    (th : memipc_thread_params) (l : loop_state)
    : memipc_thread_params * loop_state :=
  if negb (exit_request th =? 0) then
    let '(ok, th1, l1) := send_req my_pid i MEMIPC_REQ_TERMINATE th l in
    if ok then (set_exit_request th1 0, l1) else (th1, l1)
  else (th, l).

(** One turn of the loop under "Should issue the request to launch":
    the pending exit request first, then the switch on the state.  The
    value of [remaining_nsec_before_expiration] is only printed. *)
Definition launch_thread (clock : nat -> timespec) (my_pid : Z)
    (restart_delay : Z) (timers_cpuset running_cpuset : cpu_set_t)
    (i : nat) (th : memipc_thread_params) (l : loop_state)
    : memipc_thread_params * loop_state :=
  let '(th, l) := pending_exit_request my_pid i th l in
  match state th with
  | MEMIPC_STATE_TMP_EXITING_ISOLATION =>
      let ts := clock (l_clock l) in
      let l := LoopState (S (l_clock l)) (l_sent l) (l_show l) in
      if restart_delay <? tv_sec ts - tv_sec (isol_exit_time th) then
        let '(ok, th1, l1) :=
          send_req my_pid i MEMIPC_REQ_START_LAUNCH th l in
        if ok then (set_state th1 MEMIPC_STATE_LAUNCHING, l1)
        else (th1, l1)
      else (th, l)
  | MEMIPC_STATE_READY
  | MEMIPC_STATE_LOST_ISOLATION =>
      let '(ok, th1, l1) :=
        send_req my_pid i MEMIPC_REQ_START_LAUNCH th l in
      if ok then (set_state th1 MEMIPC_STATE_LAUNCHING, l1) else (th1, l1)
  | MEMIPC_STATE_LAUNCHED =>
      let overlap_cpuset := CPU_AND timers_cpuset running_cpuset in
      if CPU_COUNT overlap_cpuset =? 0 then
        let '(ok, th1, l1) :=
          send_req my_pid i MEMIPC_REQ_START_CONFIRMED th l in
        if ok then (set_state th1 MEMIPC_STATE_RUNNING, l1) else (th1, l1)
      else
        let '(th2, l2) :=
          if CPU_ISSET (cpu th) timers_cpuset then
            let '(ok, th1, l1) :=
              send_req my_pid i MEMIPC_REQ_EXIT_ISOLATION th l in
            if ok then
              (set_isol_exit_time
                 (set_state th1 MEMIPC_STATE_TMP_EXITING_ISOLATION)
                 (clock (l_clock l1)),
               LoopState (S (l_clock l1)) (l_sent l1) (l_show l1))
            else (th1, l1)
          else (th, l) in
        (th2, LoopState (l_clock l2) (l_sent l2) true)
  | _ => (th, l)
  end.

(** The loop over [threads[i]], [i] from [i0] on. *)
Fixpoint launch_loop (clock : nat -> timespec) (my_pid : Z)
    (restart_delay : Z) (timers_cpuset running_cpuset : cpu_set_t)
    (i0 : nat) (ths : list memipc_thread_params) (l : loop_state)
    : list memipc_thread_params * loop_state :=
  match ths with
  | [] => ([], l)
  | th :: rest =>
      let '(th', l1) :=
        launch_thread clock my_pid restart_delay timers_cpuset
          running_cpuset i0 th l in
      let '(rest', l2) :=
        launch_loop clock my_pid restart_delay timers_cpuset
          running_cpuset (S i0) rest l1 in
      (th' :: rest', l2)
  end.

Definition counts_needs_start (th : memipc_thread_params) : bool :=
  bool_decide (state th = MEMIPC_STATE_READY)
  || bool_decide (state th = MEMIPC_STATE_LAUNCHED)
  || bool_decide (state th = MEMIPC_STATE_TMP_EXITING_ISOLATION)
  || bool_decide (state th = MEMIPC_STATE_LOST_ISOLATION)
  || negb (exit_request th =? 0).

Definition counts_ready (th : memipc_thread_params) : bool :=
  bool_decide (state th = MEMIPC_STATE_READY)
  || bool_decide (state th = MEMIPC_STATE_TMP_EXITING_ISOLATION)
  || bool_decide (state th = MEMIPC_STATE_EXITING_ISOLATION)
  || bool_decide (state th = MEMIPC_STATE_LOST_ISOLATION)
  || bool_decide (state th = MEMIPC_STATE_LAUNCHING)
  || bool_decide (state th = MEMIPC_STATE_LAUNCHED)
  || bool_decide (state th = MEMIPC_STATE_RUNNING).

(** The counting loop and the two tests that lead to [last_actions]
    without a launch loop: whether the launch loop is run, and the number
    of clock calls made by then. *)
Definition launch_gate (clock : nat -> timespec) (g : manager)
    : bool * nat :=
  let threads := _global_isolated_threads g in
  let threads_count := Z.of_nat (length threads) in
  let needs_start_count :=
    Z.of_nat (length (filter (fun th => counts_needs_start th = true)
                        threads)) in
  let ready_count :=
    Z.of_nat (length (filter (fun th => counts_ready th = true)
                        threads)) in
  if needs_start_count =? 0 then (false, clock_calls g)
  else if ready_count <? threads_count then
    if _global_isolated_threads_timeout_started g =? 0
    then (false, clock_calls g)
    else
      let ts := clock (clock_calls g) in
      if tv_sec ts - _global_isolated_threads_start_time g
         <? _global_isolated_threads_start_timeout g
      then (false, S (clock_calls g))
      else (true, S (clock_calls g))
  else (true, clock_calls g).

(** [memipc_isolation_process_ready_launch(timers_cpuset, now)].
    [clock k] is what the [k]-th call of [clock_gettime(CLOCK_MONOTONIC)]
    returns.  [now] only feeds the printed remaining time. *)
Definition memipc_isolation_process_ready_launch
    (clock : nat -> timespec) (g : manager) (timers_cpuset : cpu_set_t)
    (now : Z) : manager :=
  let gate := launch_gate clock g in
  let '(threads1, l1) :=
    if gate.1 then
      launch_loop clock (memipc_my_pid g)
        (_global_isolated_threads_restart_delay g) timers_cpuset
        (_global_running_cpuset g) 0 (_global_isolated_threads g)
        (LoopState gate.2 (sent g) false)
    else
      (_global_isolated_threads g, LoopState gate.2 (sent g) false) in
  (* last_actions *)
  if l_show l1 then
    Manager (memipc_my_pid g) threads1
      (_global_isolated_threads_timeout_started g)
      (_global_isolated_threads_start_time g)
      (_global_isolated_threads_start_timeout g)
      (_global_isolated_threads_restart_delay g)
      (_global_running_cpuset g) (last_thread_scan g)
      (l_clock l1) (l_sent l1)
      (ISOL_PROC_LIST_CMD_PUSH_AWAY :: sweeps g)
  else
    let ts := clock (l_clock l1) in
    if (last_thread_scan g =? 0) || (3 <? tv_sec ts - last_thread_scan g)
    then
      let ts2 := clock (S (l_clock l1)) in
      Manager (memipc_my_pid g) threads1
        (_global_isolated_threads_timeout_started g)
        (_global_isolated_threads_start_time g)
        (_global_isolated_threads_start_timeout g)
        (_global_isolated_threads_restart_delay g)
        (_global_running_cpuset g)
        (if tv_sec ts2 =? 0 then 1 else tv_sec ts2)
        (S (S (l_clock l1))) (l_sent l1)
        (ISOL_PROC_LIST_CMD_PUSH_AWAY :: sweeps g)
    else
      Manager (memipc_my_pid g) threads1
        (_global_isolated_threads_timeout_started g)
        (_global_isolated_threads_start_time g)
        (_global_isolated_threads_start_timeout g)
        (_global_isolated_threads_restart_delay g)
        (_global_running_cpuset g) (last_thread_scan g)
        (S (l_clock l1)) (l_sent l1) (sweeps g).

(** * The timer scan ([process_all_timers]) *)

(** ** Text *)

(** A C string is the list of its character codes ([unsigned char]
    values); a pointer into it is the rest of the string from there, and
    the terminating NUL is the end of the list (or a 0 in it). *)
Definition chars (s : string) : list Z :=
  (fun a => Z.of_nat (Ascii.nat_of_ascii a))
    <$> String.list_ascii_of_string s.

(** [skip_whitespace(&p)]. *)
Fixpoint skip_whitespace (p : list Z) : list Z :=
  match p with
  | c :: rest =>
      if negb (c =? 0) && (c <=? 32) then skip_whitespace rest else p
  | [] => []
  end.

(** [find_endtoken(p)]. *)
Fixpoint find_endtoken (p : list Z) : list Z :=
  match p with
  | c :: rest =>
      if negb (c =? 0) && (32 <? c) then find_endtoken rest else p
  | [] => []
  end.

(** [end - start] for [end] a pointer further into the string [start]. *)
Definition ptr_diff (e p : list Z) : Z :=
  Z.of_nat (length p) - Z.of_nat (length e).

(** [strncmp(a, b, n)]; only its being 0 is used. *)
Fixpoint strncmp (a b : list Z) (n : nat) : Z :=
  match n with
  | O => 0
  | S n' =>
      let ca := hd 0 a in
      let cb := hd 0 b in
      if ca =? cb then
        if ca =? 0 then 0 else strncmp (tl a) (tl b) n'
      else ca - cb
  end.

(** [strchr(p, c)] for a [c] other than NUL. *)
Fixpoint strchr (p : list Z) (c : Z) : option (list Z) :=
  match p with
  | x :: rest =>
      if x =? 0 then None
      else if x =? c then Some p else strchr rest c
  | [] => None
  end.

(** [skip_word(&p, word)]: [Some] of the new [*p] when it returns 0. *)
Definition skip_word (p : list Z) (word : string) : option (list Z) :=
  let curr := skip_whitespace p in
  let e := find_endtoken curr in
  if (ptr_diff e curr =? Z.of_nat (length (chars word)))
     && (strncmp curr (chars word) (Z.to_nat (ptr_diff e curr)) =? 0)
  then Some (skip_whitespace e)
  else None.

(** [unhex(c)]. *)
Definition unhex (c : Z) : Z :=
  if (48 <=? c) && (c <=? 57) then c - 48
  else if (97 <=? c) && (c <=? 102) then c - 97 + 10
  else if (65 <=? c) && (c <=? 70) then c - 65 + 10
  else 0.

(** The conversions of [sscanf]: white space, an optional sign, decimal
    digits.  [None] stands for a return value other than 1. *)
Definition isspace (c : Z) : bool :=
  (c =? 32) || ((9 <=? c) && (c <=? 13)).

Fixpoint skip_isspace (s : list Z) : list Z :=
  match s with
  | c :: rest => if isspace c then skip_isspace rest else s
  | [] => []
  end.

Definition isdigit (c : Z) : bool := (48 <=? c) && (c <=? 57).

Fixpoint digits_value (acc : Z) (s : list Z) : Z :=
  match s with
  | c :: rest =>
      if isdigit c then digits_value (acc * 10 + (c - 48)) rest else acc
  | [] => acc
  end.

Definition scan_integer (s : list Z) : option Z :=
  let s := skip_isspace s in
  let '(neg, s) :=
    match s with
    | 45 :: rest => (true, rest)
    | 43 :: rest => (false, rest)
    | _ => (false, s)
    end in
  if isdigit (hd 0 s) then
    Some (if neg then - digits_value 0 s else digits_value 0 s)
  else None.

(** [sscanf(s, "%lu", (uint64_t * )&x) == 1] and the [int64_t] then
    found in [x]; a number out of range is read as [ULONG_MAX]. *)
Definition sscanf_lu (s : list Z) : option Z :=
  (fun v => s64 (if 2 ^ 64 <=? Z.abs v then 2 ^ 64 - 1 else v mod 2 ^ 64))
    <$> scan_integer s.

(** [sscanf(s, "%d", &x) == 1] and the [int] then found in [x]; a
    number out of the range of [long] is read as its nearest bound. *)
Definition sscanf_d (s : list Z) : option Z :=
  (fun v => s32 (Z.max (- 2 ^ 63) (Z.min (2 ^ 63 - 1) v)))
    <$> scan_integer s.

(** ** Sets of CPUs read from the feed *)

Definition CPU_SETSIZE : Z := 1024.

(** [CPU_SET(c, set)]: nothing for a [c] outside the set's range. *)
Definition CPU_SET (c : Z) (s : cpu_set_t) : cpu_set_t :=
  if (0 <=? c) && (c <? CPU_SETSIZE) then {[c]} ∪ s else s.

(** The run of hexadecimal digits at the head of [p]. *)
Fixpoint hex_run (p : list Z) : list Z :=
  match p with
  | c :: rest =>
      if ((48 <=? c) && (c <=? 57)) || ((65 <=? c) && (c <=? 70))
         || ((97 <=? c) && (c <=? 102))
      then c :: hex_run rest else []
  | [] => []
  end.

(** The loop of [get_cpuset] over the digits, last digit first; [i] is
    the index of the digit at the head of [rev_digits]. *)
Fixpoint get_cpuset_loop (rev_digits : list Z) (i cpus_in_set : Z)
    (acc : Z * cpu_set_t) : Z * cpu_set_t :=
  match rev_digits with
  | [] => acc
  | d :: rest =>
      let val := unhex d in
      let bit (k : Z) (a : Z * cpu_set_t) : Z * cpu_set_t :=
        if negb (Z.land val (2 ^ k) =? 0) && (i * 4 + k <? cpus_in_set)
        then (a.1 + 1, CPU_SET (i * 4 + k) a.2) else a in
      get_cpuset_loop rest (i + 1) cpus_in_set
        (bit 3 (bit 2 (bit 1 (bit 0 acc))))
  end.

(** [get_cpuset(s, cpuset)]: the count it returns and the set. *)
Definition get_cpuset (s : list Z) : Z * cpu_set_t :=
  let start := skip_whitespace s in
  let digits := hex_run start in
  let n := Z.of_nat (length digits) * 4 in
  let cpus_in_set := if CPU_SETSIZE <? n then CPU_SETSIZE else n in
  get_cpuset_loop (rev digits) 0 cpus_in_set (0, ∅).

(** ** Timers of the workers *)

Definition set_timers (th : memipc_thread_params)
    (ts : list isol_linux_timer) (last upd : Z) : memipc_thread_params :=
  ThreadParams (cpu th) (state th) (exit_request th) (isol_exit_time th)
    (m_memipc_mosi th) (mosi_cells th) (counter_ptr th) ts last upd
    (index th) (thread_id th) (pid th) (tid th)
    (claim_counter th) (isolated th) (memipc_check_signal_ptr th).

(** [cpu_update_timer(timer_type, c, expire, now)]: its return value and
    the worker table. *)
Fixpoint cpu_update_timer (threads : list memipc_thread_params)
    (c expire now : Z) : Z * list memipc_thread_params :=
  match threads with
  | [] => (0, [])
  | th :: rest =>
      if c =? cpu th then
        let last :=
          if lasttimer th =? KTIME_MAX then expire
          else if s64 (lasttimer th - now) <? 0 then KTIME_MAX
          else if s64 (lasttimer th - expire) <? 0 then expire
          else lasttimer th in
        (1, set_timers th (timers th) last now :: rest)
      else
        let r := cpu_update_timer rest c expire now in
        (r.1, th :: r.2)
  end.

(** [memipc_add_timer_to_desc(c, timer_type, last_updated, expires)],
    with [malloc] succeeding. *)
Fixpoint memipc_add_timer_to_desc (threads : list memipc_thread_params)
    (c : Z) (ty : isol_timer_type) (upd exp : Z)
    : list memipc_thread_params :=
  match threads with
  | [] => []
  | th :: rest =>
      if cpu th =? c then
        set_timers th (IsolLinuxTimer ty upd exp :: timers th)
          (lasttimer th) (updatetimer th) :: rest
      else th :: memipc_add_timer_to_desc rest c ty upd exp
  end.

(** [memipc_remove_timers_from_all_desc()]. *)
Definition memipc_remove_timers_from_all_desc
    (threads : list memipc_thread_params) : list memipc_thread_params :=
  (fun th => set_timers th [] (lasttimer th) (updatetimer th)) <$> threads.

(** [cpu_remove_expired_timers(now)]. *)
Definition cpu_remove_expired_timers
    (threads : list memipc_thread_params) (now : Z)
    : list memipc_thread_params :=
  (fun th =>
     if negb (lasttimer th =? KTIME_MAX) && (s64 (lasttimer th - now) <? 0)
     then set_timers th (timers th) KTIME_MAX now else th) <$> threads.

(** ** The lines of a high-resolution timer *)

(** [hrtimer_parse_line_1(s, &count, &state)]: [Some (count, state)]
    when it returns 0. *)
Definition hrtimer_parse_line_1 (s : list Z) : option (Z * Z) :=
  let p := skip_whitespace s in
  match strchr p 58 with
  | None => None
  | Some e =>
      match sscanf_d p with
      | None => None
      | Some a_count =>
          let p := skip_whitespace (tl e) in
          match strchr p 44 with
          | None => None
          | Some e =>
              let p := skip_whitespace (tl e) in
              match strchr p 44 with
              | None => None
              | Some e =>
                  let p := skip_whitespace (tl e) in
                  let a_state :=
                    if negb (hd 0 p =? 83) || negb (hd 0 (tl p) =? 58)
                    then 1
                    else default 1 (sscanf_d (tl (tl p))) in
                  Some (a_count, a_state)
              end
          end
      end
  end.

(** [hrtimer_parse_line_2(s, &softexp, &exp)]: [Some (softexp, exp)]
    when it returns 0. *)
Definition hrtimer_parse_line_2 (s : list Z) : option (Z * Z) :=
  match skip_word s "expires" with
  | None => None
  | Some p =>
      match skip_word p "at" with
      | None => None
      | Some p =>
          match strchr p 45 with
          | None => None
          | Some e =>
              match sscanf_lu p, sscanf_lu (tl e) with
              | Some a_softexp, Some a_exp => Some (a_softexp, a_exp)
              | _, _ => None
              end
          end
      end
  end.

(** ** The scan *)

Inductive timer_parser_state : Type :=
  | T_PARS_START
  | T_PARS_CPU_LIST
  | T_PARS_CPU
  | T_PARS_ACT
  | T_PARS_ACT_PROCESSING
  | T_PARS_TDEV
  | T_PARS_TDEV_BCAST
  | T_PARS_TDEV_CPU.

Inductive timer_token : Type :=
  | T_TOKEN_NOW
  | T_TOKEN_CPU
  | T_TOKEN_ACTIVE
  | T_TOKEN_EXPIRES_NEXT
  | T_TOKEN_TICK
  | T_TOKEN_BCAST
  | T_TOKEN_PER
  | T_TOKEN_MODE
  | T_TOKEN_NEXT_EVENT
  | T_TOKEN_BCAST_MASK
  | T_TOKEN_BCAST_ONESHOT_MASK
  | T_TOKEN_NONE.

Global Instance timer_parser_state_eq_dec : EqDecision timer_parser_state.
Proof. solve_decision. Defined.

Global Instance timer_token_eq_dec : EqDecision timer_token.
Proof. solve_decision. Defined.

(** [token_timers_list] with [token_timers_list_len]. *)
Definition token_timers_list : list (timer_token * string * Z) :=
  [ (T_TOKEN_NOW, "now", 3);
    (T_TOKEN_CPU, "cpu:", 4);
    (T_TOKEN_ACTIVE, "active", 6);
    (T_TOKEN_EXPIRES_NEXT, ".expires_next", 13);
    (T_TOKEN_TICK, "Tick", 4);
    (T_TOKEN_BCAST, "Broadcast", 9);
    (T_TOKEN_PER, "Per", 3);
    (T_TOKEN_MODE, "mode:", 5);
    (T_TOKEN_NEXT_EVENT, "next_event:", 11);
    (T_TOKEN_BCAST_MASK, "tick_broadcast_mask:", 20);
    (T_TOKEN_BCAST_ONESHOT_MASK, "tick_broadcast_oneshot_mask:", 28) ]%string.

(** The loop that looks the token [p .. e] up in the table. *)
Fixpoint find_token (table : list (timer_token * string * Z))
    (p e : list Z) : timer_token :=
  match table with
  | [] => T_TOKEN_NONE
  | (tok, word, len) :: rest =>
      if (ptr_diff e p =? len)
         && (strncmp p (chars word) (Z.to_nat (ptr_diff e p)) =? 0)
      then tok else find_token rest p e
  end.

Definition HRTIMER_STATE_INACTIVE : Z := 0.
Definition CLOCK_EVT_STATE_PERIODIC : Z := 2.
Definition CLOCK_EVT_STATE_ONESHOT : Z := 3.
Definition TICK_DEV_KNOWN_NONE : Z := 0.
Definition TICK_DEV_KNOWN_CPU : Z := 1.
Definition TICK_DEV_KNOWN_STATE : Z := 2.
Definition TICK_DEV_KNOWN_NEXT_EVENT : Z := 4.
Definition TICK_DEV_KNOWN_BCAST_SET : Z := 8.
Definition TICK_DEV_KNOWN_BCAST_OS_SET : Z := 16.

(** The locals of [process_all_timers] that live across lines, the set
    behind its [cpuset] argument, and the worker table
    ([scan_threads], the global [_global_isolated_threads]). *)
Record timer_scan : Type := TimerScan {
  parser_state : timer_parser_state;
  now_at : Z;
  expires_next : Z;
  hrtimer_softexp : Z;
  hrtimer_exp : Z;
  tick_dev_next_event : Z;
  curr_cpu : Z;
  tick_dev_cpu : Z;
  hrtimer_parse_err : Z;
  hrtimer_count : Z;
  hrtimer_state : Z;
  tick_dev_mode : Z;
  tick_dev_state : Z;
  tick_dev_known : Z;
  tick_dev_cpuset : cpu_set_t;
  tick_dev_os_cpuset : cpu_set_t;
  cpuset : cpu_set_t;
  scan_threads : list memipc_thread_params
}.

Definition with_parser_state (v : timer_parser_state) (s : timer_scan)
    : timer_scan :=
  TimerScan v (now_at s) (expires_next s) (hrtimer_softexp s)
    (hrtimer_exp s) (tick_dev_next_event s) (curr_cpu s) (tick_dev_cpu s)
    (hrtimer_parse_err s) (hrtimer_count s) (hrtimer_state s)
    (tick_dev_mode s) (tick_dev_state s) (tick_dev_known s)
    (tick_dev_cpuset s) (tick_dev_os_cpuset s) (cpuset s) (scan_threads s).

Definition with_now_at (v : Z) (s : timer_scan)
    : timer_scan :=
  TimerScan (parser_state s) v (expires_next s) (hrtimer_softexp s)
    (hrtimer_exp s) (tick_dev_next_event s) (curr_cpu s) (tick_dev_cpu s)
    (hrtimer_parse_err s) (hrtimer_count s) (hrtimer_state s)
    (tick_dev_mode s) (tick_dev_state s) (tick_dev_known s)
    (tick_dev_cpuset s) (tick_dev_os_cpuset s) (cpuset s) (scan_threads s).

Definition with_expires_next (v : Z) (s : timer_scan)
    : timer_scan :=
  TimerScan (parser_state s) (now_at s) v (hrtimer_softexp s)
    (hrtimer_exp s) (tick_dev_next_event s) (curr_cpu s) (tick_dev_cpu s)
    (hrtimer_parse_err s) (hrtimer_count s) (hrtimer_state s)
    (tick_dev_mode s) (tick_dev_state s) (tick_dev_known s)
    (tick_dev_cpuset s) (tick_dev_os_cpuset s) (cpuset s) (scan_threads s).

Definition with_hrtimer_softexp (v : Z) (s : timer_scan)
    : timer_scan :=
  TimerScan (parser_state s) (now_at s) (expires_next s) v (hrtimer_exp s)
    (tick_dev_next_event s) (curr_cpu s) (tick_dev_cpu s)
    (hrtimer_parse_err s) (hrtimer_count s) (hrtimer_state s)
    (tick_dev_mode s) (tick_dev_state s) (tick_dev_known s)
    (tick_dev_cpuset s) (tick_dev_os_cpuset s) (cpuset s) (scan_threads s).

Definition with_hrtimer_exp (v : Z) (s : timer_scan)
    : timer_scan :=
  TimerScan (parser_state s) (now_at s) (expires_next s) (hrtimer_softexp s)
    v (tick_dev_next_event s) (curr_cpu s) (tick_dev_cpu s)
    (hrtimer_parse_err s) (hrtimer_count s) (hrtimer_state s)
    (tick_dev_mode s) (tick_dev_state s) (tick_dev_known s)
    (tick_dev_cpuset s) (tick_dev_os_cpuset s) (cpuset s) (scan_threads s).

Definition with_tick_dev_next_event (v : Z) (s : timer_scan)
    : timer_scan :=
  TimerScan (parser_state s) (now_at s) (expires_next s) (hrtimer_softexp s)
    (hrtimer_exp s) v (curr_cpu s) (tick_dev_cpu s) (hrtimer_parse_err s)
    (hrtimer_count s) (hrtimer_state s) (tick_dev_mode s) (tick_dev_state s)
    (tick_dev_known s) (tick_dev_cpuset s) (tick_dev_os_cpuset s) (cpuset s)
    (scan_threads s).

Definition with_curr_cpu (v : Z) (s : timer_scan)
    : timer_scan :=
  TimerScan (parser_state s) (now_at s) (expires_next s) (hrtimer_softexp s)
    (hrtimer_exp s) (tick_dev_next_event s) v (tick_dev_cpu s)
    (hrtimer_parse_err s) (hrtimer_count s) (hrtimer_state s)
    (tick_dev_mode s) (tick_dev_state s) (tick_dev_known s)
    (tick_dev_cpuset s) (tick_dev_os_cpuset s) (cpuset s) (scan_threads s).

Definition with_tick_dev_cpu (v : Z) (s : timer_scan)
    : timer_scan :=
  TimerScan (parser_state s) (now_at s) (expires_next s) (hrtimer_softexp s)
    (hrtimer_exp s) (tick_dev_next_event s) (curr_cpu s) v
    (hrtimer_parse_err s) (hrtimer_count s) (hrtimer_state s)
    (tick_dev_mode s) (tick_dev_state s) (tick_dev_known s)
    (tick_dev_cpuset s) (tick_dev_os_cpuset s) (cpuset s) (scan_threads s).

Definition with_hrtimer_parse_err (v : Z) (s : timer_scan)
    : timer_scan :=
  TimerScan (parser_state s) (now_at s) (expires_next s) (hrtimer_softexp s)
    (hrtimer_exp s) (tick_dev_next_event s) (curr_cpu s) (tick_dev_cpu s) v
    (hrtimer_count s) (hrtimer_state s) (tick_dev_mode s) (tick_dev_state s)
    (tick_dev_known s) (tick_dev_cpuset s) (tick_dev_os_cpuset s) (cpuset s)
    (scan_threads s).

Definition with_hrtimer_count (v : Z) (s : timer_scan)
    : timer_scan :=
  TimerScan (parser_state s) (now_at s) (expires_next s) (hrtimer_softexp s)
    (hrtimer_exp s) (tick_dev_next_event s) (curr_cpu s) (tick_dev_cpu s)
    (hrtimer_parse_err s) v (hrtimer_state s) (tick_dev_mode s)
    (tick_dev_state s) (tick_dev_known s) (tick_dev_cpuset s)
    (tick_dev_os_cpuset s) (cpuset s) (scan_threads s).

Definition with_hrtimer_state (v : Z) (s : timer_scan)
    : timer_scan :=
  TimerScan (parser_state s) (now_at s) (expires_next s) (hrtimer_softexp s)
    (hrtimer_exp s) (tick_dev_next_event s) (curr_cpu s) (tick_dev_cpu s)
    (hrtimer_parse_err s) (hrtimer_count s) v (tick_dev_mode s)
    (tick_dev_state s) (tick_dev_known s) (tick_dev_cpuset s)
    (tick_dev_os_cpuset s) (cpuset s) (scan_threads s).

Definition with_tick_dev_mode (v : Z) (s : timer_scan)
    : timer_scan :=
  TimerScan (parser_state s) (now_at s) (expires_next s) (hrtimer_softexp s)
    (hrtimer_exp s) (tick_dev_next_event s) (curr_cpu s) (tick_dev_cpu s)
    (hrtimer_parse_err s) (hrtimer_count s) (hrtimer_state s) v
    (tick_dev_state s) (tick_dev_known s) (tick_dev_cpuset s)
    (tick_dev_os_cpuset s) (cpuset s) (scan_threads s).

Definition with_tick_dev_state (v : Z) (s : timer_scan)
    : timer_scan :=
  TimerScan (parser_state s) (now_at s) (expires_next s) (hrtimer_softexp s)
    (hrtimer_exp s) (tick_dev_next_event s) (curr_cpu s) (tick_dev_cpu s)
    (hrtimer_parse_err s) (hrtimer_count s) (hrtimer_state s)
    (tick_dev_mode s) v (tick_dev_known s) (tick_dev_cpuset s)
    (tick_dev_os_cpuset s) (cpuset s) (scan_threads s).

Definition with_tick_dev_known (v : Z) (s : timer_scan)
    : timer_scan :=
  TimerScan (parser_state s) (now_at s) (expires_next s) (hrtimer_softexp s)
    (hrtimer_exp s) (tick_dev_next_event s) (curr_cpu s) (tick_dev_cpu s)
    (hrtimer_parse_err s) (hrtimer_count s) (hrtimer_state s)
    (tick_dev_mode s) (tick_dev_state s) v (tick_dev_cpuset s)
    (tick_dev_os_cpuset s) (cpuset s) (scan_threads s).

Definition with_tick_dev_cpuset (v : cpu_set_t) (s : timer_scan)
    : timer_scan :=
  TimerScan (parser_state s) (now_at s) (expires_next s) (hrtimer_softexp s)
    (hrtimer_exp s) (tick_dev_next_event s) (curr_cpu s) (tick_dev_cpu s)
    (hrtimer_parse_err s) (hrtimer_count s) (hrtimer_state s)
    (tick_dev_mode s) (tick_dev_state s) (tick_dev_known s) v
    (tick_dev_os_cpuset s) (cpuset s) (scan_threads s).

Definition with_tick_dev_os_cpuset (v : cpu_set_t) (s : timer_scan)
    : timer_scan :=
  TimerScan (parser_state s) (now_at s) (expires_next s) (hrtimer_softexp s)
    (hrtimer_exp s) (tick_dev_next_event s) (curr_cpu s) (tick_dev_cpu s)
    (hrtimer_parse_err s) (hrtimer_count s) (hrtimer_state s)
    (tick_dev_mode s) (tick_dev_state s) (tick_dev_known s)
    (tick_dev_cpuset s) v (cpuset s) (scan_threads s).

Definition with_cpuset (v : cpu_set_t) (s : timer_scan)
    : timer_scan :=
  TimerScan (parser_state s) (now_at s) (expires_next s) (hrtimer_softexp s)
    (hrtimer_exp s) (tick_dev_next_event s) (curr_cpu s) (tick_dev_cpu s)
    (hrtimer_parse_err s) (hrtimer_count s) (hrtimer_state s)
    (tick_dev_mode s) (tick_dev_state s) (tick_dev_known s)
    (tick_dev_cpuset s) (tick_dev_os_cpuset s) v (scan_threads s).

Definition with_scan_threads (v : list memipc_thread_params) (s : timer_scan)
    : timer_scan :=
  TimerScan (parser_state s) (now_at s) (expires_next s) (hrtimer_softexp s)
    (hrtimer_exp s) (tick_dev_next_event s) (curr_cpu s) (tick_dev_cpu s)
    (hrtimer_parse_err s) (hrtimer_count s) (hrtimer_state s)
    (tick_dev_mode s) (tick_dev_state s) (tick_dev_known s)
    (tick_dev_cpuset s) (tick_dev_os_cpuset s) (cpuset s) v.

(** [if (cpu_update_timer(type, c, expire, now_at)) CPU_SET(c, cpuset);] *)
Definition update_and_mark (c expire : Z) (s : timer_scan) : timer_scan :=
  let r := cpu_update_timer (scan_threads s) c expire (now_at s) in
  let s := with_scan_threads r.2 s in
  if negb (r.1 =? 0) then with_cpuset (CPU_SET c (cpuset s)) s else s.

(** The lines that start with '#': the two lines of a high-resolution
    timer. *)
Definition timer_hash_line (s : timer_scan) (p : list Z) : timer_scan :=
  match parser_state s with
  | T_PARS_ACT =>
      let s := with_parser_state T_PARS_ACT_PROCESSING s in
      match hrtimer_parse_line_1 (tl p) with
      | Some (a_count, a_state) =>
          with_hrtimer_parse_err 0
            (with_hrtimer_state a_state (with_hrtimer_count a_count s))
      | None => with_hrtimer_parse_err (-1) s
      end
  | T_PARS_ACT_PROCESSING =>
      let s := with_parser_state T_PARS_ACT s in
      let s :=
        match hrtimer_parse_line_2 (tl p) with
        | Some (a_softexp, a_exp) =>
            with_hrtimer_parse_err (Z.lor (hrtimer_parse_err s) 0)
              (with_hrtimer_exp a_exp (with_hrtimer_softexp a_softexp s))
        | None =>
            with_hrtimer_parse_err (Z.lor (hrtimer_parse_err s) (-1)) s
        end in
      if (hrtimer_parse_err s =? 0)
         && negb (hrtimer_state s =? HRTIMER_STATE_INACTIVE)
         && (negb (hrtimer_exp s =? KTIME_MAX)
             || negb (hrtimer_softexp s =? KTIME_MAX))
      then
        let s := update_and_mark (curr_cpu s) (hrtimer_exp s) s in
        with_scan_threads
          (memipc_add_timer_to_desc (scan_threads s) (curr_cpu s)
             ISOL_TIMER_HRTIMER (now_at s) (hrtimer_exp s)) s
      else s
  | _ => s
  end.

Definition in_states (s : timer_scan) (l : list timer_parser_state)
    : bool :=
  bool_decide (parser_state s ∈ l).

(** The switch on the token at the head of a line; [e] points past it. *)
Definition timer_token_line (s : timer_scan) (token : timer_token)
    (e : list Z) : timer_scan :=
  match token with
  | T_TOKEN_NOW =>
      if in_states s [T_PARS_START] then
        match skip_word e "at" with
        | Some e =>
            match sscanf_lu e with
            | Some v => with_parser_state T_PARS_CPU_LIST (with_now_at v s)
            | None => s
            end
        | None => s
        end
      else s
  | T_TOKEN_CPU =>
      if in_states s [T_PARS_CPU_LIST; T_PARS_CPU; T_PARS_ACT] then
        match sscanf_d e with
        | Some v =>
            with_expires_next KTIME_MAX
              (with_parser_state T_PARS_CPU (with_curr_cpu v s))
        | None => s
        end
      else s
  | T_TOKEN_ACTIVE =>
      match skip_word e "timers:" with
      | Some _ =>
          if in_states s [T_PARS_CPU] then with_parser_state T_PARS_ACT s
          else s
      | None => s
      end
  | T_TOKEN_EXPIRES_NEXT =>
      if in_states s [T_PARS_CPU; T_PARS_ACT] then
        match skip_word e ":" with
        | Some e =>
            match sscanf_lu e with
            | Some v =>
                let s :=
                  with_parser_state T_PARS_CPU_LIST
                    (with_expires_next v s) in
                if negb (expires_next s =? KTIME_MAX)
                then update_and_mark (curr_cpu s) (expires_next s) s
                else s
            | None => s
            end
        | None => s
        end
      else s
  | T_TOKEN_TICK =>
      if in_states s [T_PARS_CPU_LIST; T_PARS_CPU; T_PARS_ACT; T_PARS_TDEV;
                      T_PARS_TDEV_BCAST; T_PARS_TDEV_CPU] then
        match skip_word e "Device:" with
        | Some e =>
            match skip_word e "mode:" with
            | Some e =>
                match sscanf_d e with
                | Some v =>
                    with_parser_state T_PARS_TDEV (with_tick_dev_mode v s)
                | None => s
                end
            | None => s
            end
        | None => s
        end
      else s
  | T_TOKEN_BCAST =>
      if in_states s [T_PARS_TDEV] then
        match skip_word e "device" with
        | Some _ =>
            with_tick_dev_known TICK_DEV_KNOWN_NONE
              (with_parser_state T_PARS_TDEV_BCAST s)
        | None => s
        end
      else s
  | T_TOKEN_PER =>
      if in_states s [T_PARS_TDEV] then
        match skip_word e "CPU" with
        | Some e =>
            match skip_word e "device:" with
            | Some e =>
                match sscanf_d e with
                | Some v =>
                    with_tick_dev_known TICK_DEV_KNOWN_CPU
                      (with_parser_state T_PARS_TDEV_CPU
                         (with_tick_dev_cpu v s))
                | None => s
                end
            | None => s
            end
        | None => s
        end
      else s
  | T_TOKEN_MODE =>
      if in_states s [T_PARS_TDEV_BCAST; T_PARS_TDEV_CPU] then
        match sscanf_d e with
        | Some v =>
            with_tick_dev_known
              (Z.lor (tick_dev_known s) TICK_DEV_KNOWN_STATE)
              (with_tick_dev_state v s)
        | None => s
        end
      else s
  | T_TOKEN_NEXT_EVENT =>
      if in_states s [T_PARS_TDEV_BCAST; T_PARS_TDEV_CPU] then
        match sscanf_lu e with
        | Some v =>
            with_tick_dev_known
              (Z.lor (tick_dev_known s) TICK_DEV_KNOWN_NEXT_EVENT)
              (with_tick_dev_next_event v s)
        | None => s
        end
      else s
  | T_TOKEN_BCAST_MASK =>
      if in_states s [T_PARS_TDEV_BCAST] then
        with_tick_dev_known
          (Z.lor (tick_dev_known s) TICK_DEV_KNOWN_BCAST_SET)
          (with_tick_dev_cpuset (get_cpuset e).2 s)
      else s
  | T_TOKEN_BCAST_ONESHOT_MASK =>
      if in_states s [T_PARS_TDEV_BCAST] then
        with_tick_dev_known
          (Z.lor (tick_dev_known s) TICK_DEV_KNOWN_BCAST_OS_SET)
          (with_tick_dev_os_cpuset (get_cpuset e).2 s)
      else s
  | T_TOKEN_NONE => s
  end.

Definition tick_dev_running (s : timer_scan) : bool :=
  ((tick_dev_state s =? CLOCK_EVT_STATE_PERIODIC)
   || (tick_dev_state s =? CLOCK_EVT_STATE_ONESHOT))
  && negb (tick_dev_next_event s =? KTIME_MAX).

(** The loop over [cpunum] for a broadcast device. *)
Fixpoint tick_bcast_loop (cpunums : list Z) (s : timer_scan) : timer_scan :=
  match cpunums with
  | [] => s
  | cpunum :: rest =>
      let s :=
        if CPU_ISSET cpunum (tick_dev_cpuset s)
           || CPU_ISSET cpunum (tick_dev_os_cpuset s)
        then update_and_mark cpunum (tick_dev_next_event s) s
        else s in
      tick_bcast_loop rest s
  end.

(** The switch on the parser state that ends the handling of a line. *)
Definition timer_tick_dev (s : timer_scan) : timer_scan :=
  match parser_state s with
  | T_PARS_TDEV_CPU =>
      let all := Z.lor (Z.lor TICK_DEV_KNOWN_CPU TICK_DEV_KNOWN_STATE)
                   TICK_DEV_KNOWN_NEXT_EVENT in
      if (Z.land (tick_dev_known s) all =? all) && tick_dev_running s
      then
        with_tick_dev_known TICK_DEV_KNOWN_NONE
          (update_and_mark (tick_dev_cpu s) (tick_dev_next_event s) s)
      else s
  | T_PARS_TDEV_BCAST =>
      let all := Z.lor (Z.lor (Z.lor TICK_DEV_KNOWN_STATE
                                 TICK_DEV_KNOWN_NEXT_EVENT)
                          TICK_DEV_KNOWN_BCAST_SET)
                   TICK_DEV_KNOWN_BCAST_OS_SET in
      if Z.land (tick_dev_known s) all =? all then
        let s :=
          if tick_dev_running s
             && (negb (CPU_COUNT (tick_dev_cpuset s) =? 0)
                 || negb (CPU_COUNT (tick_dev_os_cpuset s) =? 0))
          then tick_bcast_loop
                 (Z.of_nat <$> seq 0 (Z.to_nat CPU_SETSIZE)) s
          else s in
        with_tick_dev_known TICK_DEV_KNOWN_NONE s
      else s
  | _ => s
  end.

(** The body of the [while (fgets(stringbuf, ...))] loop. *)
Definition timer_line (s : timer_scan) (stringbuf : list Z) : timer_scan :=
  let p := skip_whitespace stringbuf in
  let e := find_endtoken p in
  if ptr_diff e p =? 0 then s
  else
    let s :=
      if hd 0 p =? 35 then timer_hash_line s p
      else timer_token_line s (find_token token_timers_list p e) e in
    timer_tick_dev s.

(** [process_all_timers(cpuset, now)].  [feed] is [None] when
    [/proc/timer_list] cannot be opened and otherwise the strings that
    the calls of [fgets] give; [cpuset0] and [now0] are what the caller
    had in [*cpuset] and [*now].  The result is the return value, the
    two out-parameters, and the worker table. *)
Definition process_all_timers (feed : option (list (list Z)))
    (threads : list memipc_thread_params) (cpuset0 : cpu_set_t) (now0 : Z)
    : Z * cpu_set_t * Z * list memipc_thread_params :=
  match feed with
  | None => (-1, cpuset0, now0, threads)
  | Some lines =>
      let s0 :=
        TimerScan T_PARS_START KTIME_MAX KTIME_MAX KTIME_MAX KTIME_MAX
          KTIME_MAX (-1) (-1) 0 0 0 0 0 TICK_DEV_KNOWN_NONE ∅ ∅ ∅
          (memipc_remove_timers_from_all_desc threads) in
      let s := foldl timer_line s0 lines in
      if negb (now_at s =? KTIME_MAX) then
        (0, cpuset s, now_at s,
         cpu_remove_expired_timers (scan_threads s) (now_at s))
      else (0, cpuset s, now0, scan_threads s)
  end.

(** * The sweep of the process table ([process_all_threads]) *)

Module ProcTable.

(** [struct foreign_thread_desc]: the fields the push-away block reads.
    [isolated_thread] is [None] for a null pointer and otherwise the
    index of the managed thread it points to. *)
Record foreign_thread_desc : Type := ForeignThreadDesc {
  pid : Z;
  tid : Z;
  isolated_thread : option nat;
  cpus_allowed : cpu_set_t;
  cpu : Z
}.

(** A call [sched_setaffinity(tid, sizeof(cpu_set_t), &mask)]. *)
Record affinity_call : Type := AffinityCall {
  call_tid : Z;
  call_mask : cpu_set_t
}.

(** One turn of the loop over [proctable[i]] under
    [if (cmd & ISOL_PROC_LIST_CMD_PUSH_AWAY)]; [calls] are the calls of
    [sched_setaffinity] made so far, in order. *)
Definition push_away_entry (my_pid : Z)
    (_global_isol_cpuset _global_nonisol_cpuset : cpu_set_t)
    (e : foreign_thread_desc) (calls : list affinity_call)
    : list affinity_call :=
  if bool_decide (isolated_thread e = None)
     && (negb (pid e =? my_pid) || (tid e =? my_pid))
     && (1 <? CPU_COUNT (cpus_allowed e))
  then
    let overlap_cpuset := CPU_AND (cpus_allowed e) _global_isol_cpuset in
    if negb (CPU_COUNT overlap_cpuset =? 0) then
      let schedule_cpuset := CPU_XOR (cpus_allowed e) overlap_cpuset in
      let schedule_cpuset :=
        if CPU_COUNT schedule_cpuset =? 0
        then CPU_OR schedule_cpuset _global_nonisol_cpuset
        else schedule_cpuset in
      calls ++ [AffinityCall (tid e) schedule_cpuset]
    else calls
  else calls.

(** [process_all_threads(cpuset, cmd)] from [cleanup_threads()] on:
    [proctable] is the table as the scan of [/proc] left it, [my_pid]
    what [getpid()] returns.  The result is the calls of
    [sched_setaffinity], in order. *)
Definition process_all_threads (my_pid : Z)
    (_global_isol_cpuset _global_nonisol_cpuset : cpu_set_t)
    (proctable : list foreign_thread_desc) (cmd : Z)
    : list affinity_call :=
  if negb (Z.land cmd ISOL_PROC_LIST_CMD_PUSH_AWAY =? 0) then
    foldl (fun calls e =>
             push_away_entry my_pid _global_isol_cpuset
               _global_nonisol_cpuset e calls)
      [] proctable
  else [].

End ProcTable.

(** * The handler of the text commands ([client_text_handler]) *)

(** [struct client_desc]: its flags and its task, [None] for a null
    pointer and otherwise the index of the managed thread; instead of
    the buffers, [output] holds the bytes handed to [send_data_persist]
    and [send_tx_persist] for the client, in order. *)
Record client_desc : Type := ClientDesc {
  flags : Z;
  task : option nat;
  output : list Z
}.

Definition CLIENT_FLAG_CLOSE : Z := 2.

(** What the handler works on: the clients, the managed threads, the set
    of running CPUs and the value of [getpid()]. *)
Record server : Type := Server {
  isol_server_clients : list client_desc;
  server_threads : list memipc_thread_params;
  server_running_cpuset : cpu_set_t;
  server_pid : Z
}.

Definition with_clients (cs : list client_desc) (s : server) : server :=
  Server cs (server_threads s) (server_running_cpuset s) (server_pid s).

(** [send_data_persist(client_index, data, strlen(data))], as far as the
    bytes handed over go. *)
Definition send_data_persist (client_index : nat) (data : list Z)
    (s : server) : server :=
  with_clients
    (alter (fun c => ClientDesc (flags c) (task c) (output c ++ data))
       client_index (isol_server_clients s)) s.

(** [close_client_connection(client_index)]. *)
Definition close_client_connection (client_index : nat) (s : server)
    : server :=
  with_clients
    (alter (fun c => ClientDesc (Z.lor (flags c) CLIENT_FLAG_CLOSE)
                       (task c) (output c))
       client_index (isol_server_clients s)) s.

(** [get_client_task(client_index)]. *)
Definition get_client_task (client_index : nat) (s : server) : option nat :=
  c ← isol_server_clients s !! client_index; task c.

(** [set_client_task(client_index, task)]. *)
Definition set_client_task (client_index : nat) (t : option nat)
    (s : server) : server :=
  with_clients
    (alter (fun c => ClientDesc (flags c) t (output c))
       client_index (isol_server_clients s)) s.

(** The digit loop of [get_uint] and [get_int]; [wrap] is the
    arithmetic of the type of [val]. *)
Fixpoint digits_loop (wrap : Z -> Z) (val : Z) (s : list Z) : Z :=
  match s with
  | c :: rest =>
      if (48 <=? c) && (c <=? 57)
      then digits_loop wrap (wrap (wrap (val * 10) + (c - 48))) rest
      else val
  | [] => val
  end.

(** [get_uint(s)]. *)
Definition get_uint (s : list Z) : Z := digits_loop u32 0 s.

(** [get_int(s)]. *)
Definition get_int (s : list Z) : Z :=
  match s with
  | 45 :: rest => s32 (digits_loop s32 0 rest * -1)
  | _ => s32 (digits_loop s32 0 s * 1)
  end.

(** [isolation_claim_cpu(c)] from thread [i] on: the index of the thread
    claimed, and the table. *)
Fixpoint isolation_claim_cpu_from (i : nat)
    (threads : list memipc_thread_params) (c : Z)
    : option nat * list memipc_thread_params :=
  match threads with
  | [] => (None, [])
  | th :: rest =>
      if (c <? 0) || (cpu th =? c) then
        let orig_claim_counter := claim_counter th in
        if orig_claim_counter =? 0 then
          (Some i,
           ThreadParams (cpu th) (state th) (exit_request th)
             (isol_exit_time th) (m_memipc_mosi th) (mosi_cells th)
             (counter_ptr th) (timers th) (lasttimer th) (updatetimer th)
             (index th) (thread_id th) (pid th) (tid th)
             (s32 (claim_counter th + 1)) (isolated th)
             (memipc_check_signal_ptr th) :: rest)
        else
          let r := isolation_claim_cpu_from (S i) rest c in
          (r.1, th :: r.2)
      else
        let r := isolation_claim_cpu_from (S i) rest c in
        (r.1, th :: r.2)
  end.

Definition isolation_claim_cpu (threads : list memipc_thread_params)
    (c : Z) : option nat * list memipc_thread_params :=
  isolation_claim_cpu_from 0 threads c.

Inductive isol_srv_cmd : Type :=
  | ISOL_SRV_CMD_QUIT
  | ISOL_SRV_CMD_TERMINATE
  | ISOL_SRV_CMD_NEWTASK
  | ISOL_SRV_CMD_TASKISOLFAIL
  | ISOL_SRV_CMD_TASKISOLFINISH
  | ISOL_SRV_CMD_ARRAY_SIZE.

(** [commands] with [command_len]. *)
Definition commands : list (isol_srv_cmd * string * Z) :=
  [ (ISOL_SRV_CMD_QUIT, "quit", 4);
    (ISOL_SRV_CMD_TERMINATE, "terminate", 9);
    (ISOL_SRV_CMD_NEWTASK, "newtask", 7);
    (ISOL_SRV_CMD_TASKISOLFAIL, "taskisolfail", 12);
    (ISOL_SRV_CMD_TASKISOLFINISH, "taskisolfinish", 14) ]%string.

(** [for (p = line; ((unsigned char) *p) > ' '; p++);] *)
Fixpoint skip_command (p : list Z) : list Z :=
  match p with
  | c :: rest => if 32 <? c then skip_command rest else p
  | [] => []
  end.

(** [memcmp(a, b, n) == 0] for an [a] that is at least [n] bytes long. *)
Definition memcmp_eq (a b : list Z) (n : nat) : bool :=
  bool_decide (take n a = take n b).

Fixpoint find_command (table : list (isol_srv_cmd * string * Z))
    (line p : list Z) : isol_srv_cmd :=
  match table with
  | [] => ISOL_SRV_CMD_ARRAY_SIZE
  | (cmd, word, len) :: rest =>
      if (ptr_diff p line =? len)
         && memcmp_eq line (chars word) (Z.to_nat len)
      then cmd else find_command rest line p
  end.

Definition inv_response : list Z :=
  chars "500 Invalid command." ++ [10].
Definition alr_connected_response : list Z :=
  chars "500 Already connected." ++ [10].
Definition cant_alloc_resp : list Z :=
  chars "500 Can't allocate CPU." ++ [10].
Definition endsession : list Z :=
  chars "221 End of session." ++ [10].

(** What [tx_add_text_num] adds: [sprintf(s, "%ld", v)]. *)
Definition text_num (v : Z) : list Z := chars (pretty v).

(** The response to a task that got a CPU. *)
Definition task_allocated_response (my_pid : Z)
    (thread : memipc_thread_params) : list Z :=
  chars "200-Task allocated" ++ [10]
  ++ (if pid thread =? my_pid
      then chars "200-MODE=THREAD" ++ [10] ++ chars "200-INDEX="
           ++ text_num (index thread)
      else chars "200-MODE=PROCESS" ++ [10])
  ++ [10] ++ chars "200-CPU=" ++ text_num (cpu thread)
  ++ [10] ++ chars "200 OK" ++ [10].

(** The parsing under [case ISOL_SRV_CMD_NEWTASK]: what is sent while
    parsing, and [client_cpu], [client_pid], [client_tid]. *)
Definition newtask_parse (client_index : nat) (arg : option (list Z))
    (s : server) : server * Z * Z * Z :=
  match arg with
  | None => (send_data_persist client_index inv_response s, -1, 0, 0)
  | Some arg =>
      match strchr arg 44 with
      | None => (send_data_persist client_index inv_response s, -1, 0, 0)
      | Some p1 =>
          let client_cpu := get_int arg in
          match strchr p1 47 with
          | None =>
              (send_data_persist client_index inv_response s,
               client_cpu, 0, 0)
          | Some p2 =>
              (s, client_cpu, s32 (get_uint (tl p1)), s32 (get_uint (tl p2)))
          end
      end
  end.

(** [case ISOL_SRV_CMD_NEWTASK]. *)
Definition newtask (client_index : nat) (arg : option (list Z))
    (s : server) : server :=
  let '(s, client_cpu, client_pid, client_tid) :=
    newtask_parse client_index arg s in
  if negb (client_pid =? 0) && negb (client_tid =? 0) then
    match get_client_task client_index s with
    | Some _ => send_data_persist client_index alr_connected_response s
    | None =>
        let r := isolation_claim_cpu (server_threads s) client_cpu in
        match r.1 with
        | None => send_data_persist client_index cant_alloc_resp
                    (Server (isol_server_clients s) r.2
                       (server_running_cpuset s) (server_pid s))
        | Some i =>
            (* "Zero all data that should be used only by the client" *)
            let threads :=
              alter (fun th =>
                       ThreadParams (cpu th) (state th) (exit_request th)
                         (isol_exit_time th) (m_memipc_mosi th)
                         (mosi_cells th) None (timers th) (lasttimer th)
                         (updatetimer th) (index th) 0 client_pid
                         client_tid (claim_counter th) 1 None)
                i r.2 in
            match threads !! i with
            | None => s
            | Some thread =>
                let s :=
                  Server (isol_server_clients s) threads
                    (server_running_cpuset s) (server_pid s) in
                let s :=
                  send_data_persist client_index
                    (task_allocated_response (server_pid s) thread) s in
                let s := set_client_task client_index (Some i) s in
                Server (isol_server_clients s)
                  (alter (fun th => set_state th MEMIPC_STATE_STARTED) i
                     (server_threads s))
                  (CPU_SET (cpu thread) (server_running_cpuset s))
                  (server_pid s)
            end
        end
    end
  else s.

(** The argument of a command line: [arg], [None] for [NULL]. *)
Definition command_arg (line : list Z) : option (list Z) :=
  let p := skip_whitespace (skip_command line) in
  if hd 0 p =? 0 then None else Some p.

(** [client_text_handler(client_index, line)] for the commands "quit"
    and "newtask" and for a line that is no command; [None] for the
    commands "terminate", "taskisolfail" and "taskisolfinish", which are
    not modelled here. *)
Definition client_text_handler (client_index : nat) (line : list Z)
    (s : server) : option server :=
  let p := skip_command line in
  let command := find_command commands line p in
  let arg := command_arg line in
  match command with
  | ISOL_SRV_CMD_QUIT =>
      Some (close_client_connection client_index
              (send_data_persist client_index endsession s))
  | ISOL_SRV_CMD_NEWTASK => Some (newtask client_index arg s)
  | ISOL_SRV_CMD_ARRAY_SIZE =>
      Some (send_data_persist client_index inv_response s)
  | ISOL_SRV_CMD_TERMINATE
  | ISOL_SRV_CMD_TASKISOLFAIL
  | ISOL_SRV_CMD_TASKISOLFINISH => None
  end.

(** * Further functions of the manager *)



(** [memipc_isolation_terminate_thread(thread)]. *)
Definition memipc_isolation_terminate_thread (th : memipc_thread_params)
    : memipc_thread_params :=
  set_exit_request th 1.

(** [memipc_isolation_terminate_all_threads()]. *)
Definition memipc_isolation_terminate_all_threads (g : manager) : manager :=
  Manager (memipc_my_pid g)
    (memipc_isolation_terminate_thread <$> _global_isolated_threads g)
    (_global_isolated_threads_timeout_started g)
    (_global_isolated_threads_start_time g)
    (_global_isolated_threads_start_timeout g)
    (_global_isolated_threads_restart_delay g)
    (_global_running_cpuset g) (last_thread_scan g)
    (clock_calls g) (sent g) (sweeps g).

(** The workers [remaining_nsec_before_expiration] looks at: those in
    one of its seven states whose [lasttimer] is set. *)
Definition has_last_timer (th : memipc_thread_params) : bool :=
  (bool_decide (state th = MEMIPC_STATE_READY)
   || bool_decide (state th = MEMIPC_STATE_TMP_EXITING_ISOLATION)
   || bool_decide (state th = MEMIPC_STATE_EXITING_ISOLATION)
   || bool_decide (state th = MEMIPC_STATE_LOST_ISOLATION)
   || bool_decide (state th = MEMIPC_STATE_LAUNCHING)
   || bool_decide (state th = MEMIPC_STATE_LAUNCHED)
   || bool_decide (state th = MEMIPC_STATE_RUNNING))
  && negb (lasttimer th =? KTIME_MAX).

(** The loop of [remaining_nsec_before_expiration], which carries
    [found_remaining] and [remaining_last]. *)
Definition remaining_loop (now : Z) (acc : bool * Z)
    (threads : list memipc_thread_params) : bool * Z :=
  foldl (fun (acc : bool * Z) th =>
           if has_last_timer th then
             let remaining_current := s64 (lasttimer th - now) in
             if acc.1 then
               if acc.2 <? remaining_current
               then (true, remaining_current) else acc
             else (true, remaining_current)
           else acc)
    acc threads.

(** [remaining_nsec_before_expiration(now)]. *)
Definition remaining_nsec_before_expiration
    (threads : list memipc_thread_params) (now : Z) : Z :=
  let r := remaining_loop now (false, KTIME_MAX) threads in
  if r.1 then r.2 else KTIME_MAX.

Definition set_claim_counter (th : memipc_thread_params) (v : Z)
    : memipc_thread_params :=
  ThreadParams (cpu th) (state th) (exit_request th) (isol_exit_time th)
    (m_memipc_mosi th) (mosi_cells th) (counter_ptr th)
    (timers th) (lasttimer th) (updatetimer th)
    (index th) (thread_id th) (pid th) (tid th)
    v (isolated th) (memipc_check_signal_ptr th).

(** [isolation_release_cpu(thread)]; [thread] is [None] for [NULL] and
    otherwise the index of the worker in the table. *)
Definition isolation_release_cpu (threads : list memipc_thread_params)
    (thread : option nat) : list memipc_thread_params :=
  match thread with
  | None => threads
  | Some i =>
      alter (fun th => set_claim_counter th (s32 (claim_counter th - 1)))
        i threads
  end.

(** * Definitions used by the statements *)

(** Range of an [unsigned char]. *)
Definition is_byte (x : Z) : Prop := 0 <= x < 256.

(** The values [0 .. n-1], for proofs by enumeration. *)
Definition range_values (n : nat) : list Z := Z.of_nat <$> seq 0 n.

(** The eight cells of the block at [p] hold the bytes [bs]. *)
Definition block_holds (m : list Z) (p : Z) (bs : list Z) : Prop :=
  forall j, 0 <= j < 8 -> peek m (p + j) = peek bs j.

(** The bytes of a request as the producer lays them out: the type, the
    total size (header included) as four little-endian bytes, the payload,
    then zeros up to the end of the last block. *)
Definition frame_byte (t : Z) (payload : list Z) (j : Z) : Z :=
  if j =? 0 then u8 (to_char t)
  else if j <? 5 then
    u8 (Z.land (Z.shiftr (Z.of_nat (length payload) + HDR) (8 * (j - 1))) 0xff)
  else peek payload (j - 5).

(** The stored form of block [k] of a request. *)
Definition frame_block (t : Z) (payload : list Z) (k : Z) : list Z :=
  let f j := frame_byte t payload (7 * k + j) in
  encode7 (f 0) (f 1) (f 2) (f 3) (f 4) (f 5) (f 6).

(** The event journalled for block [k] of a request. *)
Definition frame_event (k off : Z) : store_event :=
  if k =? 0 then StoreHeader off else StoreData off.

(** The stores of a loop of [i] turns of [memipc_add_req] when none of
    them is refused: turn [j] (from [i] down to 1) puts block
    [skip + j - 1] of the request at [base + (j - 1) * 8]. *)
Fixpoint frame_stores (i : nat) (m : shmem) (base skip : Z) (t : Z)
    (payload : list Z) : shmem :=
  match i with
  | O => m
  | S i' =>
      let k := skip + Z.of_nat i - 1 in
      let dst := base + (Z.of_nat i - 1) * EIGHT in
      frame_stores i'
        (Shmem (store_bytes (cells m) dst (frame_block t payload k))
               (frame_event k dst :: journal m))
        base skip t payload
  end.

(** A ring of [sz] bytes whose cells carry exactly one request, laid out
    from offset [p] and wrapping at the end of the area: the cells of its
    blocks hold the stored form of the request, every other cell has its
    presence bit clear. *)
Definition ring_carries (sz p : Z) (cs : list Z) (t : Z) (payload : list Z)
    : Prop :=
  let count := blocks_for (Z.of_nat (length payload) + HDR) in
  Z.of_nat (length cs) = sz /\
  (forall j, 0 <= j < 8 * count ->
     peek cs ((p + j) mod sz) = peek (frame_block t payload (j / 8)) (j mod 8)) /\
  (forall j, 8 * count <= j < sz -> Z.odd (peek cs ((p + j) mod sz)) = false).

(** A ring of [sz] bytes with nothing in flight: every presence bit is
    clear, the consumer's descriptor [R] has read up to [p], where the
    producer's descriptor [W] will write next.  [W] may still count bytes
    the consumer has released since the producer last looked. *)
Record ring_idle (sz p : Z) (W R : memipc_area) (m : shmem) : Prop := {
  idle_sz : 8 <= sz < 2 ^ 32;
  idle_sz8 : sz mod 8 = 0;
  idle_len : Z.of_nat (length (cells m)) = sz;
  idle_clear : forall q, 0 <= q < sz -> Z.odd (peek (cells m) q) = false;
  idle_p : 0 <= p < sz;
  idle_p8 : p mod 8 = 0;
  idle_W_size : size W = sz;
  idle_W_wptr : wptr W = p;
  idle_W_rptr : 0 <= rptr W < sz;
  idle_W_inb : 0 <= inbuffer W <= sz;
  idle_W_rel : (rptr W + inbuffer W) mod sz = p;
  idle_R_size : size R = sz;
  idle_R_rptr : rptr R = p;
  idle_R_wptr : wptr R = p;
  idle_R_inb : inbuffer R = 0
}.

(** A descriptor that lies within its area: pointers inside, the write
    pointer and the size on block boundaries. *)
Record area_wf (a : memipc_area) : Prop := {
  wf_size : 8 <= size a < 2 ^ 32;
  wf_size8 : size a mod 8 = 0;
  wf_wptr : 0 <= wptr a < size a;
  wf_wptr8 : wptr a mod 8 = 0;
  wf_rptr : 0 <= rptr a < size a;
  wf_inb : 0 <= inbuffer a <= size a
}.

Definition is_data_store (ev : store_event) : Prop :=
  match ev with StoreData _ => True | StoreHeader _ => False end.

(** The producer's descriptor after the scan at the head of
    [memipc_add_req] (the assignments to [area->rptr] and
    [area->inbuffer]). *)
Definition producer_scanned (a : memipc_area) (m : shmem) : memipc_area :=
  let r := scan_released (Z.to_nat (u32 (inbuffer a))) (cells m) (size a)
             (rptr a) (u32 (inbuffer a)) in
  MemipcArea (wptr a) r.1 (size a) r.2 (writer a) (reader a).

(** Free blocks as [memipc_add_req] counts them: none when the area is
    full (the test [area->inbuffer == area->size], which comes first);
    otherwise up to the read pointer when it lies ahead of the write
    pointer, else up to the end of the area plus from its start to the
    read pointer. *)
Definition free_blocks (a : memipc_area) : Z :=
  if inbuffer a =? size a then 0
  else if wptr a <? rptr a then (rptr a - wptr a) / EIGHT
  else (size a - wptr a) / EIGHT + rptr a / EIGHT.

(** The consumer's descriptor after the scan at the head of
    [memipc_get_req] (the assignments to [area->wptr] and
    [area->inbuffer]). *)
Definition consumer_scanned (a : memipc_area) (m : shmem) : memipc_area :=
  let r := scan_written (Z.to_nat (size a - u32 (inbuffer a))) (cells m)
             (size a) (wptr a) (u32 (inbuffer a)) in
  MemipcArea r.1 (rptr a) (size a) r.2 (writer a) (reader a).

(** The total size (header included) that [read_decode_bytes_with_header]
    reads from the block at [src]. *)
Definition header_total (cs : list Z) (src : Z) : Z :=
  (read_decode_bytes_with_header [] cs src 0 0 0).2.

(** A 32-byte ring after the producer queued two nine-byte requests (two
    blocks each, filling the area), nothing read yet: the producer's
    descriptor as its last call left it, and the cells. *)
Definition full_ring : memipc_area * shmem :=
  let a := [1; 2; 3; 4; 5; 6; 7; 8; 9] in
  let r1 := memipc_add_req 0 (memipc_area_create 32) (fresh_cells 32) 15 9 a in
  let r2 := memipc_add_req 0 r1.1.2 r1.2 15 9 a in
  (r2.1.2, r2.2).

(** A 32-byte ring after the producer queued two nine-byte requests (two
    blocks each, filling the area) and the consumer read the first one:
    the producer's descriptor as its last call left it, and the cells. *)
Definition half_drained_ring : memipc_area * shmem :=
  let a := [1; 2; 3; 4; 5; 6; 7; 8; 9] in
  let r1 := memipc_add_req 0 (memipc_area_create 32) (fresh_cells 32) 15 9 a in
  let r2 := memipc_add_req 0 r1.1.2 r1.2 15 9 a in
  let g := memipc_get_req 0 (memipc_area_create 32) r2.2 0 9 (replicate 9 0) in
  (r2.1.2, g_mem g).

(** Nanoseconds from [t0] to [t1]. *)
Definition elapsed_nsec (t1 t0 : timespec) : Z :=
  (tv_sec t1 - tv_sec t0) * 10 ^ 9 + (tv_nsec t1 - tv_nsec t0).

(** What the launch pass requires of a worker (as it stood when the pass
    began) before it sends it a request of type [ty]. *)
Definition sent_ok (clock : nat -> timespec) (restart_delay : Z)
    (timers_cpuset running_cpuset : cpu_set_t)
    (th : memipc_thread_params) (ty : memipc_req_type) : Prop :=
  match ty with
  | MEMIPC_REQ_TERMINATE => exit_request th <> 0
  | MEMIPC_REQ_START_LAUNCH =>
      state th = MEMIPC_STATE_READY \/
      state th = MEMIPC_STATE_LOST_ISOLATION \/
      (state th = MEMIPC_STATE_TMP_EXITING_ISOLATION /\
       exists k, restart_delay
                 < tv_sec (clock k) - tv_sec (isol_exit_time th))
  | MEMIPC_REQ_START_CONFIRMED =>
      state th = MEMIPC_STATE_LAUNCHED /\
      CPU_COUNT (CPU_AND timers_cpuset running_cpuset) = 0
  | MEMIPC_REQ_EXIT_ISOLATION =>
      state th = MEMIPC_STATE_LAUNCHED /\
      CPU_COUNT (CPU_AND timers_cpuset running_cpuset) <> 0 /\
      cpu th ∈ timers_cpuset
  | _ => False
  end.

(** A worker on CPU [c] in state [s] that left isolation at second
    [exit_sec]: no exit request pending, a fresh 32-byte ring to it, no
    counter, no timers, not claimed. *)
Definition fresh_thread (c : Z) (s : memipc_thread_state) (exit_sec : Z)
    : memipc_thread_params :=
  ThreadParams c s 0 (Timespec exit_sec 0) (memipc_area_create 32)
    (fresh_cells 32) None [] KTIME_MAX KTIME_MAX 0 0 0 0 0 0 None.

(** A manager with that one worker on CPU 1, the start timeout running
    since second 0, the default timeout (20) and restart delay (3). *)
Definition one_worker (s : memipc_thread_state) (exit_sec : Z)
    (running_cpuset : cpu_set_t) : manager :=
  Manager 0 [fresh_thread 1 s exit_sec] 1 0 20 3 running_cpuset 0 0 [] [].



(** The four results of [process_all_timers]. *)
Definition timers_retval (r : Z * cpu_set_t * Z * list memipc_thread_params)
    : Z := r.1.1.1.
Definition timers_cpuset (r : Z * cpu_set_t * Z * list memipc_thread_params)
    : cpu_set_t := r.1.1.2.
Definition timers_now (r : Z * cpu_set_t * Z * list memipc_thread_params)
    : Z := r.1.2.


(** The sweep as the specification words it: an entity is rebound when
    it is not a managed worker, is not a thread of the manager's process
    other than its main thread, may run on more than one CPU, and may
    run on a CPU of the isolation set; the new mask is what it may run on
    less the isolation set, or the non-isolation set when nothing is
    left. *)
Definition sweep_rebinds (my_pid : Z) (isol : cpu_set_t)
    (e : ProcTable.foreign_thread_desc) : Prop :=
  ProcTable.isolated_thread e = None /\
  ~ (ProcTable.pid e = my_pid /\ ProcTable.tid e <> my_pid) /\
  (1 < base.size (ProcTable.cpus_allowed e))%nat /\
  ProcTable.cpus_allowed e ∩ isol <> ∅.

Global Instance sweep_rebinds_dec my_pid isol e :
  Decision (sweep_rebinds my_pid isol e).
Proof. unfold sweep_rebinds. apply _. Defined.

Definition sweep_mask (isol nonisol : cpu_set_t)
    (e : ProcTable.foreign_thread_desc) : cpu_set_t :=
  if decide (ProcTable.cpus_allowed e ∖ isol = ∅) then nonisol
  else ProcTable.cpus_allowed e ∖ isol.

Definition sweep_spec (my_pid : Z) (isol nonisol : cpu_set_t)
    (e : ProcTable.foreign_thread_desc) : option ProcTable.affinity_call :=
  if decide (sweep_rebinds my_pid isol e)
  then Some (ProcTable.AffinityCall (ProcTable.tid e)
               (sweep_mask isol nonisol e))
  else None.

(** A process table: a daemon free to run on CPUs 0 to 3, a task pinned
    to CPU 2, a managed worker, a second thread of the manager (process
    100), the manager's main thread, and a task bound to CPUs 2 and 3. *)
Definition proctable_example : list ProcTable.foreign_thread_desc :=
  [ ProcTable.ForeignThreadDesc 7 7 None {[0; 1; 2; 3]} 0;
    ProcTable.ForeignThreadDesc 8 8 None {[2]} 2;
    ProcTable.ForeignThreadDesc 9 9 (Some 0%nat) {[2; 3]} 2;
    ProcTable.ForeignThreadDesc 100 101 None {[0; 2]} 0;
    ProcTable.ForeignThreadDesc 100 100 None {[0; 2]} 0;
    ProcTable.ForeignThreadDesc 11 11 None {[2; 3]} 3 ].

(** The command word of a line: its bytes up to the first one that is a
    space or below. *)
Definition command_word (line : list Z) : list Z :=
  take (Z.to_nat (ptr_diff (skip_command line) line)) line.

(** An argument that is missing, has no ',' or has no '/'. *)
Definition newtask_malformed (arg : option (list Z)) : Prop :=
  arg = None \/ exists a, arg = Some a /\ (44 ∉ a \/ 47 ∉ a).

(** A server with one client, no task attached to it, and two managed
    threads on CPUs 1 and 2. *)
Definition server_example : server :=
  Server [ClientDesc 0 None []]
    [fresh_thread 1 MEMIPC_STATE_OFF 0; fresh_thread 2 MEMIPC_STATE_OFF 0]
    ∅ 100.

(** * Definitions used by the further properties *)

(** The producer's descriptor is consistent: it lies within its area and
    the bytes it counts as in the buffer are those between its read and
    its write pointer. *)
Definition producer_accounted (a : memipc_area) : Prop :=
  area_wf a /\ (rptr a + inbuffer a) mod size a = wptr a.

(** The same for the consumer's descriptor, whose read pointer is the one
    on a block boundary. *)
Definition consumer_accounted (a : memipc_area) : Prop :=
  8 <= size a < 2 ^ 32 /\ size a mod 8 = 0 /\
  0 <= rptr a < size a /\ rptr a mod 8 = 0 /\
  0 <= wptr a < size a /\ 0 <= inbuffer a <= size a /\
  (rptr a + inbuffer a) mod size a = wptr a.

(** The blocks [memipc_get_req] takes for a request whose header gives
    the total size [total]. *)
Definition blocks_taken (total : Z) : Z :=
  if total <=? SEVEN then 1 else blocks_for total.

(** [memipc_check_newdata()], with the cells and the thread-local probe
    pointer [memipc_check_newdata_ptr] passed in. *)
Definition memipc_check_newdata (m : list Z) (newdata_ptr : Z) : Z :=
  Z.land (peek m newdata_ptr) 1.

(** The ring after one nine-byte request was queued on a fresh 32-byte
    area: the consumer's descriptor (still as created) and the cells. *)
Definition one_queued_ring : memipc_area * shmem :=
  let r := memipc_add_req 0 (memipc_area_create 32) (fresh_cells 32) 15 9
             [1; 2; 3; 4; 5; 6; 7; 8; 9] in
  (memipc_area_create 32, r.2).

(** The fields of a worker the launch pass has no assignment to. *)
Definition launch_untouched (th : memipc_thread_params) :=
  (cpu th, timers th, lasttimer th, updatetimer th, index th, thread_id th,
   pid th, tid th, claim_counter th, isolated th,
   memipc_check_signal_ptr th).

(** The assignments to [state] in the launch loop, each with the request
    whose acceptance it follows. *)
Definition launch_move (s s' : memipc_thread_state)
    : option memipc_req_type :=
  match s, s' with
  | MEMIPC_STATE_READY, MEMIPC_STATE_LAUNCHING
  | MEMIPC_STATE_LOST_ISOLATION, MEMIPC_STATE_LAUNCHING
  | MEMIPC_STATE_TMP_EXITING_ISOLATION, MEMIPC_STATE_LAUNCHING =>
      Some MEMIPC_REQ_START_LAUNCH
  | MEMIPC_STATE_LAUNCHED, MEMIPC_STATE_RUNNING =>
      Some MEMIPC_REQ_START_CONFIRMED
  | MEMIPC_STATE_LAUNCHED, MEMIPC_STATE_TMP_EXITING_ISOLATION =>
      Some MEMIPC_REQ_EXIT_ISOLATION
  | _, _ => None
  end.

(** How worker [i] may differ after a launch pass that had [news]
    accepted by the rings: a new state comes with its request, a cleared
    exit request with TERMINATE. *)
Definition launch_step_ok (i : nat) (th th' : memipc_thread_params)
    (news : list (nat * memipc_req_type)) : Prop :=
  launch_untouched th' = launch_untouched th /\
  (state th' = state th \/
   exists ty, launch_move (state th) (state th') = Some ty /\
              (i, ty) ∈ news) /\
  (exit_request th' = exit_request th \/
   (exit_request th' = 0 /\ (i, MEMIPC_REQ_TERMINATE) ∈ news)).

(** [th'] is [th] but for its timers: the list, [lasttimer] and
    [updatetimer]. *)
Definition timers_only (th th' : memipc_thread_params) : Prop :=
  th' = set_timers th (timers th') (lasttimer th') (updatetimer th').

(** The first worker on CPU [c] is at index [i]. *)
Definition first_on_cpu (threads : list memipc_thread_params) (c : Z)
    (i : nat) : Prop :=
  (exists th, threads !! i = Some th /\ cpu th = c) /\
  forall j th, (j < i)%nat -> threads !! j = Some th -> cpu th <> c.

(** What a timer scan over the workers [threads0] keeps true of its set
    of CPUs and of its worker table: every CPU of the set is a valid CPU
    number and the CPU of a worker, and the workers differ from those of
    [threads0] only in their timers. *)
Definition scan_managed (threads0 : list memipc_thread_params)
    (cs : cpu_set_t) (ths : list memipc_thread_params) : Prop :=
  (forall c, c ∈ cs ->
     0 <= c < CPU_SETSIZE /\ exists th, th ∈ threads0 /\ cpu th = c) /\
  Forall2 timers_only threads0 ths.

(** A worker [isolation_claim_cpu(c)] would take: on CPU [c] (any CPU for
    a negative [c]) and not claimed. *)
Definition claimable (c : Z) (th : memipc_thread_params) : bool :=
  ((c <? 0) || (cpu th =? c)) && (claim_counter th =? 0).

(** The words [client_text_handler] knows. *)
Definition command_words : list (list Z) :=
  chars <$> ["quit"; "terminate"; "newtask"; "taskisolfail";
             "taskisolfinish"]%string.

(** A worker as the "newtask" command leaves it when it gives the worker
    to the task [client_pid]/[client_tid]. *)
Definition started_for (th : memipc_thread_params)
    (client_pid client_tid : Z) : memipc_thread_params :=
  ThreadParams (cpu th) MEMIPC_STATE_STARTED (exit_request th)
    (isol_exit_time th) (m_memipc_mosi th) (mosi_cells th) None
    (timers th) (lasttimer th) (updatetimer th) (index th) 0
    client_pid client_tid 1 1 None.

(** The cells [cs'] differ from [cs] only where a cell with its presence
    bit clear has become one with the bit set. *)
Definition only_fills (cs cs' : list Z) : Prop :=
  length cs' = length cs /\
  forall q, 0 <= q ->
    peek cs' q = peek cs q \/
    (Z.odd (peek cs q) = false /\ Z.odd (peek cs' q) = true).

(** ** Requests queued in the ring *)

(** A request in flight: its type and its payload. *)
Definition frame : Type := Z * list Z.

(** The blocks a request takes. *)
Definition frame_blocks (f : frame) : Z :=
  blocks_for (Z.of_nat (length f.2) + HDR).

(** The stored form of a request: its blocks one after the other. *)
Definition frame_cells (f : frame) : list Z :=
  mjoin ((fun k => frame_block f.1 f.2 (Z.of_nat k))
           <$> seq 0 (Z.to_nat (frame_blocks f))).

(** The stored form of a queue of requests, oldest first. *)
Definition queue_cells (frames : list frame) : list Z :=
  mjoin (frame_cells <$> frames).

(** A ring of [sz] bytes that holds the requests [frames], oldest first,
    the oldest one starting at [rp]: the cells from [rp] on (wrapping at
    the end of the area) hold the stored forms of the requests one after
    the other, and every other cell has its presence bit clear.  The
    producer's descriptor [W] has its write pointer right after the last
    request; its cached read pointer may lag behind [rp] by bytes the
    consumer has released since the producer last looked.  The
    consumer's descriptor [R] has its read pointer at [rp]; its cached
    write pointer may lag behind by bytes the producer has written since
    the consumer last looked. *)
Record ring_queue (sz rp : Z) (W R : memipc_area) (m : shmem)
    (frames : list frame) : Prop := {
  queue_sz : 8 <= sz < 2 ^ 32;
  queue_sz8 : sz mod 8 = 0;
  queue_len : Z.of_nat (length (cells m)) = sz;
  queue_rp : 0 <= rp < sz;
  queue_rp8 : rp mod 8 = 0;
  queue_fits : Z.of_nat (length (queue_cells frames)) <= sz;
  queue_held : forall j, 0 <= j < Z.of_nat (length (queue_cells frames)) ->
    peek (cells m) ((rp + j) mod sz) = peek (queue_cells frames) j;
  queue_free : forall j, Z.of_nat (length (queue_cells frames)) <= j < sz ->
    Z.odd (peek (cells m) ((rp + j) mod sz)) = false;
  queue_W_size : size W = sz;
  queue_W_wptr :
    wptr W = (rp + Z.of_nat (length (queue_cells frames))) mod sz;
  queue_W_rptr : 0 <= rptr W < sz;
  queue_W_inb :
    Z.of_nat (length (queue_cells frames)) <= inbuffer W <= sz;
  queue_W_rel :
    (rptr W + (inbuffer W - Z.of_nat (length (queue_cells frames)))) mod sz
    = rp;
  queue_R_size : size R = sz;
  queue_R_rptr : rptr R = rp;
  queue_R_inb :
    0 <= inbuffer R <= Z.of_nat (length (queue_cells frames));
  queue_R_wptr : wptr R = (rp + inbuffer R) mod sz
}.

(** The oldest request of a queue, if there is one, is a request as
    [memipc_add_req] stores it: a type of [enum memipc_req_type] range
    (the header keeps it in a [char]) and a payload of bytes. *)
Definition oldest_ok (frames : list frame) : Prop :=
  match frames with
  | [] => True
  | (t, payload) :: _ => 0 <= t < 128 /\ Forall is_byte payload
  end.

(** * Proofs *)

(** ** Machine integers and byte arrays *)

Lemma u8_small x : 0 <= x < 256 -> u8 x = x.
Proof. intros H. unfold u8. apply Z.mod_small. lia. Qed.

Lemma u32_small x : 0 <= x < 2 ^ 32 -> u32 x = x.
Proof. intros H. unfold u32. apply Z.mod_small. lia. Qed.

Lemma u64_small x : 0 <= x < 2 ^ 64 -> u64 x = x.
Proof. intros H. unfold u64. apply Z.mod_small. lia. Qed.

Lemma u8_range x : 0 <= u8 x < 256.
Proof. unfold u8. apply Z.mod_pos_bound. lia. Qed.

Lemma length_poke m p v : length (poke m p v) = length m.
Proof. unfold poke. apply length_insert. Qed.

Lemma peek_poke_eq m p v :
  0 <= p < Z.of_nat (length m) -> peek (poke m p v) p = v.
Proof.
  intros H. unfold peek, poke.
  rewrite list_lookup_insert_eq by lia. reflexivity.
Qed.

Lemma peek_poke_ne m p q v :
  0 <= p -> 0 <= q -> p <> q -> peek (poke m p v) q = peek m q.
Proof.
  intros Hp Hq Hne. unfold peek, poke.
  rewrite list_lookup_insert_ne by lia. reflexivity.
Qed.

Lemma peek_poke m p q v :
  0 <= p < Z.of_nat (length m) -> 0 <= q ->
  peek (poke m p v) q = if q =? p then v else peek m q.
Proof.
  intros Hp Hq. destruct (Z.eqb_spec q p) as [->|Hne].
  - apply peek_poke_eq, Hp.
  - apply peek_poke_ne; lia.
Qed.

Lemma length_store_bytes bs : forall m p,
  length (store_bytes m p bs) = length m.
Proof.
  induction bs as [|b bs IH]; intros m p; simpl; [reflexivity|].
  rewrite IH. apply length_poke.
Qed.

Lemma peek_store_bytes bs : forall m p q,
  0 <= p -> p + Z.of_nat (length bs) <= Z.of_nat (length m) -> 0 <= q ->
  peek (store_bytes m p bs) q =
    if (p <=? q) && (q <? p + Z.of_nat (length bs))
    then peek bs (q - p) else peek m q.
Proof.
  induction bs as [|b bs IH]; intros m p q Hp Hlen Hq.
  - cbn [store_bytes length].
    destruct (Z.leb_spec p q), (Z.ltb_spec q (p + Z.of_nat 0));
      cbn [andb]; try reflexivity; lia.
  - cbn [store_bytes]. cbn [length] in Hlen.
    rewrite IH by (rewrite ?length_poke; lia).
    cbn [length].
    destruct (Z.leb_spec (p + 1) q), (Z.ltb_spec q (p + 1 + Z.of_nat (length bs)));
      destruct (Z.leb_spec p q), (Z.ltb_spec q (p + Z.of_nat (S (length bs))));
      cbn [andb]; try lia;
      try (rewrite peek_poke_ne by lia; reflexivity).
    + unfold peek at 1 2.
      replace (Z.to_nat (q - p)) with (S (Z.to_nat (q - (p + 1)))) by lia.
      reflexivity.
    + assert (q = p) as -> by lia. rewrite peek_poke_eq by lia.
      unfold peek. replace (Z.to_nat (p - p)) with 0%nat by lia. reflexivity.
Qed.

Lemma length_clearmem n : forall m p,
  length (memipc_clearmem m p n) = length m.
Proof.
  induction n as [|n IH]; intros m p; simpl; [reflexivity|].
  rewrite IH. apply length_poke.
Qed.

Lemma peek_clearmem n : forall m p q,
  0 <= p -> p + Z.of_nat n <= Z.of_nat (length m) -> 0 <= q ->
  peek (memipc_clearmem m p n) q =
    if (p <=? q) && (q <? p + Z.of_nat n) then 0 else peek m q.
Proof.
  induction n as [|n IH]; intros m p q Hp Hlen Hq.
  - cbn [memipc_clearmem].
    destruct (Z.leb_spec p q), (Z.ltb_spec q (p + Z.of_nat 0));
      cbn [andb]; try reflexivity; lia.
  - cbn [memipc_clearmem].
    rewrite IH by (rewrite ?length_poke; lia).
    destruct (Z.leb_spec (p + 1) q), (Z.ltb_spec q (p + 1 + Z.of_nat n));
      destruct (Z.leb_spec p q), (Z.ltb_spec q (p + Z.of_nat (S n)));
      cbn [andb]; try lia; try reflexivity;
      try (rewrite peek_poke_ne by lia; reflexivity).
    assert (q = p) as -> by lia. rewrite peek_poke_eq by lia. reflexivity.
Qed.

(** ** Presence bits *)

Lemma land1_odd x : Z.land 1 x = if Z.odd x then 1 else 0.
Proof.
  rewrite Z.land_comm. change 1 with (Z.ones 1) at 1.
  rewrite Z.land_ones by lia. change (2 ^ 1) with 2. apply Zmod_odd.
Qed.

Lemma land_1_odd x : Z.land x 1 = if Z.odd x then 1 else 0.
Proof. rewrite Z.land_comm. apply land1_odd. Qed.

Lemma odd_lor a b : Z.odd (Z.lor a b) = Z.odd a || Z.odd b.
Proof. rewrite <- !Z.bit0_odd. apply Z.lor_spec. Qed.

Lemma odd_land a b : Z.odd (Z.land a b) = Z.odd a && Z.odd b.
Proof. rewrite <- !Z.bit0_odd. apply Z.land_spec. Qed.

Lemma odd_u8 x : Z.odd (u8 x) = Z.odd x.
Proof.
  unfold u8. rewrite <- !Z.bit0_odd.
  change 256 with (2 ^ 8). apply Z.mod_pow2_bits_low. lia.
Qed.

(** All eight presence bits of the block at [p]. *)
Lemma presence_any_spec m p :
  presence_any m p =
    if Z.odd (peek m p) || Z.odd (peek m (p + 1)) || Z.odd (peek m (p + 2))
       || Z.odd (peek m (p + 3)) || Z.odd (peek m (p + 4))
       || Z.odd (peek m (p + 5)) || Z.odd (peek m (p + 6))
       || Z.odd (peek m (p + 7))
    then 1 else 0.
Proof. unfold presence_any. rewrite land1_odd, !odd_lor. reflexivity. Qed.

Lemma presence_all_spec m p :
  presence_all m p =
    if Z.odd (peek m p) && Z.odd (peek m (p + 1)) && Z.odd (peek m (p + 2))
       && Z.odd (peek m (p + 3)) && Z.odd (peek m (p + 4))
       && Z.odd (peek m (p + 5)) && Z.odd (peek m (p + 6))
       && Z.odd (peek m (p + 7))
    then 1 else 0.
Proof.
  unfold presence_all. rewrite <- !Z.land_assoc, land1_odd, !odd_land.
  rewrite !andb_assoc. reflexivity.
Qed.

Lemma eight_cases k : 0 <= k < 8 ->
  k = 0 \/ k = 1 \/ k = 2 \/ k = 3 \/ k = 4 \/ k = 5 \/ k = 6 \/ k = 7.
Proof. lia. Qed.

Lemma presence_any_set m p k :
  0 <= k < 8 -> Z.testbit (peek m (p + k)) 0 = true ->
  (presence_any m p =? 0) = false.
Proof.
  intros Hk Hb. rewrite Z.bit0_odd in Hb. rewrite presence_any_spec.
  replace (peek m p) with (peek m (p + 0)) by (f_equal; lia).
  destruct (eight_cases k Hk) as [->|[->|[->|[->|[->|[->|[->| ->]]]]]]];
    rewrite Hb, ?orb_true_r; reflexivity.
Qed.

Lemma presence_all_clear m p k :
  0 <= k < 8 -> Z.testbit (peek m (p + k)) 0 = false ->
  (presence_all m p =? 1) = false.
Proof.
  intros Hk Hb. rewrite Z.bit0_odd in Hb. rewrite presence_all_spec.
  replace (peek m p) with (peek m (p + 0)) by (f_equal; lia).
  destruct (eight_cases k Hk) as [->|[->|[->|[->|[->|[->|[->| ->]]]]]]];
    rewrite Hb, ?andb_false_r; reflexivity.
Qed.

Lemma presence_any_zero m p :
  (forall k, 0 <= k < 8 -> Z.odd (peek m (p + k)) = false) ->
  presence_any m p = 0.
Proof.
  intros H. rewrite presence_any_spec.
  replace (peek m p) with (peek m (p + 0)) by (f_equal; lia).
  rewrite !H by lia. reflexivity.
Qed.

Lemma presence_all_one m p :
  (forall k, 0 <= k < 8 -> Z.odd (peek m (p + k)) = true) ->
  presence_all m p = 1.
Proof.
  intros H. rewrite presence_all_spec.
  replace (peek m p) with (peek m (p + 0)) by (f_equal; lia).
  rewrite !H by lia. reflexivity.
Qed.

(** C2.  The producer's two block writers refuse (return -1 and leave
    the shared cells and journal as they were) whenever any of the eight
    presence bits of the destination block is 1, and the consumer's two
    block readers refuse (return -1 and leave the destination buffer, and
    the [type] and [msize] out-parameters, as they were) whenever any of the
    eight presence bits of the source block is 0. *)
Theorem presence_bit_protocol (m : shmem) (blk k : Z) :
  0 <= k < 8 ->
  (Z.testbit (peek (cells m) (blk + k)) 0 = true ->
   (forall src soff sz,
      write_encode_bytes m blk src soff sz = (-1, m)) /\
   (forall src sz t msize,
      write_encode_bytes_with_header m blk src sz t msize = (-1, m))) /\
  (Z.testbit (peek (cells m) (blk + k)) 0 = false ->
   (forall dst doff sz,
      read_decode_bytes dst doff (cells m) blk sz = (-1, dst)) /\
   (forall dst sz type0 msize0,
      read_decode_bytes_with_header dst (cells m) blk sz type0 msize0
      = (-1, dst, type0, msize0))).
Proof.
  intros Hk. split; intros Hb.
  - pose proof (presence_any_set _ _ _ Hk Hb) as E.
    split; intros; unfold write_encode_bytes, write_encode_bytes_with_header;
      rewrite E; reflexivity.
  - pose proof (presence_all_clear _ _ _ Hk Hb) as E.
    split; intros; unfold read_decode_bytes, read_decode_bytes_with_header;
      rewrite E; reflexivity.
Qed.

(** A block whose fourth byte is marked written is not overwritten, and a
    block whose sixth byte is marked read is not decoded. *)
Lemma presence_bit_protocol_witness :
  write_encode_bytes (Shmem [0; 0; 0; 1; 0; 0; 0; 0] []) 0 [7; 7; 7] 0 3
    = (-1, Shmem [0; 0; 0; 1; 0; 0; 0; 0] []) /\
  read_decode_bytes [9; 9] 0 [1; 1; 1; 1; 1; 0; 1; 1] 0 2 = (-1, [9; 9]).
Proof.
  split.
  - apply (presence_bit_protocol (Shmem [0; 0; 0; 1; 0; 0; 0; 0] []) 0 3);
      [lia | reflexivity].
  - apply (presence_bit_protocol (Shmem [1; 1; 1; 1; 1; 0; 1; 1] []) 0 5);
      [lia | reflexivity].
Defined.

(** ** The codec: decoding an encoded block

    A decoded byte is assembled from two stored bytes.  The stored byte
    [k] holds the low bits of source byte [k] above a carry of the high
    bits of source byte [k-1]; each fact below is checked over all values
    of the byte and of the carry involved. *)

Lemma range_values_complete n x :
  0 <= x < Z.of_nat n -> In x (range_values n).
Proof.
  intros Hx. unfold range_values. apply in_map_iff.
  exists (Z.to_nat x). split; [lia|]. apply in_seq. lia.
Qed.

Lemma forall_range (n : nat) (P : Z -> bool) :
  forallb P (range_values n) = true ->
  forall x, 0 <= x < Z.of_nat n -> P x = true.
Proof.
  intros H x Hx. rewrite forallb_forall in H.
  apply H, range_values_complete, Hx.
Qed.

Lemma forall_range2 (n1 n2 : nat) (P : Z -> Z -> bool) :
  forallb (fun a => forallb (P a) (range_values n2)) (range_values n1) = true ->
  forall a b, 0 <= a < Z.of_nat n1 -> 0 <= b < Z.of_nat n2 -> P a b = true.
Proof.
  intros H a b Ha Hb.
  apply (forall_range n2 (P a)); [|exact Hb].
  apply (forall_range n1 (fun a => forallb (P a) (range_values n2)) H a Ha).
Qed.

(** [by_range1 n x]: an equation over [Z] in [x], with [0 <= x < n] at
    hand, checked for every value of [x]. *)
Ltac by_range1 n x :=
  pattern x;
  match goal with
  | |- (fun a => @eq Z (@?l a) (@?r a)) _ =>
      apply Z.eqb_eq;
      refine (forall_range n (fun a => Z.eqb (l a) (r a)) _ x _);
      [vm_compute; reflexivity | unfold is_byte in *; lia]
  end.

Ltac by_range2 n1 n2 x y :=
  pattern x, y;
  match goal with
  | |- (fun a b => @eq Z (@?l a b) (@?r a b)) _ _ =>
      apply Z.eqb_eq;
      refine (forall_range2 n1 n2 (fun a b => Z.eqb (l a b) (r a b)) _ x y _ _);
      [vm_compute; reflexivity
      | unfold is_byte in *; lia | unfold is_byte in *; lia]
  end.

(** The carry of a byte into the next stored byte is below the bits the
    next source byte occupies. *)
Lemma carry_bound (hmask sh bound : Z) (n : nat) (a : Z) :
  (forallb (fun a => Z.shiftr (Z.land a hmask) sh <? bound)
     (range_values 256) = true) ->
  is_byte a -> 0 <= Z.shiftr (Z.land a hmask) sh < bound.
Proof.
  intros H Ha. split.
  - apply Z.shiftr_nonneg, Z.land_nonneg. left. unfold is_byte in Ha. lia.
  - apply Z.ltb_lt.
    apply (forall_range 256 (fun a => Z.shiftr (Z.land a hmask) sh <? bound) H).
    unfold is_byte in Ha. lia.
Qed.

Lemma decode_encode_0 (a b c : Z) :
  is_byte a -> is_byte b -> is_byte c ->
  Z.lor (Z.shiftr (u8 (Z.lor (Z.shiftl b 1) 1)) 1)
        (Z.land (Z.shiftl (u8 (Z.lor (Z.lor (Z.shiftr (Z.land b 128) 6) (Z.shiftl c 2)) 1)) 6) 128) = b.
Proof.
  intros Ha Hb Hc.
  assert (Z.land b 128 = Z.land (Z.shiftl (Z.shiftr (Z.land b 128) 6) 6) 128) as Hb2
    by (by_range1 256%nat b).
  assert (0 <= Z.shiftr (Z.land b 128) 6 < 4) as Hcb
    by (apply (carry_bound _ _ _ 256%nat b); [vm_compute; reflexivity | exact Hb]).
  revert Hb2 Hcb. generalize (Z.shiftr (Z.land b 128) 6). intros cb Hb2 Hcb.
  assert (Z.land (Z.shiftl (u8 (Z.lor (Z.lor (cb) (Z.shiftl c 2)) 1)) 6) 128 = Z.land (Z.shiftl cb 6) 128) as ->
    by (by_range2 4%nat 256%nat cb c).
  rewrite <- Hb2. clear Hb2 Hcb cb.
  assert (Z.shiftr (u8 (Z.lor (Z.shiftl b 1) 1)) 1 = Z.land b 127) as ->
    by (by_range1 256%nat b).
  by_range1 256%nat b.
Qed.

Lemma decode_encode_1 (a b c : Z) :
  is_byte a -> is_byte b -> is_byte c ->
  Z.lor (Z.shiftr (u8 (Z.lor (Z.lor (Z.shiftr (Z.land a 128) 6) (Z.shiftl b 2)) 1)) 2)
        (Z.land (Z.shiftl (u8 (Z.lor (Z.lor (Z.shiftr (Z.land b 192) 5) (Z.shiftl c 3)) 1)) 5) 192) = b.
Proof.
  intros Ha Hb Hc.
  assert (Z.land b 192 = Z.land (Z.shiftl (Z.shiftr (Z.land b 192) 5) 5) 192) as Hb2
    by (by_range1 256%nat b).
  assert (0 <= Z.shiftr (Z.land b 192) 5 < 8) as Hcb
    by (apply (carry_bound _ _ _ 256%nat b); [vm_compute; reflexivity | exact Hb]).
  revert Hb2 Hcb. generalize (Z.shiftr (Z.land b 192) 5). intros cb Hb2 Hcb.
  assert (Z.land (Z.shiftl (u8 (Z.lor (Z.lor (cb) (Z.shiftl c 3)) 1)) 5) 192 = Z.land (Z.shiftl cb 5) 192) as ->
    by (by_range2 8%nat 256%nat cb c).
  rewrite <- Hb2. clear Hb2 Hcb cb.
  assert (0 <= Z.shiftr (Z.land a 128) 6 < 4) as Hca
    by (apply (carry_bound _ _ _ 256%nat a); [vm_compute; reflexivity | exact Ha]).
  revert Hca. generalize (Z.shiftr (Z.land a 128) 6). intros ca Hca.
  assert (Z.shiftr (u8 (Z.lor (Z.lor (ca) (Z.shiftl b 2)) 1)) 2 = Z.land b 63) as ->
    by (by_range2 4%nat 256%nat ca b).
  by_range1 256%nat b.
Qed.

Lemma decode_encode_2 (a b c : Z) :
  is_byte a -> is_byte b -> is_byte c ->
  Z.lor (Z.shiftr (u8 (Z.lor (Z.lor (Z.shiftr (Z.land a 192) 5) (Z.shiftl b 3)) 1)) 3)
        (Z.land (Z.shiftl (u8 (Z.lor (Z.lor (Z.shiftr (Z.land b 224) 4) (Z.shiftl c 4)) 1)) 4) 224) = b.
Proof.
  intros Ha Hb Hc.
  assert (Z.land b 224 = Z.land (Z.shiftl (Z.shiftr (Z.land b 224) 4) 4) 224) as Hb2
    by (by_range1 256%nat b).
  assert (0 <= Z.shiftr (Z.land b 224) 4 < 16) as Hcb
    by (apply (carry_bound _ _ _ 256%nat b); [vm_compute; reflexivity | exact Hb]).
  revert Hb2 Hcb. generalize (Z.shiftr (Z.land b 224) 4). intros cb Hb2 Hcb.
  assert (Z.land (Z.shiftl (u8 (Z.lor (Z.lor (cb) (Z.shiftl c 4)) 1)) 4) 224 = Z.land (Z.shiftl cb 4) 224) as ->
    by (by_range2 16%nat 256%nat cb c).
  rewrite <- Hb2. clear Hb2 Hcb cb.
  assert (0 <= Z.shiftr (Z.land a 192) 5 < 8) as Hca
    by (apply (carry_bound _ _ _ 256%nat a); [vm_compute; reflexivity | exact Ha]).
  revert Hca. generalize (Z.shiftr (Z.land a 192) 5). intros ca Hca.
  assert (Z.shiftr (u8 (Z.lor (Z.lor (ca) (Z.shiftl b 3)) 1)) 3 = Z.land b 31) as ->
    by (by_range2 8%nat 256%nat ca b).
  by_range1 256%nat b.
Qed.

Lemma decode_encode_3 (a b c : Z) :
  is_byte a -> is_byte b -> is_byte c ->
  Z.lor (Z.shiftr (u8 (Z.lor (Z.lor (Z.shiftr (Z.land a 224) 4) (Z.shiftl b 4)) 1)) 4)
        (Z.land (Z.shiftl (u8 (Z.lor (Z.lor (Z.shiftr (Z.land b 240) 3) (Z.shiftl c 5)) 1)) 3) 240) = b.
Proof.
  intros Ha Hb Hc.
  assert (Z.land b 240 = Z.land (Z.shiftl (Z.shiftr (Z.land b 240) 3) 3) 240) as Hb2
    by (by_range1 256%nat b).
  assert (0 <= Z.shiftr (Z.land b 240) 3 < 32) as Hcb
    by (apply (carry_bound _ _ _ 256%nat b); [vm_compute; reflexivity | exact Hb]).
  revert Hb2 Hcb. generalize (Z.shiftr (Z.land b 240) 3). intros cb Hb2 Hcb.
  assert (Z.land (Z.shiftl (u8 (Z.lor (Z.lor (cb) (Z.shiftl c 5)) 1)) 3) 240 = Z.land (Z.shiftl cb 3) 240) as ->
    by (by_range2 32%nat 256%nat cb c).
  rewrite <- Hb2. clear Hb2 Hcb cb.
  assert (0 <= Z.shiftr (Z.land a 224) 4 < 16) as Hca
    by (apply (carry_bound _ _ _ 256%nat a); [vm_compute; reflexivity | exact Ha]).
  revert Hca. generalize (Z.shiftr (Z.land a 224) 4). intros ca Hca.
  assert (Z.shiftr (u8 (Z.lor (Z.lor (ca) (Z.shiftl b 4)) 1)) 4 = Z.land b 15) as ->
    by (by_range2 16%nat 256%nat ca b).
  by_range1 256%nat b.
Qed.

Lemma decode_encode_4 (a b c : Z) :
  is_byte a -> is_byte b -> is_byte c ->
  Z.lor (Z.shiftr (u8 (Z.lor (Z.lor (Z.shiftr (Z.land a 240) 3) (Z.shiftl b 5)) 1)) 5)
        (Z.land (Z.shiftl (u8 (Z.lor (Z.lor (Z.shiftr (Z.land b 248) 2) (Z.shiftl c 6)) 1)) 2) 248) = b.
Proof.
  intros Ha Hb Hc.
  assert (Z.land b 248 = Z.land (Z.shiftl (Z.shiftr (Z.land b 248) 2) 2) 248) as Hb2
    by (by_range1 256%nat b).
  assert (0 <= Z.shiftr (Z.land b 248) 2 < 64) as Hcb
    by (apply (carry_bound _ _ _ 256%nat b); [vm_compute; reflexivity | exact Hb]).
  revert Hb2 Hcb. generalize (Z.shiftr (Z.land b 248) 2). intros cb Hb2 Hcb.
  assert (Z.land (Z.shiftl (u8 (Z.lor (Z.lor (cb) (Z.shiftl c 6)) 1)) 2) 248 = Z.land (Z.shiftl cb 2) 248) as ->
    by (by_range2 64%nat 256%nat cb c).
  rewrite <- Hb2. clear Hb2 Hcb cb.
  assert (0 <= Z.shiftr (Z.land a 240) 3 < 32) as Hca
    by (apply (carry_bound _ _ _ 256%nat a); [vm_compute; reflexivity | exact Ha]).
  revert Hca. generalize (Z.shiftr (Z.land a 240) 3). intros ca Hca.
  assert (Z.shiftr (u8 (Z.lor (Z.lor (ca) (Z.shiftl b 5)) 1)) 5 = Z.land b 7) as ->
    by (by_range2 32%nat 256%nat ca b).
  by_range1 256%nat b.
Qed.

Lemma decode_encode_5 (a b c : Z) :
  is_byte a -> is_byte b -> is_byte c ->
  Z.lor (Z.shiftr (u8 (Z.lor (Z.lor (Z.shiftr (Z.land a 248) 2) (Z.shiftl b 6)) 1)) 6)
        (Z.land (Z.shiftl (u8 (Z.lor (Z.lor (Z.shiftr (Z.land b 252) 1) (Z.shiftl c 7)) 1)) 1) 252) = b.
Proof.
  intros Ha Hb Hc.
  assert (Z.land b 252 = Z.land (Z.shiftl (Z.shiftr (Z.land b 252) 1) 1) 252) as Hb2
    by (by_range1 256%nat b).
  assert (0 <= Z.shiftr (Z.land b 252) 1 < 128) as Hcb
    by (apply (carry_bound _ _ _ 256%nat b); [vm_compute; reflexivity | exact Hb]).
  revert Hb2 Hcb. generalize (Z.shiftr (Z.land b 252) 1). intros cb Hb2 Hcb.
  assert (Z.land (Z.shiftl (u8 (Z.lor (Z.lor (cb) (Z.shiftl c 7)) 1)) 1) 252 = Z.land (Z.shiftl cb 1) 252) as ->
    by (by_range2 128%nat 256%nat cb c).
  rewrite <- Hb2. clear Hb2 Hcb cb.
  assert (0 <= Z.shiftr (Z.land a 248) 2 < 64) as Hca
    by (apply (carry_bound _ _ _ 256%nat a); [vm_compute; reflexivity | exact Ha]).
  revert Hca. generalize (Z.shiftr (Z.land a 248) 2). intros ca Hca.
  assert (Z.shiftr (u8 (Z.lor (Z.lor (ca) (Z.shiftl b 6)) 1)) 6 = Z.land b 3) as ->
    by (by_range2 64%nat 256%nat ca b).
  by_range1 256%nat b.
Qed.

Lemma decode_encode_6 (a b c : Z) :
  is_byte a -> is_byte b -> is_byte c ->
  Z.lor (Z.shiftr (u8 (Z.lor (Z.lor (Z.shiftr (Z.land a 252) 1) (Z.shiftl b 7)) 1)) 7)
        (Z.land (u8 (Z.lor b 1)) 254) = b.
Proof.
  intros Ha Hb Hc.
  assert (Z.land (u8 (Z.lor b 1)) 254 = Z.land b 254) as ->
    by (by_range1 256%nat b).
  assert (0 <= Z.shiftr (Z.land a 252) 1 < 128) as Hca
    by (apply (carry_bound _ _ _ 256%nat a); [vm_compute; reflexivity | exact Ha]).
  revert Hca. generalize (Z.shiftr (Z.land a 252) 1). intros ca Hca.
  assert (Z.shiftr (u8 (Z.lor (Z.lor (ca) (Z.shiftl b 7)) 1)) 7 = Z.land b 1) as ->
    by (by_range2 128%nat 256%nat ca b).
  by_range1 256%nat b.
Qed.

(** ** Blocks *)

Lemma decode_raw_encode7 (s0 s1 s2 s3 s4 s5 s6 : Z) (e : Z -> Z) :
  is_byte s0 -> is_byte s1 -> is_byte s2 -> is_byte s3 ->
  is_byte s4 -> is_byte s5 -> is_byte s6 ->
  (forall j, 0 <= j < 8 -> e j = peek (encode7 s0 s1 s2 s3 s4 s5 s6) j) ->
  forall k, 0 <= k < 7 -> decode_raw k e = peek [s0; s1; s2; s3; s4; s5; s6] k.
Proof.
  intros H0 H1 H2 H3 H4 H5 H6 He k Hk.
  assert (k = 0 \/ k = 1 \/ k = 2 \/ k = 3 \/ k = 4 \/ k = 5 \/ k = 6)
    as [->|[->|[->|[->|[->|[->| ->]]]]]] by lia;
    unfold decode_raw; rewrite !He by lia;
    cbv -[u8 Z.lor Z.shiftl Z.shiftr Z.land].
  - apply (decode_encode_0 s0 s0 s1); assumption.
  - apply (decode_encode_1 s0 s1 s2); assumption.
  - apply (decode_encode_2 s1 s2 s3); assumption.
  - apply (decode_encode_3 s2 s3 s4); assumption.
  - apply (decode_encode_4 s3 s4 s5); assumption.
  - apply (decode_encode_5 s4 s5 s6); assumption.
  - apply (decode_encode_6 s5 s6 s6); assumption.
Qed.

Lemma encode7_length s0 s1 s2 s3 s4 s5 s6 :
  length (encode7 s0 s1 s2 s3 s4 s5 s6) = 8%nat.
Proof. reflexivity. Qed.

Lemma encode7_odd s0 s1 s2 s3 s4 s5 s6 j :
  0 <= j < 8 -> Z.odd (peek (encode7 s0 s1 s2 s3 s4 s5 s6) j) = true.
Proof.
  intros Hj.
  destruct (eight_cases j Hj) as [->|[->|[->|[->|[->|[->|[->| ->]]]]]]];
    cbv -[u8 Z.lor Z.shiftl Z.shiftr Z.land Z.odd];
    rewrite odd_u8, odd_lor; apply orb_true_r.
Qed.

Lemma block_holds_odd m p s0 s1 s2 s3 s4 s5 s6 :
  block_holds m p (encode7 s0 s1 s2 s3 s4 s5 s6) ->
  forall j, 0 <= j < 8 -> Z.odd (peek m (p + j)) = true.
Proof. intros H j Hj. rewrite H by exact Hj. apply encode7_odd, Hj. Qed.

Lemma frame_byte_is_byte t payload j :
  Forall is_byte payload -> is_byte (frame_byte t payload j).
Proof.
  intros Hp. unfold frame_byte.
  destruct (j =? 0); [apply u8_range|].
  destruct (j <? 5); [apply u8_range|].
  unfold peek. destruct (payload !! Z.to_nat (j - 5)) as [b|] eqn:E; cbn.
  - rewrite Forall_forall in Hp. apply Hp.
    apply list_elem_of_lookup. eauto.
  - unfold is_byte. lia.
Qed.

Lemma length_decode_arm sz k e doff dst :
  length (decode_arm sz k e doff dst) = length dst.
Proof.
  unfold decode_arm. destruct (_ && _); [apply length_poke | reflexivity].
Qed.

Lemma peek_decode_arm sz k e doff dst q :
  0 <= k -> 0 <= doff -> doff + sz <= Z.of_nat (length dst) -> 0 <= q ->
  peek (decode_arm sz k e doff dst) q =
    if (q =? doff + k) && (k <? sz) && (sz <=? 7)
    then decode_at k e else peek dst q.
Proof.
  intros Hk Hd Hlen Hq. unfold decode_arm.
  destruct (Z.ltb_spec k sz), (Z.leb_spec sz 7); cbn [andb];
    rewrite ?andb_false_r; try reflexivity.
  rewrite peek_poke by lia. rewrite !andb_true_r. reflexivity.
Qed.

(** What [read_decode_bytes] leaves in the destination when the block is
    ready: [size] decoded bytes at [doff], the rest as it was. *)
Lemma read_decode_bytes_ready dst doff m src sz :
  presence_all m src = 1 -> 0 <= sz <= 7 -> 0 <= doff ->
  doff + sz <= Z.of_nat (length dst) ->
  exists dst',
    read_decode_bytes dst doff m src sz = (0, dst') /\
    length dst' = length dst /\
    forall q, 0 <= q ->
      peek dst' q =
        if (doff <=? q) && (q <? doff + sz)
        then decode_at (q - doff) (fun k => peek m (src + k))
        else peek dst q.
Proof.
  intros Hpr Hsz Hd Hlen. unfold read_decode_bytes. rewrite Hpr. cbn.
  eexists. split; [reflexivity|]. split.
  - rewrite !length_decode_arm. reflexivity.
  - intros q Hq.
    rewrite !peek_decode_arm by (rewrite ?length_decode_arm; lia).
    replace (sz <=? 7) with true by (symmetry; apply Z.leb_le; lia).
    rewrite !andb_true_r.
    destruct (Z.leb_spec doff q), (Z.ltb_spec q (doff + sz)); cbn [andb].
    + assert (q - doff = 0 \/ q - doff = 1 \/ q - doff = 2 \/ q - doff = 3
              \/ q - doff = 4 \/ q - doff = 5 \/ q - doff = 6)
        as [E|[E|[E|[E|[E|[E|E]]]]]] by lia; rewrite E;
      repeat match goal with
        | |- context [(?a =? ?b) && (?c <? ?d)] =>
            destruct (Z.eqb_spec a b); destruct (Z.ltb_spec c d);
            cbn [andb]; try lia
        end; reflexivity.
    + repeat match goal with
        | |- context [(?a =? ?b) && (?c <? ?d)] =>
            destruct (Z.eqb_spec a b); destruct (Z.ltb_spec c d);
            cbn [andb]; try lia
        end; reflexivity.
    + repeat match goal with
        | |- context [(?a =? ?b) && (?c <? ?d)] =>
            destruct (Z.eqb_spec a b); destruct (Z.ltb_spec c d);
            cbn [andb]; try lia
        end; reflexivity.
    + repeat match goal with
        | |- context [(?a =? ?b) && (?c <? ?d)] =>
            destruct (Z.eqb_spec a b); destruct (Z.ltb_spec c d);
            cbn [andb]; try lia
        end; reflexivity.
Qed.

(** ** The producer *)

Lemma blocks_for_ceil total :
  0 <= total -> blocks_for total = (total + 6) / 7.
Proof.
  intros H. unfold blocks_for, SEVEN.
  destruct (Z.eqb_spec (total - total / 7 * 7) 0);
    Z.div_mod_to_equations; lia.
Qed.

Lemma blocks_for_bounds total :
  0 <= total ->
  7 * (blocks_for total - 1) < total <= 7 * blocks_for total.
Proof.
  intros H. rewrite blocks_for_ceil by exact H.
  Z.div_mod_to_equations. lia.
Qed.

Lemma mod_small_wrap sz x :
  0 < sz -> 0 <= x < 2 * sz ->
  x mod sz = if x <? sz then x else x - sz.
Proof.
  intros Hs Hx. destruct (Z.ltb_spec x sz).
  - apply Z.mod_small. lia.
  - symmetry. apply (Z.mod_unique x sz 1); lia.
Qed.

Lemma step_wrap sz lp :
  0 < sz -> 0 <= lp < sz ->
  (if sz <=? lp + 1 then 0 else lp + 1) = (lp + 1) mod sz.
Proof.
  intros Hs Hl. rewrite mod_small_wrap by lia.
  destruct (Z.leb_spec sz (lp + 1)), (Z.ltb_spec (lp + 1) sz); lia.
Qed.

(** Over cells whose presence bits are all clear, the producer's scan
    walks the cached read pointer forward by the whole of [inbuffer]. *)
Lemma scan_released_clear cs sz fuel : forall lp inb,
  0 < sz ->
  (forall q, 0 <= q < sz -> Z.odd (peek cs q) = false) ->
  0 <= lp < sz -> Z.of_nat fuel = inb ->
  scan_released fuel cs sz lp inb = ((lp + inb) mod sz, 0).
Proof.
  induction fuel as [|fuel IH]; intros lp inb Hs Hc Hl Hf.
  - cbn. subst inb. rewrite Z.add_0_r, Z.mod_small by lia. reflexivity.
  - cbn [scan_released]. rewrite land_1_odd, Hc by lia. cbn [Z.eqb andb].
    replace (0 <? inb) with true by (symmetry; apply Z.ltb_lt; lia).
    rewrite step_wrap by lia.
    rewrite (IH ((lp + 1) mod sz) (inb - 1) Hs Hc);
      [|apply Z.mod_pos_bound; lia|lia].
    rewrite Z.add_mod_idemp_l by lia. do 2 f_equal. lia.
Qed.

Lemma peek_beyond (l : list Z) q :
  Z.of_nat (length l) <= q -> peek l q = 0.
Proof.
  intros H. unfold peek. rewrite lookup_ge_None_2 by lia. reflexivity.
Qed.

Lemma peek_cons_0 (a : Z) l : peek (a :: l) 0 = a.
Proof. reflexivity. Qed.

(** The source bytes picked by [write_encode_bytes] for a data block are
    those of the frame. *)
Lemma src_local_frame t payload L k j :
  L = Z.of_nat (length payload) ->
  1 <= k -> 0 <= j < 7 -> 7 * k - 5 < L -> L < 2 ^ 32 ->
  src_local payload (7 * k - 5)
    (u32 (if 7 <? u64 (L - (7 * k - 5)) then 7 else u64 (L - (7 * k - 5)))) j
  = frame_byte t payload (7 * k + j).
Proof.
  intros HLen Hk Hj HkL HL.
  rewrite u64_small by lia.
  unfold frame_byte.
  replace (7 * k + j =? 0) with false by (symmetry; apply Z.eqb_neq; lia).
  replace (7 * k + j <? 5) with false by (symmetry; apply Z.ltb_ge; lia).
  replace (7 * k + j - 5) with (7 * k - 5 + j) by lia.
  unfold src_local.
  destruct (Z.ltb_spec 7 (L - (7 * k - 5))).
  - rewrite u32_small by lia.
    replace (j <? 7) with true by (symmetry; apply Z.ltb_lt; lia).
    reflexivity.
  - rewrite u32_small by lia.
    replace (L - (7 * k - 5) <=? 7) with true by (symmetry; apply Z.leb_le; lia).
    rewrite andb_true_r.
    destruct (Z.ltb_spec j (L - (7 * k - 5))); [reflexivity|].
    symmetry. apply peek_beyond. lia.
Qed.

Lemma hdr_locals_frame t payload L :
  L = Z.of_nat (length payload) -> L < 2 ^ 32 ->
  hdr_local5 payload (u32 (u64 (if L <? 2 then L else 2)))
    = frame_byte t payload 5 /\
  hdr_local6 payload (u32 (u64 (if L <? 2 then L else 2)))
    = frame_byte t payload 6.
Proof.
  intros HLen HL. unfold frame_byte, hdr_local5, hdr_local6.
  change (5 =? 0) with false. change (6 =? 0) with false.
  change (5 <? 5) with false. change (6 <? 5) with false.
  change (5 - 5) with 0. change (6 - 5) with 1. cbv iota.
  assert (0 <= L) by lia.
  destruct (Z.ltb_spec L 2).
  - rewrite u64_small, u32_small by lia.
    assert (L = 0 \/ L = 1) as [E|E] by lia; rewrite E; cbn [Z.eqb orb].
    + split; symmetry; apply peek_beyond; lia.
    + split; [reflexivity|]. symmetry. apply peek_beyond. lia.
  - rewrite u64_small, u32_small by lia. cbn [Z.eqb Pos.eqb orb].
    split; reflexivity.
Qed.

(** A loop of [memipc_add_req] that reports success has made exactly the
    stores of [frame_stores]. *)
Lemma write_blocks_success t payload L base skip i : forall m m',
  L = Z.of_nat (length payload) ->
  L + HDR < 2 ^ 32 -> 0 <= skip ->
  skip + Z.of_nat i <= blocks_for (L + HDR) ->
  write_blocks i m base skip t L payload = (0, m') ->
  m' = frame_stores i m base skip t payload.
Proof.
  induction i as [|i IH]; intros m m' HLen HL Hskip Hcount Hw.
  - cbn [write_blocks] in Hw. cbn [frame_stores]. congruence.
  - cbn [write_blocks] in Hw. cbn [frame_stores].
    set (iz := Z.of_nat (S i)) in *.
    assert (1 <= iz) by (unfold iz; lia).
    assert (Z.of_nat i = iz - 1) as Hi by (unfold iz; lia).
    pose proof (blocks_for_bounds (L + HDR)) as Hb.
    assert (0 <= L) by lia.
    unfold SEVEN, EIGHT, HDR in *.
    specialize (Hb ltac:(lia)).
    destruct (Z.leb_spec 7 (skip * 7 + iz * 7 - 5)) as [Hd|Hh].
    + (* data block *)
      unfold write_encode_bytes in Hw.
      destruct (negb (presence_any (cells m) (base + (iz - 1) * 8) =? 0));
        [cbn in Hw; discriminate|].
      cbn [fst snd negb Z.eqb] in Hw.
      apply IH in Hw; [|assumption|lia|lia|lia]. subst m'. f_equal. f_equal.
      * f_equal. unfold frame_block.
        replace (skip * 7 + iz * 7 - 5 - 7) with (7 * (skip + iz - 1) - 5)
          by lia.
        rewrite !(src_local_frame t payload L (skip + iz - 1)) by lia.
        reflexivity.
      * unfold frame_event.
        replace (skip + iz - 1 =? 0) with false
          by (symmetry; apply Z.eqb_neq; lia).
        reflexivity.
    + (* header block *)
      assert (skip = 0 /\ iz = 1) as [-> Hiz] by lia.
      unfold write_encode_bytes_with_header in Hw.
      destruct (negb (presence_any (cells m) (base + (iz - 1) * 8) =? 0));
        [cbn in Hw; discriminate|].
      cbn [fst snd negb Z.eqb] in Hw.
      apply IH in Hw; [|assumption|lia|lia|lia]. subst m'. f_equal. f_equal.
      * f_equal. unfold frame_block. rewrite Hiz.
        change (0 + 1 - 1) with 0. change (7 * 0 + 0) with 0.
        change (7 * 0 + 1) with 1. change (7 * 0 + 2) with 2.
        change (7 * 0 + 3) with 3. change (7 * 0 + 4) with 4.
        change (7 * 0 + 5) with 5. change (7 * 0 + 6) with 6.
        change (0 * 7 + 1 * 7 - 5) with 2.
        destruct (hdr_locals_frame t payload L HLen ltac:(lia)) as [E5 E6].
        rewrite E5, E6.
        rewrite (u64_small (L + 5)), (u32_small (L + 5)) by lia.
        unfold frame_byte, HDR. rewrite <- HLen. reflexivity.
      * unfold frame_event. rewrite Hiz. reflexivity.
Qed.

Lemma frame_block_length t payload k :
  length (frame_block t payload k) = 8%nat.
Proof. reflexivity. Qed.

Lemma length_frame_stores t payload base skip i : forall m,
  length (cells (frame_stores i m base skip t payload)) = length (cells m).
Proof.
  induction i as [|i IH]; intros m; cbn [frame_stores]; [reflexivity|].
  rewrite IH. cbn [cells]. apply length_store_bytes.
Qed.

(** The cells after the stores of a loop: block [skip + (q - base) / 8]
    of the request wherever the loop stored, the old cell elsewhere. *)
Lemma peek_frame_stores t payload base skip i : forall m q,
  0 <= base -> base + 8 * Z.of_nat i <= Z.of_nat (length (cells m)) ->
  0 <= q ->
  peek (cells (frame_stores i m base skip t payload)) q =
    if (base <=? q) && (q <? base + 8 * Z.of_nat i)
    then peek (frame_block t payload (skip + (q - base) / 8)) ((q - base) mod 8)
    else peek (cells m) q.
Proof.
  induction i as [|i IH]; intros m q Hb Hlen Hq.
  - cbn [frame_stores].
    destruct (Z.leb_spec base q), (Z.ltb_spec q (base + 8 * Z.of_nat 0));
      cbn [andb]; try reflexivity; lia.
  - cbn [frame_stores]. unfold EIGHT.
    rewrite IH by (cbn [cells]; rewrite ?length_store_bytes; lia).
    cbn [cells].
    rewrite peek_store_bytes by (rewrite ?frame_block_length; lia).
    rewrite frame_block_length.
    destruct (Z.leb_spec base q), (Z.ltb_spec q (base + 8 * Z.of_nat i));
      destruct (Z.ltb_spec q (base + 8 * Z.of_nat (S i)));
      destruct (Z.leb_spec (base + (Z.of_nat (S i) - 1) * 8) q);
      destruct (Z.ltb_spec q (base + (Z.of_nat (S i) - 1) * 8 + Z.of_nat 8));
      cbn [andb]; try lia; try reflexivity.
    f_equal.
    + f_equal. Z.div_mod_to_equations. lia.
    + Z.div_mod_to_equations. lia.
Qed.

Lemma journal_frame_stores t payload base skip i : forall m,
  journal (frame_stores i m base skip t payload) =
    ((fun j => frame_event (skip + Z.of_nat j - 1)
                 (base + (Z.of_nat j - 1) * 8)) <$> seq 1 i)
    ++ journal m.
Proof.
  induction i as [|i IH]; intros m; cbn [frame_stores]; [reflexivity|].
  rewrite IH. cbn [journal]. rewrite seq_S, fmap_app, <- app_assoc.
  reflexivity.
Qed.

(** Over a destination whose presence bits are clear, a loop of
    [memipc_add_req] succeeds. *)
Lemma write_blocks_clear t payload L base skip i : forall m,
  L = Z.of_nat (length payload) ->
  L + HDR < 2 ^ 32 -> 0 <= skip ->
  skip + Z.of_nat i <= blocks_for (L + HDR) ->
  0 <= base -> base + 8 * Z.of_nat i <= Z.of_nat (length (cells m)) ->
  (forall q, base <= q < base + 8 * Z.of_nat i ->
     Z.odd (peek (cells m) q) = false) ->
  write_blocks i m base skip t L payload
  = (0, frame_stores i m base skip t payload).
Proof.
  induction i as [|i IH]; intros m HLen HL Hskip Hcount Hb Hlen Hclear.
  - reflexivity.
  - assert (exists m1, write_blocks (S i) m base skip t L payload = (0, m1))
      as [m1 Hm1].
    { cbn [write_blocks]. unfold EIGHT.
      set (dst := base + (Z.of_nat (S i) - 1) * 8).
      assert (presence_any (cells m) dst = 0) as Hp.
      { apply presence_any_zero. intros k Hk. apply Hclear.
        unfold dst. lia. }
      set (r := if SEVEN <=? _ then _ else _).
      assert (exists c, r = (0, Shmem (store_bytes (cells m) dst c)
                                  (journal r.2))
                        /\ length c = 8%nat) as (c & Hr & Hc).
      { unfold r. destruct (SEVEN <=? _);
          unfold write_encode_bytes, write_encode_bytes_with_header;
          rewrite Hp; cbn [Z.eqb negb]; eexists; split;
          reflexivity. }
      rewrite Hr. cbn [fst snd negb Z.eqb].
      rewrite IH; [eexists; reflexivity|assumption|lia|lia|lia|lia
                  |cbn [cells]; rewrite length_store_bytes; lia|].
      intros q Hq. cbn [cells].
      rewrite peek_store_bytes by lia. rewrite Hc.
      destruct (Z.leb_spec dst q), (Z.ltb_spec q (dst + Z.of_nat 8));
        cbn [andb]; try (apply Hclear; lia).
      unfold dst in *. lia. }
    rewrite Hm1. f_equal.
    eapply write_blocks_success; eauto.
Qed.

(** ** Enqueueing into an idle ring *)

Lemma aligned_div8 x : x mod 8 = 0 -> 8 * (x / 8) = x.
Proof. intros H. Z.div_mod_to_equations. lia. Qed.

(** [memipc_add_req] on an idle ring, evaluated: it is refused exactly
    when the request needs more blocks than the area has, and otherwise
    makes the stores of the wrapped loop, then those of the direct loop. *)
Lemma add_req_idle_eval sz p W R m my_pid t payload L :
  ring_idle sz p W R m -> writer W = my_pid ->
  L = Z.of_nat (length payload) -> L < 2 ^ 63 ->
  let c := blocks_for (L + HDR) in
  let a1 := (sz - p) / 8 in
  let W0 := MemipcArea p p sz 0 (writer W) (reader W) in
  memipc_add_req my_pid W m t L payload =
    if sz / 8 <? c then (-1, W0, m)
    else
      (0, MemipcArea ((p + 8 * c) mod sz) p sz (8 * c) (writer W) (reader W),
       if a1 <? c
       then frame_stores (Z.to_nat a1)
              (frame_stores (Z.to_nat (c - a1)) m 0 a1 t payload)
              p 0 t payload
       else frame_stores (Z.to_nat c) m p 0 t payload).
Proof.
  intros [Hsz Hsz8 Hlen Hclear Hp Hp8 HWs HWw HWr HWi HWrel HRs HRr HRw HRi]
    Hpid HL HL63 c a1 W0.
  assert (0 <= L) as HL0 by lia.
  pose proof (blocks_for_bounds (L + HDR) ltac:(unfold HDR; lia)) as Hc.
  fold c in Hc. unfold HDR in Hc.
  pose proof (aligned_div8 sz Hsz8) as Esz.
  pose proof (aligned_div8 p Hp8) as Ep.
  assert ((sz - p) mod 8 = 0) as Hsp8.
  { rewrite Zminus_mod, Hsz8, Hp8. reflexivity. }
  pose proof (aligned_div8 (sz - p) Hsp8) as Ea1. fold a1 in Ea1.
  unfold memipc_add_req. subst my_pid.
  rewrite Z.eqb_refl. cbn [negb].
  rewrite (u32_small (inbuffer W)) by lia.
  rewrite HWs.
  rewrite (scan_released_clear (cells m) sz (Z.to_nat (inbuffer W))
             (rptr W) (inbuffer W)) by (try assumption; lia).
  rewrite HWrel. cbv beta iota zeta.
  cbn [wptr rptr size inbuffer writer reader].
  rewrite HWw. fold W0.
  replace (0 =? sz) with false by (symmetry; apply Z.eqb_neq; lia).
  rewrite (u64_small (L + HDR)) by (unfold HDR; lia).
  fold c. rewrite Z.ltb_irrefl. unfold EIGHT. fold a1.
  replace (a1 + p / 8) with (sz / 8) by lia.
  destruct (Z.ltb_spec (sz / 8) c) as [Hfull|Hfit]; [reflexivity|].
  assert (L + HDR < 2 ^ 32) as HL32 by (unfold HDR; lia).
  destruct (Z.ltb_spec a1 c) as [Hwrap|Hdirect].
  - (* the request wraps *)
    rewrite (u32_small (c - a1)) by lia.
    rewrite (write_blocks_clear t payload L 0 a1 (Z.to_nat (c - a1)) m)
      by (try assumption; try lia; intros q Hq; apply Hclear; lia).
    cbn [fst snd negb Z.eqb].
    rewrite (u32_small a1) by lia.
    rewrite (write_blocks_clear t payload L p 0 (Z.to_nat a1))
      by (try assumption; rewrite ?length_frame_stores; try lia;
          intros q Hq;
          rewrite peek_frame_stores by lia;
          destruct (Z.leb_spec 0 q), (Z.ltb_spec q (0 + 8 * Z.of_nat (Z.to_nat (c - a1))));
          cbn [andb]; try lia; apply Hclear; lia).
    cbn [fst snd negb Z.eqb].
    f_equal. f_equal. f_equal.
    + symmetry. rewrite mod_small_wrap by lia.
      destruct (Z.ltb_spec (p + 8 * c) sz); lia.
    + lia.
  - (* the request fits before the end of the area *)
    cbn [fst snd negb Z.eqb].
    rewrite (u32_small c) by lia.
    rewrite (write_blocks_clear t payload L p 0 (Z.to_nat c))
      by (try assumption; try lia; intros q Hq; apply Hclear; lia).
    cbn [fst snd negb Z.eqb].
    f_equal. f_equal. f_equal.
    + rewrite mod_small_wrap by lia.
      destruct (Z.leb_spec sz (p + c * 8)), (Z.ltb_spec (p + 8 * c) sz); lia.
    + lia.
Qed.

(** The cells an accepted request leaves in an idle ring. *)
Lemma add_req_idle_carries sz p W R m t payload L :
  ring_idle sz p W R m ->
  L = Z.of_nat (length payload) ->
  let c := blocks_for (L + HDR) in
  let a1 := (sz - p) / 8 in
  c <= sz / 8 ->
  ring_carries sz p
    (cells (if a1 <? c
            then frame_stores (Z.to_nat a1)
                   (frame_stores (Z.to_nat (c - a1)) m 0 a1 t payload)
                   p 0 t payload
            else frame_stores (Z.to_nat c) m p 0 t payload))
    t payload.
Proof.
  intros [Hsz Hsz8 Hlen Hclear Hp Hp8 HWs HWw HWr HWi HWrel HRs HRr HRw HRi]
    HL c a1 Hfit.
  assert (0 <= L) as HL0 by lia.
  pose proof (blocks_for_bounds (L + HDR) ltac:(unfold HDR; lia)) as Hc.
  fold c in Hc. unfold HDR in Hc.
  pose proof (aligned_div8 sz Hsz8) as Esz.
  pose proof (aligned_div8 p Hp8) as Ep.
  assert ((sz - p) mod 8 = 0) as Hsp8.
  { rewrite Zminus_mod, Hsz8, Hp8. reflexivity. }
  pose proof (aligned_div8 (sz - p) Hsp8) as Ea1. fold a1 in Ea1.
  unfold ring_carries. rewrite <- HL. fold c.
  destruct (Z.ltb_spec a1 c) as [Hwrap|Hdirect].
  - split; [rewrite !length_frame_stores; exact Hlen|].
    split; intros j Hj.
    + rewrite mod_small_wrap by lia.
      rewrite !peek_frame_stores
        by (rewrite ?length_frame_stores;
            try (destruct (Z.ltb_spec (p + j) sz)); lia).
      destruct (Z.ltb_spec (p + j) sz) as [Hlo|Hhi].
      * replace ((p <=? p + j) && (p + j <? p + 8 * Z.of_nat (Z.to_nat a1)))
          with true
          by (symmetry; apply andb_true_iff; split;
              [apply Z.leb_le|apply Z.ltb_lt]; lia).
        f_equal; [f_equal|]; Z.div_mod_to_equations; lia.
      * replace ((p <=? p + j - sz)
                 && (p + j - sz <? p + 8 * Z.of_nat (Z.to_nat a1)))
          with false
          by (symmetry; apply andb_false_iff; left; apply Z.leb_gt; lia).
        replace ((0 <=? p + j - sz)
                 && (p + j - sz <? 0 + 8 * Z.of_nat (Z.to_nat (c - a1))))
          with true
          by (symmetry; apply andb_true_iff; split;
              [apply Z.leb_le|apply Z.ltb_lt]; lia).
        f_equal; [f_equal|]; Z.div_mod_to_equations; lia.
    + rewrite mod_small_wrap by lia.
      rewrite !peek_frame_stores
        by (rewrite ?length_frame_stores;
            try (destruct (Z.ltb_spec (p + j) sz)); lia).
      destruct (Z.ltb_spec (p + j) sz) as [Hlo|Hhi]; [lia|].
      replace ((p <=? p + j - sz)
               && (p + j - sz <? p + 8 * Z.of_nat (Z.to_nat a1)))
        with false
        by (symmetry; apply andb_false_iff; left; apply Z.leb_gt; lia).
      replace ((0 <=? p + j - sz)
               && (p + j - sz <? 0 + 8 * Z.of_nat (Z.to_nat (c - a1))))
        with false
        by (symmetry; apply andb_false_iff; right; apply Z.ltb_ge; lia).
      apply Hclear. lia.
  - split; [rewrite !length_frame_stores; exact Hlen|].
    split; intros j Hj.
    + rewrite mod_small_wrap by lia.
      replace (p + j <? sz) with true by (symmetry; apply Z.ltb_lt; lia).
      rewrite peek_frame_stores by lia.
      replace ((p <=? p + j) && (p + j <? p + 8 * Z.of_nat (Z.to_nat c)))
        with true
        by (symmetry; apply andb_true_iff; split;
            [apply Z.leb_le|apply Z.ltb_lt]; lia).
      f_equal; [f_equal|]; Z.div_mod_to_equations; lia.
    + rewrite mod_small_wrap by lia.
      rewrite peek_frame_stores
        by (try (destruct (Z.ltb_spec (p + j) sz)); lia).
      destruct (Z.ltb_spec (p + j) sz) as [Hlo|Hhi].
      * replace ((p <=? p + j) && (p + j <? p + 8 * Z.of_nat (Z.to_nat c)))
          with false
          by (symmetry; apply andb_false_iff; right; apply Z.ltb_ge; lia).
        apply Hclear. lia.
      * replace ((p <=? p + j - sz)
                 && (p + j - sz <? p + 8 * Z.of_nat (Z.to_nat c)))
          with false
          by (symmetry; apply andb_false_iff; left; apply Z.leb_gt; lia).
        apply Hclear. lia.
Qed.

(** ** The consumer *)

Lemma testbit_above32 x n : 0 <= x < 2 ^ 32 -> 32 <= n -> Z.testbit x n = false.
Proof.
  intros Hx Hn. rewrite <- (Z.mod_small x (2 ^ 32)) by lia.
  apply Z.mod_pow2_bits_high. lia.
Qed.

(** One byte of a 32-bit value, put back at its place. *)
Lemma testbit_size_byte x s n :
  0 <= s -> 0 <= n -> s + 8 <= 32 ->
  Z.testbit (u32 (Z.shiftl (u8 (Z.land (Z.shiftr x s) 0xff)) s)) n
  = (s <=? n) && (n <? s + 8) && Z.testbit x n.
Proof.
  intros Hs Hn Hs8. unfold u32, u8.
  change 0xff with (Z.ones 8). rewrite Z.land_ones by lia.
  change 256 with (2 ^ 8).
  rewrite Z.testbit_mod_pow2 by lia.
  rewrite Z.shiftl_spec by lia.
  destruct (Z.leb_spec s n) as [Hle|Hgt].
  - rewrite !Z.testbit_mod_pow2 by lia.
    rewrite Z.shiftr_spec by lia.
    replace (n - s + s) with n by lia.
    destruct (Z.ltb_spec n 32), (Z.ltb_spec (n - s) 8), (Z.ltb_spec n (s + 8));
      cbn [andb]; try reflexivity; lia.
  - rewrite Z.testbit_neg_r by lia. rewrite andb_false_r. reflexivity.
Qed.

(** The total size read back from the four size bytes of the frame. *)
Lemma size_bytes_join x :
  0 <= x < 2 ^ 32 ->
  Z.lor (Z.lor (Z.lor
    (u32 (Z.shiftl (u8 (Z.land (Z.shiftr x 24) 0xff)) 24))
    (u32 (Z.shiftl (u8 (Z.land (Z.shiftr x 16) 0xff)) 16)))
    (u32 (Z.shiftl (u8 (Z.land (Z.shiftr x 8) 0xff)) 8)))
    (u32 (u8 (Z.land (Z.shiftr x 0) 0xff))) = x.
Proof.
  intros Hx.
  rewrite <- (Z.shiftl_0_r (u8 (Z.land (Z.shiftr x 0) 0xff))).
  apply Z.bits_inj'. intros n Hn.
  rewrite !Z.lor_spec, !testbit_size_byte by lia.
  destruct (Z.ltb_spec n 32) as [Hlt|Hge].
  - destruct (Z.testbit x n); rewrite ?andb_false_r; [|reflexivity].
    rewrite !andb_true_r.
    destruct (Z.leb_spec 24 n), (Z.leb_spec 16 n), (Z.leb_spec 8 n),
      (Z.leb_spec 0 n), (Z.ltb_spec n (24 + 8)), (Z.ltb_spec n (16 + 8)),
      (Z.ltb_spec n (8 + 8)), (Z.ltb_spec n (0 + 8));
      cbn [andb orb]; try reflexivity; lia.
  - rewrite (testbit_above32 x n) by lia. rewrite !andb_false_r. reflexivity.
Qed.

Lemma to_char_u8 t : 0 <= t < 128 -> to_char (u8 (to_char t)) = t.
Proof.
  intros Ht.
  assert (to_char t = t) as E.
  { unfold to_char. rewrite (Z.mod_small t 256) by lia.
    replace (t <? 128) with true by (symmetry; apply Z.ltb_lt; lia).
    reflexivity. }
  rewrite E. unfold u8. rewrite (Z.mod_small t 256) by lia. exact E.
Qed.

Lemma req_code_range k : 0 <= req_code k < 128.
Proof. destruct k; cbn; lia. Qed.

Lemma frame_block_odd t payload k j :
  0 <= j < 8 -> Z.odd (peek (frame_block t payload k) j) = true.
Proof. intros Hj. unfold frame_block. apply encode7_odd, Hj. Qed.

(** Over a ring that carries one request, the consumer's scan from the
    start of the request stops right after its last block. *)
Lemma scan_written_carries sz p cs t payload c fuel : forall j,
  ring_carries sz p cs t payload ->
  c = blocks_for (Z.of_nat (length payload) + HDR) ->
  0 < sz -> 8 * c <= sz ->
  Z.of_nat fuel = sz - j -> 0 <= j <= 8 * c ->
  scan_written fuel cs sz ((p + j) mod sz) j = ((p + 8 * c) mod sz, 8 * c).
Proof.
  induction fuel as [|fuel IH]; intros j Hcar Hc Hsz Hfit Hfuel Hj.
  - cbn. assert (j = 8 * c) as -> by lia. reflexivity.
  - cbn [scan_written].
    destruct Hcar as (Hlen & Hin & Hout). rewrite <- Hc in Hin, Hout.
    destruct (Z.eq_dec j (8 * c)) as [->|Hne].
    + rewrite land_1_odd, Hout by lia. reflexivity.
    + rewrite land_1_odd, Hin by lia.
      rewrite frame_block_odd by (apply Z.mod_pos_bound; lia).
      cbn [Z.eqb Pos.eqb andb].
      replace (j <? sz) with true by (symmetry; apply Z.ltb_lt; lia).
      rewrite step_wrap by (try apply Z.mod_pos_bound; lia).
      rewrite Z.add_mod_idemp_l by lia.
      replace (p + j + 1) with (p + (j + 1)) by lia.
      apply IH; try assumption; try lia.
      split; [exact Hlen|]. rewrite <- Hc. split; assumption.
Qed.

Lemma carries_block_direct sz p cs t payload k :
  ring_carries sz p cs t payload ->
  0 <= p -> 0 <= k < blocks_for (Z.of_nat (length payload) + HDR) ->
  p + 8 * k + 8 <= sz ->
  block_holds cs (p + k * 8) (frame_block t payload k).
Proof.
  intros (Hlen & Hin & Hout) Hp Hk Hfit j Hj.
  specialize (Hin (8 * k + j) ltac:(lia)).
  rewrite Z.mod_small in Hin by lia.
  replace (p + k * 8 + j) with (p + (8 * k + j)) by lia.
  rewrite Hin. f_equal; [f_equal|]; Z.div_mod_to_equations; lia.
Qed.

Lemma carries_block_wrapped sz p cs t payload k :
  ring_carries sz p cs t payload ->
  0 <= p < sz -> 0 <= k < blocks_for (Z.of_nat (length payload) + HDR) ->
  sz <= p + 8 * k -> p + 8 * k + 8 <= 2 * sz ->
  block_holds cs (p + 8 * k - sz) (frame_block t payload k).
Proof.
  intros (Hlen & Hin & Hout) Hp Hk Hw Hfit j Hj.
  specialize (Hin (8 * k + j) ltac:(lia)).
  rewrite mod_small_wrap in Hin by lia.
  replace (p + (8 * k + j) <? sz) with false in Hin
    by (symmetry; apply Z.ltb_ge; lia).
  replace (p + 8 * k - sz + j) with (p + (8 * k + j) - sz) by lia.
  rewrite Hin. f_equal; [f_equal|]; Z.div_mod_to_equations; lia.
Qed.

(** Decoding a block that holds block [k] of a frame gives the bytes of
    the frame. *)
Lemma decode_frame_block cs src t payload k j :
  Forall is_byte payload ->
  block_holds cs src (frame_block t payload k) -> 0 <= j < 7 ->
  decode_raw j (fun i => peek cs (src + i)) = frame_byte t payload (7 * k + j).
Proof.
  intros Hpay Hb Hj.
  rewrite (decode_raw_encode7
             (frame_byte t payload (7 * k + 0)) (frame_byte t payload (7 * k + 1))
             (frame_byte t payload (7 * k + 2)) (frame_byte t payload (7 * k + 3))
             (frame_byte t payload (7 * k + 4)) (frame_byte t payload (7 * k + 5))
             (frame_byte t payload (7 * k + 6)));
    try (apply frame_byte_is_byte; assumption); try assumption.
  assert (j = 0 \/ j = 1 \/ j = 2 \/ j = 3 \/ j = 4 \/ j = 5 \/ j = 6)
    as [->|[->|[->|[->|[->|[->| ->]]]]]] by lia; reflexivity.
Qed.

Lemma block_holds_presence cs src t payload k :
  block_holds cs src (frame_block t payload k) -> presence_all cs src = 1.
Proof.
  intros Hb. apply presence_all_one. intros j Hj.
  rewrite Hb by exact Hj. apply frame_block_odd, Hj.
Qed.

Lemma frame_byte_payload t payload x :
  5 <= x -> frame_byte t payload x = peek payload (x - 5).
Proof.
  intros Hx. unfold frame_byte.
  replace (x =? 0) with false by (symmetry; apply Z.eqb_neq; lia).
  replace (x <? 5) with false by (symmetry; apply Z.ltb_ge; lia).
  reflexivity.
Qed.

Lemma peek_is_byte (l : list Z) q : Forall is_byte l -> is_byte (peek l q).
Proof.
  intros Hl. unfold peek. destruct (l !! Z.to_nat q) as [b|] eqn:E; cbn.
  - rewrite Forall_forall in Hl. apply Hl, list_elem_of_lookup. eauto.
  - unfold is_byte. lia.
Qed.

(** The header block of a frame, read by [read_decode_bytes_with_header]
    with room for the two payload bytes it shares with the header. *)
Lemma read_header_frame dst cs src t payload L ty0 ms0 :
  Forall is_byte payload -> L = Z.of_nat (length payload) ->
  L + HDR < 2 ^ 32 -> 0 <= t < 128 ->
  block_holds cs src (frame_block t payload 0) ->
  read_decode_bytes_with_header dst cs src (SEVEN - HDR) ty0 ms0
  = (0, poke (poke dst 1 (peek payload 1)) 0 (peek payload 0), t, L + HDR).
Proof.
  intros Hpay HL HL32 Ht Hb. unfold read_decode_bytes_with_header.
  rewrite (block_holds_presence _ _ _ _ _ Hb).
  change (SEVEN - HDR) with 2. cbn [Z.eqb Pos.eqb negb orb].
  unfold decode_at.
  rewrite !(decode_frame_block cs src t payload 0) by (try assumption; lia).
  change (7 * 0 + 0) with 0. change (7 * 0 + 1) with 1.
  change (7 * 0 + 2) with 2. change (7 * 0 + 3) with 3.
  change (7 * 0 + 4) with 4. change (7 * 0 + 5) with 5.
  change (7 * 0 + 6) with 6.
  rewrite !(frame_byte_payload t payload) by lia.
  change (6 - 5) with 1. change (5 - 5) with 0.
  rewrite !u8_small by (apply peek_is_byte; assumption).
  f_equal; [f_equal|].
  - unfold frame_byte. cbn [Z.eqb]. apply to_char_u8, Ht.
  - unfold frame_byte. rewrite <- HL.
    change (4 =? 0) with false. change (3 =? 0) with false.
    change (2 =? 0) with false. change (1 =? 0) with false.
    change (4 <? 5) with true. change (3 <? 5) with true.
    change (2 <? 5) with true. change (1 <? 5) with true.
    change (8 * (4 - 1)) with 24. change (8 * (3 - 1)) with 16.
    change (8 * (2 - 1)) with 8. change (8 * (1 - 1)) with 0.
    cbv iota. apply size_bytes_join. unfold HDR in *. lia.
Qed.

(** A decode loop of [memipc_get_req] over blocks that hold consecutive
    blocks of a frame extends the payload prefix in the destination. *)
Lemma read_blocks_frame cs t payload L base skip c n : forall i dst dstptr,
  Forall is_byte payload -> L = Z.of_nat (length payload) ->
  L + HDR < 2 ^ 32 -> c = blocks_for (L + HDR) ->
  (forall i', i <= i' < i + Z.of_nat n ->
     block_holds cs (base + i' * 8) (frame_block t payload (skip + i'))) ->
  1 <= skip + i -> skip + i + Z.of_nat n <= c ->
  (skip + i < c -> dstptr = 7 * (skip + i) - 5) ->
  L <= Z.of_nat (length dst) ->
  (forall q, 0 <= q < L -> q < 7 * (skip + i) - 5 ->
     peek dst q = peek payload q) ->
  exists dst' dstptr',
    read_blocks n i cs base skip (L + HDR) dst dstptr = (0, dst', dstptr') /\
    length dst' = length dst /\
    (skip + i + Z.of_nat n < c -> dstptr' = 7 * (skip + i + Z.of_nat n) - 5) /\
    (forall q, 0 <= q < L -> q < 7 * (skip + i + Z.of_nat n) - 5 ->
       peek dst' q = peek payload q).
Proof.
  induction n as [|n IH];
    intros i dst dstptr Hpay HL HL32 Hc Hblk Hk1 Hkc Hptr Hlen Hpre.
  - cbn [read_blocks]. exists dst, dstptr.
    split; [reflexivity|]. split; [reflexivity|].
    split; [intros; rewrite Hptr by lia; lia|].
    intros q Hq Hq2. apply Hpre; lia.
  - cbn [read_blocks]. unfold SEVEN, EIGHT.
    assert (0 <= L) as HL0 by lia.
    pose proof (blocks_for_bounds (L + HDR) ltac:(unfold HDR; lia)) as Hb.
    rewrite <- Hc in Hb. unfold HDR in *.
    set (k := skip + i) in *.
    assert (k <= c - 1) as Hkc1 by lia.
    specialize (Hptr ltac:(lia)). subst dstptr.
    rewrite (u64_small (L + 5 - k * 7)) by lia.
    set (dstsize := if 7 <? L + 5 - k * 7 then 7 else L + 5 - k * 7).
    assert (1 <= dstsize <= 7 /\ dstsize <= L + 5 - k * 7) as Hds.
    { unfold dstsize. destruct (Z.ltb_spec 7 (L + 5 - k * 7)); lia. }
    rewrite (u32_small dstsize) by lia.
    assert (block_holds cs (base + i * 8) (frame_block t payload k)) as Hbk
      by (apply Hblk; lia).
    destruct (read_decode_bytes_ready dst (7 * k - 5) cs (base + i * 8) dstsize)
      as (dst1 & Hrd & Hlen1 & Hpeek1);
      [eapply block_holds_presence; exact Hbk|lia|lia|lia|].
    rewrite Hrd. cbn [fst snd negb Z.eqb].
    destruct (IH (i + 1) dst1 (7 * k - 5 + dstsize)) as (dst' & ptr' & E & El & Ep & Eq);
      try assumption.
    + intros i' Hi'. replace (skip + i') with (skip + i') by lia.
      apply Hblk. lia.
    + lia.
    + lia.
    + intros Hlt. unfold dstsize.
      destruct (Z.ltb_spec 7 (L + 5 - k * 7)); lia.
    + lia.
    + intros q Hq Hq2. rewrite Hpeek1 by lia.
      destruct (Z.leb_spec (7 * k - 5) q), (Z.ltb_spec q (7 * k - 5 + dstsize));
        cbn [andb]; try (apply Hpre; lia).
      * unfold decode_at.
        rewrite (decode_frame_block cs (base + i * 8) t payload k)
          by (try assumption; lia).
        rewrite frame_byte_payload by lia.
        rewrite u8_small by (apply peek_is_byte; assumption).
        f_equal. lia.
      * unfold dstsize in *.
        destruct (Z.ltb_spec 7 (L + 5 - k * 7)); lia.
    + exists dst', ptr'. split; [exact E|]. split; [congruence|].
      split.
      * intros Hlt. rewrite Ep by lia. lia.
      * intros q Hq Hq2. apply Eq; lia.
Qed.

Lemma take_of_peek (l payload : list Z) :
  Z.of_nat (length payload) <= Z.of_nat (length l) ->
  (forall q, 0 <= q < Z.of_nat (length payload) -> peek l q = peek payload q) ->
  take (length payload) l = payload.
Proof.
  intros Hlen Hpeek. apply list_eq. intros i.
  destruct (decide (i < length payload)%nat) as [Hi|Hi].
  - rewrite lookup_take_lt by lia.
    specialize (Hpeek (Z.of_nat i) ltac:(lia)). unfold peek in Hpeek.
    rewrite Nat2Z.id in Hpeek.
    destruct (lookup_lt_is_Some_2 l i ltac:(lia)) as [a Ha].
    destruct (lookup_lt_is_Some_2 payload i ltac:(lia)) as [b Hb].
    rewrite Ha, Hb in *. cbn in Hpeek. congruence.
  - rewrite lookup_take_ge by lia.
    rewrite lookup_ge_None_2 by lia. reflexivity.
Qed.

(** ** Dequeueing the request an idle ring was given *)

Lemma carries_outside sz p cs t payload q :
  ring_carries sz p cs t payload -> 0 <= p < sz -> 0 <= q < sz ->
  (if q <? p then q + sz - p else q - p)
    >= 8 * blocks_for (Z.of_nat (length payload) + HDR) ->
  Z.odd (peek cs q) = false.
Proof.
  intros (Hlen & Hin & Hout) Hp Hq Hj.
  destruct (Z.ltb_spec q p).
  - specialize (Hout (q + sz - p) ltac:(lia)).
    rewrite mod_small_wrap in Hout by lia.
    replace (p + (q + sz - p) <? sz) with false in Hout
      by (symmetry; apply Z.ltb_ge; lia).
    replace (p + (q + sz - p) - sz) with q in Hout by lia. exact Hout.
  - specialize (Hout (q - p) ltac:(lia)).
    rewrite Z.mod_small in Hout by lia.
    replace (p + (q - p)) with q in Hout by lia. exact Hout.
Qed.

Lemma s64_small x : 0 <= x < 2 ^ 63 -> s64 x = x.
Proof.
  intros Hx. unfold s64. rewrite Z.mod_small by lia.
  replace (x <? 2 ^ 63) with true by (symmetry; apply Z.ltb_lt; lia).
  reflexivity.
Qed.

Section GetCarries.

Variables (sz p : Z) (R : memipc_area) (cs : list Z) (jr : list store_event).
Variables (my_pid t : Z) (payload : list Z) (L c cap ty0 : Z) (buf : list Z).

Hypothesis Hcar : ring_carries sz p cs t payload.
Hypothesis Hsz : 8 <= sz < 2 ^ 32.
Hypothesis Hsz8 : sz mod 8 = 0.
Hypothesis Hp : 0 <= p < sz.
Hypothesis Hp8 : p mod 8 = 0.
Hypothesis HRs : size R = sz.
Hypothesis HRr : rptr R = p.
Hypothesis HRw : wptr R = p.
Hypothesis HRi : inbuffer R = 0.
Hypothesis HRpid : reader R = my_pid.
Hypothesis Hpay : Forall is_byte payload.
Hypothesis HL : L = Z.of_nat (length payload).
Hypothesis Hc : c = blocks_for (L + HDR).
Hypothesis Hfit : c <= sz / 8.
Hypothesis Ht : 0 <= t < 128.
Hypothesis Hcap : L <= cap < 2 ^ 63 - 5.
Hypothesis Hbuf2 : 2 <= Z.of_nat (length buf).
Hypothesis HbufL : L <= Z.of_nat (length buf).

Let R1 : memipc_area :=
  MemipcArea ((p + 8 * c) mod sz) p sz (8 * c) (writer R) (reader R).
Let data1 : list Z := poke (poke buf 1 (peek payload 1)) 0 (peek payload 0).

Lemma get_carries_facts :
  0 <= L /\ 7 * (c - 1) < L + 5 <= 7 * c /\ 1 <= c /\
  8 * (sz / 8) = sz /\ 8 * (p / 8) = p /\ 8 * ((sz - p) / 8) = sz - p /\
  L + HDR < 2 ^ 32.
Proof.
  assert (0 <= L) as HL0 by lia.
  pose proof (blocks_for_bounds (L + HDR) ltac:(unfold HDR; lia)) as Hb.
  rewrite <- Hc in Hb. unfold HDR in *.
  pose proof (aligned_div8 sz Hsz8). pose proof (aligned_div8 p Hp8).
  assert ((sz - p) mod 8 = 0) as Hsp8
    by (rewrite Zminus_mod, Hsz8, Hp8; reflexivity).
  pose proof (aligned_div8 (sz - p) Hsp8).
  repeat split; lia.
Qed.

Lemma data1_prefix q :
  0 <= q < L -> q < 2 -> peek data1 q = peek payload q.
Proof.
  intros Hq Hq2. unfold data1.
  rewrite !peek_poke by (rewrite ?length_poke; lia).
  destruct (Z.eqb_spec q 0) as [->|]; [reflexivity|].
  destruct (Z.eqb_spec q 1) as [->|]; [reflexivity|]. lia.
Qed.

Lemma data1_length : length data1 = length buf.
Proof. unfold data1. rewrite !length_poke. reflexivity. Qed.

(** Up to the point where the header has been read and accepted. *)
Lemma get_req_carries_head :
  memipc_get_req my_pid R (Shmem cs jr) ty0 cap buf =
    if L + HDR <=? SEVEN then
      let r1 := rptr R1 + EIGHT in
      let r1 := if sz <=? r1 then 0 else r1 in
      GetResult 0 (MemipcArea (wptr R1) r1 sz (inbuffer R1 - EIGHT)
                     (writer R) (reader R))
        (Shmem (memipc_clearmem cs p (Z.to_nat EIGHT)) jr) t L data1
    else
      let bc1_0 := (sz - p) / EIGHT in
      let blocks_count_1 := if c <=? bc1_0 then c else bc1_0 in
      let blocks_count_2 := if c <=? bc1_0 then 0 else c - bc1_0 in
      let '(rc1, data2, dstptr1) :=
        read_blocks (Z.to_nat (blocks_count_1 - 1)) 1 cs p 0 (L + HDR)
          data1 (SEVEN - HDR) in
      if negb (rc1 =? 0) then GetResult (-1) R1 (Shmem cs jr) t L data2
      else
        let curr_rptr := p + blocks_count_1 * EIGHT in
        let wraps := sz <=? curr_rptr in
        let '(rc2, data3, _) :=
          if wraps && (0 <? blocks_count_2) then
            read_blocks (Z.to_nat blocks_count_2) 0 cs 0 blocks_count_1
              (L + HDR) data2 dstptr1
          else (0, data2, dstptr1) in
        if negb (rc2 =? 0) then GetResult (-1) R1 (Shmem cs jr) t L data3
        else
          let curr_rptr :=
            if wraps then
              if 0 <? blocks_count_2 then blocks_count_2 * EIGHT else 0
            else curr_rptr in
          let cells1 :=
            if wraps && (0 <? blocks_count_2) then
              memipc_clearmem cs 0 (Z.to_nat (blocks_count_2 * EIGHT))
            else cs in
          let cells2 :=
            memipc_clearmem cells1 p (Z.to_nat (blocks_count_1 * EIGHT)) in
          GetResult 0
            (MemipcArea (wptr R1) curr_rptr sz (inbuffer R1 - c * EIGHT)
               (writer R) (reader R))
            (Shmem cells2 jr) t L data3.
Proof.
  destruct get_carries_facts as (HL0 & Hb & Hc1 & Esz & Ep & Ea1 & HL32).
  unfold memipc_get_req.
  rewrite <- HRpid, Z.eqb_refl. cbn [negb cells journal].
  rewrite HRi, HRs, HRw, HRr. rewrite (u32_small 0) by lia.
  replace (scan_written (Z.to_nat (sz - 0)) cs sz p 0)
    with ((p + 8 * c) mod sz, 8 * c).
  2:{ symmetry.
      rewrite <- (scan_written_carries sz p cs t payload c
                    (Z.to_nat (sz - 0)) 0); try assumption; try lia.
      - rewrite Z.add_0_r, Z.mod_small by lia. reflexivity.
      - rewrite Hc, HL. reflexivity. }
  cbv beta iota zeta. cbn [wptr rptr size inbuffer writer reader].
  fold R1.
  replace (8 * c <? EIGHT) with false
    by (symmetry; apply Z.ltb_ge; unfold EIGHT; lia).
  rewrite (read_header_frame buf cs p t payload L 0 0); try assumption.
  2:{ pose proof (carries_block_direct sz p cs t payload 0 Hcar) as Hb0.
      replace (p + 0 * 8) with p in Hb0 by lia. apply Hb0; try lia.
      rewrite <- HL, <- Hc. lia. }
  cbn [Z.eqb negb]. fold data1.
  rewrite (u64_small (cap + HDR)) by (unfold HDR; lia).
  replace (cap + HDR <? L + HDR) with false
    by (symmetry; apply Z.ltb_ge; lia).
  replace (L + HDR - HDR) with L by lia.
  rewrite (s64_small L) by lia.
  rewrite <- Hc.
  destruct (Z.leb_spec (L + HDR) SEVEN) as [Hone|Hmulti]; [reflexivity|].
  replace (8 * c <? c * EIGHT) with false
    by (symmetry; apply Z.ltb_ge; unfold EIGHT; lia).
  reflexivity.
Qed.

Lemma outside_clear q :
  0 <= q < sz -> (if q <? p then q + sz - p else q - p) >= 8 * c ->
  Z.odd (peek cs q) = false.
Proof.
  intros Hq Hj. apply (carries_outside sz p cs t payload); try assumption.
  rewrite <- HL, <- Hc. exact Hj.
Qed.

(** The whole of [memipc_get_req]: the request comes out, and the ring
    is left with its presence bits clear and both of the consumer's
    pointers right after the request. *)
Lemma get_req_carries_ok :
  exists data' cells',
    memipc_get_req my_pid R (Shmem cs jr) ty0 cap buf =
      GetResult 0
        (MemipcArea ((p + 8 * c) mod sz) ((p + 8 * c) mod sz) sz 0
           (writer R) (reader R))
        (Shmem cells' jr) t L data' /\
    take (length payload) data' = payload /\
    Z.of_nat (length cells') = sz /\
    (forall q, 0 <= q < sz -> Z.odd (peek cells' q) = false).
Proof.
  destruct get_carries_facts as (HL0 & Hb & Hc1 & Esz & Ep & Ea1 & HL32).
  pose proof Hcar as (Hlen & _ & _).
  assert (blocks_for (Z.of_nat (length payload) + HDR) = c) as Hc'
    by (rewrite <- HL; symmetry; exact Hc).
  rewrite get_req_carries_head. unfold SEVEN, EIGHT, HDR in *.
  destruct (Z.leb_spec (L + 5) 7) as [Hone|Hmulti].
  - (* one block *)
    assert (c = 1) as Ec by lia.
    cbv zeta. cbn [rptr wptr inbuffer R1].
    exists data1, (memipc_clearmem cs p (Z.to_nat 8)).
    split; [|split; [|split]].
    + f_equal. f_equal; [|lia].
      rewrite Ec, mod_small_wrap by lia.
      destruct (Z.leb_spec sz (p + 8)), (Z.ltb_spec (p + 8 * 1) sz); lia.
    + apply take_of_peek; [rewrite data1_length; lia|].
      intros q Hq. apply data1_prefix; lia.
    + rewrite length_clearmem. exact Hlen.
    + intros q Hq. rewrite peek_clearmem by lia.
      destruct (Z.leb_spec p q), (Z.ltb_spec q (p + Z.of_nat (Z.to_nat 8)));
        cbn [andb]; try reflexivity;
        apply outside_clear; try lia;
        destruct (Z.ltb_spec q p); lia.
  - (* several blocks *)
    cbv zeta. set (a1 := (sz - p) / 8) in *.
    cbn [rptr wptr inbuffer R1].
    change (7 - 5) with 2.
    destruct (Z.leb_spec c a1) as [Hdirect|Hwrap].
    + (* no wrap-around *)
      destruct (read_blocks_frame cs t payload L p 0 c (Z.to_nat (c - 1))
                  1 data1 2) as (data2 & ptr2 & E & El & _ & Eq).
      { assumption. } { assumption. } { exact HL32. } { exact Hc. }
      { intros i' Hi'. apply carries_block_direct with (sz := sz);
          try assumption; try lia. unfold HDR; rewrite Hc'; lia. }
      { lia. } { lia. } { lia. } { rewrite data1_length; lia. }
      { intros q Hq Hq2. apply data1_prefix; lia. }
      unfold HDR in E. rewrite E. cbn [negb Z.eqb].
      rewrite Z.ltb_irrefl, andb_false_r. cbn [negb Z.eqb].
      exists data2, (memipc_clearmem cs p (Z.to_nat (c * 8))).
      split; [|split; [|split]].
      * f_equal. f_equal; [|lia].
        rewrite mod_small_wrap by lia.
        destruct (Z.leb_spec sz (p + c * 8)), (Z.ltb_spec (p + 8 * c) sz); lia.
      * apply take_of_peek; [rewrite El, data1_length; lia|].
        intros q Hq. apply Eq; lia.
      * rewrite length_clearmem. exact Hlen.
      * intros q Hq. rewrite peek_clearmem by lia.
        destruct (Z.leb_spec p q),
          (Z.ltb_spec q (p + Z.of_nat (Z.to_nat (c * 8))));
          cbn [andb]; try reflexivity;
          apply outside_clear; try lia;
          destruct (Z.ltb_spec q p); lia.
    + (* wrap-around *)
      destruct (read_blocks_frame cs t payload L p 0 c (Z.to_nat (a1 - 1))
                  1 data1 2) as (data2 & ptr2 & E & El & Ep2 & Eq).
      { assumption. } { assumption. } { exact HL32. } { exact Hc. }
      { intros i' Hi'. apply carries_block_direct with (sz := sz);
          try assumption; try lia. unfold HDR; rewrite Hc'; lia. }
      { lia. } { lia. } { lia. } { rewrite data1_length; lia. }
      { intros q Hq Hq2. apply data1_prefix; lia. }
      unfold HDR in E. rewrite E. cbn [negb Z.eqb].
      replace (sz <=? p + a1 * 8) with true
        by (symmetry; apply Z.leb_le; lia).
      replace (0 <? c - a1) with true by (symmetry; apply Z.ltb_lt; lia).
      cbn [andb].
      destruct (read_blocks_frame cs t payload L 0 a1 c (Z.to_nat (c - a1))
                  0 data2 ptr2) as (data3 & ptr3 & E3 & El3 & _ & Eq3).
      { assumption. } { assumption. } { exact HL32. } { exact Hc. }
      { intros i' Hi'.
        pose proof (carries_block_wrapped sz p cs t payload (a1 + i') Hcar)
          as Hbw.
        replace (p + 8 * (a1 + i') - sz) with (0 + i' * 8) in Hbw by lia.
        apply Hbw; try lia. unfold HDR; rewrite Hc'; lia. }
      { lia. } { lia. }
      { intros Hlt. rewrite Ep2 by lia. lia. }
      { rewrite El, data1_length; lia. }
      { intros q Hq Hq2. apply Eq; lia. }
      unfold HDR in E3. rewrite E3. cbn [negb Z.eqb].
      exists data3,
        (memipc_clearmem (memipc_clearmem cs 0 (Z.to_nat ((c - a1) * 8)))
           p (Z.to_nat (a1 * 8))).
      split; [|split; [|split]].
      * f_equal. f_equal; [|lia].
        rewrite mod_small_wrap by lia.
        destruct (Z.ltb_spec (p + 8 * c) sz); lia.
      * apply take_of_peek; [rewrite El3, El, data1_length; lia|].
        intros q Hq. apply Eq3; lia.
      * rewrite !length_clearmem. exact Hlen.
      * intros q Hq.
        rewrite !peek_clearmem by (rewrite ?length_clearmem; lia).
        destruct (Z.leb_spec p q),
          (Z.ltb_spec q (p + Z.of_nat (Z.to_nat (a1 * 8))));
          cbn [andb]; try reflexivity;
          destruct (Z.leb_spec 0 q),
            (Z.ltb_spec q (0 + Z.of_nat (Z.to_nat ((c - a1) * 8))));
          cbn [andb]; try reflexivity;
          apply outside_clear; try lia;
          destruct (Z.ltb_spec q p); lia.
Qed.

End GetCarries.

(** ** C1: the round trip *)

Lemma add_req_writer my_pid W m t L payload W' m' :
  memipc_add_req my_pid W m t L payload = (0, W', m') -> writer W = my_pid.
Proof.
  unfold memipc_add_req. destruct (Z.eqb_spec (writer W) my_pid) as [E|E].
  - intros _. exact E.
  - cbn [negb]. intros H. discriminate H.
Qed.

Lemma peek_replicate n q : peek (replicate n 0) q = 0.
Proof.
  unfold peek. destruct (replicate n 0 !! Z.to_nat q) as [b|] eqn:E;
    [|reflexivity].
  apply lookup_replicate in E. destruct E as [-> _]. reflexivity.
Qed.

(** A freshly created ring is idle. *)
Lemma ring_idle_fresh sz wpid rpid :
  8 <= sz < 2 ^ 32 -> sz mod 8 = 0 ->
  ring_idle sz 0
    (MemipcArea 0 0 sz 0 wpid 0) (MemipcArea 0 0 sz 0 0 rpid)
    (fresh_cells sz).
Proof.
  intros Hsz Hsz8. constructor; cbn [size wptr rptr inbuffer cells fresh_cells];
    try lia; try reflexivity.
  - rewrite length_replicate. lia.
  - intros q _. rewrite peek_replicate. reflexivity.
Qed.

(** C1.  Over a ring with nothing in flight, whatever request
    [memipc_add_req] accepts (any type of [enum memipc_req_type], any
    payload of bytes) is returned by one [memipc_get_req] of the consumer
    whose buffer has room for it: the call returns 0 with the same type,
    the same size and the same payload bytes; and the ring is idle again,
    so the next request round-trips as well. *)
Theorem ring_round_trip
    (sz p : Z) (W R : memipc_area) (m : shmem) (wpid rpid : Z)
    (kind : memipc_req_type) (payload : list Z)
    (W' : memipc_area) (m' : shmem) (cap ty0 : Z) (buf : list Z) :
  ring_idle sz p W R m ->
  reader R = rpid ->
  Forall is_byte payload ->
  Z.of_nat (length payload) < 2 ^ 63 ->
  memipc_add_req wpid W m (req_code kind) (Z.of_nat (length payload)) payload
    = (0, W', m') ->
  Z.of_nat (length payload) <= cap < 2 ^ 63 - 5 ->
  (2 <= length buf)%nat -> (length payload <= length buf)%nat ->
  let g := memipc_get_req rpid R m' ty0 cap buf in
  g_ret g = 0 /\
  g_type g = req_code kind /\
  g_size g = Z.of_nat (length payload) /\
  take (length payload) (g_data g) = payload /\
  ring_idle sz
    ((p + 8 * blocks_for (Z.of_nat (length payload) + HDR)) mod sz)
    W' (g_area g) (g_mem g).
Proof.
  intros Hidle HRpid Hpay HL63 Hadd Hcap Hbuf2 HbufL.
  pose proof (add_req_writer _ _ _ _ _ _ _ _ Hadd) as HWpid.
  set (L := Z.of_nat (length payload)) in *.
  set (c := blocks_for (L + HDR)) in *.
  pose proof (add_req_idle_eval sz p W R m wpid (req_code kind) payload L
                Hidle HWpid eq_refl HL63) as Heval.
  cbv zeta in Heval. fold c in Heval. rewrite Heval in Hadd.
  destruct (Z.ltb_spec (sz / 8) c) as [Hfull|Hfit]; [discriminate Hadd|].
  pose proof (add_req_idle_carries sz p W R m (req_code kind) payload L
                Hidle eq_refl) as Hcar.
  cbv zeta in Hcar. fold c in Hcar. specialize (Hcar Hfit).
  injection Hadd as HW' Hm'. rewrite Hm' in Hcar.
  pose proof Hidle as
    [Hsz Hsz8 Hlen Hclear Hp Hp8 HWs HWw HWr HWi HWrel HRs HRr HRw HRi].
  destruct m' as [cs' jr'].
  destruct (get_req_carries_ok sz p R cs' jr' rpid (req_code kind) payload
              L c cap ty0 buf) as (data' & cells' & Hget & Htake & Hlen' & Hclr');
    try assumption; try reflexivity; try lia.
  { apply req_code_range. }
  cbv zeta. rewrite Hget. cbn [g_ret g_type g_size g_data g_area g_mem].
  split; [reflexivity|]. split; [reflexivity|]. split; [reflexivity|].
  split; [exact Htake|].
  assert (0 <= L) as HL0 by (unfold L; lia).
  pose proof (blocks_for_bounds (L + HDR) ltac:(unfold HDR; lia)) as Hb.
  fold c in Hb. unfold HDR in Hb.
  pose proof (aligned_div8 sz Hsz8) as Esz.
  assert (0 <= (p + 8 * c) mod sz < sz) as Hp' by (apply Z.mod_pos_bound; lia).
  subst W'.
  constructor; cbn [size wptr rptr inbuffer cells]; try assumption;
    try reflexivity; try lia.
  rewrite (mod_small_wrap sz (p + 8 * c)) by lia.
  destruct (Z.ltb_spec (p + 8 * c) sz); Z.div_mod_to_equations; lia.
Qed.

(** A three-byte [MEMIPC_REQ_PRINT] request through a fresh 32-byte ring. *)
Lemma ring_round_trip_witness :
  let W := MemipcArea 0 0 32 0 7 0 in
  let R := MemipcArea 0 0 32 0 0 9 in
  let added := memipc_add_req 7 W (fresh_cells 32)
                 (req_code MEMIPC_REQ_PRINT) 3 [104; 105; 10] in
  let g := memipc_get_req 9 R added.2 0 4096 (replicate 8 0) in
  added.1.1 = 0 /\
  g_ret g = 0 /\ g_type g = 15 /\ g_size g = 3 /\
  take 3 (g_data g) = [104; 105; 10].
Proof.
  cbv zeta. split; [reflexivity|].
  pose proof (ring_round_trip 32 0
                (MemipcArea 0 0 32 0 7 0) (MemipcArea 0 0 32 0 0 9)
                (fresh_cells 32) 7 9 MEMIPC_REQ_PRINT [104; 105; 10]
                (memipc_add_req 7 (MemipcArea 0 0 32 0 7 0) (fresh_cells 32)
                   (req_code MEMIPC_REQ_PRINT) 3 [104; 105; 10]).1.2
                (memipc_add_req 7 (MemipcArea 0 0 32 0 7 0) (fresh_cells 32)
                   (req_code MEMIPC_REQ_PRINT) 3 [104; 105; 10]).2
                4096 0 (replicate 8 0)) as H.
  cbv zeta in H.
  destruct H as (H1 & H2 & H3 & H4 & _).
  - apply ring_idle_fresh; [lia|reflexivity].
  - reflexivity.
  - repeat constructor; unfold is_byte; lia.
  - cbn. lia.
  - vm_compute. reflexivity.
  - cbn. lia.
  - cbn. lia.
  - cbn. lia.
  - exact (conj H1 (conj H2 (conj H3 H4))).
Defined.

(** ** C6: the order of the block stores *)

Lemma scan_released_range m sz fuel : forall lp inb,
  0 < sz -> 0 <= lp < sz -> 0 <= inb ->
  0 <= (scan_released fuel m sz lp inb).1 < sz /\
  0 <= (scan_released fuel m sz lp inb).2 <= inb.
Proof.
  induction fuel as [|fuel IH]; intros lp inb Hsz Hlp Hinb.
  - cbn. lia.
  - cbn [scan_released].
    destruct ((Z.land (peek m lp) 1 =? 0) && (0 <? inb)) eqn:E.
    + apply andb_true_iff in E as [_ E]. apply Z.ltb_lt in E.
      rewrite step_wrap by lia.
      destruct (IH ((lp + 1) mod sz) (inb - 1)) as [H1 H2];
        [lia|apply Z.mod_pos_bound; lia|lia|].
      split; [exact H1|lia].
    + cbn. lia.
Qed.

Lemma frame_events_data base skip s n :
  1 <= skip + Z.of_nat s - 1 ->
  Forall is_data_store
    ((fun j => frame_event (skip + Z.of_nat j - 1)
                 (base + (Z.of_nat j - 1) * 8)) <$> seq s n).
Proof.
  revert s. induction n as [|n IH]; intros s Hs; cbn [seq fmap list_fmap].
  - constructor.
  - constructor.
    + unfold frame_event.
      replace (skip + Z.of_nat s - 1 =? 0) with false
        by (symmetry; apply Z.eqb_neq; lia).
      exact I.
    + apply IH. lia.
Qed.

(** C6, as the code has it.  Whenever [memipc_add_req] accepts a request,
    the block with the type and the size is the last one it stores: the
    journal gains the header store (at the old write pointer) on top of
    the stores of all the other blocks of the request, which are data
    blocks. *)
Theorem header_block_stored_last
    (wpid : Z) (W : memipc_area) (m : shmem) (t : Z) (payload : list Z)
    (W' : memipc_area) (m' : shmem) :
  area_wf W ->
  Z.of_nat (length payload) < 2 ^ 63 ->
  memipc_add_req wpid W m t (Z.of_nat (length payload)) payload = (0, W', m') ->
  exists earlier,
    journal m' = StoreHeader (wptr W) :: earlier ++ journal m /\
    Forall is_data_store earlier /\
    Z.of_nat (length earlier)
      = blocks_for (Z.of_nat (length payload) + HDR) - 1.
Proof.
  intros [Hsz Hsz8 Hw Hw8 Hr Hi] HL63 Hadd.
  set (L := Z.of_nat (length payload)) in *.
  assert (0 <= L) as HL0 by (unfold L; lia).
  unfold memipc_add_req in Hadd.
  destruct (negb (writer W =? wpid)); [discriminate Hadd|].
  rewrite (u32_small (inbuffer W)) in Hadd by lia.
  pose proof (scan_released_range (cells m) (size W)
                (Z.to_nat (inbuffer W)) (rptr W) (inbuffer W)
                ltac:(lia) Hr ltac:(lia)) as [Hlp Hinb].
  destruct (scan_released _ _ _ _ _) as [lp inb].
  cbn [fst snd] in Hlp, Hinb.
  cbn [wptr rptr size inbuffer writer reader] in Hadd.
  destruct (inb =? size W); [discriminate Hadd|].
  rewrite (u64_small (L + HDR)) in Hadd by (unfold HDR; lia).
  set (c := blocks_for (L + HDR)) in *.
  pose proof (blocks_for_bounds (L + HDR) ltac:(unfold HDR; lia)) as Hc.
  fold c in Hc. unfold HDR in Hc. unfold EIGHT in Hadd.
  pose proof (aligned_div8 (size W) Hsz8) as Esz.
  pose proof (aligned_div8 (wptr W) Hw8) as Ew.
  assert ((size W - wptr W) mod 8 = 0) as Hsw8
    by (rewrite Zminus_mod, Hsz8, Hw8; reflexivity).
  pose proof (aligned_div8 (size W - wptr W) Hsw8) as Ea.
  set (a1 := if wptr W <? lp then (lp - wptr W) / 8
             else (size W - wptr W) / 8) in *.
  set (a2 := if wptr W <? lp then 0 else lp / 8) in *.
  assert (0 <= a1 /\ 0 <= a2 /\ a1 + a2 <= size W / 8
          /\ (a2 = 0 \/ 1 <= a1)) as (Ha1 & Ha2 & Ha3 & Ha12).
  { unfold a1, a2. destruct (Z.ltb_spec (wptr W) lp);
      repeat split; try (Z.div_mod_to_equations; lia). }
  destruct (Z.ltb_spec (a1 + a2) c) as [|Hfit]; [discriminate Hadd|].
  assert (L + HDR < 2 ^ 32) as HL32 by (unfold HDR; lia).
  destruct (Z.ltb_spec a1 c) as [Hwrap|Hdirect].
  - (* wrapped part first, then the part at the write pointer *)
    rewrite (u32_small (c - a1)), (u32_small a1) in Hadd by lia.
    destruct (write_blocks (Z.to_nat (c - a1)) m 0 a1 t L payload)
      as [rc1 m1] eqn:E1.
    cbn [fst snd] in Hadd.
    destruct (Z.eqb_spec rc1 0) as [->|]; [|discriminate Hadd].
    cbn [negb] in Hadd.
    destruct (write_blocks (Z.to_nat a1) m1 (wptr W) 0 t L payload)
      as [rc2 m2] eqn:E2.
    cbn [fst snd] in Hadd.
    destruct (Z.eqb_spec rc2 0) as [->|]; [|discriminate Hadd].
    cbn [negb] in Hadd. injection Hadd as _ <-.
    apply write_blocks_success in E1; [|reflexivity|exact HL32|lia|fold c; lia].
    apply write_blocks_success in E2; [|reflexivity|exact HL32|lia|fold c; lia].
    subst m2 m1. rewrite !journal_frame_stores.
    destruct (Z.to_nat a1) as [|n1] eqn:En1; [lia|].
    cbn [seq fmap list_fmap app].
    eexists. split; [|split].
    + f_equal.
      * unfold frame_event. cbn. f_equal. lia.
      * rewrite app_assoc. reflexivity.
    + apply Forall_app. split; apply frame_events_data; lia.
    + rewrite length_app, !length_fmap, !length_seq. lia.
  - (* the whole request at the write pointer *)
    cbn [fst snd negb Z.eqb] in Hadd.
    rewrite (u32_small c) in Hadd by lia.
    destruct (write_blocks (Z.to_nat c) m (wptr W) 0 t L payload)
      as [rc2 m2] eqn:E2.
    cbn [fst snd] in Hadd.
    destruct (Z.eqb_spec rc2 0) as [->|]; [|discriminate Hadd].
    cbn [negb] in Hadd. injection Hadd as _ <-.
    apply write_blocks_success in E2; [|reflexivity|exact HL32|lia|fold c; lia].
    subst m2. rewrite !journal_frame_stores.
    destruct (Z.to_nat c) as [|n1] eqn:En1; [lia|].
    cbn [seq fmap list_fmap app].
    eexists. split; [|split].
    + f_equal. unfold frame_event. cbn. f_equal. lia.
    + apply frame_events_data; lia.
    + rewrite !length_fmap, !length_seq. lia.
Qed.

(** A ten-byte request at offset 16 of a fresh 32-byte ring: the block at
    offset 0 is stored first, then the one at 24, the header last. *)
Lemma header_block_stored_last_witness :
  exists earlier,
    journal (memipc_add_req 0 (MemipcArea 16 16 32 0 0 0) (fresh_cells 32)
               15 10 [1; 2; 3; 4; 5; 6; 7; 8; 9; 10]).2
    = StoreHeader 16 :: earlier ++ [] /\
    Forall is_data_store earlier /\
    Z.of_nat (length earlier) = 2.
Proof.
  apply (header_block_stored_last 0 (MemipcArea 16 16 32 0 0 0)
           (fresh_cells 32) 15 [1; 2; 3; 4; 5; 6; 7; 8; 9; 10]
           (memipc_add_req 0 (MemipcArea 16 16 32 0 0 0) (fresh_cells 32)
              15 10 [1; 2; 3; 4; 5; 6; 7; 8; 9; 10]).1.2).
  - constructor; cbn; try lia; reflexivity.
  - cbn. lia.
  - vm_compute. reflexivity.
Defined.

(** The claim as the specification words it (header block stored first,
    i.e. the oldest of the stores an accepted multi-block request adds to
    the journal) fails: a three-byte request takes two blocks, and the
    data block at offset 8 is stored before the header block at 0. *)
Lemma header_block_first_fails :
  ~ (forall wpid W m t payload W' m',
       area_wf W ->
       memipc_add_req wpid W m t (Z.of_nat (length payload)) payload
         = (0, W', m') ->
       1 < blocks_for (Z.of_nat (length payload) + HDR) ->
       exists later,
         journal m' = later ++ StoreHeader (wptr W) :: journal m).
Proof.
  intros H.
  destruct (H 0 (memipc_area_create 32) (fresh_cells 32) 15 [1; 2; 3]
              (MemipcArea 16 0 32 16 0 0)
              (memipc_add_req 0 (memipc_area_create 32) (fresh_cells 32)
                 15 3 [1; 2; 3]).2) as [later Hl].
  - constructor; cbn; try lia; reflexivity.
  - vm_compute. reflexivity.
  - vm_compute. reflexivity.
  - vm_compute in Hl.
    destruct later as [|e1 [|e2 [|e3 later]]]; cbn in Hl; discriminate Hl.
Qed.
(** ** Refused calls: the scan and the header of [memipc_get_req] *)

Lemma scan_written_stop m sz fuel : forall lp inb,
  fuel = Z.to_nat (sz - inb) ->
  (Z.land (peek m (scan_written fuel m sz lp inb).1) 1 =? 1)
    && ((scan_written fuel m sz lp inb).2 <? sz) = false /\
  inb <= (scan_written fuel m sz lp inb).2 <= Z.max inb sz.
Proof.
  induction fuel as [|fuel IH]; intros lp inb Hfuel.
  - cbn. split; [|lia].
    replace (inb <? sz) with false by (symmetry; apply Z.ltb_ge; lia).
    apply andb_false_r.
  - cbn [scan_written].
    destruct ((Z.land (peek m lp) 1 =? 1) && (inb <? sz)) eqn:E.
    + destruct (IH (if sz <=? lp + 1 then 0 else lp + 1) (inb + 1))
        as [H1 H2]; [lia|].
      split; [exact H1|lia].
    + cbn [fst snd]. split; [exact E|lia].
Qed.

Lemma scan_written_fix m sz fuel lp inb :
  (Z.land (peek m lp) 1 =? 1) && (inb <? sz) = false ->
  scan_written fuel m sz lp inb = (lp, inb).
Proof.
  intros H. destruct fuel; cbn [scan_written]; [reflexivity|].
  rewrite H. reflexivity.
Qed.

Lemma header_total_eq dst cs src sz t0 m0 :
  (read_decode_bytes_with_header dst cs src sz t0 m0).2
  = if presence_all cs src =? 1 then header_total cs src else m0.
Proof.
  unfold header_total, read_decode_bytes_with_header.
  destruct (presence_all cs src =? 1); reflexivity.
Qed.

Lemma header_rc dst cs src sz t0 m0 :
  (read_decode_bytes_with_header dst cs src sz t0 m0).1.1.1
  = if presence_all cs src =? 1 then 0 else -1.
Proof.
  unfold read_decode_bytes_with_header.
  destruct (presence_all cs src =? 1); reflexivity.
Qed.

(** The three ways [memipc_get_req] can end: with -2 and the scanned
    descriptor when the request at the read pointer is larger than the
    capacity, otherwise with another return value. *)
Lemma get_req_too_large_cases rpid R m ty0 cap buf :
  0 <= inbuffer R < 2 ^ 32 ->
  0 <= cap < 2 ^ 63 - 5 ->
  let g := memipc_get_req rpid R m ty0 cap buf in
  (reader R = rpid /\
   8 <= inbuffer (consumer_scanned R m) /\
   presence_all (cells m) (rptr R) = 1 /\
   cap < header_total (cells m) (rptr R) - HDR /\
   g_ret g = -2 /\ g_mem g = m /\ g_area g = consumer_scanned R m)
  \/
  (~ (reader R = rpid /\
      8 <= inbuffer (consumer_scanned R m) /\
      presence_all (cells m) (rptr R) = 1 /\
      cap < header_total (cells m) (rptr R) - HDR) /\
   g_ret g <> -2).
Proof.
  intros Hinb Hcap g. subst g.
  unfold memipc_get_req, consumer_scanned.
  destruct (Z.eqb_spec (reader R) rpid) as [Hpid|Hpid]; cbn [negb].
  2:{ right. cbn [g_ret]. split; [intros [H _]; contradiction|lia]. }
  destruct (scan_written _ _ _ _ _) as [lp inb] eqn:Escan.
  cbn [fst snd wptr rptr size inbuffer writer reader].
  unfold EIGHT, SEVEN.
  destruct (Z.ltb_spec inb 8) as [Hlow|Hhigh].
  { right. cbn [g_ret]. split; [intros (_ & H & _); lia|lia]. }
  pose proof (header_total_eq buf (cells m) (rptr R) (7 - HDR) 0 0) as Htot.
  pose proof (header_rc buf (cells m) (rptr R) (7 - HDR) 0 0) as Hrc.
  destruct (read_decode_bytes_with_header buf (cells m) (rptr R)
              (7 - HDR) 0 0) as [[[rc data1] lty] lsz].
  cbn [fst snd] in Htot, Hrc.
  rewrite (u64_small (cap + HDR)) by (unfold HDR; lia).
  destruct (Z.eqb_spec (presence_all (cells m) (rptr R)) 1) as [Hall|Hall].
  2:{ right. subst rc. cbn [Z.eqb negb g_ret].
      split; [intros (_ & _ & H & _); contradiction|lia]. }
  subst rc lsz. cbn [Z.eqb negb].
  destruct (Z.ltb_spec (cap + HDR) (header_total (cells m) (rptr R)))
    as [Hbig|Hfits].
  - left. cbn [g_ret g_mem g_area].
    repeat split; [exact Hpid|lia|exact Hall|lia].
  - right. split; [intros (_ & _ & _ & H); lia|].
    repeat match goal with
      | |- context [if ?b then _ else _] => destruct b
      | |- context [read_blocks ?a ?b ?c ?d ?e ?f ?g ?h] =>
          destruct (read_blocks a b c d e f g h) as [[? ?] ?]
      end; cbn [g_ret]; lia.
Qed.

(** ** The launch pass: C3 and C7 *)

Lemma send_req_spec my_pid i ty th l :
  let r := send_req my_pid i ty th l in
  let a := memipc_add_req my_pid (m_memipc_mosi th) (mosi_cells th)
             (req_code ty) 0 [] in
  state r.1.2 = state th /\ exit_request r.1.2 = exit_request th /\
  isol_exit_time r.1.2 = isol_exit_time th /\ cpu r.1.2 = cpu th /\
  m_memipc_mosi r.1.2 = a.1.2 /\ mosi_cells r.1.2 = a.2 /\
  l_clock r.2 = l_clock l /\ l_show r.2 = l_show l /\
  r.1.1 = (a.1.1 =? 0) /\
  l_sent r.2 = if r.1.1 then (i, ty) :: l_sent l else l_sent l.
Proof.
  unfold send_req.
  destruct (memipc_add_req _ _ _ _ _ _) as [[rc a] m]. cbn [fst snd].
  destruct (rc =? 0); cbn; repeat split; reflexivity.
Qed.

Lemma pending_exit_request_spec my_pid i th l :
  let r := pending_exit_request my_pid i th l in
  state r.1 = state th /\ isol_exit_time r.1 = isol_exit_time th /\
  cpu r.1 = cpu th /\
  l_clock r.2 = l_clock l /\ l_show r.2 = l_show l /\
  (l_sent r.2 = l_sent l \/
   (l_sent r.2 = (i, MEMIPC_REQ_TERMINATE) :: l_sent l /\
    exit_request th <> 0)).
Proof.
  unfold pending_exit_request.
  destruct (Z.eqb_spec (exit_request th) 0) as [E|E]; cbn [negb].
  - cbn. repeat split; try reflexivity. left; reflexivity.
  - pose proof (send_req_spec my_pid i MEMIPC_REQ_TERMINATE th l)
      as (Hs & _ & Ht & Hc & _ & _ & Hk & Hw & _ & Hl).
    destruct (send_req my_pid i MEMIPC_REQ_TERMINATE th l)
      as [[ok th1] l1].
    cbn [fst snd] in *.
    destruct ok; cbn [fst snd set_exit_request state isol_exit_time cpu];
      repeat split; try assumption; [right|left]; auto.
Qed.

(** The thread part of [pending_exit_request] does not depend on the
    loop state. *)
Lemma pending_exit_request_thread my_pid i j th l l0 :
  (pending_exit_request my_pid i th l).1
  = (pending_exit_request my_pid j th l0).1.
Proof.
  unfold pending_exit_request, send_req.
  destruct (negb (exit_request th =? 0)); [|reflexivity].
  destruct (memipc_add_req _ _ _ _ _ _) as [[rc a] m]. cbn [fst snd].
  destruct (rc =? 0); reflexivity.
Qed.

(** One turn of the launch loop: what it may send, and how the state of
    the worker may change. *)
Lemma launch_thread_spec clock my_pid delay timers running i th l :
  let r := launch_thread clock my_pid delay timers running i th l in
  (exists news,
     l_sent r.2 = news ++ l_sent l /\
     Forall (fun e => e.1 = i /\
                      sent_ok clock delay timers running th e.2) news) /\
  (state r.1 = MEMIPC_STATE_RUNNING ->
     state th = MEMIPC_STATE_RUNNING \/
     (state th = MEMIPC_STATE_LAUNCHED /\
      CPU_COUNT (CPU_AND timers running) = 0)).
Proof.
  unfold launch_thread.
  pose proof (pending_exit_request_spec my_pid i th l)
    as (Hs & Ht & Hc & Hk & Hw & Hl).
  destruct (pending_exit_request my_pid i th l) as [th0 l0].
  cbn [fst snd] in *.
  assert (exists news0, l_sent l0 = news0 ++ l_sent l /\
            Forall (fun e => e.1 = i /\
                      sent_ok clock delay timers running th e.2) news0)
    as (news0 & Hn0 & Hok0).
  { destruct Hl as [Hl|[Hl He]].
    - exists []. split; [exact Hl|constructor].
    - exists [(i, MEMIPC_REQ_TERMINATE)]. split; [exact Hl|].
      repeat constructor. exact He. }
  assert (forall ty (P : Prop),
            sent_ok clock delay timers running th ty ->
            let s := send_req my_pid i ty th0
                       (LoopState (l_clock l0) (l_sent l0) (l_show l0)) in
            exists news,
              l_sent s.2 = news ++ l_sent l /\
              Forall (fun e => e.1 = i /\
                        sent_ok clock delay timers running th e.2) news)
    as Hsend.
  { intros ty _ Hty s. subst s.
    pose proof (send_req_spec my_pid i ty th0
                  (LoopState (l_clock l0) (l_sent l0) (l_show l0)))
      as (_ & _ & _ & _ & _ & _ & _ & _ & _ & Hl1).
    cbn [l_sent] in Hl1. rewrite Hl1.
    destruct (send_req my_pid i ty th0 _).1.1.
    - exists ((i, ty) :: news0). rewrite Hn0. split; [reflexivity|].
      constructor; [split; [reflexivity|exact Hty]|exact Hok0].
    - exists news0. split; [exact Hn0|exact Hok0]. }
  destruct l0 as [k0 s0 w0]. cbn [l_clock l_sent l_show] in *.
  rewrite Hs. destruct (state th) eqn:Est; cbn [fst snd];
    try (split; [exists news0; split; assumption
                |intros H; rewrite Hs in H;
                 first [discriminate H|left; reflexivity]]).
  - (* READY *)
    pose proof (Hsend MEMIPC_REQ_START_LAUNCH True
                  ltac:(cbn; left; exact Est)) as Hn.
    pose proof (send_req_spec my_pid i MEMIPC_REQ_START_LAUNCH th0
                  (LoopState k0 s0 w0)) as (Hs1 & _).
    cbn zeta in Hn, Hs1.
    destruct (send_req my_pid i MEMIPC_REQ_START_LAUNCH th0 _)
      as [[ok th1] l1]. cbn [fst snd] in *.
    destruct ok; cbn [fst snd set_state state];
      (split; [exact Hn|intros H; try discriminate H]).
    rewrite Hs1, Hs in H. discriminate H.
  - (* LAUNCHED *)
    destruct (Z.eqb_spec (CPU_COUNT (CPU_AND timers running)) 0) as [E0|E0].
    + pose proof (Hsend MEMIPC_REQ_START_CONFIRMED True
                    ltac:(cbn; split; assumption)) as Hn.
      cbn zeta in Hn.
      destruct (send_req my_pid i MEMIPC_REQ_START_CONFIRMED th0 _)
        as [[ok th1] l1]. cbn [fst snd] in *.
      destruct ok; cbn [fst snd set_state state];
        (split; [exact Hn|intros _; right; split; [reflexivity|assumption]]).
    + unfold CPU_ISSET. destruct (decide (cpu th0 ∈ timers)) as [Hin|Hin].
      * rewrite bool_decide_eq_true_2 by exact Hin.
        pose proof (Hsend MEMIPC_REQ_EXIT_ISOLATION True
                      ltac:(cbn; rewrite <- Hc; repeat split; assumption))
          as Hn.
        pose proof (send_req_spec my_pid i MEMIPC_REQ_EXIT_ISOLATION th0
                      (LoopState k0 s0 w0)) as (Hs1 & _).
        cbn zeta in Hn, Hs1.
        destruct (send_req my_pid i MEMIPC_REQ_EXIT_ISOLATION th0 _)
          as [[ok th1] l1]. cbn [fst snd] in *.
        destruct ok;
          cbn [fst snd set_state set_isol_exit_time state l_sent];
          (split; [exact Hn|intros H; try discriminate H]).
        rewrite Hs1, Hs in H. discriminate H.
      * rewrite bool_decide_eq_false_2 by exact Hin.
        cbn [fst snd l_sent].
        split; [exists news0; split; assumption|].
        intros H. rewrite Hs in H. discriminate H.
  - (* TMP_EXITING_ISOLATION *)
    destruct (Z.ltb_spec delay (tv_sec (clock k0) - tv_sec (isol_exit_time th0)))
      as [Hlate|Hearly].
    + pose proof (Hsend MEMIPC_REQ_START_LAUNCH True
                    ltac:(cbn; right; right; split;
                          [exact Est|exists k0; rewrite <- Ht; exact Hlate]))
        as Hn.
      pose proof (send_req_spec my_pid i MEMIPC_REQ_START_LAUNCH th0
                    (LoopState k0 s0 w0)) as (Hs1 & _).
      pose proof (send_req_spec my_pid i MEMIPC_REQ_START_LAUNCH th0
                    (LoopState (S k0) s0 w0))
        as (Hs2 & _ & _ & _ & _ & _ & _ & _ & _ & Hl2).
      cbn zeta in Hn, Hs1, Hs2, Hl2. cbn [l_sent] in Hl2.
      assert (exists news,
                l_sent (send_req my_pid i MEMIPC_REQ_START_LAUNCH th0
                          (LoopState (S k0) s0 w0)).2 = news ++ l_sent l /\
                Forall (fun e => e.1 = i /\
                          sent_ok clock delay timers running th e.2) news)
        as Hn2.
      { rewrite Hl2.
        destruct (send_req my_pid i MEMIPC_REQ_START_LAUNCH th0 _).1.1.
        - exists ((i, MEMIPC_REQ_START_LAUNCH) :: news0).
          rewrite Hn0. split; [reflexivity|].
          constructor; [split; [reflexivity|]|exact Hok0].
          cbn. right; right. split; [exact Est|].
          exists k0. rewrite <- Ht. exact Hlate.
        - exists news0. split; assumption. }
      destruct (send_req my_pid i MEMIPC_REQ_START_LAUNCH th0
                  (LoopState (S k0) s0 w0)) as [[ok th1] l1].
      cbn [fst snd] in *.
      destruct ok; cbn [fst snd set_state state];
        (split; [exact Hn2|intros H; try discriminate H]).
      rewrite Hs2, Hs in H. discriminate H.
    + cbn [fst snd l_sent]. split; [exists news0; split; assumption|].
      intros H. rewrite Hs in H. discriminate H.
  - (* LOST_ISOLATION *)
    pose proof (Hsend MEMIPC_REQ_START_LAUNCH True
                  ltac:(cbn; right; left; exact Est)) as Hn.
    pose proof (send_req_spec my_pid i MEMIPC_REQ_START_LAUNCH th0
                  (LoopState k0 s0 w0)) as (Hs1 & _).
    cbn zeta in Hn, Hs1.
    destruct (send_req my_pid i MEMIPC_REQ_START_LAUNCH th0 _)
      as [[ok th1] l1]. cbn [fst snd] in *.
    destruct ok; cbn [fst snd set_state state];
      (split; [exact Hn|intros H; try discriminate H]).
    rewrite Hs1, Hs in H. discriminate H.
Qed.

Lemma cpu_count_and_0 (t r : cpu_set_t) :
  CPU_COUNT (CPU_AND t r) = 0 <-> forall c, c ∈ r -> c ∉ t.
Proof.
  unfold CPU_COUNT, CPU_AND. split.
  - intros H c Hr Ht.
    assert (base.size (t ∩ r) = 0%nat) as H0 by lia.
    apply size_empty_inv in H0.
    assert (c ∈ t ∩ r) as Hc by (apply elem_of_intersection; auto).
    rewrite H0 in Hc. apply elem_of_empty in Hc. exact Hc.
  - intros H.
    assert (t ∩ r = ∅) as ->; [|reflexivity].
    apply leibniz_equiv. apply elem_of_equiv_empty. intros c Hc.
    apply elem_of_intersection in Hc as [Ht Hr]. exact (H c Hr Ht).
Qed.

Section LaunchLoop.

Variable clock : nat -> timespec.
Variables (my_pid delay : Z) (timers running : cpu_set_t).

Let body := launch_thread clock my_pid delay timers running.
Let loop := launch_loop clock my_pid delay timers running.

Lemma launch_loop_cons i0 th rest l :
  loop i0 (th :: rest) l
  = ((body i0 th l).1 :: (loop (S i0) rest (body i0 th l).2).1,
     (loop (S i0) rest (body i0 th l).2).2).
Proof.
  unfold loop, body. cbn [launch_loop].
  destruct (launch_thread _ _ _ _ _ i0 th l) as [th' l1]. cbn [fst snd].
  destruct (launch_loop _ _ _ _ _ (S i0) rest l1) as [rest' l2].
  reflexivity.
Qed.

Lemma launch_loop_sent ths : forall i0 l,
  exists news,
    l_sent (loop i0 ths l).2 = news ++ l_sent l /\
    Forall (fun e => exists th,
              ths !! (e.1 - i0)%nat = Some th /\ (i0 <= e.1)%nat /\
              sent_ok clock delay timers running th e.2) news.
Proof.
  induction ths as [|th rest IH]; intros i0 l.
  - exists []. split; [reflexivity|constructor].
  - rewrite launch_loop_cons. cbn [fst snd].
    destruct (launch_thread_spec clock my_pid delay timers running i0 th l)
      as [(n1 & Hn1 & Hok1) _].
    destruct (IH (S i0) (body i0 th l).2) as (n2 & Hn2 & Hok2).
    exists (n2 ++ n1). split.
    + rewrite Hn2. unfold body. rewrite Hn1. apply app_assoc.
    + apply Forall_app. split.
      * eapply Forall_impl; [exact Hok2|].
        intros e (th1 & Hl & Hle & Hok). exists th1.
        split; [|split; [lia|exact Hok]].
        replace (e.1 - i0)%nat with (S (e.1 - S i0)) by lia. exact Hl.
      * eapply Forall_impl; [exact Hok1|].
        intros e [He Hok]. exists th.
        rewrite He, Nat.sub_diag. split; [reflexivity|split; [lia|exact Hok]].
Qed.

Lemma launch_loop_lookup ths : forall i0 l k th,
  ths !! k = Some th ->
  exists lk news_before news_after,
    (loop i0 ths l).1 !! k = Some (body (i0 + k) th lk).1 /\
    l_sent lk = news_before ++ l_sent l /\
    l_sent (loop i0 ths l).2 = news_after ++ l_sent (body (i0 + k) th lk).2.
Proof.
  induction ths as [|th0 rest IH]; intros i0 l k th Hk; [discriminate Hk|].
  rewrite launch_loop_cons. cbn [fst snd].
  destruct k as [|k].
  - injection Hk as ->. exists l, [].
    destruct (launch_loop_sent rest (S i0) (body i0 th l).2)
      as (n2 & Hn2 & _).
    exists n2. rewrite Nat.add_0_r.
    split; [reflexivity|]. split; [reflexivity|exact Hn2].
  - destruct (IH (S i0) (body i0 th0 l).2 k th Hk)
      as (lk & nb & na & H1 & H2 & H3).
    destruct (launch_thread_spec clock my_pid delay timers running i0 th0 l)
      as [(n1 & Hn1 & _) _].
    exists lk, (nb ++ n1), na.
    replace (i0 + S k)%nat with (S i0 + k)%nat by lia.
    split; [exact H1|]. split; [|exact H3].
    rewrite H2. unfold body. rewrite Hn1. apply app_assoc.
Qed.

(** A worker waiting out the restart delay. *)
Lemma launch_thread_tmp_exiting i th l :
  state th = MEMIPC_STATE_TMP_EXITING_ISOLATION ->
  let p := pending_exit_request my_pid i th l in
  let a := memipc_add_req my_pid (m_memipc_mosi p.1) (mosi_cells p.1)
             (req_code MEMIPC_REQ_START_LAUNCH) 0 [] in
  if delay <? tv_sec (clock (l_clock l)) - tv_sec (isol_exit_time th) then
    if a.1.1 =? 0 then
      state (body i th l).1 = MEMIPC_STATE_LAUNCHING /\
      m_memipc_mosi (body i th l).1 = a.1.2 /\
      mosi_cells (body i th l).1 = a.2 /\
      l_sent (body i th l).2 = (i, MEMIPC_REQ_START_LAUNCH) :: l_sent p.2
    else
      state (body i th l).1 = MEMIPC_STATE_TMP_EXITING_ISOLATION /\
      l_sent (body i th l).2 = l_sent p.2
  else
    (body i th l).1 = p.1 /\ l_sent (body i th l).2 = l_sent p.2.
Proof.
  intros Est p a. subst p a. unfold body, launch_thread.
  pose proof (pending_exit_request_spec my_pid i th l)
    as (Hs & Ht & Hc & Hk & Hw & Hl).
  destruct (pending_exit_request my_pid i th l) as [th0 l0].
  cbn [fst snd] in *. rewrite Hs, Est, Ht, Hk.
  destruct (delay <? tv_sec (clock (l_clock l)) - tv_sec (isol_exit_time th)).
  - pose proof (send_req_spec my_pid i MEMIPC_REQ_START_LAUNCH th0
                  (LoopState (S (l_clock l)) (l_sent l0) (l_show l0)))
      as (Hs2 & _ & _ & _ & Ha & Hm & _ & _ & Hok & Hl2).
    cbn zeta in *.
    destruct (send_req my_pid i MEMIPC_REQ_START_LAUNCH th0 _)
      as [[ok th1] l1].
    cbn [fst snd l_sent] in *. rewrite <- Hok.
    destruct ok; cbn [fst snd set_state state m_memipc_mosi mosi_cells].
    + repeat split; assumption.
    + split; [congruence|assumption].
  - cbn [fst snd l_sent]. split; reflexivity.
Qed.

End LaunchLoop.

(** The worker table and the request trace after a pass. *)
Lemma launch_pass_result clock g timers now :
  let g' := memipc_isolation_process_ready_launch clock g timers now in
  let r := launch_loop clock (memipc_my_pid g)
             (_global_isolated_threads_restart_delay g) timers
             (_global_running_cpuset g) 0 (_global_isolated_threads g)
             (LoopState (launch_gate clock g).2 (sent g) false) in
  _global_isolated_threads g'
    = (if (launch_gate clock g).1 then r.1 else _global_isolated_threads g) /\
  sent g' = (if (launch_gate clock g).1 then l_sent r.2 else sent g).
Proof.
  unfold memipc_isolation_process_ready_launch.
  destruct (launch_gate clock g).1.
  - destruct (launch_loop _ _ _ _ _ _ _ _) as [ths l1]. cbn [fst snd].
    destruct (l_show l1); [split; reflexivity|].
    destruct ((last_thread_scan g =? 0) || _); split; reflexivity.
  - cbn [l_show l_clock l_sent fst snd].
    destruct ((last_thread_scan g =? 0) || _); split; reflexivity.
Qed.

(** C3.  A launch pass sets a worker's state to Running, and sends
    START_CONFIRMED to a worker, only if that worker was in state Launched
    and no CPU of the running set is in the [timers_cpuset] the pass was
    given. *)
Theorem running_only_without_timers
    (clock : nat -> timespec) (g : manager) (timers_cpuset : cpu_set_t)
    (now : Z) (i : nat) (th th' : memipc_thread_params) :
  let g' := memipc_isolation_process_ready_launch clock g timers_cpuset now in
  _global_isolated_threads g !! i = Some th ->
  _global_isolated_threads g' !! i = Some th' ->
  (state th' = MEMIPC_STATE_RUNNING -> state th <> MEMIPC_STATE_RUNNING ->
     state th = MEMIPC_STATE_LAUNCHED /\
     forall c, c ∈ _global_running_cpuset g -> c ∉ timers_cpuset) /\
  exists news,
    sent g' = news ++ sent g /\
    forall j, (j, MEMIPC_REQ_START_CONFIRMED) ∈ news ->
      (forall c, c ∈ _global_running_cpuset g -> c ∉ timers_cpuset) /\
      exists thj, _global_isolated_threads g !! j = Some thj /\
                  state thj = MEMIPC_STATE_LAUNCHED.
Proof.
  intros g' Hth Hth'. subst g'.
  destruct (launch_pass_result clock g timers_cpuset now) as [Hths Hsent].
  cbn zeta in Hths, Hsent. rewrite Hths in Hth'. rewrite Hsent.
  destruct (launch_gate clock g).1.
  - split.
    + destruct (launch_loop_lookup clock (memipc_my_pid g)
                  (_global_isolated_threads_restart_delay g) timers_cpuset
                  (_global_running_cpuset g) (_global_isolated_threads g)
                  0 (LoopState (launch_gate clock g).2 (sent g) false)
                  i th Hth) as (lk & _ & _ & Hk & _).
      rewrite Hk in Hth'. injection Hth' as <-.
      intros Hrun Hnot.
      destruct (launch_thread_spec clock (memipc_my_pid g)
                  (_global_isolated_threads_restart_delay g) timers_cpuset
                  (_global_running_cpuset g) (0 + i) th lk) as [_ H].
      destruct (H Hrun) as [H1|[H1 H2]]; [contradiction|].
      split; [exact H1|]. apply cpu_count_and_0. exact H2.
    + destruct (launch_loop_sent clock (memipc_my_pid g)
                  (_global_isolated_threads_restart_delay g) timers_cpuset
                  (_global_running_cpuset g) (_global_isolated_threads g)
                  0 (LoopState (launch_gate clock g).2 (sent g) false))
        as (news & Hn & Hok).
      exists news. split; [exact Hn|].
      intros j Hj. rewrite Forall_forall in Hok.
      destruct (Hok _ Hj) as (thj & Hl & _ & [Hs Hc]).
      cbn [fst snd] in *. rewrite Nat.sub_0_r in Hl.
      split; [apply cpu_count_and_0; exact Hc|].
      exists thj. split; assumption.
  - rewrite Hth in Hth'. injection Hth' as <-.
    split; [intros H1 H2; contradiction|].
    exists []. split; [reflexivity|].
    intros j Hj. apply elem_of_nil in Hj. contradiction.
Qed.

(** One worker in state Launched on CPU 1, CPU 1 running, a timer only on
    CPU 5: the pass confirms the start. *)
Lemma running_only_without_timers_witness :
  let g := one_worker MEMIPC_STATE_LAUNCHED 0 {[1]} in
  let g' := memipc_isolation_process_ready_launch
              (fun _ => Timespec 100 0) g {[5]} 0 in
  (state (set_state
            (send_req 0 0 MEMIPC_REQ_START_CONFIRMED
               (fresh_thread 1 MEMIPC_STATE_LAUNCHED 0)
               (LoopState 0 [] false)).1.2
            MEMIPC_STATE_RUNNING) = MEMIPC_STATE_RUNNING ->
   MEMIPC_STATE_LAUNCHED <> MEMIPC_STATE_RUNNING ->
   MEMIPC_STATE_LAUNCHED = MEMIPC_STATE_LAUNCHED /\
   forall c, c ∈ _global_running_cpuset g -> c ∉ ({[5]} : cpu_set_t)) /\
  exists news,
    sent g' = news ++ sent g /\
    forall j, (j, MEMIPC_REQ_START_CONFIRMED) ∈ news ->
      (forall c, c ∈ _global_running_cpuset g -> c ∉ ({[5]} : cpu_set_t)) /\
      exists thj, _global_isolated_threads g !! j = Some thj /\
                  state thj = MEMIPC_STATE_LAUNCHED.
Proof.
  intros g g'.
  apply (running_only_without_timers (fun _ => Timespec 100 0) g {[5]} 0 0
           (fresh_thread 1 MEMIPC_STATE_LAUNCHED 0)).
  - reflexivity.
  - vm_compute. reflexivity.
Defined.

(** Before the delay has elapsed the difference of the seconds is at most
    the delay. *)
Lemma early_seconds (t1 t0 : timespec) (delay : Z) :
  0 <= tv_nsec t1 < 10 ^ 9 -> 0 <= tv_nsec t0 < 10 ^ 9 ->
  elapsed_nsec t1 t0 < delay * 10 ^ 9 ->
  tv_sec t1 - tv_sec t0 <= delay.
Proof. unfold elapsed_nsec. intros H1 H0 H. nia. Qed.

(** C7, as the code has it.  For a worker in state
    TmpExitingIsolation: when the seconds of the monotonic clock exceed
    those of the recorded exit time by more than the restart delay, a
    pass that gets to its launch loop and whose START_LAUNCH request the
    worker's ring accepts (after the pending exit request, if any) sends
    START_LAUNCH and moves the worker to Launching; when that difference
    is at most the delay, as it is before the delay has elapsed, the
    worker stays in TmpExitingIsolation and no START_LAUNCH is sent to
    it. *)
Theorem tmp_exiting_relaunch
    (clock : nat -> timespec) (g : manager) (timers_cpuset : cpu_set_t)
    (now : Z) (i : nat) (th : memipc_thread_params) :
  let g' := memipc_isolation_process_ready_launch clock g timers_cpuset now in
  let delay := _global_isolated_threads_restart_delay g in
  let th0 := (pending_exit_request (memipc_my_pid g) i th
                (LoopState 0 [] false)).1 in
  _global_isolated_threads g !! i = Some th ->
  state th = MEMIPC_STATE_TMP_EXITING_ISOLATION ->
  exists th' news,
    _global_isolated_threads g' !! i = Some th' /\
    sent g' = news ++ sent g /\
    ((forall k, delay < tv_sec (clock k) - tv_sec (isol_exit_time th)) ->
     (launch_gate clock g).1 = true ->
     (memipc_add_req (memipc_my_pid g) (m_memipc_mosi th0) (mosi_cells th0)
        (req_code MEMIPC_REQ_START_LAUNCH) 0 []).1.1 = 0 ->
     state th' = MEMIPC_STATE_LAUNCHING /\
     (i, MEMIPC_REQ_START_LAUNCH) ∈ news) /\
    ((forall k, tv_sec (clock k) - tv_sec (isol_exit_time th) <= delay \/
                (0 <= tv_nsec (clock k) < 10 ^ 9 /\
                 0 <= tv_nsec (isol_exit_time th) < 10 ^ 9 /\
                 elapsed_nsec (clock k) (isol_exit_time th)
                   < delay * 10 ^ 9)) ->
     state th' = MEMIPC_STATE_TMP_EXITING_ISOLATION /\
     (i, MEMIPC_REQ_START_LAUNCH) ∉ news).
Proof.
  intros g' delay th0 Hth Hst. subst g'.
  destruct (launch_pass_result clock g timers_cpuset now) as [Hths Hsent].
  cbn zeta in Hths, Hsent. rewrite Hths, Hsent. clear Hths Hsent.
  assert (forall k,
            tv_sec (clock k) - tv_sec (isol_exit_time th) <= delay \/
            (0 <= tv_nsec (clock k) < 10 ^ 9 /\
             0 <= tv_nsec (isol_exit_time th) < 10 ^ 9 /\
             elapsed_nsec (clock k) (isol_exit_time th) < delay * 10 ^ 9) ->
            tv_sec (clock k) - tv_sec (isol_exit_time th) <= delay)
    as Hearly.
  { intros k [H|(H1 & H0 & H)]; [exact H|].
    apply early_seconds; assumption. }
  destruct (launch_gate clock g).1.
  - destruct (launch_loop_lookup clock (memipc_my_pid g) delay timers_cpuset
                (_global_running_cpuset g) (_global_isolated_threads g)
                0 (LoopState (launch_gate clock g).2 (sent g) false)
                i th Hth) as (lk & nb & na & Hk & Hbefore & Hafter).
    destruct (launch_loop_sent clock (memipc_my_pid g) delay timers_cpuset
                (_global_running_cpuset g) (_global_isolated_threads g)
                0 (LoopState (launch_gate clock g).2 (sent g) false))
      as (news & Hn & Hok).
    fold delay. cbn [l_sent] in Hn, Hbefore.
    eexists _, news. split; [exact Hk|]. split; [exact Hn|].
    pose proof (launch_thread_tmp_exiting clock (memipc_my_pid g) delay
                  timers_cpuset (_global_running_cpuset g) (0 + i) th lk
                  Hst) as Hbody.
    cbn zeta in Hbody.
    rewrite (pending_exit_request_thread (memipc_my_pid g) (0 + i) i th lk
               (LoopState 0 [] false)) in Hbody.
    fold th0 in Hbody.
    split.
    + intros Hlate _ Hacc.
      destruct (Z.ltb_spec delay
                  (tv_sec (clock (l_clock lk)) - tv_sec (isol_exit_time th)))
        as [_|Hno]; [|specialize (Hlate (l_clock lk)); lia].
      rewrite Hacc in Hbody. cbn [Z.eqb] in Hbody.
      destruct Hbody as (Hs & _ & _ & Hl).
      split; [exact Hs|].
      pose proof (pending_exit_request_spec (memipc_my_pid g) (0 + i) th lk)
        as (_ & _ & _ & _ & _ & Hp).
      cbn zeta in Hp.
      assert (exists x, l_sent (pending_exit_request (memipc_my_pid g)
                                  (0 + i) th lk).2 = x ++ l_sent lk)
        as [x Hx].
      { destruct Hp as [Hp|[Hp _]]; rewrite Hp;
          [exists []|exists [(0 + i, MEMIPC_REQ_TERMINATE)%nat]];
          reflexivity. }
      rewrite Hafter, Hl, Hx, Hbefore in Hn.
      assert (news = na ++ ((0 + i)%nat, MEMIPC_REQ_START_LAUNCH)
                             :: x ++ nb) as ->.
      { apply (app_inv_tail (sent g)). rewrite <- Hn.
        rewrite <- !app_assoc. cbn. rewrite <- !app_assoc. reflexivity. }
      apply elem_of_app. right. apply elem_of_cons. left. reflexivity.
    + intros Hwait.
      destruct (Z.ltb_spec delay
                  (tv_sec (clock (l_clock lk)) - tv_sec (isol_exit_time th)))
        as [Hno|_].
      { specialize (Hearly (l_clock lk) (Hwait (l_clock lk))). lia. }
      destruct Hbody as (Hb & _). rewrite Hb.
      split.
      * subst th0.
        pose proof (pending_exit_request_spec (memipc_my_pid g) i th
                      (LoopState 0 [] false)) as (Hs & _).
        cbn zeta in Hs. rewrite Hs. exact Hst.
      * intros Hin. rewrite Forall_forall in Hok.
        destruct (Hok _ Hin) as (thj & Hl & _ & Hs).
        cbn [fst snd] in *. rewrite Nat.sub_0_r in Hl.
        rewrite Hth in Hl. injection Hl as <-.
        destruct Hs as [Hs|[Hs|[_ [k Hk']]]]; try congruence.
        specialize (Hearly k (Hwait k)). fold delay in Hk'. lia.
  - exists th, []. split; [exact Hth|]. split; [reflexivity|].
    split.
    + intros _ Hgate. discriminate Hgate.
    + intros _. split; [exact Hst|]. apply not_elem_of_nil.
Qed.

(** One worker that left isolation at second 10, the clock at second 14. *)
Lemma tmp_exiting_relaunch_witness :
  let clock := fun _ : nat => Timespec 14 0 in
  let g := one_worker MEMIPC_STATE_TMP_EXITING_ISOLATION 10 ∅ in
  let th := fresh_thread 1 MEMIPC_STATE_TMP_EXITING_ISOLATION 10 in
  let g' := memipc_isolation_process_ready_launch clock g ∅ 0 in
  let delay := _global_isolated_threads_restart_delay g in
  let th0 := (pending_exit_request (memipc_my_pid g) 0 th
                (LoopState 0 [] false)).1 in
  exists th' news,
    _global_isolated_threads g' !! 0%nat = Some th' /\
    sent g' = news ++ sent g /\
    ((forall k, delay < tv_sec (clock k) - tv_sec (isol_exit_time th)) ->
     (launch_gate clock g).1 = true ->
     (memipc_add_req (memipc_my_pid g) (m_memipc_mosi th0) (mosi_cells th0)
        (req_code MEMIPC_REQ_START_LAUNCH) 0 []).1.1 = 0 ->
     state th' = MEMIPC_STATE_LAUNCHING /\
     (0%nat, MEMIPC_REQ_START_LAUNCH) ∈ news) /\
    ((forall k, tv_sec (clock k) - tv_sec (isol_exit_time th) <= delay \/
                (0 <= tv_nsec (clock k) < 10 ^ 9 /\
                 0 <= tv_nsec (isol_exit_time th) < 10 ^ 9 /\
                 elapsed_nsec (clock k) (isol_exit_time th)
                   < delay * 10 ^ 9)) ->
     state th' = MEMIPC_STATE_TMP_EXITING_ISOLATION /\
     (0%nat, MEMIPC_REQ_START_LAUNCH) ∉ news).
Proof.
  intros clock g th.
  apply (tmp_exiting_relaunch clock g ∅ 0 0 th).
  - reflexivity.
  - reflexivity.
Defined.

(** The claim as the specification words it (re-launch once the elapsed
    time is at least the restart delay) fails at the boundary: three
    seconds after the exit, with the launch loop reached and room in the
    ring, the worker is left in TmpExitingIsolation. *)
Lemma relaunch_at_delay_fails :
  ~ (forall (clock : nat -> timespec) (g : manager)
       (timers_cpuset : cpu_set_t) (now : Z) (i : nat)
       (th : memipc_thread_params),
       _global_isolated_threads g !! i = Some th ->
       state th = MEMIPC_STATE_TMP_EXITING_ISOLATION ->
       (launch_gate clock g).1 = true ->
       (memipc_add_req (memipc_my_pid g) (m_memipc_mosi th) (mosi_cells th)
          (req_code MEMIPC_REQ_START_LAUNCH) 0 []).1.1 = 0 ->
       exit_request th = 0 ->
       (forall k, _global_isolated_threads_restart_delay g * 10 ^ 9
                  <= elapsed_nsec (clock k) (isol_exit_time th)) ->
       exists th',
         _global_isolated_threads
           (memipc_isolation_process_ready_launch clock g timers_cpuset now)
           !! i = Some th' /\
         state th' = MEMIPC_STATE_LAUNCHING).
Proof.
  intros H.
  destruct (H (fun _ => Timespec 13 0)
              (one_worker MEMIPC_STATE_TMP_EXITING_ISOLATION 10 ∅) ∅ 0 0%nat
              (fresh_thread 1 MEMIPC_STATE_TMP_EXITING_ISOLATION 10))
    as (th' & Hl & Hs).
  - reflexivity.
  - reflexivity.
  - reflexivity.
  - vm_compute. reflexivity.
  - reflexivity.
  - intros k. vm_compute. discriminate.
  - vm_compute in Hl. injection Hl as <-. discriminate Hs.
Qed.

(** ** The timer scan: C8 *)













(** ** The sweep: C9 *)

Lemma cpu_xor_overlap (a isol : cpu_set_t) :
  CPU_XOR a (CPU_AND a isol) = a ∖ isol.
Proof. unfold CPU_XOR, CPU_AND. apply leibniz_equiv. set_solver. Qed.

Lemma cpu_count_0 (a : cpu_set_t) : CPU_COUNT a = 0 <-> a = ∅.
Proof.
  unfold CPU_COUNT. split.
  - intros H. apply leibniz_equiv. apply size_empty_inv. lia.
  - intros ->. reflexivity.
Qed.

Lemma push_away_entry_spec my_pid isol nonisol e calls :
  ProcTable.push_away_entry my_pid isol nonisol e calls
  = calls ++ option_list (sweep_spec my_pid isol nonisol e).
Proof.
  unfold ProcTable.push_away_entry, sweep_spec, sweep_mask.
  rewrite cpu_xor_overlap.
  destruct (decide (sweep_rebinds my_pid isol e)) as [Hr|Hr].
  - destruct Hr as (Hm & Hp & Hn & Ho).
    rewrite bool_decide_eq_true_2 by exact Hm.
    replace (negb (ProcTable.pid e =? my_pid) || (ProcTable.tid e =? my_pid))
      with true
      by (destruct (Z.eqb_spec (ProcTable.pid e) my_pid),
                   (Z.eqb_spec (ProcTable.tid e) my_pid);
          cbn; tauto).
    replace (1 <? CPU_COUNT (ProcTable.cpus_allowed e)) with true
      by (symmetry; apply Z.ltb_lt; unfold CPU_COUNT; lia).
    cbn [andb].
    destruct (Z.eqb_spec
                (CPU_COUNT (CPU_AND (ProcTable.cpus_allowed e) isol)) 0)
      as [E|E]; [apply cpu_count_0 in E; contradiction|].
    cbn [negb].
    destruct (Z.eqb_spec (CPU_COUNT (ProcTable.cpus_allowed e ∖ isol)) 0)
      as [E'|E'].
    + apply cpu_count_0 in E'. rewrite decide_True by exact E'.
      rewrite E'. unfold CPU_OR.
      replace (∅ ∪ nonisol) with nonisol
        by (apply leibniz_equiv; set_solver).
      reflexivity.
    + rewrite decide_False by (rewrite <- cpu_count_0; exact E').
      reflexivity.
  - cbn [option_list]. rewrite app_nil_r.
    destruct (bool_decide_reflect (ProcTable.isolated_thread e = None))
      as [Hm|Hm]; [|reflexivity].
    destruct (Z.eqb_spec (ProcTable.pid e) my_pid) as [Hp|Hp],
             (Z.eqb_spec (ProcTable.tid e) my_pid) as [Ht|Ht];
      cbn [negb orb andb]; try reflexivity;
      (destruct (Z.ltb_spec 1 (CPU_COUNT (ProcTable.cpus_allowed e)))
         as [Hn|Hn]; [|reflexivity]);
      (destruct (Z.eqb_spec
                   (CPU_COUNT (CPU_AND (ProcTable.cpus_allowed e) isol)) 0)
         as [E|E]; [reflexivity|]);
      exfalso; apply Hr; unfold sweep_rebinds;
      (split; [exact Hm|]); (split; [tauto|]);
      (split; [unfold CPU_COUNT in Hn; lia|]);
      intros E0; apply E; apply cpu_count_0; exact E0.
Qed.

Lemma push_away_loop_spec my_pid isol nonisol table : forall calls,
  foldl (fun calls e =>
           ProcTable.push_away_entry my_pid isol nonisol e calls)
    calls table
  = calls ++ omap (sweep_spec my_pid isol nonisol) table.
Proof.
  induction table as [|e table IH]; intros calls; cbn [foldl].
  - cbn. rewrite app_nil_r. reflexivity.
  - rewrite IH, push_away_entry_spec, <- app_assoc. f_equal.
    unfold omap at 2. cbn [list_omap].
    destruct (sweep_spec my_pid isol nonisol e); reflexivity.
Qed.

(** C9.  With push-away asked for, the sweep calls [sched_setaffinity]
    for exactly the entries of the table that are not managed workers,
    are not threads of the manager's process other than its main thread,
    may run on more than one CPU and may run on a CPU of the isolation
    set, in the order of the table; the mask is what the entry may run
    on less the isolation set, or [_global_nonisol_cpuset] when nothing
    is left.  An entry that may run on one CPU only gets no call. *)
Theorem sweep_rebinds_exactly
    (my_pid : Z) (isol nonisol : cpu_set_t)
    (proctable : list ProcTable.foreign_thread_desc) (cmd : Z) :
  Z.land cmd ISOL_PROC_LIST_CMD_PUSH_AWAY <> 0 ->
  ProcTable.process_all_threads my_pid isol nonisol proctable cmd
    = omap (sweep_spec my_pid isol nonisol) proctable /\
  (forall e, e ∈ proctable ->
     (sweep_spec my_pid isol nonisol e <> None <->
      sweep_rebinds my_pid isol e) /\
     (base.size (ProcTable.cpus_allowed e) = 1%nat ->
      sweep_spec my_pid isol nonisol e = None)).
Proof.
  intros Hcmd. split.
  - unfold ProcTable.process_all_threads.
    destruct (Z.eqb_spec (Z.land cmd ISOL_PROC_LIST_CMD_PUSH_AWAY) 0);
      [contradiction|].
    cbn [negb]. apply push_away_loop_spec.
  - intros e _. unfold sweep_spec.
    destruct (decide (sweep_rebinds my_pid isol e)) as [Hr|Hr].
    + split; [split; [intros _; exact Hr|intros _; discriminate]|].
      intros H1. destruct Hr as (_ & _ & Hn & _). lia.
    + split; [split; [intros H; contradiction|intros H; contradiction]|].
      intros _. reflexivity.
Qed.

(** The example table, swept for isolation set {2, 3} by the manager
    (process 100): the daemon is moved to CPUs 0 and 1, the task bound to
    CPUs 2 and 3 is let onto the non-isolation set, the manager's main
    thread is moved to CPU 0, and the others are left alone. *)
Lemma sweep_rebinds_exactly_witness :
  ProcTable.process_all_threads 100 {[2; 3]} {[0; 1]} proctable_example
      ISOL_PROC_LIST_CMD_PUSH_AWAY
    = omap (sweep_spec 100 {[2; 3]} {[0; 1]}) proctable_example /\
  (forall e, e ∈ proctable_example ->
     (sweep_spec 100 {[2; 3]} {[0; 1]} e <> None <->
      sweep_rebinds 100 {[2; 3]} e) /\
     (base.size (ProcTable.cpus_allowed e) = 1%nat ->
      sweep_spec 100 {[2; 3]} {[0; 1]} e = None)).
Proof.
  apply (sweep_rebinds_exactly 100 {[2; 3]} {[0; 1]} proctable_example
           ISOL_PROC_LIST_CMD_PUSH_AWAY).
  vm_compute. discriminate.
Defined.

(** ** The "newtask" command: C10 *)

Lemma skip_command_length (l : list Z) :
  (length (skip_command l) <= length l)%nat.
Proof.
  induction l as [|c l IH]; cbn [skip_command length]; [lia|].
  destruct (32 <? c); cbn [length]; lia.
Qed.

Lemma find_command_newtask (line : list Z) :
  command_word line = chars "newtask" ->
  find_command commands line (skip_command line) = ISOL_SRV_CMD_NEWTASK.
Proof.
  unfold command_word. intros H.
  pose proof (skip_command_length line) as Hlen.
  assert (ptr_diff (skip_command line) line = 7) as Hd.
  { apply (f_equal length) in H. rewrite length_take in H.
    unfold ptr_diff in *. change (length (chars "newtask")) with 7%nat in H.
    lia. }
  rewrite Hd in H. unfold commands. cbn [find_command]. rewrite Hd.
  cbn [Z.eqb Pos.eqb andb]. unfold memcmp_eq.
  rewrite bool_decide_eq_true_2; [reflexivity|].
  change (Z.to_nat 7) with 7%nat in *. rewrite H. reflexivity.
Qed.

Lemma strchr_not_in (a : list Z) (c : Z) : c ∉ a -> strchr a c = None.
Proof.
  induction a as [|x a IH]; intros Hc; cbn [strchr]; [reflexivity|].
  apply not_elem_of_cons in Hc as [Hx Ha].
  destruct (x =? 0); [reflexivity|].
  destruct (Z.eqb_spec x c); [congruence|]. apply IH. exact Ha.
Qed.

Lemma strchr_suffix (a : list Z) (c : Z) (p : list Z) :
  strchr a c = Some p -> exists pre, a = pre ++ p.
Proof.
  induction a as [|x a IH]; cbn [strchr]; [discriminate|].
  destruct (x =? 0); [discriminate|].
  destruct (x =? c).
  - intros [= <-]. exists []. reflexivity.
  - intros H. destruct (IH H) as [pre ->]. exists (x :: pre). reflexivity.
Qed.

(** What sending a response to a client changes. *)
Lemma send_data_persist_frame ci data s :
  server_threads (send_data_persist ci data s) = server_threads s /\
  server_running_cpuset (send_data_persist ci data s)
    = server_running_cpuset s /\
  task <$> isol_server_clients (send_data_persist ci data s)
    = task <$> isol_server_clients s /\
  forall c, isol_server_clients s !! ci = Some c ->
    exists c', isol_server_clients (send_data_persist ci data s) !! ci
                 = Some c' /\
               output c' = output c ++ data.
Proof.
  unfold send_data_persist, with_clients.
  cbn [server_threads server_running_cpuset isol_server_clients].
  split; [reflexivity|]. split; [reflexivity|]. split.
  - generalize (isol_server_clients s). intros cs. revert ci.
    induction cs as [|c cs IH]; intros [|ci]; cbn; try reflexivity.
    f_equal. apply IH.
  - intros c Hc. eexists. rewrite list_lookup_alter, Hc.
    rewrite decide_True by reflexivity. cbn. split; reflexivity.
Qed.

(** C10.  For a line whose command word is "newtask": when the argument
    is missing, has no ',' or has no '/', the handler hands "500 Invalid
    command." to the client and changes nothing else (no thread is
    claimed, no task attached); when the argument has its ',' and a '/'
    after it but the pid or the tid read is 0, the handler changes
    nothing at all: nothing is sent, no thread is claimed, and every
    thread record and every task attachment is as before. *)
Theorem newtask_rejected
    (client_index : nat) (line : list Z) (s : server) :
  command_word line = chars "newtask" ->
  (newtask_malformed (command_arg line) ->
   let s' := send_data_persist client_index inv_response s in
   client_text_handler client_index line s = Some s' /\
   server_threads s' = server_threads s /\
   server_running_cpuset s' = server_running_cpuset s /\
   task <$> isol_server_clients s' = task <$> isol_server_clients s /\
   forall c, isol_server_clients s !! client_index = Some c ->
     exists c', isol_server_clients s' !! client_index = Some c' /\
                output c' = output c ++ inv_response) /\
  (forall a p1 p2,
     command_arg line = Some a ->
     strchr a 44 = Some p1 -> strchr p1 47 = Some p2 ->
     s32 (get_uint (tl p1)) = 0 \/ s32 (get_uint (tl p2)) = 0 ->
     client_text_handler client_index line s = Some s).
Proof.
  intros Hcmd. unfold client_text_handler.
  rewrite (find_command_newtask line Hcmd). split.
  - intros Hbad. split; [|apply send_data_persist_frame].
    f_equal. unfold newtask, newtask_parse.
    destruct Hbad as [->|(a & -> & [Hc|Hs])].
    + reflexivity.
    + rewrite (strchr_not_in a 44 Hc). reflexivity.
    + destruct (strchr a 44) as [p1|] eqn:E1; [|reflexivity].
      destruct (strchr_suffix a 44 p1 E1) as [pre ->].
      rewrite (strchr_not_in p1 47); [reflexivity|].
      intros Hin. apply Hs. apply elem_of_app. right. exact Hin.
  - intros a p1 p2 -> E1 E2 Hzero. f_equal.
    unfold newtask, newtask_parse. rewrite E1, E2.
    destruct Hzero as [-> | ->]; cbn [Z.eqb negb andb];
      [reflexivity|].
    destruct (s32 (get_uint (tl p1)) =? 0); reflexivity.
Qed.

(** The line "newtask 1,0/0". *)
Lemma newtask_rejected_witness :
  let line := chars "newtask 1,0/0" in
  (newtask_malformed (command_arg line) ->
   let s' := send_data_persist 0 inv_response server_example in
   client_text_handler 0 line server_example = Some s' /\
   server_threads s' = server_threads server_example /\
   server_running_cpuset s' = server_running_cpuset server_example /\
   task <$> isol_server_clients s'
     = task <$> isol_server_clients server_example /\
   forall c, isol_server_clients server_example !! 0%nat = Some c ->
     exists c', isol_server_clients s' !! 0%nat = Some c' /\
                output c' = output c ++ inv_response) /\
  (forall a p1 p2,
     command_arg line = Some a ->
     strchr a 44 = Some p1 -> strchr p1 47 = Some p2 ->
     s32 (get_uint (tl p1)) = 0 \/ s32 (get_uint (tl p2)) = 0 ->
     client_text_handler 0 line server_example = Some server_example).
Proof.
  intros line.
  apply (newtask_rejected 0 line server_example).
  vm_compute. reflexivity.
Defined.

(** * Further properties of the code *)

(** ** The codec, block by block *)

Lemma stored_block_peek (cs bs : list Z) (blk j : Z) :
  0 <= blk -> blk + 8 <= Z.of_nat (length cs) -> length bs = 8%nat ->
  0 <= j < 8 ->
  peek (store_bytes cs blk bs) (blk + j) = peek bs j.
Proof.
  intros Hb Hl Hbs Hj. rewrite peek_store_bytes by lia.
  rewrite Hbs. change (Z.of_nat 8) with 8.
  destruct (Z.leb_spec blk (blk + j)), (Z.ltb_spec (blk + j) (blk + 8));
    try lia.
  cbn [andb]. f_equal. lia.
Qed.

Lemma stored_block_frame (cs bs : list Z) (blk q : Z) :
  0 <= blk -> blk + 8 <= Z.of_nat (length cs) -> length bs = 8%nat ->
  0 <= q -> ~ (blk <= q < blk + 8) ->
  peek (store_bytes cs blk bs) q = peek cs q.
Proof.
  intros Hb Hl Hbs Hq Hout. rewrite peek_store_bytes by lia.
  rewrite Hbs. change (Z.of_nat 8) with 8.
  destruct (Z.leb_spec blk q), (Z.ltb_spec q (blk + 8)); try lia;
    reflexivity.
Qed.

Lemma src_local_is_byte src soff size k :
  (forall i, 0 <= i < size -> is_byte (peek src (soff + i))) ->
  0 <= k -> is_byte (src_local src soff size k).
Proof.
  intros H Hk. unfold src_local.
  destruct (Z.ltb_spec k size); cbn [andb];
    [destruct (size <=? 7); [apply H; lia|]|]; unfold is_byte; lia.
Qed.

(** X1.  A data block written by [write_encode_bytes] into a free block
    and read back by [read_decode_bytes] gives the [size] source bytes,
    leaves the rest of the destination and of the cells alone, and the
    block refuses any further write. *)
Theorem data_block_round_trip
    (m : shmem) (blk : Z) (src : list Z) (soff size : Z)
    (dst : list Z) (doff : Z) :
  0 <= blk -> blk + 8 <= Z.of_nat (length (cells m)) ->
  (forall j, 0 <= j < 8 -> Z.odd (peek (cells m) (blk + j)) = false) ->
  0 <= size <= 7 ->
  (forall i, 0 <= i < size -> is_byte (peek src (soff + i))) ->
  0 <= doff -> doff + size <= Z.of_nat (length dst) ->
  exists m' dst',
    write_encode_bytes m blk src soff size = (0, m') /\
    read_decode_bytes dst doff (cells m') blk size = (0, dst') /\
    length dst' = length dst /\
    (forall i, 0 <= i < size ->
       peek dst' (doff + i) = peek src (soff + i)) /\
    (forall q, 0 <= q -> ~ (doff <= q < doff + size) ->
       peek dst' q = peek dst q) /\
    (forall q, 0 <= q -> ~ (blk <= q < blk + 8) ->
       peek (cells m') q = peek (cells m) q) /\
    (forall src2 soff2 size2,
       write_encode_bytes m' blk src2 soff2 size2 = (-1, m')).
Proof.
  intros Hb Hl Hfree Hsz Hsrc Hd Hdl.
  unfold write_encode_bytes at 1.
  rewrite (presence_any_zero _ _ Hfree). cbn [Z.eqb negb].
  set (s := fun k => src_local src soff size k).
  set (bs := encode7 (s 0) (s 1) (s 2) (s 3) (s 4) (s 5) (s 6)).
  set (m' := Shmem (store_bytes (cells m) blk bs) (StoreData blk :: journal m)).
  assert (forall j, 0 <= j < 8 -> peek (cells m') (blk + j) = peek bs j)
    as Hheld.
  { intros j Hj. apply stored_block_peek; try assumption. reflexivity. }
  assert (presence_all (cells m') blk = 1) as Hall.
  { apply presence_all_one. intros j Hj. rewrite Hheld by exact Hj.
    apply encode7_odd, Hj. }
  destruct (read_decode_bytes_ready dst doff (cells m') blk size Hall Hsz Hd Hdl)
    as (dst' & Hread & Hlen & Hpeek).
  exists m', dst'. split; [reflexivity|]. split; [exact Hread|].
  split; [exact Hlen|]. split; [|split; [|split]].
  - intros i Hi. rewrite Hpeek by lia.
    destruct (Z.leb_spec doff (doff + i)),
             (Z.ltb_spec (doff + i) (doff + size)); try lia.
    cbn [andb]. replace (doff + i - doff) with i by lia.
    unfold decode_at.
    rewrite (decode_raw_encode7 (s 0) (s 1) (s 2) (s 3) (s 4) (s 5) (s 6))
      by (try (apply src_local_is_byte; [exact Hsrc|lia]);
          try exact Hheld; lia).
    assert (peek [s 0; s 1; s 2; s 3; s 4; s 5; s 6] i = s i) as ->.
    { assert (i = 0 \/ i = 1 \/ i = 2 \/ i = 3 \/ i = 4 \/ i = 5 \/ i = 6)
        as [->|[->|[->|[->|[->|[->| ->]]]]]] by lia; reflexivity. }
    unfold s, src_local.
    destruct (Z.ltb_spec i size), (Z.leb_spec size 7); try lia.
    cbn [andb]. apply u8_small. apply Hsrc. lia.
  - intros q Hq Hout. rewrite Hpeek by exact Hq.
    destruct (Z.leb_spec doff q), (Z.ltb_spec q (doff + size)); try lia;
      reflexivity.
  - intros q Hq Hout. apply stored_block_frame; try assumption. reflexivity.
  - intros src2 soff2 size2. unfold write_encode_bytes.
    rewrite (presence_any_set (cells m') blk 0 ltac:(lia)); [reflexivity|].
    rewrite Z.bit0_odd, Hheld by lia. apply encode7_odd. lia.
Qed.

(** Three bytes through the block at offset 8 of a fresh 16-byte area. *)
Lemma data_block_round_trip_witness :
  exists m' dst',
    write_encode_bytes (fresh_cells 16) 8 [200; 17; 255] 0 3 = (0, m') /\
    read_decode_bytes [0; 0; 0; 0] 1 (cells m') 8 3 = (0, dst') /\
    length dst' = length [0; 0; 0; 0] /\
    (forall i, 0 <= i < 3 -> peek dst' (1 + i) = peek [200; 17; 255] (0 + i)) /\
    (forall q, 0 <= q -> ~ (1 <= q < 1 + 3) ->
       peek dst' q = peek [0; 0; 0; 0] q) /\
    (forall q, 0 <= q -> ~ (8 <= q < 8 + 8) ->
       peek (cells m') q = peek (cells (fresh_cells 16)) q) /\
    (forall src2 soff2 size2,
       write_encode_bytes m' 8 src2 soff2 size2 = (-1, m')).
Proof.
  apply (data_block_round_trip (fresh_cells 16) 8 [200; 17; 255] 0 3
           [0; 0; 0; 0] 1).
  - lia.
  - vm_compute. discriminate.
  - intros j Hj.
    destruct (eight_cases j Hj) as [->|[->|[->|[->|[->|[->|[->| ->]]]]]]];
      reflexivity.
  - lia.
  - intros i Hi.
    assert (i = 0 \/ i = 1 \/ i = 2) as [->|[->| ->]] by lia;
      vm_compute; (split; [discriminate|reflexivity]).
  - lia.
  - vm_compute. discriminate.
Defined.

(** X2.  A header block written by [write_encode_bytes_with_header] into
    a free block and read back by [read_decode_bytes_with_header] gives
    the request type, the 32-bit size, and the first [size] (at most two)
    payload bytes. *)
Theorem header_block_round_trip
    (m : shmem) (blk : Z) (src : list Z) (size t msize : Z)
    (dst : list Z) (ty0 ms0 : Z) :
  0 <= blk -> blk + 8 <= Z.of_nat (length (cells m)) ->
  (forall j, 0 <= j < 8 -> Z.odd (peek (cells m) (blk + j)) = false) ->
  0 <= size <= 2 ->
  (forall i, 0 <= i < size -> is_byte (peek src i)) ->
  0 <= t < 128 -> 0 <= msize < 2 ^ 32 ->
  size <= Z.of_nat (length dst) ->
  exists m' dst',
    write_encode_bytes_with_header m blk src size t msize = (0, m') /\
    read_decode_bytes_with_header dst (cells m') blk size ty0 ms0
      = (0, dst', t, msize) /\
    length dst' = length dst /\
    (forall i, 0 <= i < size -> peek dst' i = peek src i) /\
    (forall q, size <= q -> peek dst' q = peek dst q).
Proof.
  intros Hb Hl Hfree Hsz Hsrc Ht Hms Hdl.
  unfold write_encode_bytes_with_header.
  rewrite (presence_any_zero _ _ Hfree). cbn [Z.eqb negb].
  set (s5 := hdr_local5 src size). set (s6 := hdr_local6 src size).
  set (s0 := u8 (to_char t)).
  set (s1 := u8 (Z.land msize 255)).
  set (s2 := u8 (Z.land (Z.shiftr msize 8) 255)).
  set (s3 := u8 (Z.land (Z.shiftr msize 16) 255)).
  set (s4 := u8 (Z.land (Z.shiftr msize 24) 255)).
  set (bs := encode7 s0 s1 s2 s3 s4 s5 s6).
  set (m' := Shmem (store_bytes (cells m) blk bs)
               (StoreHeader blk :: journal m)).
  assert (forall j, 0 <= j < 8 -> peek (cells m') (blk + j) = peek bs j)
    as Hheld.
  { intros j Hj. apply stored_block_peek; try assumption. reflexivity. }
  assert (presence_all (cells m') blk = 1) as Hall.
  { apply presence_all_one. intros j Hj. rewrite Hheld by exact Hj.
    apply encode7_odd, Hj. }
  assert (is_byte s5 /\ is_byte s6) as [H5 H6].
  { unfold s5, s6, hdr_local5, hdr_local6.
    assert (size = 0 \/ size = 1 \/ size = 2) as [->|[->| ->]] by lia;
      cbn [Z.eqb Pos.eqb orb]; split;
      try (apply Hsrc; lia); unfold is_byte; lia. }
  assert (forall k, 0 <= k < 7 ->
            decode_raw k (fun i => peek (cells m') (blk + i))
            = peek [s0; s1; s2; s3; s4; s5; s6] k) as Hdec.
  { apply decode_raw_encode7; try apply u8_range; assumption. }
  exists m'.
  unfold read_decode_bytes_with_header. rewrite Hall. cbn [Z.eqb negb].
  unfold decode_at. rewrite !Hdec by lia.
  change (peek [s0; s1; s2; s3; s4; s5; s6] 0) with s0.
  change (peek [s0; s1; s2; s3; s4; s5; s6] 1) with s1.
  change (peek [s0; s1; s2; s3; s4; s5; s6] 2) with s2.
  change (peek [s0; s1; s2; s3; s4; s5; s6] 3) with s3.
  change (peek [s0; s1; s2; s3; s4; s5; s6] 4) with s4.
  change (peek [s0; s1; s2; s3; s4; s5; s6] 5) with s5.
  change (peek [s0; s1; s2; s3; s4; s5; s6] 6) with s6.
  eexists. split; [reflexivity|]. split; [|split; [|split]].
  - f_equal; [f_equal|].
    + unfold s0. apply to_char_u8. exact Ht.
    + unfold s4, s3, s2, s1.
      rewrite <- (size_bytes_join msize Hms) at 5.
      rewrite Z.shiftr_0_r. reflexivity.
  - destruct (size =? 2); destruct (size =? 1); cbn [orb];
      rewrite ?length_poke; reflexivity.
  - intros i Hi. unfold s5, s6, hdr_local5, hdr_local6.
    assert (size = 1 \/ size = 2) as [->| ->] by lia;
      cbn [Z.eqb Pos.eqb orb].
    + assert (i = 0) as -> by lia.
      rewrite peek_poke_eq by lia. apply u8_small, Hsrc. lia.
    + assert (i = 0 \/ i = 1) as [->| ->] by lia.
      * rewrite peek_poke_eq by (rewrite length_poke; lia).
        apply u8_small, Hsrc. lia.
      * rewrite peek_poke_ne by lia. rewrite peek_poke_eq by lia.
        apply u8_small, Hsrc. lia.
  - intros q Hq.
    assert (size = 0 \/ size = 1 \/ size = 2) as [->|[->| ->]] by lia;
      cbn [Z.eqb Pos.eqb orb]; rewrite ?peek_poke_ne by lia; reflexivity.
Qed.

(** A PRINT request of 9 bytes in all, its first two payload bytes in the
    header block. *)
Lemma header_block_round_trip_witness :
  exists m' dst',
    write_encode_bytes_with_header (fresh_cells 8) 0 [104; 105] 2 15 9
      = (0, m') /\
    read_decode_bytes_with_header [0; 0; 0] (cells m') 0 2 0 0
      = (0, dst', 15, 9) /\
    length dst' = length [0; 0; 0] /\
    (forall i, 0 <= i < 2 -> peek dst' i = peek [104; 105] i) /\
    (forall q, 2 <= q -> peek dst' q = peek [0; 0; 0] q).
Proof.
  apply (header_block_round_trip (fresh_cells 8) 0 [104; 105] 2 15 9
           [0; 0; 0] 0 0).
  - lia.
  - vm_compute. discriminate.
  - intros j Hj.
    destruct (eight_cases j Hj) as [->|[->|[->|[->|[->|[->|[->| ->]]]]]]];
      reflexivity.
  - lia.
  - intros i Hi. assert (i = 0 \/ i = 1) as [->| ->] by lia;
      vm_compute; (split; [discriminate|reflexivity]).
  - lia.
  - lia.
  - vm_compute. discriminate.
Defined.

(** ** The descriptors of the ring *)

Lemma scan_released_sum m sz fuel : forall lp inb,
  0 < sz -> 0 <= lp < sz ->
  ((scan_released fuel m sz lp inb).1 + (scan_released fuel m sz lp inb).2)
    mod sz = (lp + inb) mod sz.
Proof.
  induction fuel as [|fuel IH]; intros lp inb Hsz Hlp; [reflexivity|].
  cbn [scan_released].
  destruct ((Z.land (peek m lp) 1 =? 0) && (0 <? inb)); [|reflexivity].
  rewrite step_wrap by lia.
  rewrite IH by (try apply Z.mod_pos_bound; lia).
  rewrite Zplus_mod_idemp_l. f_equal. lia.
Qed.

Lemma scan_written_range m sz fuel : forall lp inb,
  0 < sz -> 0 <= lp < sz ->
  0 <= (scan_written fuel m sz lp inb).1 < sz /\
  ((scan_written fuel m sz lp inb).1 - (scan_written fuel m sz lp inb).2)
    mod sz = (lp - inb) mod sz.
Proof.
  induction fuel as [|fuel IH]; intros lp inb Hsz Hlp.
  - cbn. split; [lia|reflexivity].
  - cbn [scan_written].
    destruct ((Z.land (peek m lp) 1 =? 1) && (inb <? sz));
      [|cbn; split; [lia|reflexivity]].
    rewrite step_wrap by lia.
    destruct (IH ((lp + 1) mod sz) (inb + 1) Hsz
                ltac:(apply Z.mod_pos_bound; lia)) as [H1 H2].
    split; [exact H1|]. rewrite H2.
    rewrite Zminus_mod_idemp_l. f_equal. lia.
Qed.

(** A sum below twice the size that is congruent to a pointer. *)
Lemma mod_eq_cases sz x w :
  0 < sz -> 0 <= x < 2 * sz -> 0 <= w < sz -> x mod sz = w ->
  x = w \/ x = w + sz.
Proof.
  intros Hsz Hx Hw H. rewrite mod_small_wrap in H by lia.
  revert H. destruct (Z.ltb_spec x sz); cbn beta iota; lia.
Qed.

Ltac refused Hacc :=
  cbn [fst snd size writer reader];
  split; [exact Hacc|];
  split; [reflexivity|]; split; [reflexivity|]; split; [reflexivity|];
  split; [right; reflexivity|intros Hret; discriminate Hret].

Ltac accepted Hnew :=
  split;
  [|split; [reflexivity|]; split; [reflexivity|]; split; [reflexivity|];
    split; [left; reflexivity|];
    intros _; split; [rewrite Hnew; reflexivity|split; [lia|reflexivity]]].

(** X3.  Whatever [memipc_add_req] returns, it leaves the producer's
    descriptor consistent (the write pointer on a block boundary, both
    pointers inside the area, the byte count within the size and equal
    to the distance from the read to the write pointer) and the area at
    its size.  The cached read pointer is the one the scan left, which
    steps byte by byte: it need not lie on a block boundary.  When the
    request is accepted, the write pointer has moved on by the blocks of
    the request (wrapping at the end of the area) and the byte count has
    been raised by as much. *)
Theorem add_req_keeps_descriptor
    (wpid : Z) (W : memipc_area) (m : shmem) (t L : Z) (payload : list Z) :
  producer_accounted W -> 0 <= L < 2 ^ 63 ->
  let r := memipc_add_req wpid W m t L payload in
  let W' := r.1.2 in
  let n := blocks_for (L + HDR) in
  producer_accounted W' /\ size W' = size W /\
  writer W' = writer W /\ reader W' = reader W /\
  (r.1.1 = 0 \/ r.1.1 = -1) /\
  (r.1.1 = 0 ->
     wptr W' = (wptr W + 8 * n) mod size W /\
     inbuffer W' = inbuffer (producer_scanned W m) + 8 * n /\
     rptr W' = rptr (producer_scanned W m)).
Proof.
  intros [[Hsz Hsz8 Hw Hw8 Hr Hi] Hacc] HL r W' n. subst r W' n.
  unfold memipc_add_req, producer_scanned.
  assert (producer_accounted W) as HW
    by (split; [constructor; assumption|exact Hacc]).
  destruct (negb (writer W =? wpid)); [refused HW|].
  rewrite (u32_small (inbuffer W)) by lia.
  pose proof (scan_released_range (cells m) (size W)
                (Z.to_nat (inbuffer W)) (rptr W) (inbuffer W)
                ltac:(lia) Hr ltac:(lia)) as [Hlp Hinb].
  pose proof (scan_released_sum (cells m) (size W)
                (Z.to_nat (inbuffer W)) (rptr W) (inbuffer W)
                ltac:(lia) Hr) as Hsum.
  rewrite Hacc in Hsum.
  destruct (scan_released _ _ _ _ _) as [lp inb].
  cbn [fst snd] in Hlp, Hinb, Hsum.
  cbn [fst snd wptr rptr size inbuffer writer reader].
  assert (producer_accounted
            (MemipcArea (wptr W) lp (size W) inb (writer W) (reader W)))
    as Hscanned.
  { split; [constructor; cbn; lia|]. cbn. exact Hsum. }
  destruct (Z.eqb_spec inb (size W)) as [Hfull|Hfull].
  { refused Hscanned. }
  rewrite (u64_small (L + HDR)) by (unfold HDR; lia).
  set (c := blocks_for (L + HDR)) in *.
  pose proof (blocks_for_bounds (L + HDR) ltac:(unfold HDR; lia)) as Hc.
  fold c in Hc. unfold HDR in Hc. unfold EIGHT.
  pose proof (aligned_div8 (size W) Hsz8) as Esz.
  pose proof (aligned_div8 (wptr W) Hw8) as Ew.
  assert ((size W - wptr W) mod 8 = 0) as Hsw8
    by (rewrite Zminus_mod, Hsz8, Hw8; reflexivity).
  pose proof (aligned_div8 (size W - wptr W) Hsw8) as Ea.
  destruct (mod_eq_cases (size W) (lp + inb) (wptr W)
              ltac:(lia) ltac:(lia) Hw Hsum) as [Hcase|Hcase].
  2:{ (* the read pointer lies ahead of the write pointer *)
    assert (wptr W < lp) as Hlt by lia.
    destruct (Z.ltb_spec (wptr W) lp) as [_|]; [|lia].
    rewrite Z.add_0_r.
    destruct (Z.ltb_spec ((lp - wptr W) / 8) c) as [Hno|Hfit];
      [refused Hscanned|].
    cbn [fst snd Z.eqb negb].
    destruct (negb ((write_blocks _ _ _ _ _ _ _).1 =? 0));
      [refused Hscanned|].
    cbn [fst snd wptr rptr size inbuffer writer reader].
    assert (8 * c <= lp - wptr W) as Hroom
      by (Z.div_mod_to_equations; lia).
    destruct (Z.leb_spec (size W) (wptr W + c * 8)) as [|_]; [lia|].
    assert ((wptr W + 8 * c) mod size W = wptr W + c * 8) as Hnew
      by (rewrite Z.mod_small by lia; lia).
    assert ((wptr W + c * 8) mod 8 = 0) as Halign
      by (rewrite Zplus_mod, Hw8, Z.mod_mul by lia; reflexivity).
    assert ((lp + (inb + c * 8)) mod size W = wptr W + c * 8) as Hacct.
    { replace (lp + (inb + c * 8)) with (wptr W + c * 8 + 1 * size W)
        by lia.
      rewrite Z.mod_add by lia. apply Z.mod_small. lia. }
    accepted Hnew.
    split; [constructor; cbn [wptr rptr size inbuffer];
            first [assumption|lia]
           |cbn [wptr rptr size inbuffer]; exact Hacct]. }
  (* the write pointer is at or ahead of the read pointer *)
  assert (lp <= wptr W) as Hle by lia.
  destruct (Z.ltb_spec (wptr W) lp) as [|_]; [lia|].
  set (a1 := (size W - wptr W) / 8) in *.
  set (a2 := lp / 8) in *.
  assert (1 <= a1 /\ 0 <= a2 /\ 8 * a2 <= lp) as (Ha1 & Ha2 & Ha2')
    by (unfold a1, a2; repeat split; Z.div_mod_to_equations; lia).
  destruct (Z.ltb_spec (a1 + a2) c) as [Hno|Hfit]; [refused Hscanned|].
  destruct (Z.ltb_spec a1 c) as [Hwrap|Hdirect].
  - destruct (negb ((write_blocks _ _ _ _ _ _ _).1 =? 0));
      [refused Hscanned|].
    destruct (negb ((write_blocks _ _ _ _ _ _ _).1 =? 0));
      [refused Hscanned|].
    cbn [fst snd wptr rptr size inbuffer writer reader].
    assert ((wptr W + 8 * c) mod size W = (c - a1) * 8) as Hnew.
    { replace (wptr W + 8 * c) with ((c - a1) * 8 + 1 * size W)
        by (unfold a1 in *; lia).
      rewrite Z.mod_add by lia. apply Z.mod_small. lia. }
    assert (((c - a1) * 8) mod 8 = 0) as Halign
      by (apply Z.mod_mul; lia).
    assert ((lp + (inb + c * 8)) mod size W = (c - a1) * 8) as Hacct.
    { replace (lp + (inb + c * 8)) with ((c - a1) * 8 + 1 * size W)
        by (unfold a1 in *; lia).
      rewrite Z.mod_add by lia. apply Z.mod_small. lia. }
    accepted Hnew.
    split; [constructor; cbn [wptr rptr size inbuffer];
            first [assumption|lia]
           |cbn [wptr rptr size inbuffer]; exact Hacct].
  - cbn [fst snd Z.eqb negb].
    destruct (negb ((write_blocks _ _ _ _ _ _ _).1 =? 0));
      [refused Hscanned|].
    cbn [fst snd wptr rptr size inbuffer writer reader].
    assert (wptr W + c * 8 <= size W) as Hend by (unfold a1 in *; lia).
    set (nw := if size W <=? wptr W + c * 8 then 0 else wptr W + c * 8).
    assert ((wptr W + 8 * c) mod size W = nw) as Hnew.
    { unfold nw. destruct (Z.leb_spec (size W) (wptr W + c * 8)).
      - replace (wptr W + 8 * c) with (0 + 1 * size W) by lia.
        rewrite Z.mod_add by lia. reflexivity.
      - rewrite Z.mod_small by lia. lia. }
    assert (0 <= nw < size W) as Hrange
      by (rewrite <- Hnew; apply Z.mod_pos_bound; lia).
    assert (nw mod 8 = 0) as Halign.
    { unfold nw. destruct (size W <=? wptr W + c * 8); [reflexivity|].
      rewrite Zplus_mod, Hw8, Z.mod_mul by lia. reflexivity. }
    assert ((lp + (inb + c * 8)) mod size W = nw) as Hacct
      by (rewrite <- Hnew; f_equal; lia).
    accepted Hnew.
    split; [constructor; cbn [wptr rptr size inbuffer];
            first [assumption|lia]
           |cbn [wptr rptr size inbuffer]; exact Hacct].
Qed.

(** A three-byte request offered on the half-drained ring. *)
Lemma add_req_keeps_descriptor_witness :
  let r := memipc_add_req 0 half_drained_ring.1 half_drained_ring.2 15 3
             [1; 2; 3] in
  let W' := r.1.2 in
  let n := blocks_for (3 + HDR) in
  producer_accounted W' /\ size W' = size half_drained_ring.1 /\
  writer W' = writer half_drained_ring.1 /\
  reader W' = reader half_drained_ring.1 /\
  (r.1.1 = 0 \/ r.1.1 = -1) /\
  (r.1.1 = 0 ->
     wptr W' = (wptr half_drained_ring.1 + 8 * n)
                 mod size half_drained_ring.1 /\
     inbuffer W'
       = inbuffer (producer_scanned half_drained_ring.1
                     half_drained_ring.2) + 8 * n /\
     rptr W' = rptr (producer_scanned half_drained_ring.1
                       half_drained_ring.2)).
Proof.
  apply (add_req_keeps_descriptor 0 half_drained_ring.1 half_drained_ring.2
           15 3 [1; 2; 3]).
  - split; [constructor|]; vm_compute;
      first [reflexivity|split; [discriminate|reflexivity]
            |split; discriminate].
  - lia.
Defined.

(** The cached read pointer can come to lie inside a block: the scan
    stops at the first cell whose presence bit is set, here the fourth
    cell of a block that the consumer is clearing. *)
Lemma add_req_read_pointer_inside_block :
  let W := MemipcArea 8 0 32 8 0 0 in
  let m := Shmem ([0; 0; 0; 1; 1; 1; 1; 1] ++ replicate 24 0) [] in
  let r := memipc_add_req 0 W m 15 1 [7] in
  producer_accounted W /\ r.1.1 = 0 /\ rptr r.1.2 = 3 /\
  inbuffer r.1.2 = 13 /\ wptr r.1.2 = 16.
Proof.
  cbv zeta. split.
  - split; [|reflexivity].
    constructor; cbn [size wptr rptr inbuffer]; first [lia|reflexivity].
  - vm_compute. repeat split; reflexivity.
Qed.


Lemma header_total_range cs src : 0 <= header_total cs src < 2 ^ 32.
Proof.
  unfold header_total, read_decode_bytes_with_header.
  destruct (negb (presence_all cs src =? 1)); cbn [snd]; [lia|].
  assert (forall x, 0 <= u32 x < 2 ^ 32) as Hu
    by (intros x; unfold u32; apply Z.mod_pos_bound; lia).
  assert (forall a b, 0 <= a < 2 ^ 32 -> 0 <= b < 2 ^ 32 ->
            0 <= Z.lor a b < 2 ^ 32) as Hlor.
  { intros a b Ha Hb. split; [apply Z.lor_nonneg; lia|].
    destruct (Z.eq_dec (Z.lor a b) 0) as [->|Hne]; [lia|].
    apply Z.log2_lt_pow2; [pose proof (Z.lor_nonneg a b); lia|].
    rewrite Z.log2_lor by lia.
    destruct (Z.eq_dec a 0) as [->|Ha0], (Z.eq_dec b 0) as [->|Hb0];
      cbn [Z.log2 Z.max]; try lia.
    - apply Z.max_lub_lt; [cbn; lia|apply Z.log2_lt_pow2; lia].
    - apply Z.max_lub_lt; [apply Z.log2_lt_pow2; lia|cbn; lia].
    - apply Z.max_lub_lt; apply Z.log2_lt_pow2; lia. }
  repeat apply Hlor; apply Hu.
Qed.

Ltac stays H :=
  split; [exact H|];
  split; [reflexivity|]; split; [reflexivity|]; split; [reflexivity|];
  let X := fresh in intros X; discriminate X.

(** The consumer's descriptor and the shape of the shared area after
    [memipc_get_req]. *)
Lemma get_req_descriptor
    (rpid : Z) (R : memipc_area) (m : shmem) (ty0 cap : Z) (buf : list Z) :
  consumer_accounted R ->
  let g := memipc_get_req rpid R m ty0 cap buf in
  let n := blocks_taken (header_total (cells m) (rptr R)) in
  consumer_accounted (g_area g) /\ size (g_area g) = size R /\
  length (cells (g_mem g)) = length (cells m) /\
  journal (g_mem g) = journal m /\
  (g_ret g = 0 ->
     rptr (g_area g) = (rptr R + 8 * n) mod size R /\
     inbuffer (g_area g) = inbuffer (consumer_scanned R m) - 8 * n /\
     wptr (g_area g) = wptr (consumer_scanned R m)).
Proof.
  intros HR g n. subst g n.
  pose proof HR as (Hsz & Hsz8 & Hr & Hr8 & Hw & Hi & Hacc).
  unfold memipc_get_req, consumer_scanned.
  destruct (negb (reader R =? rpid)).
  { cbn [g_area g_mem g_ret]. stays HR. }
  rewrite (u32_small (inbuffer R)) by lia.
  pose proof (scan_written_range (cells m) (size R)
                (Z.to_nat (size R - inbuffer R)) (wptr R) (inbuffer R)
                ltac:(lia) Hw) as [Hlp Hdiff].
  pose proof (scan_written_stop (cells m) (size R)
                (Z.to_nat (size R - inbuffer R)) (wptr R) (inbuffer R)
                eq_refl) as [_ Hmono].
  destruct (scan_written _ _ _ _ _) as [lp inb].
  cbn [fst snd] in Hlp, Hdiff, Hmono.
  cbn [fst snd wptr rptr size inbuffer writer reader].
  assert ((rptr R + inb) mod size R = lp) as Hsum.
  { pose proof (Z.div_mod (rptr R + inbuffer R) (size R) ltac:(lia)) as E1.
    pose proof (Z.div_mod (lp - inb) (size R) ltac:(lia)) as E2.
    pose proof (Z.div_mod (wptr R - inbuffer R) (size R) ltac:(lia)) as E3.
    rewrite Hacc in E1. rewrite Hdiff in E2.
    set (q1 := (rptr R + inbuffer R) / size R) in *.
    set (q2 := (lp - inb) / size R) in *.
    set (q3 := (wptr R - inbuffer R) / size R) in *.
    replace (rptr R + inb) with (lp + (q1 - q2 + q3) * size R) by lia.
    rewrite Z.mod_add by lia. apply Z.mod_small. lia. }
  assert (consumer_accounted
            (MemipcArea lp (rptr R) (size R) inb (writer R) (reader R)))
    as Hscanned
    by (unfold consumer_accounted;
        cbn [wptr rptr size inbuffer]; repeat split; first [assumption|lia]).
  unfold EIGHT, SEVEN.
  destruct (Z.ltb_spec inb 8) as [Hlow|Hhigh].
  { cbn [g_area g_mem g_ret]. stays Hscanned. }
  pose proof (header_total_eq buf (cells m) (rptr R) (7 - HDR) 0 0) as Htot.
  pose proof (header_rc buf (cells m) (rptr R) (7 - HDR) 0 0) as Hrc.
  pose proof (header_total_range (cells m) (rptr R)) as Hrange.
  destruct (read_decode_bytes_with_header buf (cells m) (rptr R)
              (7 - HDR) 0 0) as [[[rc data1] lty] lsz].
  cbn [fst snd] in Htot, Hrc.
  destruct (presence_all (cells m) (rptr R) =? 1).
  2:{ subst rc. cbn [Z.eqb negb g_area g_mem g_ret].
      stays Hscanned. }
  subst rc lsz. cbn [Z.eqb negb].
  set (total := header_total (cells m) (rptr R)) in *.
  destruct (u64 (cap + HDR) <? total).
  { cbn [g_area g_mem g_ret]. stays Hscanned. }
  pose proof (aligned_div8 (size R) Hsz8) as Esz.
  pose proof (aligned_div8 (rptr R) Hr8) as Er.
  assert ((size R - rptr R) mod 8 = 0) as Hsr8
    by (rewrite Zminus_mod, Hsz8, Hr8; reflexivity).
  pose proof (aligned_div8 (size R - rptr R) Hsr8) as Ea.
  unfold blocks_taken, SEVEN.
  destruct (Z.leb_spec total 7) as [Hone|Hmulti].
  - (* one block *)
    cbn [g_area g_mem g_ret cells journal rptr inbuffer wptr size].
    set (r1 := if size R <=? rptr R + 8 then 0 else rptr R + 8).
    assert ((rptr R + 8 * 1) mod size R = r1) as Hnew.
    { unfold r1. destruct (Z.leb_spec (size R) (rptr R + 8)).
      - replace (rptr R + 8 * 1) with (0 + 1 * size R) by lia.
        rewrite Z.mod_add by lia. reflexivity.
      - apply Z.mod_small. lia. }
    assert (0 <= r1 < size R) as Hr1
      by (rewrite <- Hnew; apply Z.mod_pos_bound; lia).
    assert (r1 mod 8 = 0) as Hr18.
    { unfold r1. destruct (size R <=? rptr R + 8); [reflexivity|].
      rewrite Zplus_mod, Hr8. reflexivity. }
    assert ((r1 + (inb - 8)) mod size R = lp) as Hacct.
    { rewrite <- Hsum, <- Hnew, Zplus_mod_idemp_l. f_equal. lia. }
    split; [repeat split; cbn [wptr rptr size inbuffer];
            first [assumption|lia]|].
    split; [reflexivity|]. split; [apply length_clearmem|].
    split; [reflexivity|]. intros _.
    split; [symmetry; exact Hnew|split; [lia|reflexivity]].
  - (* several blocks *)
    pose proof (blocks_for_bounds total ltac:(lia)) as Hc.
    set (c := blocks_for total) in *.
    destruct (Z.ltb_spec inb (c * 8)) as [Hshort|Hroom].
    { cbn [g_area g_mem g_ret]. stays Hscanned. }
    set (b0 := (size R - rptr R) / 8) in *.
    assert (1 <= b0) as Hb0 by lia.
    destruct (read_blocks _ _ _ _ _ _ _ _) as [[rc1 data2] dstptr1].
    destruct (negb (rc1 =? 0)).
    { cbn [g_area g_mem g_ret]. stays Hscanned. }
    match goal with
    | |- context [if ?b then ?t else (0, data2, dstptr1)] =>
        destruct (if b then t else (0, data2, dstptr1)) as [[rc2 data3] dp]
    end.
    destruct (negb (rc2 =? 0)).
    { cbn [g_area g_mem g_ret]. stays Hscanned. }
    cbn [g_area g_mem g_ret cells journal rptr inbuffer wptr size].
    match goal with
    | |- consumer_accounted (MemipcArea _ ?x _ _ _ _) /\ _ => set (r1 := x)
    end.
    assert ((rptr R + 8 * c) mod size R = r1) as Hnew.
    { unfold r1. destruct (Z.leb_spec c b0) as [Hfit|Hwrap].
      - destruct (Z.leb_spec (size R) (rptr R + c * 8)).
        + replace (rptr R + 8 * c) with (0 + 1 * size R) by lia.
          rewrite Z.mod_add by lia.
          destruct (Z.ltb_spec 0 0); [lia|reflexivity].
        + rewrite Z.mod_small by lia. lia.
      - destruct (Z.leb_spec (size R) (rptr R + b0 * 8)); [|lia].
        destruct (Z.ltb_spec 0 (c - b0)); [|lia].
        replace (rptr R + 8 * c) with ((c - b0) * 8 + 1 * size R) by lia.
        rewrite Z.mod_add by lia. apply Z.mod_small. lia. }
    assert (0 <= r1 < size R) as Hr1
      by (rewrite <- Hnew; apply Z.mod_pos_bound; lia).
    assert (r1 mod 8 = 0) as Hr18.
    { rewrite <- Hnew.
      rewrite (mod_small_wrap (size R) (rptr R + 8 * c)) by lia.
      destruct (rptr R + 8 * c <? size R).
      - rewrite Zplus_mod, Hr8, Z.mul_comm, Z.mod_mul by lia. reflexivity.
      - rewrite Zminus_mod, Zplus_mod, Hr8, Hsz8, Z.mul_comm, Z.mod_mul
          by lia. reflexivity. }
    assert ((r1 + (inb - c * 8)) mod size R = lp) as Hacct.
    { rewrite <- Hsum, <- Hnew, Zplus_mod_idemp_l. f_equal. lia. }
    split; [repeat split; cbn [wptr rptr size inbuffer];
            first [assumption|lia]|].
    split; [reflexivity|].
    split; [rewrite length_clearmem;
            destruct (_ && _); rewrite ?length_clearmem; reflexivity|].
    split; [reflexivity|]. intros _.
    split; [symmetry; exact Hnew|split; [lia|reflexivity]].
Qed.

(** X4.  Whatever [memipc_get_req] returns, it leaves the consumer's
    descriptor consistent, the area at its size and every cell where it
    was; when it returns a request, the read pointer has moved on by the
    blocks taken (wrapping at the end of the area) and the byte count has
    been lowered by as much. *)
Theorem get_req_keeps_descriptor
    (rpid : Z) (R : memipc_area) (m : shmem) (ty0 cap : Z) (buf : list Z) :
  consumer_accounted R ->
  let g := memipc_get_req rpid R m ty0 cap buf in
  let n := blocks_taken (header_total (cells m) (rptr R)) in
  consumer_accounted (g_area g) /\ size (g_area g) = size R /\
  length (cells (g_mem g)) = length (cells m) /\
  journal (g_mem g) = journal m /\
  (g_ret g = 0 ->
     rptr (g_area g) = (rptr R + 8 * n) mod size R /\
     inbuffer (g_area g) = inbuffer (consumer_scanned R m) - 8 * n /\
     wptr (g_area g) = wptr (consumer_scanned R m)).
Proof. apply get_req_descriptor. Qed.

(** The consumer takes the nine-byte request queued on a fresh ring. *)
Lemma get_req_keeps_descriptor_witness :
  let R := one_queued_ring.1 in
  let m := one_queued_ring.2 in
  let g := memipc_get_req 0 R m 0 9 (replicate 9 0) in
  let n := blocks_taken (header_total (cells m) (rptr R)) in
  g_ret g = 0 /\ n = 2 /\
  consumer_accounted (g_area g) /\ size (g_area g) = size R /\
  length (cells (g_mem g)) = length (cells m) /\
  journal (g_mem g) = journal m /\
  (g_ret g = 0 ->
     rptr (g_area g) = (rptr R + 8 * n) mod size R /\
     inbuffer (g_area g) = inbuffer (consumer_scanned R m) - 8 * n /\
     wptr (g_area g) = wptr (consumer_scanned R m)).
Proof.
  split; [vm_compute; reflexivity|]. split; [vm_compute; reflexivity|].
  apply (get_req_keeps_descriptor 0 one_queued_ring.1 one_queued_ring.2 0 9
           (replicate 9 0)).
  unfold consumer_accounted. vm_compute.
  repeat split; first [reflexivity|discriminate].
Defined.

(** X5.  When the probe [memipc_check_newdata] finds no presence bit at
    the read pointer, [memipc_get_req] returns -1: no cell is cleared,
    the read pointer stays and the caller's buffer, type and size are
    left as they were. *)
Theorem get_req_nothing_to_read
    (rpid : Z) (R : memipc_area) (m : shmem) (ty0 cap : Z) (buf : list Z) :
  memipc_check_newdata (cells m) (rptr R) = 0 ->
  let g := memipc_get_req rpid R m ty0 cap buf in
  g_ret g = -1 /\ g_mem g = m /\ rptr (g_area g) = rptr R /\
  g_data g = buf /\ g_type g = ty0 /\ g_size g = cap.
Proof.
  intros Hprobe g. subst g. unfold memipc_check_newdata in Hprobe.
  assert ((presence_all (cells m) (rptr R) =? 1) = false) as Hall.
  { apply (presence_all_clear _ _ 0); [lia|].
    rewrite Z.add_0_r, Z.bit0_odd.
    rewrite land_1_odd in Hprobe.
    destruct (Z.odd (peek (cells m) (rptr R))); [discriminate|reflexivity]. }
  unfold memipc_get_req.
  destruct (negb (reader R =? rpid)); [repeat split|].
  destruct (scan_written _ _ _ _ _) as [lp inb].
  cbn [inbuffer rptr].
  destruct (inb <? EIGHT); [repeat split|].
  unfold read_decode_bytes_with_header. rewrite Hall.
  cbn [negb Z.eqb]. repeat split.
Qed.

(** The probe on a freshly created ring. *)
Lemma get_req_nothing_to_read_witness :
  memipc_check_newdata (cells (fresh_cells 32))
    (rptr (memipc_area_create 32)) = 0 /\
  let g := memipc_get_req 0 (memipc_area_create 32) (fresh_cells 32) 7 9
             (replicate 9 0) in
  g_ret g = -1 /\ g_mem g = fresh_cells 32 /\
  rptr (g_area g) = rptr (memipc_area_create 32) /\
  g_data g = replicate 9 0 /\ g_type g = 7 /\ g_size g = 9.
Proof.
  split; [reflexivity|].
  apply (get_req_nothing_to_read 0 (memipc_area_create 32) (fresh_cells 32)
           7 9 (replicate 9 0)).
  reflexivity.
Defined.

(** ** What each side may do to the shared cells *)

Lemma poke_beyond (m : list Z) p v :
  Z.of_nat (length m) <= p -> poke m p v = m.
Proof. intros H. unfold poke. apply list_insert_ge. lia. Qed.

Lemma store_bytes_cases bs : forall m p q,
  0 <= p -> 0 <= q ->
  peek (store_bytes m p bs) q = peek m q \/
  (p <= q < p + Z.of_nat (length bs) /\ q < Z.of_nat (length m) /\
   peek (store_bytes m p bs) q = peek bs (q - p)).
Proof.
  induction bs as [|b bs IH]; intros m p q Hp Hq; [left; reflexivity|].
  cbn [store_bytes length].
  destruct (IH (poke m p b) (p + 1) q ltac:(lia) Hq) as [E|(Hr & Hl & E)].
  - rewrite E. destruct (Z.eq_dec q p) as [->|Hne].
    + destruct (Z.lt_ge_cases p (Z.of_nat (length m))) as [Hin|Hout].
      * right. split; [lia|]. split; [exact Hin|].
        rewrite peek_poke_eq by lia. rewrite Z.sub_diag. reflexivity.
      * left. rewrite poke_beyond by exact Hout. reflexivity.
    + left. apply peek_poke_ne; lia.
  - right. rewrite length_poke in Hl. split; [lia|]. split; [exact Hl|].
    rewrite E. unfold peek.
    replace (Z.to_nat (q - p)) with (S (Z.to_nat (q - (p + 1)))) by lia.
    reflexivity.
Qed.

Lemma only_fills_refl cs : only_fills cs cs.
Proof. split; [reflexivity|]. intros q _. left. reflexivity. Qed.

Lemma only_fills_trans cs1 cs2 cs3 :
  only_fills cs1 cs2 -> only_fills cs2 cs3 -> only_fills cs1 cs3.
Proof.
  intros [L1 H1] [L2 H2]. split; [congruence|]. intros q Hq.
  destruct (H1 q Hq) as [E1|[A1 B1]], (H2 q Hq) as [E2|[A2 B2]].
  - left. congruence.
  - right. rewrite <- E1. split; assumption.
  - right. rewrite E2. split; assumption.
  - rewrite A2 in B1. discriminate B1.
Qed.

Lemma store_block_only_fills cs blk s0 s1 s2 s3 s4 s5 s6 :
  0 <= blk -> (presence_any cs blk =? 0) = true ->
  only_fills cs (store_bytes cs blk (encode7 s0 s1 s2 s3 s4 s5 s6)).
Proof.
  intros Hb Hfree. split; [apply length_store_bytes|]. intros q Hq.
  destruct (store_bytes_cases (encode7 s0 s1 s2 s3 s4 s5 s6) cs blk q Hb Hq)
    as [E|(Hr & Hl & E)]; [left; exact E|].
  right. rewrite encode7_length in Hr. change (Z.of_nat 8) with 8 in Hr.
  split.
  - destruct (Z.odd (peek cs q)) eqn:Eo; [|reflexivity].
    rewrite (presence_any_set cs blk (q - blk)) in Hfree; [discriminate|lia|].
    rewrite Z.bit0_odd. replace (blk + (q - blk)) with q by lia. exact Eo.
  - rewrite E. apply encode7_odd. lia.
Qed.

Lemma write_encode_bytes_fills m blk src soff sz :
  0 <= blk ->
  only_fills (cells m) (cells (write_encode_bytes m blk src soff sz).2).
Proof.
  intros Hb. unfold write_encode_bytes.
  destruct (presence_any (cells m) blk =? 0) eqn:E; cbn [negb snd cells];
    [|apply only_fills_refl].
  apply store_block_only_fills; assumption.
Qed.

Lemma write_encode_bytes_with_header_fills m blk src sz t msize :
  0 <= blk ->
  only_fills (cells m)
    (cells (write_encode_bytes_with_header m blk src sz t msize).2).
Proof.
  intros Hb. unfold write_encode_bytes_with_header.
  destruct (presence_any (cells m) blk =? 0) eqn:E; cbn [negb snd cells];
    [|apply only_fills_refl].
  apply store_block_only_fills; assumption.
Qed.

Lemma write_blocks_fills base skip t L payload i : forall m,
  0 <= base ->
  only_fills (cells m) (cells (write_blocks i m base skip t L payload).2).
Proof.
  induction i as [|i IH]; intros m Hb; [apply only_fills_refl|].
  cbn [write_blocks]. cbn zeta.
  match goal with
  | |- context [if negb (?r.1 =? 0) then _ else _] =>
      assert (only_fills (cells m) (cells r.2)) as Hstep;
      [|destruct (negb (r.1 =? 0)); cbn [snd];
        [exact Hstep
        |eapply only_fills_trans; [exact Hstep|apply IH, Hb]]]
  end.
  destruct (SEVEN <=? _).
  - apply write_encode_bytes_fills. unfold EIGHT. lia.
  - apply write_encode_bytes_with_header_fills. unfold EIGHT. lia.
Qed.

(** X19.  [memipc_add_req] never overwrites data that was not read yet:
    whatever it returns, a cell that had its presence bit set holds what
    it held, and every cell it did change had the bit clear and has it
    set now.  The area keeps its length. *)
Theorem add_req_keeps_unread
    (wpid : Z) (W : memipc_area) (m : shmem) (t L : Z) (payload : list Z) :
  0 <= wptr W ->
  let m' := (memipc_add_req wpid W m t L payload).2 in
  only_fills (cells m) (cells m') /\
  forall q, 0 <= q -> Z.odd (peek (cells m) q) = true ->
            peek (cells m') q = peek (cells m) q.
Proof.
  intros Hw m'.
  assert (only_fills (cells m) (cells m')) as Hfill.
  { subst m'. unfold memipc_add_req.
    destruct (negb (writer W =? wpid)); [apply only_fills_refl|].
    destruct (scan_released _ _ _ _ _) as [lp inb].
    cbn [inbuffer size wptr rptr].
    destruct (inb =? size W); [apply only_fills_refl|].
    cbn zeta.
    match goal with
    | |- context [if ?a <? ?b then (-1, _, _) else _] =>
        destruct (a <? b); [apply only_fills_refl|]
    end.
    match goal with
    | |- context [if negb (?r.1 =? 0) then (-1, ?a, ?r.2) else _] =>
        assert (only_fills (cells m) (cells r.2)) as Hwrapped;
        [|destruct (negb (r.1 =? 0)); [exact Hwrapped|]]
    end.
    { destruct (_ <? _); [apply write_blocks_fills; lia
                         |apply only_fills_refl]. }
    match goal with
    | |- context [if negb (?r.1 =? 0) then (-1, ?a, ?r.2) else _] =>
        assert (only_fills (cells m) (cells r.2)) as Hdirect;
        [|destruct (negb (r.1 =? 0)); exact Hdirect]
    end.
    eapply only_fills_trans; [exact Hwrapped|].
    apply write_blocks_fills. exact Hw. }
  split; [exact Hfill|].
  intros q Hq Hodd. destruct Hfill as [_ Hcells].
  destruct (Hcells q Hq) as [E|[Heven _]]; [exact E|].
  rewrite Hodd in Heven. discriminate Heven.
Qed.

(** A three-byte request offered on the half-drained ring. *)
Lemma add_req_keeps_unread_witness :
  let W := half_drained_ring.1 in
  let m := half_drained_ring.2 in
  let m' := (memipc_add_req 0 W m 15 3 [1; 2; 3]).2 in
  only_fills (cells m) (cells m') /\
  forall q, 0 <= q -> Z.odd (peek (cells m) q) = true ->
            peek (cells m') q = peek (cells m) q.
Proof.
  apply (add_req_keeps_unread 0 half_drained_ring.1 half_drained_ring.2
           15 3 [1; 2; 3]).
  vm_compute. discriminate.
Defined.

Lemma mod_window sz r q w :
  0 < sz -> 0 <= r < sz -> 0 <= q < sz -> 0 <= w <= sz ->
  ((q - r) mod sz <? w)
  = ((r <=? q) && (q <? r + w)) || (q <? r + w - sz).
Proof.
  intros Hsz Hr Hq Hw.
  destruct (Z.le_gt_cases r q) as [Hle|Hgt].
  - rewrite Z.mod_small by lia.
    destruct (Z.ltb_spec (q - r) w), (Z.leb_spec r q), (Z.ltb_spec q (r + w)),
      (Z.ltb_spec q (r + w - sz)); cbn [andb orb]; try reflexivity; lia.
  - replace ((q - r) mod sz) with (q - r + sz)
      by (apply (Z.mod_unique _ _ (-1)); lia).
    destruct (Z.ltb_spec (q - r + sz) w), (Z.leb_spec r q),
      (Z.ltb_spec q (r + w)), (Z.ltb_spec q (r + w - sz));
      cbn [andb orb]; try reflexivity; lia.
Qed.

(** The shared cells after [memipc_get_req]. *)
Lemma get_req_cells
    (rpid : Z) (R : memipc_area) (m : shmem) (ty0 cap : Z) (buf : list Z) :
  consumer_accounted R -> size R <= Z.of_nat (length (cells m)) ->
  let g := memipc_get_req rpid R m ty0 cap buf in
  let n := blocks_taken (header_total (cells m) (rptr R)) in
  (g_ret g <> 0 -> g_mem g = m) /\
  (g_ret g = 0 ->
   forall q, 0 <= q ->
     peek (cells (g_mem g)) q
     = if (q <? size R) && ((q - rptr R) mod size R <? 8 * n)
       then 0 else peek (cells m) q).
Proof.
  intros HR Hlen g n. subst g n.
  pose proof HR as (Hsz & Hsz8 & Hr & Hr8 & Hw & Hi & Hacc).
  unfold memipc_get_req.
  destruct (negb (reader R =? rpid));
    [cbn [g_ret g_mem]; split; [reflexivity|discriminate]|].
  rewrite (u32_small (inbuffer R)) by lia.
  pose proof (scan_written_stop (cells m) (size R)
                (Z.to_nat (size R - inbuffer R)) (wptr R) (inbuffer R)
                eq_refl) as [_ Hmono].
  destruct (scan_written _ _ _ _ _) as [lp inb].
  cbn [fst snd] in Hmono.
  cbn [fst snd wptr rptr size inbuffer writer reader].
  unfold EIGHT, SEVEN.
  destruct (Z.ltb_spec inb 8) as [Hlow|Hhigh];
    [cbn [g_ret g_mem]; split; [reflexivity|discriminate]|].
  pose proof (header_total_eq buf (cells m) (rptr R) (7 - HDR) 0 0) as Htot.
  pose proof (header_rc buf (cells m) (rptr R) (7 - HDR) 0 0) as Hrc.
  pose proof (header_total_range (cells m) (rptr R)) as Hrange.
  destruct (read_decode_bytes_with_header buf (cells m) (rptr R)
              (7 - HDR) 0 0) as [[[rc data1] lty] lsz].
  cbn [fst snd] in Htot, Hrc.
  destruct (presence_all (cells m) (rptr R) =? 1).
  2:{ subst rc. cbn [Z.eqb negb g_ret g_mem].
      split; [reflexivity|discriminate]. }
  subst rc lsz. cbn [Z.eqb negb].
  set (total := header_total (cells m) (rptr R)) in *.
  destruct (u64 (cap + HDR) <? total);
    [cbn [g_ret g_mem]; split; [reflexivity|discriminate]|].
  pose proof (aligned_div8 (size R) Hsz8) as Esz.
  pose proof (aligned_div8 (rptr R) Hr8) as Er.
  assert ((size R - rptr R) mod 8 = 0) as Hsr8
    by (rewrite Zminus_mod, Hsz8, Hr8; reflexivity).
  pose proof (aligned_div8 (size R - rptr R) Hsr8) as Ea.
  unfold blocks_taken, SEVEN.
  destruct (Z.leb_spec total 7) as [Hone|Hmulti].
  - (* one block *)
    cbn [g_ret g_mem cells]. split; [intros Hne; contradiction|].
    intros _ q Hq.
    rewrite peek_clearmem by lia. change (Z.of_nat (Z.to_nat 8)) with 8.
    destruct (Z.ltb_spec q (size R)) as [Hin|Hout]; cbn [andb].
    + rewrite (mod_window (size R) (rptr R) q (8 * 1)) by lia.
      destruct (Z.leb_spec (rptr R) q), (Z.ltb_spec q (rptr R + 8)),
        (Z.ltb_spec q (rptr R + 8 * 1)),
        (Z.ltb_spec q (rptr R + 8 * 1 - size R));
        cbn [andb orb]; try reflexivity; lia.
    + destruct (Z.leb_spec (rptr R) q), (Z.ltb_spec q (rptr R + 8));
        cbn [andb]; try reflexivity; lia.
  - (* several blocks *)
    pose proof (blocks_for_bounds total ltac:(lia)) as Hc.
    set (c := blocks_for total) in *.
    destruct (Z.ltb_spec inb (c * 8)) as [Hshort|Hroom];
      [cbn [g_ret g_mem]; split; [reflexivity|discriminate]|].
    set (b0 := (size R - rptr R) / 8) in *.
    assert (1 <= b0) as Hb0 by lia.
    destruct (read_blocks _ _ _ _ _ _ _ _) as [[rc1 data2] dstptr1].
    destruct (negb (rc1 =? 0));
      [cbn [g_ret g_mem]; split; [reflexivity|discriminate]|].
    match goal with
    | |- context [if ?b then ?t else (0, data2, dstptr1)] =>
        destruct (if b then t else (0, data2, dstptr1)) as [[rc2 data3] dp]
    end.
    destruct (negb (rc2 =? 0));
      [cbn [g_ret g_mem]; split; [reflexivity|discriminate]|].
    cbn [g_ret g_mem cells]. split; [intros Hne; contradiction|].
    intros _ q Hq.
    assert (8 * c <= size R) as Hfit by lia.
    destruct (Z.leb_spec c b0) as [Hnowrap|Hwrap].
    + (* the request ends before the end of the area *)
      assert (memipc_clearmem
                (if (size R <=? rptr R + c * 8) && (0 <? 0)
                 then memipc_clearmem (cells m) 0 (Z.to_nat (0 * 8))
                 else cells m) (rptr R) (Z.to_nat (c * 8))
              = memipc_clearmem (cells m) (rptr R) (Z.to_nat (c * 8))) as ->
        by (rewrite andb_false_r; reflexivity).
      rewrite peek_clearmem by lia.
      rewrite Z2Nat.id by lia.
      destruct (Z.ltb_spec q (size R)) as [Hin|Hout]; cbn [andb].
      * rewrite (mod_window (size R) (rptr R) q (8 * c)) by lia.
        destruct (Z.leb_spec (rptr R) q), (Z.ltb_spec q (rptr R + c * 8)),
          (Z.ltb_spec q (rptr R + 8 * c)),
          (Z.ltb_spec q (rptr R + 8 * c - size R));
          cbn [andb orb]; try reflexivity; lia.
      * destruct (Z.leb_spec (rptr R) q), (Z.ltb_spec q (rptr R + c * 8));
          cbn [andb]; try reflexivity; lia.
    + (* the request wraps to the start of the area *)
      destruct (Z.leb_spec (size R) (rptr R + b0 * 8)); [|lia].
      destruct (Z.ltb_spec 0 (c - b0)); [|lia]. cbn [andb].
      rewrite peek_clearmem by (rewrite ?length_clearmem; lia).
      rewrite peek_clearmem by lia.
      rewrite !Z2Nat.id by lia.
      destruct (Z.ltb_spec q (size R)) as [Hin|Hout]; cbn [andb].
      * rewrite (mod_window (size R) (rptr R) q (8 * c)) by lia.
        destruct (Z.leb_spec (rptr R) q), (Z.ltb_spec q (rptr R + b0 * 8)),
          (Z.leb_spec 0 q), (Z.ltb_spec q (0 + (c - b0) * 8)),
          (Z.ltb_spec q (rptr R + 8 * c)),
          (Z.ltb_spec q (rptr R + 8 * c - size R));
          cbn [andb orb]; try reflexivity; lia.
      * destruct (Z.leb_spec (rptr R) q), (Z.ltb_spec q (rptr R + b0 * 8)),
          (Z.leb_spec 0 q), (Z.ltb_spec q (0 + (c - b0) * 8));
          cbn [andb]; try reflexivity; lia.
Qed.

(** X20.  A [memipc_get_req] that fails leaves the shared cells as they
    were.  One that returns a request releases the blocks it took and
    nothing else: the cells of those blocks (from the read pointer on,
    wrapping at the end of the area) are 0 afterwards, ready for the
    producer, and every other cell holds what it held. *)
Theorem get_req_releases_blocks
    (rpid : Z) (R : memipc_area) (m : shmem) (ty0 cap : Z) (buf : list Z) :
  consumer_accounted R -> size R <= Z.of_nat (length (cells m)) ->
  let g := memipc_get_req rpid R m ty0 cap buf in
  let n := blocks_taken (header_total (cells m) (rptr R)) in
  (g_ret g <> 0 -> g_mem g = m) /\
  (g_ret g = 0 ->
   forall q, 0 <= q ->
     peek (cells (g_mem g)) q
     = if (q <? size R) && ((q - rptr R) mod size R <? 8 * n)
       then 0 else peek (cells m) q).
Proof. apply get_req_cells. Qed.

(** The consumer takes the nine-byte request queued on a fresh ring. *)
Lemma get_req_releases_blocks_witness :
  let R := one_queued_ring.1 in
  let m := one_queued_ring.2 in
  let g := memipc_get_req 0 R m 0 9 (replicate 9 0) in
  let n := blocks_taken (header_total (cells m) (rptr R)) in
  g_ret g = 0 /\ n = 2 /\
  (g_ret g <> 0 -> g_mem g = m) /\
  (g_ret g = 0 ->
   forall q, 0 <= q ->
     peek (cells (g_mem g)) q
     = if (q <? size R) && ((q - rptr R) mod size R <? 8 * n)
       then 0 else peek (cells m) q).
Proof.
  split; [vm_compute; reflexivity|]. split; [vm_compute; reflexivity|].
  apply (get_req_releases_blocks 0 one_queued_ring.1 one_queued_ring.2 0 9
           (replicate 9 0)).
  - unfold consumer_accounted. vm_compute.
    repeat split; first [reflexivity|discriminate].
  - vm_compute. discriminate.
Defined.

(** ** The launch pass: what it may change *)


Ltac pick_news :=
  first [ exists []; split; [reflexivity|]
        | eexists [_]; split; [reflexivity|]
        | eexists [_; _]; split; [reflexivity|] ].

Ltac in_news :=
  first [ apply list_elem_of_here
        | apply list_elem_of_further; apply list_elem_of_here ].

Ltac step_ok :=
  split; [reflexivity|];
  split;
    [ first [ left; reflexivity
            | right; eexists; split; [reflexivity|in_news] ]
    | first [ left; reflexivity
            | right; split; [reflexivity|in_news] ] ].

Ltac split_add_req :=
  repeat match goal with
  | |- context [memipc_add_req ?a ?b ?c ?d ?e ?f] =>
      let rc := fresh "rc" in
      destruct (memipc_add_req a b c d e f) as [[rc ?] ?];
      cbn [fst snd]; destruct (rc =? 0)
  end.

Lemma pending_exit_moves my_pid i th l :
  let r := pending_exit_request my_pid i th l in
  exists news,
    l_sent r.2 = news ++ l_sent l /\
    launch_untouched r.1 = launch_untouched th /\
    state r.1 = state th /\
    (exit_request r.1 = exit_request th \/
     (exit_request r.1 = 0 /\ (i, MEMIPC_REQ_TERMINATE) ∈ news)).
Proof.
  unfold pending_exit_request, send_req, launch_untouched.
  destruct (negb (exit_request th =? 0)).
  - destruct (memipc_add_req _ _ _ _ _ _) as [[rc a] m]. cbn [fst snd].
    destruct (rc =? 0); cbn.
    + exists [(i, MEMIPC_REQ_TERMINATE)]. split; [reflexivity|].
      split; [reflexivity|]. split; [reflexivity|].
      right. split; [reflexivity|apply list_elem_of_here].
    + exists []. repeat split. left. reflexivity.
  - exists []. repeat split. left. reflexivity.
Qed.

Lemma launch_thread_moves clock my_pid delay tset running i th l :
  let r := launch_thread clock my_pid delay tset running i th l in
  exists news,
    l_sent r.2 = news ++ l_sent l /\ launch_step_ok i th r.1 news.
Proof.
  unfold launch_thread.
  destruct (pending_exit_moves my_pid i th l) as (n0 & Hn0 & Hu0 & Hs0 & He0).
  destruct (pending_exit_request my_pid i th l) as [th0 l0].
  cbn [fst snd] in *.
  match goal with
  | |- context [match state th0 with _ => _ end] =>
      set (r := match state th0 with
                | MEMIPC_STATE_OFF => _ | _ => _ end)
  end.
  assert (exists news,
            l_sent r.2 = news ++ l_sent l0 /\
            launch_untouched r.1 = launch_untouched th0 /\
            exit_request r.1 = exit_request th0 /\
            (state r.1 = state th0 \/
             exists ty, launch_move (state th0) (state r.1) = Some ty /\
                        (i, ty) ∈ news)) as (n1 & Hn1 & Hu1 & He1 & Hs1).
  { subst r. clear. unfold send_req, launch_untouched.
    destruct th0 as [c st er et mm mc cp ts lt ut ix ti pi tt cc iso sg].
    destruct l0 as [k s w].
    cbn [cpu state exit_request isol_exit_time m_memipc_mosi mosi_cells
         counter_ptr timers lasttimer updatetimer index thread_id pid tid
         claim_counter isolated memipc_check_signal_ptr l_clock l_sent
         l_show].
    destruct st; cbn [fst snd]; split_add_req;
      repeat match goal with
      | |- context [if ?b then _ else _] => destruct b
      end;
      cbn; pick_news;
      (split; [reflexivity|]); (split; [reflexivity|]);
      first [ left; reflexivity
            | right; eexists; split; [reflexivity|in_news] ]. }
  exists (n1 ++ n0). split; [rewrite Hn1, Hn0; apply app_assoc|].
  split; [congruence|]. split.
  - rewrite <- Hs0.
    destruct Hs1 as [Hs1|(ty & Hm & Hin)]; [left; exact Hs1|].
    right. exists ty. split; [exact Hm|].
    apply elem_of_app. left. exact Hin.
  - rewrite He1.
    destruct He0 as [He0|[He0 Hin]]; [left; exact He0|].
    right. split; [exact He0|]. apply elem_of_app. right. exact Hin.
Qed.



(** ** The launch pass and [memipc_isolation_io_expected] *)







(** ** Exit requests *)

Lemma launch_thread_terminate clock my_pid delay tset running i th l :
  exit_request th <> 0 ->
  let a := memipc_add_req my_pid (m_memipc_mosi th) (mosi_cells th)
             (req_code MEMIPC_REQ_TERMINATE) 0 [] in
  let r := launch_thread clock my_pid delay tset running i th l in
  if a.1.1 =? 0 then
    exit_request r.1 = 0 /\
    exists news, l_sent r.2 = news ++ l_sent l /\
                 (i, MEMIPC_REQ_TERMINATE) ∈ news
  else exit_request r.1 = exit_request th.
Proof.
  intros Her.
  unfold launch_thread, pending_exit_request, send_req.
  destruct th as [c st er et mm mc cp ts lt ut ix ti pi tt cc iso sg].
  destruct l as [k s w].
  cbn [cpu state exit_request isol_exit_time m_memipc_mosi mosi_cells
       counter_ptr timers lasttimer updatetimer index thread_id pid tid
       claim_counter isolated memipc_check_signal_ptr l_clock l_sent
       l_show] in *.
  destruct (Z.eqb_spec er 0) as [Eer|_]; [contradiction|]. cbn [negb].
  cbn zeta.
  destruct (memipc_add_req my_pid mm mc (req_code MEMIPC_REQ_TERMINATE) 0 [])
    as [[rc a1] m1].
  cbn [fst snd]. destruct (rc =? 0);
    cbn [fst snd state set_exit_request];
    destruct st; cbn [fst snd]; split_add_req;
    repeat match goal with
    | |- context [if ?b then _ else _] => destruct b
    end;
    cbn; try reflexivity;
    (split; [reflexivity|pick_news; in_news]).
Qed.

(** X8.  After [memipc_isolation_terminate_all_threads], a launch pass
    that reaches its launch loop sends TERMINATE to every worker whose
    ring accepts the request and clears that worker's exit request; a
    worker whose ring refuses it keeps the exit request pending. *)
Theorem terminate_all_delivered
    (clock : nat -> timespec) (g : manager) (tset : cpu_set_t) (now : Z)
    (i : nat) (th : memipc_thread_params) :
  let g1 := memipc_isolation_terminate_all_threads g in
  let g' := memipc_isolation_process_ready_launch clock g1 tset now in
  let a := memipc_add_req (memipc_my_pid g) (m_memipc_mosi th)
             (mosi_cells th) (req_code MEMIPC_REQ_TERMINATE) 0 [] in
  _global_isolated_threads g !! i = Some th ->
  (launch_gate clock g1).1 = true ->
  exists th' news,
    _global_isolated_threads g' !! i = Some th' /\
    sent g' = news ++ sent g /\
    (a.1.1 = 0 ->
       exit_request th' = 0 /\ (i, MEMIPC_REQ_TERMINATE) ∈ news) /\
    (a.1.1 <> 0 -> exit_request th' = 1).
Proof.
  intros g1 g' a Hi Hgate. subst g'.
  destruct (launch_pass_result clock g1 tset now) as [-> ->].
  rewrite Hgate.
  assert (_global_isolated_threads g1 !! i
          = Some (memipc_isolation_terminate_thread th)) as Hi1.
  { unfold g1. cbn [_global_isolated_threads
                    memipc_isolation_terminate_all_threads].
    rewrite list_lookup_fmap, Hi. reflexivity. }
  destruct (launch_loop_lookup clock (memipc_my_pid g1)
              (_global_isolated_threads_restart_delay g1) tset
              (_global_running_cpuset g1) (_global_isolated_threads g1)
              0%nat (LoopState (launch_gate clock g1).2 (sent g1) false)
              i (memipc_isolation_terminate_thread th) Hi1)
    as (lk & nb & na & Hlook & Hnb & Hna).
  cbn [l_sent] in Hnb.
  pose proof (launch_thread_terminate clock (memipc_my_pid g1)
                (_global_isolated_threads_restart_delay g1) tset
                (_global_running_cpuset g1) (0 + i)
                (memipc_isolation_terminate_thread th) lk
                ltac:(cbn; discriminate)) as Hterm.
  cbn zeta in Hterm.
  change (memipc_add_req (memipc_my_pid g1)
            (m_memipc_mosi (memipc_isolation_terminate_thread th))
            (mosi_cells (memipc_isolation_terminate_thread th))
            (req_code MEMIPC_REQ_TERMINATE) 0 []) with a in Hterm.
  destruct (launch_thread_moves clock (memipc_my_pid g1)
              (_global_isolated_threads_restart_delay g1) tset
              (_global_running_cpuset g1) (0 + i)
              (memipc_isolation_terminate_thread th) lk)
    as (ni & Hni & _).
  eexists. exists (na ++ ni ++ nb).
  split; [exact Hlook|].
  split; [rewrite Hna, Hni, Hnb, !app_assoc; reflexivity|].
  destruct (Z.eqb_spec a.1.1 0) as [E|E].
  - split; [|intros Hne; contradiction]. intros _.
    destruct Hterm as [Hz (n0 & Hn0 & Hin)]. split; [exact Hz|].
    rewrite Hni in Hn0. apply app_inv_tail in Hn0. subst n0.
    rewrite !elem_of_app. right. left. exact Hin.
  - split; [intros H0; contradiction|]. intros _. exact Hterm.
Qed.

(** One running worker with a fresh ring is told to terminate. *)
Lemma terminate_all_delivered_witness :
  let clock := fun _ : nat => Timespec 5 0 in
  let g := one_worker MEMIPC_STATE_RUNNING 0 {[1]} in
  let th := fresh_thread 1 MEMIPC_STATE_RUNNING 0 in
  let g1 := memipc_isolation_terminate_all_threads g in
  let g' := memipc_isolation_process_ready_launch clock g1 ∅ 0 in
  let a := memipc_add_req (memipc_my_pid g) (m_memipc_mosi th)
             (mosi_cells th) (req_code MEMIPC_REQ_TERMINATE) 0 [] in
  a.1.1 = 0 /\
  exists th' news,
    _global_isolated_threads g' !! 0%nat = Some th' /\
    sent g' = news ++ sent g /\
    (a.1.1 = 0 ->
       exit_request th' = 0 /\ (0%nat, MEMIPC_REQ_TERMINATE) ∈ news) /\
    (a.1.1 <> 0 -> exit_request th' = 1).
Proof.
  split; [vm_compute; reflexivity|].
  apply (terminate_all_delivered (fun _ : nat => Timespec 5 0)
           (one_worker MEMIPC_STATE_RUNNING 0 {[1]}) ∅ 0 0
           (fresh_thread 1 MEMIPC_STATE_RUNNING 0)).
  - reflexivity.
  - vm_compute. reflexivity.
Defined.

(** ** The start of the workers is held back *)




(** ** Timers of the workers *)

Lemma remaining_loop_spec now threads : forall acc,
  let r := remaining_loop now acc threads in
  (r.1 = false ->
     acc.1 = false /\ Forall (fun th => has_last_timer th = false) threads) /\
  (acc.1 = true -> r.1 = true /\ acc.2 <= r.2) /\
  (forall th, th ∈ threads -> has_last_timer th = true ->
     r.1 = true /\ s64 (lasttimer th - now) <= r.2) /\
  (r.1 = true ->
     (acc.1 = true /\ r.2 = acc.2) \/
     exists th, th ∈ threads /\ has_last_timer th = true /\
                r.2 = s64 (lasttimer th - now)).
Proof.
  induction threads as [|th rest IH]; intros acc.
  - cbn. split; [intros H; split; [exact H|constructor]|].
    split; [intros H; split; [exact H|lia]|].
    split; [intros th Hin; apply elem_of_nil in Hin; contradiction|].
    intros H. left. split; [exact H|reflexivity].
  - unfold remaining_loop. cbn [foldl].
    match goal with
    | |- context [foldl ?f ?a rest] =>
        change (foldl f a rest) with (remaining_loop now a rest);
        specialize (IH a); set (acc1 := a) in *
    end.
    cbn zeta in IH. destruct IH as (IH1 & IH2 & IH3 & IH4).
    assert (acc.1 = true -> acc1.1 = true /\ acc.2 <= acc1.2) as Hmono.
    { intros Ha. unfold acc1. destruct acc as [f v]. cbn [fst snd] in *.
      subst f. destruct (has_last_timer th); cbn [fst snd]; [|split; [auto|lia]].
      destruct (Z.ltb_spec v (s64 (lasttimer th - now)));
        cbn [fst snd]; split; auto; lia. }
    assert (has_last_timer th = true ->
            acc1.1 = true /\ s64 (lasttimer th - now) <= acc1.2) as Hth.
    { intros Hh. unfold acc1. rewrite Hh. destruct acc as [[|] v];
        cbn [fst snd]; [|split; [reflexivity|lia]].
      destruct (Z.ltb_spec v (s64 (lasttimer th - now)));
        cbn [fst snd]; split; auto; lia. }
    assert (acc1 = acc \/
            (has_last_timer th = true /\
             acc1 = (true, s64 (lasttimer th - now)))) as Hcase.
    { unfold acc1. destruct (has_last_timer th); [|left; reflexivity].
      destruct acc as [[|] v]; cbn [fst snd]; [|right; auto].
      destruct (v <? s64 (lasttimer th - now)); [right|left]; auto. }
    cbn zeta. split; [|split; [|split]].
    + intros Hr. destruct (IH1 Hr) as [Ha1 Hall].
      destruct (has_last_timer th) eqn:Hh.
      * destruct (Hth eq_refl) as [Ht _]. congruence.
      * split; [|constructor; assumption].
        destruct Hcase as [->|[Hx _]]; [exact Ha1|discriminate Hx].
    + intros Ha. destruct (Hmono Ha) as [H1 H2].
      destruct (IH2 H1) as [H3 H4]. split; [exact H3|lia].
    + intros th1 Hin Hh. apply elem_of_cons in Hin as [->|Hin].
      * destruct (Hth Hh) as [H1 H2]. destruct (IH2 H1) as [H3 H4].
        split; [exact H3|lia].
      * apply (IH3 th1 Hin Hh).
    + intros Hr. destruct (IH4 Hr) as [[Ha1 Hv]|(th1 & Hin & Hh & Hv)].
      * destruct Hcase as [E|[Hh E]].
        -- left. rewrite <- E. split; assumption.
        -- right. exists th. split; [apply elem_of_cons; left; reflexivity|].
           split; [exact Hh|]. rewrite Hv, E. reflexivity.
      * right. exists th1. split; [apply elem_of_cons; right; exact Hin|].
        split; assumption.
Qed.

(** X9.  [remaining_nsec_before_expiration] returns the time from [now]
    to the timer that expires last among the workers it looks at (those
    past STARTED with [lasttimer] set): the value belongs to one of them
    and none of them has a greater one.  With no such worker it returns
    KTIME_MAX. *)
Theorem remaining_nsec_is_last
    (threads : list memipc_thread_params) (now : Z) :
  let r := remaining_nsec_before_expiration threads now in
  (Forall (fun th => has_last_timer th = false) threads -> r = KTIME_MAX) /\
  (forall th, th ∈ threads -> has_last_timer th = true ->
     s64 (lasttimer th - now) <= r /\
     exists th0, th0 ∈ threads /\ has_last_timer th0 = true /\
                 r = s64 (lasttimer th0 - now)).
Proof.
  intros r. subst r. unfold remaining_nsec_before_expiration.
  destruct (remaining_loop_spec now threads (false, KTIME_MAX))
    as (H1 & _ & H3 & H4).
  cbn [fst snd] in *. split.
  - intros Hall.
    destruct (remaining_loop now (false, KTIME_MAX) threads).1 eqn:E;
      [|reflexivity].
    destruct (H4 eq_refl) as [[Hx _]|(th & Hin & Hh & _)]; [discriminate Hx|].
    rewrite Forall_forall in Hall. rewrite (Hall th Hin) in Hh.
    discriminate Hh.
  - intros th Hin Hh. destruct (H3 th Hin Hh) as [Hr Hle]. rewrite Hr.
    split; [exact Hle|].
    destruct (H4 Hr) as [[Hx _]|Hex]; [discriminate Hx|exact Hex].
Qed.

Lemma timers_only_refl th : timers_only th th.
Proof. unfold timers_only. destruct th; reflexivity. Qed.

Lemma timers_only_set th th' ts l u :
  timers_only th th' -> timers_only th (set_timers th' ts l u).
Proof.
  unfold timers_only. intros H. rewrite H at 1.
  destruct th; reflexivity.
Qed.

Lemma timers_only_cpu th th' : timers_only th th' -> cpu th' = cpu th.
Proof. unfold timers_only. intros ->. reflexivity. Qed.

Lemma s64_sub_neg x y :
  - 2 ^ 62 <= x < 2 ^ 62 -> - 2 ^ 62 <= y < 2 ^ 62 ->
  (s64 (x - y) <? 0) = (x <? y).
Proof.
  intros Hx Hy. unfold s64.
  destruct (Z.le_gt_cases 0 (x - y)).
  - rewrite Z.mod_small by lia.
    destruct (Z.ltb_spec (x - y) (2 ^ 63)); [|lia].
    destruct (Z.ltb_spec (x - y) 0), (Z.ltb_spec x y); try reflexivity; lia.
  - replace ((x - y) mod 2 ^ 64) with (x - y + 2 ^ 64).
    + destruct (Z.ltb_spec (x - y + 2 ^ 64) (2 ^ 63)); [lia|].
      destruct (Z.ltb_spec (x - y + 2 ^ 64 - 2 ^ 64) 0), (Z.ltb_spec x y);
        try reflexivity; lia.
    + apply (Z.mod_unique _ _ (-1)); lia.
Qed.

(** X10.  [cpu_update_timer] returns 1 when some worker is on the CPU
    and 0 otherwise, and then it changes nothing.  It touches only the
    first worker on that CPU, and of it only [lasttimer] and
    [updatetimer]: the time of the update is recorded, and the expiry
    kept is the new one when none was set, none when the one kept was
    already in the past, and otherwise the later of the two. *)
Theorem cpu_update_timer_first_match
    (threads : list memipc_thread_params) (c expire now : Z) :
  let r := cpu_update_timer threads c expire now in
  (r.1 = 0 \/ r.1 = 1) /\
  (r.1 = 0 <-> forall th, th ∈ threads -> cpu th <> c) /\
  (r.1 = 0 -> r.2 = threads) /\
  length r.2 = length threads /\
  forall i th th',
    threads !! i = Some th -> r.2 !! i = Some th' ->
    timers_only th th' /\ timers th' = timers th /\
    (~ first_on_cpu threads c i -> th' = th) /\
    (first_on_cpu threads c i ->
       updatetimer th' = now /\
       (lasttimer th = KTIME_MAX -> lasttimer th' = expire) /\
       (lasttimer th <> KTIME_MAX ->
        - 2 ^ 62 <= lasttimer th < 2 ^ 62 ->
        - 2 ^ 62 <= now < 2 ^ 62 -> - 2 ^ 62 <= expire < 2 ^ 62 ->
        lasttimer th' = if lasttimer th <? now then KTIME_MAX
                        else Z.max (lasttimer th) expire)).
Proof.
  induction threads as [|th0 rest IH].
  - cbn. split; [left; reflexivity|].
    split; [split; [intros _ th Hin; apply elem_of_nil in Hin; contradiction
                   |reflexivity]|].
    split; [reflexivity|]. split; [reflexivity|].
    intros i th th' Hi. discriminate Hi.
  - cbn zeta in *. cbn [cpu_update_timer].
    destruct IH as (IH1 & IH2 & IH3 & IH4 & IH5).
    destruct (Z.eqb_spec c (cpu th0)) as [Ec|Ec].
    + cbn [fst snd]. split; [right; reflexivity|].
      split.
      { split; [discriminate|]. intros H. exfalso.
        apply (H th0); [apply elem_of_cons; left; reflexivity|auto]. }
      split; [discriminate|]. split; [reflexivity|].
      intros [|i] th th' Hi Hi'.
      * injection Hi as <-. injection Hi' as <-.
        split; [apply timers_only_set, timers_only_refl|].
        split; [reflexivity|].
        split.
        { intros Hnot. exfalso. apply Hnot. split.
          - exists th0. split; [reflexivity|auto].
          - intros j thj Hj. lia. }
        intros _. cbn [set_timers updatetimer lasttimer].
        split; [reflexivity|]. split.
        { intros ->. rewrite Z.eqb_refl. reflexivity. }
        intros Hne Hl Hn He.
        destruct (Z.eqb_spec (lasttimer th0) KTIME_MAX); [contradiction|].
        rewrite !s64_sub_neg by assumption.
        destruct (Z.ltb_spec (lasttimer th0) now); [reflexivity|].
        destruct (Z.ltb_spec (lasttimer th0) expire); lia.
      * cbn [lookup list_lookup] in Hi, Hi'. rewrite Hi in Hi'.
        injection Hi' as <-.
        split; [apply timers_only_refl|]. split; [reflexivity|].
        split; [reflexivity|].
        intros [_ Hfirst]. exfalso.
        apply (Hfirst 0%nat th0); [lia|reflexivity|auto].
    + cbn [fst snd]. split; [exact IH1|].
      split.
      { rewrite IH2. split.
        - intros H th Hin. apply elem_of_cons in Hin as [->|Hin];
            [auto|apply (H th Hin)].
        - intros H th Hin. apply H. apply elem_of_cons. right. exact Hin. }
      split; [intros H0; rewrite (IH3 H0); reflexivity|].
      split; [cbn [length]; rewrite IH4; reflexivity|].
      intros [|i] th th' Hi Hi'.
      * injection Hi as <-. injection Hi' as <-.
        split; [apply timers_only_refl|]. split; [reflexivity|].
        split; [reflexivity|].
        intros [(th & Hth & Hc) _]. injection Hth as <-. exfalso. auto.
      * cbn [lookup list_lookup] in Hi, Hi'.
        destruct (IH5 i th th' Hi Hi') as (H1 & H2 & H3 & H4).
        assert (first_on_cpu (th0 :: rest) c (S i)
                <-> first_on_cpu rest c i) as Hiff.
        { unfold first_on_cpu. split.
          - intros [Hex Hfirst]. split; [exact Hex|].
            intros j thj Hj Hl. apply (Hfirst (S j) thj); [lia|exact Hl].
          - intros [Hex Hfirst]. split; [exact Hex|].
            intros [|j] thj Hj Hl.
            + injection Hl as <-. auto.
            + apply (Hfirst j thj); [lia|exact Hl]. }
        split; [exact H1|]. split; [exact H2|].
        split; [intros Hn; apply H3; rewrite <- Hiff; exact Hn|].
        intros Hf. apply H4. rewrite <- Hiff. exact Hf.
Qed.

(** ** The timer scan reports managed CPUs only *)

Lemma cpu_update_timer_managed threads0 ths c expire now :
  Forall2 timers_only threads0 ths ->
  Forall2 timers_only threads0 (cpu_update_timer ths c expire now).2 /\
  ((cpu_update_timer ths c expire now).1 <> 0 ->
   exists th, th ∈ threads0 /\ cpu th = c).
Proof.
  intros H. induction H as [|th0 th l0 l Hth Hrest IH].
  - cbn. split; [constructor|]. intros Hne. contradiction.
  - cbn [cpu_update_timer]. destruct (Z.eqb_spec c (cpu th)) as [Ec|Ec].
    + cbn [fst snd]. split.
      * constructor; [apply timers_only_set; exact Hth|exact Hrest].
      * intros _. exists th0. split; [apply elem_of_cons; left; reflexivity|].
        rewrite Ec. symmetry. apply timers_only_cpu. exact Hth.
    + cbn [fst snd]. destruct IH as [IHa IHb]. split.
      * constructor; assumption.
      * intros Hne. destruct (IHb Hne) as (t & Hin & Hc).
        exists t. split; [apply elem_of_cons; right; exact Hin|exact Hc].
Qed.

Lemma add_timer_managed threads0 ths c ty upd exp :
  Forall2 timers_only threads0 ths ->
  Forall2 timers_only threads0 (memipc_add_timer_to_desc ths c ty upd exp).
Proof.
  intros H. induction H as [|th0 th l0 l Hth Hrest IH]; [constructor|].
  cbn [memipc_add_timer_to_desc]. destruct (cpu th =? c).
  - constructor; [apply timers_only_set; exact Hth|exact Hrest].
  - constructor; assumption.
Qed.

Lemma update_and_mark_managed threads0 c expire s :
  scan_managed threads0 (cpuset s) (scan_threads s) ->
  scan_managed threads0 (cpuset (update_and_mark c expire s))
    (scan_threads (update_and_mark c expire s)).
Proof.
  intros [Hcs Hths]. unfold update_and_mark.
  destruct (cpu_update_timer_managed threads0 (scan_threads s) c expire
              (now_at s) Hths) as [H1 H2].
  destruct (Z.eqb_spec (cpu_update_timer (scan_threads s) c expire
                          (now_at s)).1 0) as [E|E]; cbn [negb].
  - cbn [cpuset scan_threads with_scan_threads]. split; assumption.
  - cbn [cpuset scan_threads with_scan_threads with_cpuset].
    split; [|exact H1].
    intros c1. unfold CPU_SET.
    destruct (Z.leb_spec 0 c), (Z.ltb_spec c CPU_SETSIZE); cbn [andb];
      try apply Hcs.
    intros Hin. apply elem_of_union in Hin as [Hin|Hin]; [|apply Hcs, Hin].
    apply elem_of_singleton in Hin. subst c1.
    split; [lia|apply H2, E].
Qed.

Ltac scan_fields :=
  cbn [cpuset scan_threads
       with_parser_state with_now_at with_expires_next with_hrtimer_softexp
       with_hrtimer_exp with_tick_dev_next_event with_curr_cpu
       with_tick_dev_cpu with_hrtimer_parse_err with_hrtimer_count
       with_hrtimer_state with_tick_dev_mode with_tick_dev_state
       with_tick_dev_known with_tick_dev_cpuset with_tick_dev_os_cpuset
       with_cpuset with_scan_threads].

Ltac scan_branches :=
  repeat match goal with
  | |- context [match ?x with _ => _ end] =>
      lazymatch x with
      | context [update_and_mark] => fail
      | context [tick_bcast_loop] => fail
      | _ => destruct x
      end
  end.

Ltac scan_managed_solve H :=
  scan_fields;
  first [ exact H
        | apply update_and_mark_managed; scan_fields; exact H ].

Lemma timer_hash_line_managed threads0 s p :
  scan_managed threads0 (cpuset s) (scan_threads s) ->
  scan_managed threads0 (cpuset (timer_hash_line s p))
    (scan_threads (timer_hash_line s p)).
Proof.
  intros H. unfold timer_hash_line.
  destruct (parser_state s); try exact H.
  - destruct (hrtimer_parse_line_1 (tl p)) as [[a b]|]; scan_fields; exact H.
  - cbn zeta.
    match goal with
    | |- context [if ?b then _ else _] => destruct b
    end.
    + scan_fields.
      match goal with
      | |- scan_managed _ (cpuset ?u) (memipc_add_timer_to_desc _ _ _ _ _) =>
          assert (scan_managed threads0 (cpuset u) (scan_threads u))
            as [Hc Ht]
      end.
      { apply update_and_mark_managed.
        destruct (hrtimer_parse_line_2 (tl p)) as [[a b]|];
          scan_fields; exact H. }
      split; [exact Hc|apply add_timer_managed; exact Ht].
    + destruct (hrtimer_parse_line_2 (tl p)) as [[a b]|];
        scan_fields; exact H.
Qed.

Lemma timer_token_line_managed threads0 s tok e :
  scan_managed threads0 (cpuset s) (scan_threads s) ->
  scan_managed threads0 (cpuset (timer_token_line s tok e))
    (scan_threads (timer_token_line s tok e)).
Proof.
  intros H. unfold timer_token_line.
  destruct tok; scan_branches; scan_managed_solve H.
Qed.

Lemma tick_bcast_loop_managed threads0 cpunums : forall s,
  scan_managed threads0 (cpuset s) (scan_threads s) ->
  scan_managed threads0 (cpuset (tick_bcast_loop cpunums s))
    (scan_threads (tick_bcast_loop cpunums s)).
Proof.
  induction cpunums as [|n rest IH]; intros s H; [exact H|].
  cbn [tick_bcast_loop]. apply IH.
  destruct (_ || _); [apply update_and_mark_managed|]; exact H.
Qed.

Lemma timer_tick_dev_managed threads0 s :
  scan_managed threads0 (cpuset s) (scan_threads s) ->
  scan_managed threads0 (cpuset (timer_tick_dev s))
    (scan_threads (timer_tick_dev s)).
Proof.
  intros H. unfold timer_tick_dev.
  destruct (parser_state s); try exact H.
  - cbn zeta. destruct (Z.land (tick_dev_known s) _ =? _); [|exact H].
    scan_fields.
    destruct (_ && _); [apply tick_bcast_loop_managed|]; exact H.
  - cbn zeta. destruct (_ && _); [|exact H].
    scan_fields. apply update_and_mark_managed. exact H.
Qed.

Lemma timer_line_managed threads0 s line :
  scan_managed threads0 (cpuset s) (scan_threads s) ->
  scan_managed threads0 (cpuset (timer_line s line))
    (scan_threads (timer_line s line)).
Proof.
  intros H. unfold timer_line. cbn zeta.
  destruct (ptr_diff _ _ =? 0); [exact H|].
  apply timer_tick_dev_managed.
  destruct (hd 0 (skip_whitespace line) =? 35);
    [apply timer_hash_line_managed|apply timer_token_line_managed]; exact H.
Qed.

Lemma timer_feed_managed threads0 feed : forall s,
  scan_managed threads0 (cpuset s) (scan_threads s) ->
  scan_managed threads0 (cpuset (foldl timer_line s feed))
    (scan_threads (foldl timer_line s feed)).
Proof.
  induction feed as [|line rest IH]; intros s H; [exact H|].
  cbn [foldl]. apply IH, timer_line_managed, H.
Qed.

Lemma remove_timers_managed threads :
  Forall2 timers_only threads (memipc_remove_timers_from_all_desc threads).
Proof.
  unfold memipc_remove_timers_from_all_desc.
  induction threads as [|th rest IH]; [constructor|].
  cbn [fmap list_fmap]. constructor; [|exact IH].
  apply timers_only_set, timers_only_refl.
Qed.

Lemma remove_expired_managed threads0 ths now :
  Forall2 timers_only threads0 ths ->
  Forall2 timers_only threads0 (cpu_remove_expired_timers ths now).
Proof.
  intros H. unfold cpu_remove_expired_timers.
  induction H as [|th0 th l0 l Hth Hrest IH]; [constructor|].
  cbn [fmap list_fmap]. constructor; [|exact IH].
  destruct (_ && _); [apply timers_only_set|]; exact Hth.
Qed.

(** X11.  A scan of the timer list returns 0; the set of CPUs it
    reports holds only valid CPU numbers that are the CPU of a managed
    worker; the workers come back changed in nothing but their timers;
    and when the scan read the time, no worker is left with a
    [lasttimer] that lies before it. *)
Theorem timer_scan_reports_managed
    (feed : list (list Z)) (threads : list memipc_thread_params)
    (cs0 : cpu_set_t) (now0 : Z) :
  let r := process_all_timers (Some feed) threads cs0 now0 in
  timers_retval r = 0 /\
  (forall c, c ∈ timers_cpuset r ->
     0 <= c < CPU_SETSIZE /\ exists th, th ∈ threads /\ cpu th = c) /\
  Forall2 timers_only threads r.2 /\
  (timers_now r <> now0 ->
   Forall (fun th => lasttimer th = KTIME_MAX \/
                     0 <= s64 (lasttimer th - timers_now r)) r.2).
Proof.
  intros r. subst r. unfold process_all_timers.
  match goal with
  | |- context [foldl timer_line ?s0 feed] =>
      pose proof (timer_feed_managed threads feed s0) as Hinv;
      set (s := foldl timer_line s0 feed) in *
  end.
  cbn [cpuset scan_threads] in Hinv.
  destruct Hinv as [Hcs Hths].
  { split; [intros c Hc; apply elem_of_empty in Hc; contradiction|].
    apply remove_timers_managed. }
  unfold timers_retval, timers_cpuset, timers_now.
  destruct (Z.eqb_spec (now_at s) KTIME_MAX) as [E|E]; cbn [negb fst snd].
  - split; [reflexivity|]. split; [exact Hcs|]. split; [exact Hths|].
    intros Hne. contradiction.
  - split; [reflexivity|]. split; [exact Hcs|]. split.
    + apply remove_expired_managed. exact Hths.
    + intros _. unfold cpu_remove_expired_timers.
      apply Forall_fmap, Forall_forall. intros th _. cbn [compose].
      destruct (Z.eqb_spec (lasttimer th) KTIME_MAX) as [El|El];
        cbn [negb andb]; [left; exact El|].
      destruct (Z.ltb_spec (s64 (lasttimer th - now_at s)) 0).
      * left. reflexivity.
      * right. assumption.
Qed.

(** ** Sets of CPUs in hexadecimal *)

Lemma land_pow2_testbit a k :
  0 <= k -> (Z.land a (2 ^ k) =? 0) = negb (Z.testbit a k).
Proof.
  intros Hk. destruct (Z.testbit a k) eqn:E; cbn [negb].
  - apply Z.eqb_neq. intros H0.
    assert (Z.testbit (Z.land a (2 ^ k)) k = true) as Hb
      by (rewrite Z.land_spec, E, Z.pow2_bits_true by lia; reflexivity).
    rewrite H0, Z.bits_0 in Hb. discriminate Hb.
  - apply Z.eqb_eq. apply Z.bits_inj'. intros n Hn.
    rewrite Z.land_spec, Z.bits_0, Z.pow2_bits_eqb by lia.
    destruct (Z.eqb_spec k n) as [->|_]; [rewrite E|]; 
      rewrite ?andb_false_r; reflexivity.
Qed.

(** One of the four tests on a digit: the CPU [c0] is added, and
    counted, when bit [k] of [val] is set and [c0] is below the limit. *)
Lemma cpuset_bit_step (val k c0 lim : Z) (a : Z * cpu_set_t) :
  0 <= k -> 0 <= c0 -> lim <= CPU_SETSIZE ->
  a.1 = CPU_COUNT a.2 -> (forall c, c ∈ a.2 -> c < c0) ->
  let a' := if negb (Z.land val (2 ^ k) =? 0) && (c0 <? lim)
            then (a.1 + 1, CPU_SET c0 a.2) else a in
  a'.1 = CPU_COUNT a'.2 /\
  (forall c, c ∈ a'.2 -> c < c0 + 1) /\
  (forall c, c ∈ a'.2 <->
             c ∈ a.2 \/ (c = c0 /\ c0 < lim /\ Z.testbit val k = true)).
Proof.
  intros Hk Hc0 Hlim Hcount Hbelow a'. subst a'.
  rewrite land_pow2_testbit, negb_involutive by exact Hk.
  destruct (Z.testbit val k); cbn [andb].
  2:{ split; [exact Hcount|]. split.
      - intros c Hc. specialize (Hbelow c Hc). lia.
      - intros c. split; [auto|]. intros [H|(_ & _ & H)];
          [exact H|discriminate H]. }
  destruct (Z.ltb_spec c0 lim) as [Hlt|Hge].
  2:{ split; [exact Hcount|]. split.
      - intros c Hc. specialize (Hbelow c Hc). lia.
      - intros c. split; [auto|]. intros [H|(_ & H & _)]; [exact H|lia]. }
  cbn [fst snd]. unfold CPU_SET.
  destruct (Z.leb_spec 0 c0) as [_|Hx]; [|lia].
  destruct (Z.ltb_spec c0 CPU_SETSIZE) as [_|Hx]; [|lia]. cbn [andb].
  assert (c0 ∉ a.2) as Hnot
    by (intros Hin; specialize (Hbelow c0 Hin); lia).
  split.
  - unfold CPU_COUNT in *. rewrite size_union by set_solver.
    rewrite size_singleton. lia.
  - split.
    + intros c Hc. apply elem_of_union in Hc as [Hc|Hc].
      * apply elem_of_singleton in Hc. lia.
      * specialize (Hbelow c Hc). lia.
    + intros c. rewrite elem_of_union, elem_of_singleton.
      split; [intros [->|Hin]; auto|].
      intros [Hin|(-> & _ & _)]; auto.
Qed.

Lemma get_cpuset_loop_spec lim : forall rev_digits i acc,
  0 <= i -> lim <= CPU_SETSIZE ->
  acc.1 = CPU_COUNT acc.2 -> (forall c, c ∈ acc.2 -> c < i * 4) ->
  let r := get_cpuset_loop rev_digits i lim acc in
  r.1 = CPU_COUNT r.2 /\
  forall c, c ∈ r.2 <->
    c ∈ acc.2 \/
    (i * 4 <= c < (i + Z.of_nat (length rev_digits)) * 4 /\ c < lim /\
     Z.testbit (unhex (nth (Z.to_nat (c / 4 - i)) rev_digits 0)) (c mod 4)
     = true).
Proof.
  induction rev_digits as [|d rest IH]; intros i acc Hi Hlim Hcount Hbelow.
  - cbn. split; [exact Hcount|]. intros c. split; [auto|].
    intros [H|[H _]]; [exact H|lia].
  - cbn [get_cpuset_loop]. cbn zeta.
    set (val := unhex d).
    destruct (cpuset_bit_step val 0 (i * 4 + 0) lim acc
                ltac:(lia) ltac:(lia) Hlim Hcount
                ltac:(intros c Hc; specialize (Hbelow c Hc); lia))
      as (C0 & B0 & M0).
    set (a0 := if negb (Z.land val (2 ^ 0) =? 0) && (i * 4 + 0 <? lim)
               then (acc.1 + 1, CPU_SET (i * 4 + 0) acc.2) else acc) in *.
    destruct (cpuset_bit_step val 1 (i * 4 + 1) lim a0
                ltac:(lia) ltac:(lia) Hlim C0
                ltac:(intros c Hc; specialize (B0 c Hc); lia))
      as (C1 & B1 & M1).
    set (a1 := if negb (Z.land val (2 ^ 1) =? 0) && (i * 4 + 1 <? lim)
               then (a0.1 + 1, CPU_SET (i * 4 + 1) a0.2) else a0) in *.
    destruct (cpuset_bit_step val 2 (i * 4 + 2) lim a1
                ltac:(lia) ltac:(lia) Hlim C1
                ltac:(intros c Hc; specialize (B1 c Hc); lia))
      as (C2 & B2 & M2).
    set (a2 := if negb (Z.land val (2 ^ 2) =? 0) && (i * 4 + 2 <? lim)
               then (a1.1 + 1, CPU_SET (i * 4 + 2) a1.2) else a1) in *.
    destruct (cpuset_bit_step val 3 (i * 4 + 3) lim a2
                ltac:(lia) ltac:(lia) Hlim C2
                ltac:(intros c Hc; specialize (B2 c Hc); lia))
      as (C3 & B3 & M3).
    set (a3 := if negb (Z.land val (2 ^ 3) =? 0) && (i * 4 + 3 <? lim)
               then (a2.1 + 1, CPU_SET (i * 4 + 3) a2.2) else a2) in *.
    destruct (IH (i + 1) a3 ltac:(lia) Hlim C3
                ltac:(intros c Hc; specialize (B3 c Hc); lia))
      as [IHc IHm].
    change (i * 4 + 0) with (i * 4 + 0) in *.
    split.
    + replace (i * 4) with (i * 4 + 0) by lia. exact IHc.
    + intros c. replace (i * 4) with (i * 4 + 0) at 1 by lia.
      rewrite IHm, M3, M2, M1, M0.
      cbn [length]. rewrite Nat2Z.inj_succ.
      assert (forall k, 0 <= k < 4 -> c = i * 4 + k ->
                c / 4 = i /\ c mod 4 = k) as Hdm.
      { intros k Hk ->. split.
        - rewrite Z.div_add_l by lia. rewrite Z.div_small by lia. lia.
        - rewrite Z.add_comm, Z.mod_add by lia. apply Z.mod_small. lia. }
      split.
      * intros [[[[[H|H]|H]|H]|H]|H].
        -- left. exact H.
        -- right. destruct H as (-> & Hl & Hb).
           destruct (Hdm 0 ltac:(lia) ltac:(lia)) as [-> ->].
           rewrite Z.sub_diag. cbn [Z.to_nat nth].
           split; [lia|]. split; [lia|exact Hb].
        -- right. destruct H as (-> & Hl & Hb).
           destruct (Hdm 1 ltac:(lia) eq_refl) as [-> ->].
           rewrite Z.sub_diag. cbn [Z.to_nat nth].
           split; [lia|]. split; [lia|exact Hb].
        -- right. destruct H as (-> & Hl & Hb).
           destruct (Hdm 2 ltac:(lia) eq_refl) as [-> ->].
           rewrite Z.sub_diag. cbn [Z.to_nat nth].
           split; [lia|]. split; [lia|exact Hb].
        -- right. destruct H as (-> & Hl & Hb).
           destruct (Hdm 3 ltac:(lia) eq_refl) as [-> ->].
           rewrite Z.sub_diag. cbn [Z.to_nat nth].
           split; [lia|]. split; [lia|exact Hb].
        -- right. destruct H as (Hr & Hl & Hb).
           assert (i + 1 <= c / 4) as Hq
             by (apply Z.div_le_lower_bound; lia).
           split; [lia|]. split; [exact Hl|].
           replace (Z.to_nat (c / 4 - i))
             with (S (Z.to_nat (c / 4 - (i + 1)))) by lia.
           exact Hb.
      * intros [H|(Hr & Hl & Hb)]; [do 5 left; exact H|].
        destruct (Z.lt_ge_cases c ((i + 1) * 4)) as [Hlow|Hhigh].
        -- assert (c / 4 = i) as Hq.
           { symmetry. apply Z.div_unique with (r := c - i * 4); lia. }
           assert (c mod 4 = c - i * 4) as Hm.
           { symmetry. apply Z.mod_unique with (q := i); lia. }
           rewrite Hq, Hm, Z.sub_diag in Hb. cbn [Z.to_nat nth] in Hb.
           fold val in Hb.
           assert (c - i * 4 = 0 \/ c - i * 4 = 1 \/ c - i * 4 = 2
                   \/ c - i * 4 = 3) as Hk by lia.
           destruct Hk as [Hk|[Hk|[Hk|Hk]]]; rewrite Hk in Hb.
           ++ do 4 left. right. split; [lia|]. split; [lia|exact Hb].
           ++ do 3 left. right. split; [lia|]. split; [lia|exact Hb].
           ++ do 2 left. right. split; [lia|]. split; [lia|exact Hb].
           ++ left. right. split; [lia|]. split; [lia|exact Hb].
        -- right. assert (i + 1 <= c / 4) as Hq
             by (apply Z.div_le_lower_bound; lia).
           split; [lia|]. split; [exact Hl|].
           replace (Z.to_nat (c / 4 - i))
             with (S (Z.to_nat (c / 4 - (i + 1)))) in Hb by lia.
           exact Hb.
Qed.

(** X12.  [get_cpuset] reads the run of hexadecimal digits at the head
    of the string (after white space) as a bit mask, last digit least
    significant: CPU [c] is in the set exactly when bit [c mod 4] of the
    digit [c / 4] places from the end is set and [c] is below 1024; the
    number returned is the number of CPUs in the set. *)
Theorem get_cpuset_bits (s : list Z) :
  let r := get_cpuset s in
  let digits := hex_run (skip_whitespace s) in
  r.1 = CPU_COUNT r.2 /\
  forall c, c ∈ r.2 <->
    0 <= c < Z.min CPU_SETSIZE (Z.of_nat (length digits) * 4) /\
    Z.testbit (unhex (nth (Z.to_nat (c / 4)) (rev digits) 0)) (c mod 4)
    = true.
Proof.
  intros r digits. subst r. unfold get_cpuset. cbn zeta. fold digits.
  set (n := Z.of_nat (length digits) * 4).
  set (lim := if CPU_SETSIZE <? n then CPU_SETSIZE else n).
  assert (lim = Z.min CPU_SETSIZE n) as Hlim
    by (unfold lim; destruct (Z.ltb_spec CPU_SETSIZE n); lia).
  destruct (get_cpuset_loop_spec lim (rev digits) 0 (0, ∅)
              ltac:(lia) ltac:(lia)
              ltac:(cbn [fst snd]; unfold CPU_COUNT;
                    rewrite size_empty; reflexivity)
              ltac:(intros c Hc; apply elem_of_empty in Hc; contradiction))
    as [Hc Hm].
  split; [exact Hc|].
  intros c. rewrite Hm. cbn [snd]. rewrite length_rev, Z.sub_0_r.
  fold n. split.
  - intros [H|(Hr & Hl & Hb)]; [apply elem_of_empty in H; contradiction|].
    split; [lia|exact Hb].
  - intros [Hr Hb]. right. split; [lia|]. split; [lia|exact Hb].
Qed.

(** ** Claiming and releasing a CPU *)

Lemma claim_from_spec c ths : forall i0,
  let r := isolation_claim_cpu_from i0 ths c in
  match r.1 with
  | Some k =>
      exists j th,
        k = (i0 + j)%nat /\ ths !! j = Some th /\ claimable c th = true /\
        (forall j' th', (j' < j)%nat -> ths !! j' = Some th' ->
                        claimable c th' = false) /\
        r.2 = <[j := set_claim_counter th 1]> ths
  | None =>
      r.2 = ths /\ Forall (fun th => claimable c th = false) ths
  end.
Proof.
  induction ths as [|th rest IH]; intros i0.
  - cbn. split; [reflexivity|constructor].
  - cbn zeta. cbn [isolation_claim_cpu_from].
    specialize (IH (S i0)). cbn zeta in IH.
    destruct ((c <? 0) || (cpu th =? c)) eqn:Ec.
    + destruct (Z.eqb_spec (claim_counter th) 0) as [E0|E0].
      * cbn [fst snd]. exists 0%nat, th.
        split; [lia|]. split; [reflexivity|].
        split; [unfold claimable; rewrite Ec, E0; reflexivity|].
        split; [intros j' th' Hj; lia|].
        cbn [insert list_insert]. rewrite E0. reflexivity.
      * cbn [fst snd].
        assert (claimable c th = false) as Hth.
        { unfold claimable. rewrite Ec.
          destruct (Z.eqb_spec (claim_counter th) 0); [contradiction|].
          reflexivity. }
        destruct (isolation_claim_cpu_from (S i0) rest c).1 as [k|].
        -- destruct IH as (j & t & Hk & Hj & Hc & Hfirst & Hr).
           exists (S j), t. split; [lia|]. split; [exact Hj|].
           split; [exact Hc|]. split.
           ++ intros [|j'] th' Hlt Hl.
              ** injection Hl as <-. exact Hth.
              ** apply (Hfirst j' th'); [lia|exact Hl].
           ++ cbn [insert list_insert]. rewrite Hr. reflexivity.
        -- destruct IH as [Hr Hall]. split; [rewrite Hr; reflexivity|].
           constructor; assumption.
    + cbn [fst snd].
      assert (claimable c th = false) as Hth
        by (unfold claimable; rewrite Ec; reflexivity).
      destruct (isolation_claim_cpu_from (S i0) rest c).1 as [k|].
      * destruct IH as (j & t & Hk & Hj & Hc & Hfirst & Hr).
        exists (S j), t. split; [lia|]. split; [exact Hj|].
        split; [exact Hc|]. split.
        -- intros [|j'] th' Hlt Hl.
           ++ injection Hl as <-. exact Hth.
           ++ apply (Hfirst j' th'); [lia|exact Hl].
        -- cbn [insert list_insert]. rewrite Hr. reflexivity.
      * destruct IH as [Hr Hall]. split; [rewrite Hr; reflexivity|].
        constructor; assumption.
Qed.

(** X13.  [isolation_claim_cpu] hands out the first worker on the CPU
    asked for (on any CPU for a negative argument) that is not claimed,
    and marks it claimed, changing nothing else; with no such worker it
    returns NULL and changes nothing.  A worker handed out is not handed
    out again by any later claim, until [isolation_release_cpu], which
    puts the table back as it was. *)
Theorem claim_cpu_exclusive (threads : list memipc_thread_params) (c : Z) :
  let r := isolation_claim_cpu threads c in
  match r.1 with
  | Some i =>
      exists th,
        threads !! i = Some th /\ claimable c th = true /\
        (forall j th', (j < i)%nat -> threads !! j = Some th' ->
                       claimable c th' = false) /\
        r.2 = <[i := set_claim_counter th 1]> threads /\
        (forall c', (isolation_claim_cpu r.2 c').1 <> Some i) /\
        isolation_release_cpu r.2 (Some i) = threads
  | None =>
      r.2 = threads /\
      forall th, th ∈ threads -> claimable c th = false
  end.
Proof.
  intros r. subst r. unfold isolation_claim_cpu.
  pose proof (claim_from_spec c threads 0) as H. cbn zeta in H.
  destruct (isolation_claim_cpu_from 0 threads c).1 as [i|].
  - destruct H as (j & th & Hi & Hj & Hc & Hfirst & Hr).
    cbn [Nat.add] in Hi. subst j.
    exists th. split; [exact Hj|]. split; [exact Hc|].
    split; [exact Hfirst|]. split; [exact Hr|].
    assert (i < length threads)%nat as Hlen
      by (apply lookup_lt_is_Some; eexists; exact Hj).
    split.
    + intros c' Hc'.
      pose proof (claim_from_spec c'
                    (isolation_claim_cpu_from 0 threads c).2 0) as H2.
      cbn zeta in H2. rewrite Hc' in H2.
      destruct H2 as (j & t & Hi2 & Hj2 & Hc2 & _).
      cbn [Nat.add] in Hi2. subst j.
      rewrite Hr, list_lookup_insert_eq in Hj2 by exact Hlen.
      injection Hj2 as <-.
      unfold claimable in Hc2. cbn [set_claim_counter claim_counter] in Hc2.
      rewrite andb_false_r in Hc2. discriminate Hc2.
    + rewrite Hr. unfold isolation_release_cpu.
      apply list_eq. intros k.
      rewrite list_lookup_alter.
      destruct (decide (i = k)) as [<-|Hne].
      * rewrite list_lookup_insert_eq by exact Hlen.
        cbn [fmap option_fmap option_map].
        rewrite Hj. f_equal.
        unfold claimable in Hc. apply andb_true_iff in Hc as [_ Hc].
        apply Z.eqb_eq in Hc.
        destruct th. cbn in *. subst. reflexivity.
      * rewrite list_lookup_insert_ne by auto. reflexivity.
  - destruct H as [Hr Hall]. split; [exact Hr|].
    rewrite Forall_forall in Hall. exact Hall.
Qed.

(** ** Numbers in the text commands *)

Lemma s32_congr x y : x mod 2 ^ 32 = y mod 2 ^ 32 -> s32 x = s32 y.
Proof. unfold s32. intros ->. reflexivity. Qed.

Lemma s32_mod x : s32 x mod 2 ^ 32 = x mod 2 ^ 32.
Proof.
  unfold s32. cbn zeta.
  destruct (x mod 2 ^ 32 <? 2 ^ 31).
  - apply Z.mod_mod. lia.
  - rewrite Zminus_mod, Z.mod_same, Z.sub_0_r, !Z.mod_mod by lia.
    reflexivity.
Qed.

Lemma u32_step a d : u32 (u32 (u32 a * 10) + d) = u32 (a * 10 + d).
Proof.
  unfold u32.
  rewrite Zplus_mod_idemp_l.
  rewrite (Zplus_mod (a mod 2 ^ 32 * 10)), Z.mul_mod_idemp_l by lia.
  rewrite <- Zplus_mod. reflexivity.
Qed.

Lemma s32_step a d : s32 (s32 (s32 a * 10) + d) = s32 (a * 10 + d).
Proof.
  apply s32_congr.
  rewrite Zplus_mod, s32_mod, <- Zplus_mod.
  rewrite Zplus_mod, Zmult_mod, s32_mod, <- Zmult_mod, <- Zplus_mod.
  reflexivity.
Qed.

Lemma digits_loop_u32 s : forall a,
  digits_loop u32 (u32 a) s = u32 (digits_value a s).
Proof.
  induction s as [|c s IH]; intros a; cbn [digits_loop digits_value];
    [reflexivity|].
  unfold isdigit. destruct ((48 <=? c) && (c <=? 57)); [|reflexivity].
  rewrite u32_step. apply IH.
Qed.

Lemma digits_loop_s32 s : forall a,
  digits_loop s32 (s32 a) s = s32 (digits_value a s).
Proof.
  induction s as [|c s IH]; intros a; cbn [digits_loop digits_value];
    [reflexivity|].
  unfold isdigit. destruct ((48 <=? c) && (c <=? 57)); [|reflexivity].
  rewrite s32_step. apply IH.
Qed.

Lemma digits_value_nonneg s : forall a, 0 <= a -> 0 <= digits_value a s.
Proof.
  induction s as [|c s IH]; intros a Ha; cbn [digits_value]; [exact Ha|].
  unfold isdigit.
  destruct (Z.leb_spec 48 c), (Z.leb_spec c 57); cbn [andb];
    try exact Ha.
  apply IH. lia.
Qed.

(** X14.  [get_uint] returns the value of the decimal digits at the
    head of the string, reduced modulo 2^32 (0 when the string starts
    with no digit), and so the value itself when it is below 2^32.
    [get_int] reads an optional '-' and then the digits the same way,
    giving the value, negated after a '-', as a 32-bit signed number. *)
Theorem decimal_arguments (s : list Z) :
  get_uint s = digits_value 0 s mod 2 ^ 32 /\
  (digits_value 0 s < 2 ^ 32 -> get_uint s = digits_value 0 s) /\
  get_int s = s32 (match s with
                   | 45 :: rest => - digits_value 0 rest
                   | _ => digits_value 0 s
                   end) /\
  (isdigit (hd 0 s) = false -> get_uint s = 0).
Proof.
  assert (get_uint s = digits_value 0 s mod 2 ^ 32) as Hu.
  { unfold get_uint. change 0 with (u32 0) at 1.
    rewrite digits_loop_u32. reflexivity. }
  split; [exact Hu|]. split; [|split].
  - intros Hlt. rewrite Hu. apply Z.mod_small.
    pose proof (digits_value_nonneg s 0 ltac:(lia)). lia.
  - assert (forall r, s32 (digits_loop s32 0 r * 1)
                      = s32 (digits_value 0 r)) as Hpos.
    { intros r. change 0 with (s32 0) at 1.
      rewrite digits_loop_s32, Z.mul_1_r. apply s32_congr, s32_mod. }
    assert (forall r, s32 (digits_loop s32 0 r * -1)
                      = s32 (- digits_value 0 r)) as Hneg.
    { intros r. change 0 with (s32 0) at 1.
      rewrite digits_loop_s32. apply s32_congr.
      rewrite Zmult_mod, s32_mod, <- Zmult_mod. f_equal. lia. }
    unfold get_int.
    destruct s as [|c rest]; [apply Hpos|].
    destruct c as [|p|p]; try apply Hpos.
    do 6 (destruct p as [p|p|]; try apply Hpos).
    apply Hneg.
  - intros Hd. rewrite Hu. destruct s as [|c rest]; [reflexivity|].
    cbn [hd] in Hd. cbn [digits_value]. rewrite Hd. reflexivity.
Qed.

(** ** The text commands *)

Lemma find_command_unknown (line : list Z) table :
  Forall (fun e : isol_srv_cmd * string * Z =>
            e.2 = Z.of_nat (length (chars e.1.2))) table ->
  Forall (fun e : isol_srv_cmd * string * Z =>
            command_word line <> chars e.1.2) table ->
  find_command table line (skip_command line) = ISOL_SRV_CMD_ARRAY_SIZE.
Proof.
  intros Hlen Hne. induction table as [|[[cmd word] len] rest IH];
    [reflexivity|].
  apply Forall_cons in Hlen as [Hl Hlen].
  apply Forall_cons in Hne as [Hn Hne].
  cbn [fst snd] in Hl, Hn. cbn [find_command].
  destruct (Z.eqb_spec (ptr_diff (skip_command line) line) len) as [E|E];
    cbn [andb]; [|apply IH; assumption].
  unfold memcmp_eq.
  destruct (decide (take (Z.to_nat len) line
                    = take (Z.to_nat len) (chars word))) as [Et|Et].
  - exfalso. apply Hn. unfold command_word. rewrite E, Et.
    apply take_ge. lia.
  - rewrite bool_decide_eq_false_2 by exact Et. apply IH; assumption.
Qed.

Lemma send_data_persist_flags ci data s :
  flags <$> isol_server_clients (send_data_persist ci data s)
  = flags <$> isol_server_clients s.
Proof.
  unfold send_data_persist, with_clients. cbn [isol_server_clients].
  generalize (isol_server_clients s). intros cs. revert ci.
  induction cs as [|c cs IH]; intros [|ci]; cbn; try reflexivity.
  f_equal. apply IH.
Qed.

(** X15.  A line whose first word is none of the five commands (an
    empty line too) is answered with "500 Invalid command." and nothing
    else: no worker, no task attachment and no flag changes. *)
Theorem unknown_command_rejected
    (client_index : nat) (line : list Z) (s : server) :
  command_word line ∉ command_words ->
  let s' := send_data_persist client_index inv_response s in
  client_text_handler client_index line s = Some s' /\
  server_threads s' = server_threads s /\
  server_running_cpuset s' = server_running_cpuset s /\
  task <$> isol_server_clients s' = task <$> isol_server_clients s /\
  flags <$> isol_server_clients s' = flags <$> isol_server_clients s /\
  forall c, isol_server_clients s !! client_index = Some c ->
    exists c', isol_server_clients s' !! client_index = Some c' /\
               output c' = output c ++ inv_response.
Proof.
  intros Hw s'. subst s'.
  destruct (send_data_persist_frame client_index inv_response s)
    as (H1 & H2 & H3 & H4).
  split; [|split; [exact H1|split; [exact H2|split; [exact H3|]]]].
  - unfold client_text_handler.
    rewrite (find_command_unknown line commands); [reflexivity| |].
    + repeat constructor.
    + unfold command_words in Hw.
      repeat (apply not_elem_of_cons in Hw as [? Hw]).
      repeat constructor; assumption.
  - split; [apply send_data_persist_flags|exact H4].
Qed.

(** An empty line. *)
Lemma unknown_command_rejected_witness :
  let s' := send_data_persist 0 inv_response server_example in
  (command_word [] ∉ command_words) /\
  client_text_handler 0 [] server_example = Some s' /\
  server_threads s' = server_threads server_example /\
  server_running_cpuset s' = server_running_cpuset server_example /\
  task <$> isol_server_clients s'
    = task <$> isol_server_clients server_example /\
  flags <$> isol_server_clients s'
    = flags <$> isol_server_clients server_example /\
  forall c, isol_server_clients server_example !! 0%nat = Some c ->
    exists c', isol_server_clients s' !! 0%nat = Some c' /\
               output c' = output c ++ inv_response.
Proof.
  assert (command_word [] ∉ command_words) as Hw.
  { unfold command_words. cbn [fmap list_fmap].
    repeat (apply not_elem_of_cons; split; [vm_compute; discriminate|]).
    apply not_elem_of_nil. }
  split; [exact Hw|].
  apply (unknown_command_rejected 0 [] server_example Hw).
Defined.

Lemma find_command_quit (line : list Z) :
  command_word line = chars "quit" ->
  find_command commands line (skip_command line) = ISOL_SRV_CMD_QUIT.
Proof.
  unfold command_word. intros H.
  pose proof (skip_command_length line) as Hlen.
  assert (ptr_diff (skip_command line) line = 4) as Hd.
  { apply (f_equal length) in H. rewrite length_take in H.
    unfold ptr_diff in *. change (length (chars "quit")) with 4%nat in H.
    lia. }
  rewrite Hd in H. unfold commands. cbn [find_command]. rewrite Hd.
  cbn [Z.eqb Pos.eqb andb]. unfold memcmp_eq.
  rewrite bool_decide_eq_true_2; [reflexivity|].
  change (Z.to_nat 4) with 4%nat in *. rewrite H. reflexivity.
Qed.

(** X16.  A line whose first word is "quit", whatever follows it, is
    answered with "221 End of session." and marks the client's
    connection for closing; the client keeps its task, and no worker
    changes. *)
Theorem quit_ends_session
    (client_index : nat) (line : list Z) (s : server) (c : client_desc) :
  command_word line = chars "quit" ->
  isol_server_clients s !! client_index = Some c ->
  exists s',
    client_text_handler client_index line s = Some s' /\
    isol_server_clients s'
      = <[client_index :=
            ClientDesc (Z.lor (flags c) CLIENT_FLAG_CLOSE) (task c)
              (output c ++ endsession)]> (isol_server_clients s) /\
    Z.land (Z.lor (flags c) CLIENT_FLAG_CLOSE) CLIENT_FLAG_CLOSE
      = CLIENT_FLAG_CLOSE /\
    server_threads s' = server_threads s /\
    server_running_cpuset s' = server_running_cpuset s /\
    server_pid s' = server_pid s.
Proof.
  intros Hcmd Hc. unfold client_text_handler.
  rewrite (find_command_quit line Hcmd).
  eexists. split; [reflexivity|].
  unfold close_client_connection, send_data_persist, with_clients.
  cbn [isol_server_clients server_threads server_running_cpuset server_pid].
  split; [|split; [|repeat split]].
  - apply list_eq. intros k.
    rewrite !list_lookup_alter.
    destruct (decide (client_index = k)) as [<-|Hne].
    + rewrite Hc, decide_True by reflexivity.
      cbn [fmap option_fmap option_map flags task output].
      rewrite list_lookup_insert_eq
        by (apply lookup_lt_is_Some; eexists; exact Hc).
      reflexivity.
    + rewrite list_lookup_insert_ne by exact Hne. reflexivity.
  - apply Z.bits_inj'. intros n Hn.
    rewrite Z.land_spec, Z.lor_spec.
    destruct (Z.testbit CLIENT_FLAG_CLOSE n), (Z.testbit (flags c) n);
      reflexivity.
Qed.

(** The line "quit now" from the one client of the example. *)
Lemma quit_ends_session_witness :
  let line := chars "quit now" in
  let c := ClientDesc 0 None [] in
  exists s',
    client_text_handler 0 line server_example = Some s' /\
    isol_server_clients s'
      = <[0%nat :=
            ClientDesc (Z.lor (flags c) CLIENT_FLAG_CLOSE) (task c)
              (output c ++ endsession)]>
          (isol_server_clients server_example) /\
    Z.land (Z.lor (flags c) CLIENT_FLAG_CLOSE) CLIENT_FLAG_CLOSE
      = CLIENT_FLAG_CLOSE /\
    server_threads s' = server_threads server_example /\
    server_running_cpuset s' = server_running_cpuset server_example /\
    server_pid s' = server_pid server_example.
Proof.
  apply (quit_ends_session 0 (chars "quit now") server_example
           (ClientDesc 0 None [])).
  - vm_compute. reflexivity.
  - reflexivity.
Defined.

Lemma claim_first_claimable c threads i th :
  threads !! i = Some th -> claimable c th = true ->
  (forall j th', (j < i)%nat -> threads !! j = Some th' ->
                 claimable c th' = false) ->
  isolation_claim_cpu threads c
  = (Some i, <[i := set_claim_counter th 1]> threads).
Proof.
  intros Hi Hc Hfirst. unfold isolation_claim_cpu.
  pose proof (claim_from_spec c threads 0) as H. cbn zeta in H.
  destruct (isolation_claim_cpu_from 0 threads c) as [[k|] ths];
    cbn [fst snd] in H.
  - destruct H as (j & t & Hk & Hj & Hcj & Hfj & Hr).
    cbn [Nat.add] in Hk. subst k.
    assert (j = i) as ->.
    { destruct (Nat.lt_trichotomy j i) as [Hlt|[Heq|Hgt]]; [|exact Heq|].
      - rewrite (Hfirst j t Hlt Hj) in Hcj. discriminate Hcj.
      - rewrite (Hfj i th Hgt Hi) in Hc. discriminate Hc. }
    rewrite Hi in Hj. injection Hj as <-. rewrite Hr. reflexivity.
  - destruct H as [_ Hall]. rewrite Forall_forall in Hall.
    rewrite (Hall th) in Hc; [discriminate Hc|].
    apply (list_elem_of_lookup_2 _ i). exact Hi.
Qed.

Lemma claim_none_claimable c threads :
  (forall th, th ∈ threads -> claimable c th = false) ->
  isolation_claim_cpu threads c = (None, threads).
Proof.
  intros Hall. unfold isolation_claim_cpu.
  pose proof (claim_from_spec c threads 0) as H. cbn zeta in H.
  destruct (isolation_claim_cpu_from 0 threads c) as [[k|] ths];
    cbn [fst snd] in H.
  - destruct H as (j & t & _ & Hj & Hcj & _).
    rewrite (Hall t) in Hcj; [discriminate Hcj|].
    apply (list_elem_of_lookup_2 _ j). exact Hj.
  - destruct H as [-> _]. reflexivity.
Qed.

(** X17.  A well-formed "newtask" line (a CPU, a ',' , a pid, a '/' and
    a tid, neither of them 0) is refused in two cases, and then no
    worker is claimed or changed: from a client that has a task already,
    with "500 Already connected."; and when no worker on the CPU asked
    for (any worker, for a negative CPU) is free, with "500 Can't
    allocate CPU.". *)
Theorem newtask_refused
    (client_index : nat) (line : list Z) (s : server) (a p1 p2 : list Z) :
  command_word line = chars "newtask" ->
  command_arg line = Some a ->
  strchr a 44 = Some p1 -> strchr p1 47 = Some p2 ->
  s32 (get_uint (tl p1)) <> 0 -> s32 (get_uint (tl p2)) <> 0 ->
  (forall t, get_client_task client_index s = Some t ->
     client_text_handler client_index line s
     = Some (send_data_persist client_index alr_connected_response s)) /\
  (get_client_task client_index s = None ->
   (forall th, th ∈ server_threads s -> claimable (get_int a) th = false) ->
   client_text_handler client_index line s
   = Some (send_data_persist client_index cant_alloc_resp s)).
Proof.
  intros Hcmd Harg E1 E2 Hpid Htid. unfold client_text_handler.
  rewrite (find_command_newtask line Hcmd), Harg.
  unfold newtask, newtask_parse. rewrite E1, E2.
  destruct (Z.eqb_spec (s32 (get_uint (tl p1))) 0); [contradiction|].
  destruct (Z.eqb_spec (s32 (get_uint (tl p2))) 0); [contradiction|].
  cbn [negb andb]. split.
  - intros t Ht. rewrite Ht. reflexivity.
  - intros Hnone Hall. rewrite Hnone.
    rewrite (claim_none_claimable _ _ Hall). cbn [fst snd].
    destruct s. reflexivity.
Qed.

(** The line "newtask 7,5/6" sent to a server with workers on CPUs 1
    and 2 only. *)
Lemma newtask_refused_witness :
  let line := chars "newtask 7,5/6" in
  let a := chars "7,5/6" in
  (forall t, get_client_task 0 server_example = Some t ->
     client_text_handler 0 line server_example
     = Some (send_data_persist 0 alr_connected_response server_example)) /\
  (get_client_task 0 server_example = None ->
   (forall th, th ∈ server_threads server_example ->
               claimable (get_int a) th = false) ->
   client_text_handler 0 line server_example
   = Some (send_data_persist 0 cant_alloc_resp server_example)).
Proof.
  apply (newtask_refused 0 (chars "newtask 7,5/6") server_example
           (chars "7,5/6") (chars ",5/6") (chars "/6"));
    vm_compute; first [reflexivity|discriminate].
Defined.

(** X18.  A well-formed "newtask" line from a client without a task is
    given the first free worker on the CPU asked for (the first free
    worker at all, for a negative CPU): the worker is marked claimed and
    isolated, gets the pid and tid of the line, has its counter and
    signal pointers cleared and goes to state STARTED; its CPU joins the
    running set; the client is attached to it and is sent the "Task
    allocated" response that names the worker's CPU.  No other worker
    and no other client changes. *)
Theorem newtask_allocates
    (client_index : nat) (line : list Z) (s : server) (a p1 p2 : list Z)
    (c : client_desc) (i : nat) (th : memipc_thread_params) :
  command_word line = chars "newtask" ->
  command_arg line = Some a ->
  strchr a 44 = Some p1 -> strchr p1 47 = Some p2 ->
  s32 (get_uint (tl p1)) <> 0 -> s32 (get_uint (tl p2)) <> 0 ->
  isol_server_clients s !! client_index = Some c -> task c = None ->
  server_threads s !! i = Some th -> claimable (get_int a) th = true ->
  (forall j th', (j < i)%nat -> server_threads s !! j = Some th' ->
                 claimable (get_int a) th' = false) ->
  let th' := started_for th (s32 (get_uint (tl p1)))
               (s32 (get_uint (tl p2))) in
  client_text_handler client_index line s
  = Some (Server
            (<[client_index :=
                 ClientDesc (flags c) (Some i)
                   (output c ++ task_allocated_response (server_pid s) th')]>
               (isol_server_clients s))
            (<[i := th']> (server_threads s))
            (CPU_SET (cpu th) (server_running_cpuset s))
            (server_pid s)).
Proof.
  intros Hcmd Harg E1 E2 Hpid Htid Hc Htask Hi Hclaim Hfirst th'.
  subst th'. unfold client_text_handler.
  rewrite (find_command_newtask line Hcmd), Harg.
  unfold newtask, newtask_parse. rewrite E1, E2.
  destruct (Z.eqb_spec (s32 (get_uint (tl p1))) 0); [contradiction|].
  destruct (Z.eqb_spec (s32 (get_uint (tl p2))) 0); [contradiction|].
  cbn [negb andb].
  assert (get_client_task client_index s = None) as ->.
  { unfold get_client_task. rewrite Hc. exact Htask. }
  rewrite (claim_first_claimable _ _ i th Hi Hclaim Hfirst).
  cbn [fst snd].
  assert (i < length (server_threads s))%nat as Hlen
    by (apply lookup_lt_is_Some; eexists; exact Hi).
  assert (client_index < length (isol_server_clients s))%nat as Hclen
    by (apply lookup_lt_is_Some; eexists; exact Hc).
  rewrite list_lookup_alter, decide_True by reflexivity.
  rewrite list_lookup_insert_eq by exact Hlen.
  cbn [fmap option_fmap option_map].
  unfold set_client_task, send_data_persist, with_clients.
  cbn [isol_server_clients server_threads server_running_cpuset server_pid
       cpu set_claim_counter].
  f_equal. f_equal.
  - apply list_eq. intros k. rewrite !list_lookup_alter.
    destruct (decide (client_index = k)) as [<-|Hne].
    + rewrite Hc, ?decide_True by reflexivity.
      rewrite list_lookup_insert_eq by exact Hclen.
      cbn [fmap option_fmap option_map flags task output].
      reflexivity.
    + rewrite list_lookup_insert_ne by exact Hne. reflexivity.
  - apply list_eq. intros k. rewrite !list_lookup_alter.
    destruct (decide (i = k)) as [<-|Hne].
    + rewrite ?decide_True by reflexivity.
      rewrite !list_lookup_insert_eq by exact Hlen.
      cbn [fmap option_fmap option_map]. reflexivity.
    + rewrite !list_lookup_insert_ne by exact Hne. reflexivity.
Qed.

(** The line "newtask 2,5/6" from the one client of the example: the
    worker on CPU 2 is handed out. *)
Lemma newtask_allocates_witness :
  let line := chars "newtask 2,5/6" in
  let th' := started_for (fresh_thread 2 MEMIPC_STATE_OFF 0) 5 6 in
  client_text_handler 0 line server_example
  = Some (Server
            [ClientDesc 0 (Some 1%nat)
               (task_allocated_response 100 th')]
            [fresh_thread 1 MEMIPC_STATE_OFF 0; th']
            (CPU_SET 2 ∅) 100).
Proof.
  apply (newtask_allocates 0 (chars "newtask 2,5/6") server_example
           (chars "2,5/6") (chars ",5/6") (chars "/6")
           (ClientDesc 0 None []) 1 (fresh_thread 2 MEMIPC_STATE_OFF 0));
    try (vm_compute; first [reflexivity|discriminate]).
  intros [|j] t Hj Ht; [|lia].
  injection Ht as <-. vm_compute. reflexivity.
Defined.

(** ** The sweep never leaves a task on an isolated CPU *)

(** X21.  When the non-isolation set is not empty and shares no CPU
    with the isolation set, every [sched_setaffinity] call of the sweep
    is for an entry of the table that is no managed worker, and its mask
    is not empty, holds no CPU of the isolation set, and is either part
    of what the entry could run on or the non-isolation set.  Without
    the push-away command bit there is no call at all. *)
Theorem sweep_masks_safe
    (my_pid : Z) (isol nonisol : cpu_set_t)
    (proctable : list ProcTable.foreign_thread_desc) (cmd : Z) :
  nonisol <> ∅ -> nonisol ∩ isol = ∅ ->
  let calls :=
    ProcTable.process_all_threads my_pid isol nonisol proctable cmd in
  (Z.land cmd ISOL_PROC_LIST_CMD_PUSH_AWAY = 0 -> calls = []) /\
  Forall (fun call =>
            exists e, e ∈ proctable /\
              ProcTable.call_tid call = ProcTable.tid e /\
              ProcTable.isolated_thread e = None /\
              ProcTable.call_mask call <> ∅ /\
              ProcTable.call_mask call ∩ isol = ∅ /\
              (ProcTable.call_mask call ⊆ ProcTable.cpus_allowed e \/
               ProcTable.call_mask call = nonisol))
    calls.
Proof.
  intros Hne Hdisj calls. subst calls.
  unfold ProcTable.process_all_threads.
  destruct (Z.eqb_spec (Z.land cmd ISOL_PROC_LIST_CMD_PUSH_AWAY) 0)
    as [E|E]; cbn [negb].
  - split; [reflexivity|constructor].
  - split; [intros H0; contradiction|].
    rewrite push_away_loop_spec. cbn [app].
    apply Forall_forall. intros call Hin.
    apply list_elem_of_omap in Hin as (e & He & Hspec).
    exists e. split; [exact He|].
    unfold sweep_spec in Hspec.
    destruct (decide (sweep_rebinds my_pid isol e)) as [Hr|Hr];
      [|discriminate Hspec].
    injection Hspec as <-. cbn [ProcTable.call_tid ProcTable.call_mask].
    destruct Hr as (Hm & _ & _ & _).
    split; [reflexivity|]. split; [exact Hm|].
    unfold sweep_mask.
    destruct (decide (ProcTable.cpus_allowed e ∖ isol = ∅)) as [E0|E0].
    + split; [exact Hne|]. split; [exact Hdisj|]. right. reflexivity.
    + split; [exact E0|]. split; [|left].
      * apply leibniz_equiv. intros x.
        rewrite elem_of_intersection, elem_of_difference. split.
        -- intros [[_ Hx] Hi]. contradiction.
        -- intros Hx. apply elem_of_empty in Hx. contradiction.
      * intros x Hx. apply elem_of_difference in Hx as [Hx _]. exact Hx.
Qed.

(** The table of the example, with CPUs 2 and 3 isolated and CPUs 0 and
    1 left to the system. *)
Lemma sweep_masks_safe_witness :
  let calls :=
    ProcTable.process_all_threads 100 {[2; 3]} {[0; 1]} proctable_example
      ISOL_PROC_LIST_CMD_PUSH_AWAY in
  (Z.land ISOL_PROC_LIST_CMD_PUSH_AWAY ISOL_PROC_LIST_CMD_PUSH_AWAY = 0 ->
   calls = []) /\
  Forall (fun call =>
            exists e, e ∈ proctable_example /\
              ProcTable.call_tid call = ProcTable.tid e /\
              ProcTable.isolated_thread e = None /\
              ProcTable.call_mask call <> ∅ /\
              ProcTable.call_mask call ∩ {[2; 3]} = ∅ /\
              (ProcTable.call_mask call ⊆ ProcTable.cpus_allowed e \/
               ProcTable.call_mask call = {[0; 1]}))
    calls.
Proof.
  apply (sweep_masks_safe 100 {[2; 3]} {[0; 1]} proctable_example
           ISOL_PROC_LIST_CMD_PUSH_AWAY).
  - intros H. assert ((0 : Z) ∈ ({[0; 1]} : cpu_set_t)) as Hin by set_solver.
    rewrite H in Hin. apply elem_of_empty in Hin. exact Hin.
  - apply leibniz_equiv. set_solver.
Defined.

(** ** Several requests in flight: the ring is a queue *)

Lemma peek_app (a b : list Z) j :
  0 <= j ->
  peek (a ++ b) j
  = if j <? Z.of_nat (length a) then peek a j
    else peek b (j - Z.of_nat (length a)).
Proof.
  intros Hj. unfold peek.
  destruct (Z.ltb_spec j (Z.of_nat (length a))).
  - rewrite lookup_app_l by lia. reflexivity.
  - rewrite lookup_app_r by lia. do 2 f_equal. lia.
Qed.

Lemma blocks_cells_upto t payload n :
  let bs := mjoin ((fun k => frame_block t payload (Z.of_nat k)) <$> seq 0 n) in
  Z.of_nat (length bs) = 8 * Z.of_nat n /\
  forall j, 0 <= j < 8 * Z.of_nat n ->
    peek bs j = peek (frame_block t payload (j / 8)) (j mod 8).
Proof.
  induction n as [|n [IHl IHp]]; cbn zeta in *.
  - split; [reflexivity|]. intros j Hj. lia.
  - rewrite seq_S, fmap_app, join_app. cbn [fmap list_fmap mjoin list_join].
    rewrite app_nil_r, length_app, frame_block_length. cbn [Nat.add].
    split; [lia|].
    intros j Hj. rewrite peek_app by lia. rewrite IHl.
    destruct (Z.ltb_spec j (8 * Z.of_nat n)) as [Hlo|Hhi].
    + apply IHp. lia.
    + assert (j / 8 = Z.of_nat n) as -> by (Z.div_mod_to_equations; lia).
      f_equal. Z.div_mod_to_equations. lia.
Qed.

Lemma frame_blocks_pos f : 1 <= frame_blocks f.
Proof.
  unfold frame_blocks.
  pose proof (blocks_for_bounds (Z.of_nat (length f.2) + HDR)
                ltac:(unfold HDR; lia)) as H.
  unfold HDR in *. lia.
Qed.

Lemma length_frame_cells f :
  Z.of_nat (length (frame_cells f)) = 8 * frame_blocks f.
Proof.
  unfold frame_cells.
  destruct (blocks_cells_upto f.1 f.2 (Z.to_nat (frame_blocks f))) as [H _].
  cbn zeta in H. rewrite H. pose proof (frame_blocks_pos f). lia.
Qed.

Lemma peek_frame_cells f j :
  0 <= j < 8 * frame_blocks f ->
  peek (frame_cells f) j = peek (frame_block f.1 f.2 (j / 8)) (j mod 8).
Proof.
  intros Hj. unfold frame_cells.
  destruct (blocks_cells_upto f.1 f.2 (Z.to_nat (frame_blocks f))) as [_ H].
  apply H. lia.
Qed.

Lemma queue_cells_cons f rest :
  queue_cells (f :: rest) = frame_cells f ++ queue_cells rest.
Proof. reflexivity. Qed.

Lemma queue_cells_snoc frames f :
  queue_cells (frames ++ [f]) = queue_cells frames ++ frame_cells f.
Proof.
  unfold queue_cells. rewrite fmap_app, join_app.
  cbn [fmap list_fmap mjoin list_join]. rewrite app_nil_r. reflexivity.
Qed.

Lemma length_queue_cells_8 frames :
  Z.of_nat (length (queue_cells frames)) mod 8 = 0 /\
  0 <= Z.of_nat (length (queue_cells frames)).
Proof.
  induction frames as [|f rest [IH _]]; [split; [reflexivity|cbn; lia]|].
  rewrite queue_cells_cons, length_app, Nat2Z.inj_add, length_frame_cells.
  split; [|pose proof (frame_blocks_pos f); lia].
  rewrite Zplus_mod, IH, Z.add_0_r, Z.mod_mod by lia.
  rewrite Z.mul_comm. apply Z.mod_mul. lia.
Qed.

(** The offset of a cell from [rp], going round the ring. *)
Lemma ring_offset sz rp q :
  0 < sz -> 0 <= rp < sz -> 0 <= q < sz ->
  0 <= (q - rp) mod sz < sz /\ (rp + (q - rp) mod sz) mod sz = q.
Proof.
  intros Hsz Hrp Hq. split; [apply Z.mod_pos_bound; lia|].
  rewrite Zplus_mod_idemp_r. replace (rp + (q - rp)) with q by lia.
  apply Z.mod_small. lia.
Qed.

Lemma ring_offset_inv sz rp j :
  0 < sz -> 0 <= rp < sz -> 0 <= j < sz ->
  0 <= (rp + j) mod sz < sz /\ ((rp + j) mod sz - rp) mod sz = j.
Proof.
  intros Hsz Hrp Hj. split; [apply Z.mod_pos_bound; lia|].
  rewrite Zminus_mod_idemp_l. replace (rp + j - rp) with j by lia.
  apply Z.mod_small. lia.
Qed.

(** The producer's scan walks over released cells and stops at the first
    cell still in use. *)
Lemma scan_released_window cs sz fuel : forall lp inb d,
  0 < sz -> 0 <= lp < sz -> 0 <= d <= inb -> Z.of_nat fuel = inb ->
  (forall i, 0 <= i < d -> Z.odd (peek cs ((lp + i) mod sz)) = false) ->
  (d < inb -> Z.odd (peek cs ((lp + d) mod sz)) = true) ->
  scan_released fuel cs sz lp inb = ((lp + d) mod sz, inb - d).
Proof.
  induction fuel as [|fuel IH]; intros lp inb d Hsz Hlp Hd Hfuel Hfree Hstop.
  - cbn. assert (d = 0) as -> by lia.
    rewrite Z.add_0_r, Z.mod_small, Z.sub_0_r by lia. reflexivity.
  - cbn [scan_released]. rewrite land_1_odd.
    destruct (Z.eq_dec d 0) as [->|Hd0].
    + replace ((lp + 0) mod sz) with lp in *
        by (rewrite Z.add_0_r, Z.mod_small by lia; reflexivity).
      rewrite Z.sub_0_r.
      destruct (Z.ltb_spec 0 inb) as [Hpos|Hzero];
        [rewrite (Hstop Hpos)|rewrite andb_false_r]; reflexivity.
    + pose proof (Hfree 0 ltac:(lia)) as H0.
      rewrite Z.add_0_r, Z.mod_small in H0 by lia. rewrite H0.
      cbn [Z.eqb andb].
      replace (0 <? inb) with true by (symmetry; apply Z.ltb_lt; lia).
      rewrite step_wrap by lia.
      rewrite (IH ((lp + 1) mod sz) (inb - 1) (d - 1));
        try lia; try (apply Z.mod_pos_bound; lia).
      * rewrite Zplus_mod_idemp_l. f_equal; [f_equal|]; lia.
      * intros i Hi. rewrite Zplus_mod_idemp_l.
        replace (lp + 1 + i) with (lp + (i + 1)) by lia. apply Hfree. lia.
      * intros Hlt. rewrite Zplus_mod_idemp_l.
        replace (lp + 1 + (d - 1)) with (lp + d) by lia. apply Hstop. lia.
Qed.

(** The consumer's scan walks over written cells and stops at the first
    free one, or when it has counted the whole area. *)
Lemma scan_written_window cs sz fuel : forall lp inb e,
  0 < sz -> 0 <= lp < sz -> 0 <= e -> 0 <= inb -> inb + e <= sz ->
  Z.of_nat fuel = sz - inb ->
  (forall i, 0 <= i < e -> Z.odd (peek cs ((lp + i) mod sz)) = true) ->
  (inb + e < sz -> Z.odd (peek cs ((lp + e) mod sz)) = false) ->
  scan_written fuel cs sz lp inb = ((lp + e) mod sz, inb + e).
Proof.
  induction fuel as [|fuel IH];
    intros lp inb e Hsz Hlp He Hinb Hfit Hfuel Hset Hstop.
  - cbn. assert (e = 0) as -> by lia.
    rewrite !Z.add_0_r, Z.mod_small by lia. reflexivity.
  - cbn [scan_written]. rewrite land_1_odd.
    destruct (Z.eq_dec e 0) as [->|He0].
    + replace ((lp + 0) mod sz) with lp in *
        by (rewrite Z.add_0_r, Z.mod_small by lia; reflexivity).
      rewrite Z.add_0_r in *.
      destruct (Z.ltb_spec inb sz) as [Hroom|Hfull];
        [rewrite (Hstop Hroom)|rewrite andb_false_r]; reflexivity.
    + pose proof (Hset 0 ltac:(lia)) as H0.
      rewrite Z.add_0_r, Z.mod_small in H0 by lia. rewrite H0.
      cbn [Z.eqb Pos.eqb andb].
      replace (inb <? sz) with true by (symmetry; apply Z.ltb_lt; lia).
      rewrite step_wrap by lia.
      rewrite (IH ((lp + 1) mod sz) (inb + 1) (e - 1));
        try lia; try (apply Z.mod_pos_bound; lia).
      * rewrite Zplus_mod_idemp_l. f_equal; [f_equal|]; lia.
      * intros i Hi. rewrite Zplus_mod_idemp_l.
        replace (lp + 1 + i) with (lp + (i + 1)) by lia. apply Hset. lia.
      * intros Hlt. rewrite Zplus_mod_idemp_l.
        replace (lp + 1 + (e - 1)) with (lp + e) by lia. apply Hstop. lia.
Qed.

Lemma queue_cells_odd frames j :
  0 <= j < Z.of_nat (length (queue_cells frames)) ->
  Z.odd (peek (queue_cells frames) j) = true.
Proof.
  revert j. induction frames as [|f rest IH]; intros j Hj;
    [cbn in Hj; lia|].
  rewrite queue_cells_cons in *. rewrite length_app, Nat2Z.inj_add in Hj.
  rewrite peek_app by lia. pose proof (length_frame_cells f) as Hl.
  destruct (Z.ltb_spec j (Z.of_nat (length (frame_cells f)))).
  - rewrite peek_frame_cells by lia. apply frame_block_odd.
    apply Z.mod_pos_bound. lia.
  - apply IH. lia.
Qed.

Lemma ring_offset_cases sz w q :
  0 < sz -> 0 <= w < sz -> 0 <= q < sz ->
  (q - w) mod sz = if w <=? q then q - w else q - w + sz.
Proof.
  intros Hsz Hw Hq. destruct (Z.leb_spec w q).
  - apply Z.mod_small. lia.
  - symmetry. apply (Z.mod_unique _ _ (-1)); lia.
Qed.

(** The cells after the stores of an accepted request that goes to [w]:
    the blocks of the request from [w] on, wrapping at the end of the
    area, and the old cells elsewhere. *)
Lemma ring_stores_cells sz w m t payload c :
  8 <= sz -> sz mod 8 = 0 -> Z.of_nat (length (cells m)) = sz ->
  0 <= w < sz -> w mod 8 = 0 -> 1 <= c -> 8 * c <= sz ->
  let a1 := (sz - w) / 8 in
  let m' := if a1 <? c
            then frame_stores (Z.to_nat a1)
                   (frame_stores (Z.to_nat (c - a1)) m 0 a1 t payload)
                   w 0 t payload
            else frame_stores (Z.to_nat c) m w 0 t payload in
  length (cells m') = length (cells m) /\
  forall q, 0 <= q < sz ->
    peek (cells m') q
    = if (q - w) mod sz <? 8 * c
      then peek (frame_block t payload ((q - w) mod sz / 8))
             ((q - w) mod sz mod 8)
      else peek (cells m) q.
Proof.
  intros Hsz Hsz8 Hlen Hw Hw8 Hc Hfit a1 m'.
  pose proof (aligned_div8 sz Hsz8) as Esz.
  pose proof (aligned_div8 w Hw8) as Ew.
  assert ((sz - w) mod 8 = 0) as Hsw8
    by (rewrite Zminus_mod, Hsz8, Hw8; reflexivity).
  pose proof (aligned_div8 (sz - w) Hsw8) as Ea1. fold a1 in Ea1.
  subst m'. split.
  - destruct (a1 <? c); rewrite !length_frame_stores; reflexivity.
  - intros q Hq. rewrite (ring_offset_cases sz w q) by lia.
    destruct (Z.ltb_spec a1 c) as [Hwrap|Hdirect].
    + rewrite !peek_frame_stores by (rewrite ?length_frame_stores; lia).
      rewrite !Z2Nat.id by lia.
      destruct (Z.leb_spec w q) as [Hge|Hlt].
      * replace (q <? w + 8 * a1) with true
          by (symmetry; apply Z.ltb_lt; lia).
        replace (q - w <? 8 * c) with true
          by (symmetry; apply Z.ltb_lt; lia).
        cbn [andb]. rewrite Z.add_0_l. reflexivity.
      * cbn [andb]. destruct (Z.leb_spec 0 q); [|lia]. cbn [andb].
        rewrite Z.add_0_l, Z.sub_0_r.
        destruct (Z.ltb_spec q (8 * (c - a1))),
          (Z.ltb_spec (q - w + sz) (8 * c)); try lia.
        f_equal; [f_equal|]; Z.div_mod_to_equations; lia.
    + rewrite peek_frame_stores by lia. rewrite Z2Nat.id by lia.
      destruct (Z.leb_spec w q) as [Hge|Hlt]; cbn [andb].
      * rewrite Z.add_0_l.
        destruct (Z.ltb_spec q (w + 8 * c)), (Z.ltb_spec (q - w) (8 * c));
          try lia; try reflexivity.
      * destruct (Z.ltb_spec (q - w + sz) (8 * c)); [lia|reflexivity].
Qed.

(** The cells of a queue, cell by cell. *)
Lemma queue_cell sz rp W R m frames q :
  ring_queue sz rp W R m frames -> 0 <= q < sz ->
  let o := (q - rp) mod sz in
  if o <? Z.of_nat (length (queue_cells frames))
  then peek (cells m) q = peek (queue_cells frames) o
  else Z.odd (peek (cells m) q) = false.
Proof.
  intros Hq Hr o. subst o.
  destruct (ring_offset sz rp q) as [Ho Eo];
    [destruct Hq; lia|destruct Hq; lia|lia|].
  destruct (Z.ltb_spec ((q - rp) mod sz)
              (Z.of_nat (length (queue_cells frames)))).
  - rewrite <- (queue_held _ _ _ _ _ _ Hq ((q - rp) mod sz)) by lia.
    rewrite Eo. reflexivity.
  - rewrite <- Eo at 1. apply (queue_free _ _ _ _ _ _ Hq). lia.
Qed.

(** [memipc_add_req] on a queue, evaluated: the scan finds the true
    read pointer, the request is refused exactly when it needs more
    blocks than are free, and otherwise its blocks are stored from the
    write pointer on. *)
Lemma add_req_queue_eval sz rp W R m frames my_pid t payload L :
  ring_queue sz rp W R m frames -> writer W = my_pid ->
  L = Z.of_nat (length payload) -> L < 2 ^ 63 ->
  let B := Z.of_nat (length (queue_cells frames)) in
  let c := blocks_for (L + HDR) in
  let w := (rp + B) mod sz in
  let a1 := (sz - w) / 8 in
  memipc_add_req my_pid W m t L payload =
    if (sz - B) / 8 <? c
    then (-1, MemipcArea w rp sz B (writer W) (reader W), m)
    else
      (0, MemipcArea ((w + 8 * c) mod sz) rp sz (B + 8 * c)
            (writer W) (reader W),
       if a1 <? c
       then frame_stores (Z.to_nat a1)
              (frame_stores (Z.to_nat (c - a1)) m 0 a1 t payload)
              w 0 t payload
       else frame_stores (Z.to_nat c) m w 0 t payload).
Proof.
  intros Hq Hpid HL HL63 B c w a1.
  pose proof Hq as [Hsz Hsz8 Hlen Hrp Hrp8 Hfits Hheld Hfree HWs HWw HWr
                      HWi HWrel HRs HRr HRi HRw].
  fold B in Hfits, Hheld, Hfree, HWw, HWi, HWrel, HRi.
  destruct (length_queue_cells_8 frames) as [HB8 HB0].
  fold B in HB8, HB0. fold w in HWw.
  assert (0 <= L) as HL0 by lia.
  pose proof (blocks_for_bounds (L + HDR) ltac:(unfold HDR; lia)) as Hc.
  fold c in Hc. unfold HDR in Hc.
  pose proof (aligned_div8 sz Hsz8) as Esz.
  pose proof (aligned_div8 rp Hrp8) as Erp.
  pose proof (aligned_div8 B HB8) as EB.
  assert (0 <= w < sz) as Hw by (apply Z.mod_pos_bound; lia).
  assert (w = if rp + B <? sz then rp + B else rp + B - sz) as Ew
    by (unfold w; apply mod_small_wrap; lia).
  assert (w mod 8 = 0) as Hw8.
  { rewrite Ew. destruct (rp + B <? sz).
    - rewrite Zplus_mod, Hrp8, HB8. reflexivity.
    - rewrite Zminus_mod, Zplus_mod, Hrp8, HB8, Hsz8. reflexivity. }
  pose proof (aligned_div8 w Hw8) as Ew8.
  assert ((sz - w) mod 8 = 0) as Hsw8
    by (rewrite Zminus_mod, Hsz8, Hw8; reflexivity).
  pose proof (aligned_div8 (sz - w) Hsw8) as Ea1. fold a1 in Ea1.
  assert ((sz - B) mod 8 = 0) as HsB8
    by (rewrite Zminus_mod, Hsz8, HB8; reflexivity).
  pose proof (aligned_div8 (sz - B) HsB8) as EsB.
  assert (forall q, 0 <= q < sz -> B <= (q - rp) mod sz ->
            Z.odd (peek (cells m) q) = false) as Hclear.
  { intros q Hq0 Ho. pose proof (queue_cell sz rp W R m frames q Hq Hq0) as H.
    cbn zeta in H. fold B in H.
    destruct (Z.ltb_spec ((q - rp) mod sz) B); [lia|exact H]. }
  unfold memipc_add_req. subst my_pid.
  rewrite Z.eqb_refl. cbn [negb].
  rewrite (u32_small (inbuffer W)) by lia.
  rewrite HWs.
  rewrite (scan_released_window (cells m) sz (Z.to_nat (inbuffer W))
             (rptr W) (inbuffer W) (inbuffer W - B)); try lia.
  2:{ intros i Hi. apply Hclear; [apply Z.mod_pos_bound; lia|].
      rewrite Zminus_mod_idemp_l.
      replace (rptr W + i - rp)
        with (rptr W + (inbuffer W - B) - rp + (i - (inbuffer W - B)))
        by lia.
      rewrite Zplus_mod, Zminus_mod, HWrel, (Z.mod_small rp sz) by lia.
      rewrite Z.sub_diag, Z.mod_0_l, Z.add_0_l, Z.mod_mod by lia.
      replace ((i - (inbuffer W - B)) mod sz)
        with (i - (inbuffer W - B) + sz)
        by (apply (Z.mod_unique _ _ (-1)); lia).
      lia. }
  2:{ intros Hlt. rewrite HWrel.
      pose proof (Hheld 0 ltac:(lia)) as H0.
      rewrite Z.add_0_r, Z.mod_small in H0 by lia. rewrite H0.
      apply queue_cells_odd. fold B. lia. }
  rewrite HWrel. replace (inbuffer W - (inbuffer W - B)) with B by lia.
  cbv beta iota zeta. cbn [wptr rptr size inbuffer writer reader].
  rewrite HWw.
  destruct (Z.eqb_spec B sz) as [Efull|Enot].
  { replace ((sz - B) / 8 <? c) with true; [reflexivity|].
    symmetry. apply Z.ltb_lt. replace (sz - B) with 0 by lia.
    change (0 / 8) with 0. lia. }
  rewrite (u64_small (L + HDR)) by (unfold HDR; lia).
  fold c. unfold EIGHT.
  assert ((if w <? rp then (rp - w) / 8 else (sz - w) / 8)
          + (if w <? rp then 0 else rp / 8) = (sz - B) / 8) as Eavail.
  { rewrite Ew. destruct (Z.ltb_spec (rp + B) sz) as [Hlo|Hhi].
    - destruct (Z.ltb_spec (rp + B) rp); [lia|].
      assert ((sz - (rp + B)) mod 8 = 0) as H8
        by (rewrite Zminus_mod, Zplus_mod, Hsz8, Hrp8, HB8; reflexivity).
      pose proof (aligned_div8 _ H8). lia.
    - destruct (Z.ltb_spec (rp + B - sz) rp); [|lia].
      replace (rp - (rp + B - sz)) with (sz - B) by lia. lia. }
  rewrite Eavail.
  destruct (Z.ltb_spec ((sz - B) / 8) c) as [Hfull|Hfit]; [reflexivity|].
  assert (L + HDR < 2 ^ 32) as HL32 by (unfold HDR; lia).
  assert (forall q, 0 <= q < sz -> (q - w) mod sz < sz - B ->
            Z.odd (peek (cells m) q) = false) as Hwfree.
  { intros q Hq0 Ho. apply Hclear; [exact Hq0|].
    rewrite (ring_offset_cases sz w q) in Ho by lia.
    rewrite (ring_offset_cases sz rp q) by lia.
    rewrite Ew in *.
    destruct (Z.ltb_spec (rp + B) sz), (Z.leb_spec rp q);
      destruct (Z.leb_spec (rp + B) q), (Z.leb_spec (rp + B - sz) q);
      lia. }
  destruct (Z.ltb_spec w rp) as [Hbefore|Hafter].
  - (* the free blocks lie between the write and the read pointer *)
    assert (c <= (rp - w) / 8) as Hroom by lia.
    assert ((rp - w) mod 8 = 0) as Hrw8
      by (rewrite Zminus_mod, Hrp8, Hw8; reflexivity).
    pose proof (aligned_div8 (rp - w) Hrw8) as Erw.
    destruct (Z.ltb_spec ((rp - w) / 8) c); [lia|].
    destruct (Z.ltb_spec a1 c); [lia|].
    cbn [fst snd negb Z.eqb].
    rewrite (u32_small c) by lia.
    rewrite (write_blocks_clear t payload L w 0 (Z.to_nat c))
      by (try assumption; try lia; (intros q Hq0; apply Hwfree;
           [lia|rewrite (ring_offset_cases sz w q) by lia;
                destruct (Z.leb_spec w q); lia])).
    cbn [fst snd negb Z.eqb].
    f_equal. f_equal. f_equal.
    + rewrite (mod_small_wrap sz (w + 8 * c)) by lia.
      destruct (Z.leb_spec sz (w + c * 8)), (Z.ltb_spec (w + 8 * c) sz); lia.
    + lia.
  - fold a1. destruct (Z.ltb_spec a1 c) as [Hwrap|Hdirect].
    + (* the request wraps *)
      rewrite (u32_small (c - a1)) by lia.
      rewrite (write_blocks_clear t payload L 0 a1 (Z.to_nat (c - a1)) m)
        by (try assumption; try lia; (intros q Hq0; apply Hwfree;
             [lia|rewrite (ring_offset_cases sz w q) by lia;
                  destruct (Z.leb_spec w q); lia])).
      cbn [fst snd negb Z.eqb].
      rewrite (u32_small a1) by lia.
      rewrite (write_blocks_clear t payload L w 0 (Z.to_nat a1))
        by (try assumption; rewrite ?length_frame_stores; try lia;
            (intros q Hq0;
             rewrite peek_frame_stores by lia;
             destruct (Z.leb_spec 0 q),
               (Z.ltb_spec q (0 + 8 * Z.of_nat (Z.to_nat (c - a1))));
             cbn [andb]; try lia;
             (apply Hwfree;
              [lia|rewrite (ring_offset_cases sz w q) by lia;
                   destruct (Z.leb_spec w q); lia]))).
      cbn [fst snd negb Z.eqb].
      f_equal. f_equal. f_equal.
      * symmetry. rewrite mod_small_wrap by lia.
        destruct (Z.ltb_spec (w + 8 * c) sz); lia.
      * lia.
    + (* the request fits before the end of the area *)
      cbn [fst snd negb Z.eqb].
      rewrite (u32_small c) by lia.
      rewrite (write_blocks_clear t payload L w 0 (Z.to_nat c))
        by (try assumption; try lia; (intros q Hq0; apply Hwfree;
             [lia|rewrite (ring_offset_cases sz w q) by lia;
                  destruct (Z.leb_spec w q); lia])).
      cbn [fst snd negb Z.eqb].
      f_equal. f_equal. f_equal.
      * rewrite mod_small_wrap by lia.
        destruct (Z.leb_spec sz (w + c * 8)), (Z.ltb_spec (w + 8 * c) sz);
          lia.
      * lia.
Qed.

(** [memipc_add_req] on a queue: the request is appended, or refused
    for want of room. *)
Lemma add_req_queue_step
    (sz rp : Z) (W R : memipc_area) (m : shmem) (frames : list frame)
    (wpid t : Z) (payload : list Z) :
  ring_queue sz rp W R m frames -> writer W = wpid ->
  Z.of_nat (length payload) < 2 ^ 63 ->
  let f : frame := (t, payload) in
  let r := memipc_add_req wpid W m t (Z.of_nat (length payload)) payload in
  if 8 * frame_blocks f <=? sz - Z.of_nat (length (queue_cells frames))
  then r.1.1 = 0 /\ ring_queue sz rp r.1.2 R r.2 (frames ++ [f])
  else r.1.1 = -1 /\ r.2 = m /\ ring_queue sz rp r.1.2 R m frames.
Proof.
  intros Hq Hpid HL63 f r. subst r.
  rewrite (add_req_queue_eval sz rp W R m frames wpid t payload
             (Z.of_nat (length payload)) Hq Hpid eq_refl HL63).
  cbv zeta.
  pose proof Hq as [Hsz Hsz8 Hlen Hrp Hrp8 Hfits Hheld Hfree HWs HWw HWr
                      HWi HWrel HRs HRr HRi HRw].
  set (B := Z.of_nat (length (queue_cells frames))) in *.
  change (blocks_for (Z.of_nat (length payload) + HDR))
    with (frame_blocks f).
  set (c := frame_blocks f).
  pose proof (frame_blocks_pos f) as Hc. fold c in Hc.
  destruct (length_queue_cells_8 frames) as [HB8 HB0].
  fold B in HB8, HB0.
  assert ((sz - B) mod 8 = 0) as HsB8
    by (rewrite Zminus_mod, Hsz8, HB8; reflexivity).
  pose proof (aligned_div8 (sz - B) HsB8) as EsB.
  set (w := (rp + B) mod sz) in *.
  assert (0 <= w < sz) as Hw by (apply Z.mod_pos_bound; lia).
  destruct (Z.leb_spec (8 * c) (sz - B)) as [Hfit|Hfull].
  - destruct (Z.ltb_spec ((sz - B) / 8) c) as [Hx|_]; [lia|].
    cbn [fst snd]. split; [reflexivity|].
    assert (w mod 8 = 0) as Hw8.
    { unfold w. rewrite (mod_small_wrap sz (rp + B)) by lia.
      destruct (rp + B <? sz).
      - rewrite Zplus_mod, Hrp8, HB8. reflexivity.
      - rewrite Zminus_mod, Zplus_mod, Hrp8, HB8, Hsz8. reflexivity. }
    destruct (ring_stores_cells sz w m t payload c) as [Hl' Hcells];
      try assumption; try lia.
    cbv zeta in Hl', Hcells.
    set (m' := if (sz - w) / 8 <? c then _ else _) in *.
    assert (Z.of_nat (length (queue_cells (frames ++ [f]))) = B + 8 * c)
      as HB'.
    { rewrite queue_cells_snoc, length_app, Nat2Z.inj_add,
        length_frame_cells. reflexivity. }
    assert (forall j, 0 <= j < sz ->
              (((rp + j) mod sz - w) mod sz) = (j - B) mod sz) as Hoff.
    { intros j Hj. unfold w. rewrite <- Zminus_mod. f_equal. lia. }
    constructor; rewrite ?HB';
      cbn [size wptr rptr inbuffer writer reader]; try assumption; try lia.
    + intros j Hj.
      rewrite Hcells by (apply Z.mod_pos_bound; lia).
      rewrite Hoff by lia.
      rewrite queue_cells_snoc, peek_app by lia. fold B.
      destruct (Z.ltb_spec j B) as [Hold|Hnew].
      * replace ((j - B) mod sz) with (j - B + sz)
          by (apply (Z.mod_unique _ _ (-1)); lia).
        destruct (Z.ltb_spec (j - B + sz) (8 * c)); [lia|].
        apply Hheld. lia.
      * rewrite Z.mod_small by lia.
        destruct (Z.ltb_spec (j - B) (8 * c)); [|lia].
        rewrite peek_frame_cells by (fold c; lia). reflexivity.
    + intros j Hj.
      rewrite Hcells by (apply Z.mod_pos_bound; lia).
      rewrite Hoff by lia. rewrite Z.mod_small by lia.
      destruct (Z.ltb_spec (j - B) (8 * c)); [lia|].
      apply Hfree. lia.
    + unfold w. rewrite Zplus_mod_idemp_l. f_equal. lia.
    + replace (B + 8 * c - (B + 8 * c)) with 0 by lia.
      rewrite Z.add_0_r. apply Z.mod_small. lia.
  - destruct (Z.ltb_spec ((sz - B) / 8) c) as [_|Hx]; [|lia].
    cbn [fst snd]. split; [reflexivity|]. split; [reflexivity|].
    constructor; cbn [size wptr rptr inbuffer writer reader];
      try assumption; try lia.
    + reflexivity.
    + fold B. replace (B - B) with 0 by lia.
      rewrite Z.add_0_r. apply Z.mod_small. lia.
Qed.

(** X23.  On a ring that holds any queue of requests, [memipc_add_req]
    by the producer accepts a request exactly when its blocks fit into
    the bytes that are free, whatever the producer's cached read pointer
    was; the ring then holds the same queue with the new request at its
    end.  A request that does not fit is refused with -1 and the queue
    and the cells stay as they were. *)
Theorem ring_enqueue
    (sz rp : Z) (W R : memipc_area) (m : shmem) (frames : list frame)
    (wpid t : Z) (payload : list Z) :
  ring_queue sz rp W R m frames -> writer W = wpid ->
  Z.of_nat (length payload) < 2 ^ 63 ->
  let f : frame := (t, payload) in
  let r := memipc_add_req wpid W m t (Z.of_nat (length payload)) payload in
  if 8 * frame_blocks f <=? sz - Z.of_nat (length (queue_cells frames))
  then r.1.1 = 0 /\ ring_queue sz rp r.1.2 R r.2 (frames ++ [f])
  else r.1.1 = -1 /\ r.2 = m /\ ring_queue sz rp r.1.2 R m frames.
Proof. apply add_req_queue_step. Qed.

(** *** Taking the oldest request *)

Section QueueHead.

Variables (sz p : Z) (R : memipc_area) (cs : list Z) (jr : list store_event).
Variables (my_pid t : Z) (payload : list Z) (L c cap ty0 : Z) (buf : list Z).
Variables (lpw inb : Z).

Hypothesis Hhead : forall j, 0 <= j < 8 * c ->
  peek cs ((p + j) mod sz) = peek (frame_block t payload (j / 8)) (j mod 8).
Hypothesis Hscan :
  scan_written (Z.to_nat (sz - u32 (inbuffer R))) cs sz (wptr R)
    (u32 (inbuffer R)) = (lpw, inb).
Hypothesis Hinb : 8 * c <= inb.
Hypothesis Hsz : 8 <= sz < 2 ^ 32.
Hypothesis Hsz8 : sz mod 8 = 0.
Hypothesis Hp : 0 <= p < sz.
Hypothesis Hp8 : p mod 8 = 0.
Hypothesis HRs : size R = sz.
Hypothesis HRr : rptr R = p.
Hypothesis HRpid : reader R = my_pid.
Hypothesis Hpay : Forall is_byte payload.
Hypothesis HL : L = Z.of_nat (length payload).
Hypothesis Hc : c = blocks_for (L + HDR).
Hypothesis Hfit : c <= sz / 8.
Hypothesis Ht : 0 <= t < 128.
Hypothesis Hcap : L <= cap < 2 ^ 63 - 5.
Hypothesis Hbuf2 : 2 <= Z.of_nat (length buf).
Hypothesis HbufL : L <= Z.of_nat (length buf).

Let Q1 : memipc_area := MemipcArea lpw p sz inb (writer R) (reader R).
Let head1 : list Z := poke (poke buf 1 (peek payload 1)) 0 (peek payload 0).

Lemma queue_head_facts :
  0 <= L /\ 7 * (c - 1) < L + 5 <= 7 * c /\ 1 <= c /\
  8 * (sz / 8) = sz /\ 8 * (p / 8) = p /\ 8 * ((sz - p) / 8) = sz - p /\
  L + HDR < 2 ^ 32.
Proof.
  assert (0 <= L) as HL0 by lia.
  pose proof (blocks_for_bounds (L + HDR) ltac:(unfold HDR; lia)) as Hb.
  rewrite <- Hc in Hb. unfold HDR in *.
  pose proof (aligned_div8 sz Hsz8). pose proof (aligned_div8 p Hp8).
  assert ((sz - p) mod 8 = 0) as Hsp8
    by (rewrite Zminus_mod, Hsz8, Hp8; reflexivity).
  pose proof (aligned_div8 (sz - p) Hsp8).
  repeat split; lia.
Qed.

Lemma head_block_direct k :
  0 <= k < c -> p + 8 * k + 8 <= sz ->
  block_holds cs (p + k * 8) (frame_block t payload k).
Proof.
  intros Hk Hfitk j Hj.
  pose proof (Hhead (8 * k + j) ltac:(lia)) as Hin.
  rewrite Z.mod_small in Hin by lia.
  replace (p + k * 8 + j) with (p + (8 * k + j)) by lia.
  rewrite Hin. f_equal; [f_equal|]; Z.div_mod_to_equations; lia.
Qed.

Lemma head_block_wrapped k :
  0 <= k < c -> sz <= p + 8 * k -> p + 8 * k + 8 <= 2 * sz ->
  block_holds cs (p + 8 * k - sz) (frame_block t payload k).
Proof.
  intros Hk Hw Hfitk j Hj.
  pose proof (Hhead (8 * k + j) ltac:(lia)) as Hin.
  rewrite mod_small_wrap in Hin by lia.
  replace (p + (8 * k + j) <? sz) with false in Hin
    by (symmetry; apply Z.ltb_ge; lia).
  replace (p + 8 * k - sz + j) with (p + (8 * k + j) - sz) by lia.
  rewrite Hin. f_equal; [f_equal|]; Z.div_mod_to_equations; lia.
Qed.

Lemma head1_prefix q :
  0 <= q < L -> q < 2 -> peek head1 q = peek payload q.
Proof.
  intros Hq Hq2. unfold head1.
  rewrite !peek_poke by (rewrite ?length_poke; lia).
  destruct (Z.eqb_spec q 0) as [->|]; [reflexivity|].
  destruct (Z.eqb_spec q 1) as [->|]; [reflexivity|]. lia.
Qed.

Lemma head1_length : length head1 = length buf.
Proof. unfold head1. rewrite !length_poke. reflexivity. Qed.

(** Up to the point where the header has been read and accepted. *)
Lemma get_req_queue_head :
  memipc_get_req my_pid R (Shmem cs jr) ty0 cap buf =
    if L + HDR <=? SEVEN then
      let r1 := rptr Q1 + EIGHT in
      let r1 := if sz <=? r1 then 0 else r1 in
      GetResult 0 (MemipcArea (wptr Q1) r1 sz (inbuffer Q1 - EIGHT)
                     (writer R) (reader R))
        (Shmem (memipc_clearmem cs p (Z.to_nat EIGHT)) jr) t L head1
    else
      let bc1_0 := (sz - p) / EIGHT in
      let blocks_count_1 := if c <=? bc1_0 then c else bc1_0 in
      let blocks_count_2 := if c <=? bc1_0 then 0 else c - bc1_0 in
      let '(rc1, data2, dstptr1) :=
        read_blocks (Z.to_nat (blocks_count_1 - 1)) 1 cs p 0 (L + HDR)
          head1 (SEVEN - HDR) in
      if negb (rc1 =? 0) then GetResult (-1) Q1 (Shmem cs jr) t L data2
      else
        let curr_rptr := p + blocks_count_1 * EIGHT in
        let wraps := sz <=? curr_rptr in
        let '(rc2, data3, _) :=
          if wraps && (0 <? blocks_count_2) then
            read_blocks (Z.to_nat blocks_count_2) 0 cs 0 blocks_count_1
              (L + HDR) data2 dstptr1
          else (0, data2, dstptr1) in
        if negb (rc2 =? 0) then GetResult (-1) Q1 (Shmem cs jr) t L data3
        else
          let curr_rptr :=
            if wraps then
              if 0 <? blocks_count_2 then blocks_count_2 * EIGHT else 0
            else curr_rptr in
          let cells1 :=
            if wraps && (0 <? blocks_count_2) then
              memipc_clearmem cs 0 (Z.to_nat (blocks_count_2 * EIGHT))
            else cs in
          let cells2 :=
            memipc_clearmem cells1 p (Z.to_nat (blocks_count_1 * EIGHT)) in
          GetResult 0
            (MemipcArea (wptr Q1) curr_rptr sz (inbuffer Q1 - c * EIGHT)
               (writer R) (reader R))
            (Shmem cells2 jr) t L data3.
Proof.
  destruct queue_head_facts as (HL0 & Hb & Hc1 & Esz & Ep & Ea1 & HL32).
  unfold memipc_get_req.
  rewrite <- HRpid, Z.eqb_refl. cbn [negb cells journal].
  rewrite HRs, Hscan, HRr.
  cbv beta iota zeta. cbn [wptr rptr size inbuffer writer reader].
  fold Q1.
  replace (inb <? EIGHT) with false
    by (symmetry; apply Z.ltb_ge; unfold EIGHT; lia).
  rewrite (read_header_frame buf cs p t payload L 0 0); try assumption.
  2:{ pose proof (head_block_direct 0) as Hb0.
      replace (p + 0 * 8) with p in Hb0 by lia. apply Hb0; lia. }
  cbn [Z.eqb negb]. fold head1.
  rewrite (u64_small (cap + HDR)) by (unfold HDR; lia).
  replace (cap + HDR <? L + HDR) with false
    by (symmetry; apply Z.ltb_ge; lia).
  replace (L + HDR - HDR) with L by lia.
  rewrite (s64_small L) by lia.
  rewrite <- Hc.
  destruct (Z.leb_spec (L + HDR) SEVEN) as [Hone|Hmulti]; [reflexivity|].
  replace (inb <? c * EIGHT) with false
    by (symmetry; apply Z.ltb_ge; unfold EIGHT; lia).
  reflexivity.
Qed.

(** The oldest request comes out whole. *)
Lemma get_req_queue_data :
  exists area' cells' data',
    memipc_get_req my_pid R (Shmem cs jr) ty0 cap buf =
      GetResult 0 area' (Shmem cells' jr) t L data' /\
    take (length payload) data' = payload.
Proof.
  destruct queue_head_facts as (HL0 & Hb & Hc1 & Esz & Ep & Ea1 & HL32).
  rewrite get_req_queue_head. unfold SEVEN, EIGHT, HDR in *.
  destruct (Z.leb_spec (L + 5) 7) as [Hone|Hmulti].
  - cbv zeta. do 2 eexists. exists head1. split; [reflexivity|].
    apply take_of_peek; [rewrite head1_length; lia|].
    intros q Hq. apply head1_prefix; lia.
  - cbv zeta. set (a1 := (sz - p) / 8) in *.
    change (7 - 5) with 2.
    destruct (Z.leb_spec c a1) as [Hdirect|Hwrap].
    + destruct (read_blocks_frame cs t payload L p 0 c (Z.to_nat (c - 1))
                  1 head1 2) as (data2 & ptr2 & E & El & _ & Eq).
      { assumption. } { assumption. } { exact HL32. } { exact Hc. }
      { intros i' Hi'. apply head_block_direct; lia. }
      { lia. } { lia. } { lia. } { rewrite head1_length; lia. }
      { intros q Hq Hq2. apply head1_prefix; lia. }
      unfold HDR in E. rewrite E. cbn [negb Z.eqb].
      rewrite Z.ltb_irrefl, andb_false_r. cbn [negb Z.eqb].
      do 2 eexists. exists data2. split; [reflexivity|].
      apply take_of_peek; [rewrite El, head1_length; lia|].
      intros q Hq. apply Eq; lia.
    + destruct (read_blocks_frame cs t payload L p 0 c (Z.to_nat (a1 - 1))
                  1 head1 2) as (data2 & ptr2 & E & El & Ep2 & Eq).
      { assumption. } { assumption. } { exact HL32. } { exact Hc. }
      { intros i' Hi'. apply head_block_direct; lia. }
      { lia. } { lia. } { lia. } { rewrite head1_length; lia. }
      { intros q Hq Hq2. apply head1_prefix; lia. }
      unfold HDR in E. rewrite E. cbn [negb Z.eqb].
      replace (sz <=? p + a1 * 8) with true
        by (symmetry; apply Z.leb_le; lia).
      replace (0 <? c - a1) with true by (symmetry; apply Z.ltb_lt; lia).
      cbn [andb].
      destruct (read_blocks_frame cs t payload L 0 a1 c (Z.to_nat (c - a1))
                  0 data2 ptr2) as (data3 & ptr3 & E3 & El3 & _ & Eq3).
      { assumption. } { assumption. } { exact HL32. } { exact Hc. }
      { intros i' Hi'.
        pose proof (head_block_wrapped (a1 + i')) as Hbw.
        replace (p + 8 * (a1 + i') - sz) with (0 + i' * 8) in Hbw by lia.
        apply Hbw; lia. }
      { lia. } { lia. }
      { intros Hlt. rewrite Ep2 by lia. lia. }
      { rewrite El, head1_length; lia. }
      { intros q Hq Hq2. apply Eq; lia. }
      unfold HDR in E3. rewrite E3. cbn [negb Z.eqb].
      do 2 eexists. exists data3. split; [reflexivity|].
      apply take_of_peek; [rewrite El3, El, head1_length; lia|].
      intros q Hq. apply Eq3; lia.
Qed.

End QueueHead.

Lemma blocks_taken_frame L :
  0 <= L -> blocks_taken (L + HDR) = blocks_for (L + HDR).
Proof.
  intros HL. unfold blocks_taken, SEVEN, HDR.
  destruct (Z.leb_spec (L + 5) 7); [|reflexivity].
  pose proof (blocks_for_bounds (L + 5) ltac:(lia)). lia.
Qed.

(** X24.  On a ring that holds a queue of requests, [memipc_get_req] by
    the consumer (with room for the payload) returns the oldest request:
    its type, its size and its payload; the ring then holds the rest of
    the queue in the same order, starting right after the blocks of the
    request taken.  So requests come out in the order they were put in,
    however many are in flight. *)
Theorem ring_dequeue
    (sz rp : Z) (W R : memipc_area) (m : shmem)
    (t : Z) (payload : list Z) (rest : list frame)
    (rpid cap ty0 : Z) (buf : list Z) :
  ring_queue sz rp W R m ((t, payload) :: rest) ->
  reader R = rpid ->
  Forall is_byte payload -> 0 <= t < 128 ->
  Z.of_nat (length payload) <= cap < 2 ^ 63 - 5 ->
  (2 <= length buf)%nat -> (length payload <= length buf)%nat ->
  let g := memipc_get_req rpid R m ty0 cap buf in
  g_ret g = 0 /\
  g_type g = t /\
  g_size g = Z.of_nat (length payload) /\
  take (length payload) (g_data g) = payload /\
  ring_queue sz ((rp + 8 * frame_blocks (t, payload)) mod sz)
    W (g_area g) (g_mem g) rest.
Proof.
  intros Hq HRpid Hpay Ht Hcap Hbuf2 HbufL g.
  change (ring_queue sz rp W R m (@cons frame (t, payload) rest)) in Hq.
  pose proof Hq as [Hsz Hsz8 Hlen Hrp Hrp8 Hfits Hheld Hfree HWs HWw HWr
                      HWi HWrel HRs HRr HRi HRw].
  set (f := (t, payload) : frame) in *.
  set (L := Z.of_nat (length payload)) in *.
  set (c := frame_blocks f) in *.
  pose proof (frame_blocks_pos f) as Hc1. fold c in Hc1.
  pose proof (length_frame_cells f) as Hlf. fold c in Hlf.
  destruct (length_queue_cells_8 rest) as [HB8 HB0].
  set (B' := Z.of_nat (length (queue_cells rest))) in *.
  assert (Z.of_nat (length (queue_cells (f :: rest))) = 8 * c + B') as HB.
  { rewrite queue_cells_cons, length_app, Nat2Z.inj_add, Hlf. reflexivity. }
  rewrite HB in Hfits, Hheld, Hfree, HWw, HWi, HWrel, HRi.
  pose proof (aligned_div8 sz Hsz8) as Esz.
  pose proof (aligned_div8 rp Hrp8) as Erp.
  assert (0 <= L) as HL0 by (unfold L; lia).
  assert (L + HDR < 2 ^ 32) as HL32.
  { pose proof (blocks_for_bounds (L + HDR) ltac:(unfold HDR; lia)) as Hb.
    change (blocks_for (L + HDR)) with c in Hb. unfold HDR in *. lia. }
  (* the cells of the oldest request *)
  assert (forall j, 0 <= j < 8 * c ->
            peek (cells m) ((rp + j) mod sz)
            = peek (frame_block t payload (j / 8)) (j mod 8)) as Hhead.
  { intros j Hj. rewrite Hheld by lia.
    rewrite queue_cells_cons, peek_app by lia.
    replace (j <? Z.of_nat (length (frame_cells f))) with true
      by (symmetry; apply Z.ltb_lt; lia).
    apply (peek_frame_cells f). fold c. lia. }
  (* the scan *)
  assert (scan_written (Z.to_nat (sz - u32 (inbuffer R))) (cells m) sz
            (wptr R) (u32 (inbuffer R))
          = ((rp + (8 * c + B')) mod sz, 8 * c + B')) as Hscan.
  { rewrite (u32_small (inbuffer R)) by lia. rewrite HRw.
    rewrite (scan_written_window (cells m) sz
               (Z.to_nat (sz - inbuffer R)) ((rp + inbuffer R) mod sz)
               (inbuffer R) (8 * c + B' - inbuffer R));
      try lia; try (apply Z.mod_pos_bound; lia).
    - rewrite Zplus_mod_idemp_l. f_equal; [f_equal|]; lia.
    - intros i Hi. rewrite Zplus_mod_idemp_l, <- Z.add_assoc.
      rewrite Hheld by lia. apply queue_cells_odd. rewrite HB. lia.
    - intros Hlt. rewrite Zplus_mod_idemp_l.
      replace (rp + inbuffer R + (8 * c + B' - inbuffer R))
        with (rp + (8 * c + B')) by lia.
      apply Hfree. lia. }
  destruct m as [cs jr]. cbn [cells] in *.
  destruct (get_req_queue_data sz rp R cs jr rpid t payload L c cap ty0 buf
              ((rp + (8 * c + B')) mod sz) (8 * c + B'))
    as (area' & cells' & data' & Hget & Htake);
    try assumption; try lia; try reflexivity.
  (* the descriptor and the cells *)
  assert (consumer_accounted R) as Hacc.
  { unfold consumer_accounted. rewrite HRs, HRr, HRw.
    repeat split; try lia; try (apply Z.mod_pos_bound; lia). }
  pose proof (get_req_descriptor rpid R (Shmem cs jr) ty0 cap buf Hacc)
    as Hdesc.
  pose proof (get_req_cells rpid R (Shmem cs jr) ty0 cap buf Hacc
                ltac:(cbn [cells]; lia)) as Hcells.
  cbv zeta in Hdesc, Hcells. fold g in Hdesc, Hcells.
  assert (header_total cs rp = L + HDR) as Htotal.
  { pose proof (header_total_eq buf cs rp (SEVEN - HDR) 0 0) as He.
    assert (block_holds cs rp (frame_block t payload 0)) as Hb0.
    { intros j Hj. pose proof (Hhead j ltac:(lia)) as Hj0.
      rewrite Z.mod_small in Hj0 by lia. rewrite Hj0.
      rewrite Z.div_small, Z.mod_small by lia. reflexivity. }
    rewrite (read_header_frame buf cs rp t payload L 0 0) in He;
      try assumption; try reflexivity.
    rewrite (block_holds_presence _ _ _ _ _ Hb0) in He.
    cbn [snd Z.eqb Pos.eqb] in He. symmetry. exact He. }
  cbn [cells] in Hdesc, Hcells. rewrite HRr, HRs, Htotal in Hdesc, Hcells.
  rewrite blocks_taken_frame in Hdesc, Hcells by exact HL0.
  change (blocks_for (L + HDR)) with c in Hdesc, Hcells.
  unfold consumer_scanned in Hdesc. cbn [cells] in Hdesc.
  rewrite HRs, Hscan in Hdesc. cbn [fst snd wptr inbuffer] in Hdesc.
  assert (g_ret g = 0) as Hret by (unfold g; rewrite Hget; reflexivity).
  destruct Hdesc as (_ & Hsize & Hlen' & _ & Hmoved).
  destruct (Hmoved Hret) as (Hr' & Hi' & Hw').
  destruct Hcells as [_ Hcells]. specialize (Hcells Hret).
  split; [exact Hret|].
  split; [unfold g; rewrite Hget; reflexivity|].
  split; [unfold g; rewrite Hget; reflexivity|].
  split; [unfold g; rewrite Hget; exact Htake|].
  set (rp' := (rp + 8 * c) mod sz) in *.
  assert (0 <= rp' < sz) as Hrp' by (apply Z.mod_pos_bound; lia).
  assert (forall j, 0 <= j < sz ->
            ((rp' + j) mod sz - rp) mod sz = (8 * c + j) mod sz) as Hoff.
  { intros j Hj. unfold rp'.
    rewrite Zplus_mod_idemp_l, Zminus_mod_idemp_l. f_equal. lia. }
  constructor; fold B'; try assumption; try lia.
  - unfold rp'. rewrite (mod_small_wrap sz (rp + 8 * c)) by lia.
    destruct (rp + 8 * c <? sz).
    + rewrite Zplus_mod, Hrp8, Z.mul_comm, Z.mod_mul by lia. reflexivity.
    + rewrite Zminus_mod, Zplus_mod, Hrp8, Hsz8, Z.mul_comm, Z.mod_mul
        by lia. reflexivity.
  - intros j Hj.
    rewrite Hcells by (apply Z.mod_pos_bound; lia).
    rewrite Hoff by lia. rewrite (Z.mod_small (8 * c + j)) by lia.
    replace (8 * c + j <? 8 * c) with false
      by (symmetry; apply Z.ltb_ge; lia).
    rewrite andb_false_r.
    unfold rp'. rewrite Zplus_mod_idemp_l, <- Z.add_assoc.
    rewrite Hheld by lia.
    rewrite queue_cells_cons, peek_app by lia.
    replace (8 * c + j <? Z.of_nat (length (frame_cells f))) with false
      by (symmetry; apply Z.ltb_ge; lia).
    f_equal. lia.
  - intros j Hj.
    rewrite Hcells by (apply Z.mod_pos_bound; lia).
    rewrite Hoff by lia.
    replace ((rp' + j) mod sz <? sz) with true
      by (symmetry; apply Z.ltb_lt; apply Z.mod_pos_bound; lia).
    cbn [andb].
    destruct (Z.lt_ge_cases (8 * c + j) sz) as [Hlo|Hhi].
    + rewrite (Z.mod_small (8 * c + j)) by lia.
      replace (8 * c + j <? 8 * c) with false
        by (symmetry; apply Z.ltb_ge; lia).
      unfold rp'. rewrite Zplus_mod_idemp_l, <- Z.add_assoc.
      apply Hfree. lia.
    + replace ((8 * c + j) mod sz) with (8 * c + j - sz)
        by (apply (Z.mod_unique _ _ 1); lia).
      replace (8 * c + j - sz <? 8 * c) with true
        by (symmetry; apply Z.ltb_lt; lia).
      reflexivity.
  - rewrite HWw. unfold rp'. rewrite Zplus_mod_idemp_l. f_equal. lia.
  - unfold rp'. rewrite <- HWrel.
    rewrite Zplus_mod_idemp_l. f_equal. lia.
  - rewrite Hw', Hi'. unfold rp'. rewrite Zplus_mod_idemp_l. f_equal. lia.
Qed.


(** A ring with nothing in flight holds the empty queue. *)
Lemma ring_idle_queue sz p W R m :
  ring_idle sz p W R m -> ring_queue sz p W R m [].
Proof.
  intros [Hsz Hsz8 Hlen Hclear Hp Hp8 HWs HWw HWr HWi HWrel HRs HRr HRw HRi].
  constructor; cbn [queue_cells fmap list_fmap mjoin list_join length];
    try assumption; try lia.
  - intros j Hj. apply Hclear. apply Z.mod_pos_bound. lia.
  - rewrite HWw, Z.add_0_r, Z.mod_small by lia. reflexivity.
  - rewrite Z.sub_0_r. exact HWrel.
  - rewrite HRi, HRw, Z.add_0_r, Z.mod_small by lia. reflexivity.
Qed.

(** A three-byte request offered on a fresh 32-byte ring. *)
Lemma ring_enqueue_witness :
  let W := MemipcArea 0 0 32 0 7 0 in
  let R := MemipcArea 0 0 32 0 0 9 in
  let f : frame := (15, [1; 2; 3]) in
  let r := memipc_add_req 7 W (fresh_cells 32) 15
             (Z.of_nat (length [1; 2; 3])) [1; 2; 3] in
  if 8 * frame_blocks f <=? 32 - Z.of_nat (length (queue_cells []))
  then r.1.1 = 0 /\ ring_queue 32 0 r.1.2 R r.2 ([] ++ [f])
  else r.1.1 = -1 /\ r.2 = fresh_cells 32 /\
       ring_queue 32 0 r.1.2 R (fresh_cells 32) [].
Proof.
  apply (ring_enqueue 32 0 (MemipcArea 0 0 32 0 7 0)
           (MemipcArea 0 0 32 0 0 9) (fresh_cells 32) [] 7 15 [1; 2; 3]).
  - apply ring_idle_queue, ring_idle_fresh; [lia|reflexivity].
  - reflexivity.
  - cbn. lia.
Defined.

(** Two requests queued on a fresh 32-byte ring; the first one put in is
    the first one taken out. *)
Lemma ring_dequeue_witness :
  let W := MemipcArea 0 0 32 0 7 0 in
  let R := MemipcArea 0 0 32 0 0 9 in
  let r1 := memipc_add_req 7 W (fresh_cells 32) 15 3 [1; 2; 3] in
  let r2 := memipc_add_req 7 r1.1.2 r1.2 11 2 [8; 9] in
  let g := memipc_get_req 9 R r2.2 0 4096 (replicate 8 0) in
  g_ret g = 0 /\ g_type g = 15 /\ g_size g = 3 /\
  take 3 (g_data g) = [1; 2; 3] /\
  ring_queue 32 ((0 + 8 * frame_blocks (15, [1; 2; 3])) mod 32)
    r2.1.2 (g_area g) (g_mem g) [(11, [8; 9])].
Proof.
  intros W R r1 r2.
  assert (ring_queue 32 0 r1.1.2 R r1.2 [(15, [1; 2; 3])]) as H1.
  { pose proof (add_req_queue_step 32 0 W R (fresh_cells 32) [] 7 15
                  [1; 2; 3]) as H.
    cbv zeta in H.
    change (8 * frame_blocks (15, [1; 2; 3])
            <=? 32 - Z.of_nat (length (queue_cells []))) with true in H.
    apply H.
    - apply ring_idle_queue, ring_idle_fresh; [lia|reflexivity].
    - reflexivity.
    - cbn. lia. }
  assert (ring_queue 32 0 r2.1.2 R r2.2 [(15, [1; 2; 3]); (11, [8; 9])])
    as H2.
  { pose proof (add_req_queue_step 32 0 r1.1.2 R r1.2 [(15, [1; 2; 3])] 7 11
                  [8; 9]) as H.
    cbv zeta in H.
    change (8 * frame_blocks (11, [8; 9])
            <=? 32 - Z.of_nat (length (queue_cells [(15, [1; 2; 3])])))
      with true in H.
    apply H.
    - exact H1.
    - reflexivity.
    - cbn. lia. }
  apply (ring_dequeue 32 0 r2.1.2 R r2.2 15 [1; 2; 3] [(11, [8; 9])] 9
           4096 0 (replicate 8 0)).
  - exact H2.
  - reflexivity.
  - repeat constructor; unfold is_byte; lia.
  - lia.
  - cbn. lia.
  - cbn. lia.
  - cbn. lia.
Defined.
(** ** Refused calls on a ring that holds a queue *)

(** *** What the two scans find *)

(** The producer's scan on a queue finds the true read pointer and the
    bytes that are queued. *)
Lemma producer_scanned_queue sz rp W R m frames :
  ring_queue sz rp W R m frames ->
  producer_scanned W m
  = MemipcArea (wptr W) rp sz (Z.of_nat (length (queue_cells frames)))
      (writer W) (reader W).
Proof.
  intros Hq.
  pose proof Hq as [Hsz Hsz8 Hlen Hrp Hrp8 Hfits Hheld Hfree HWs HWw HWr
                      HWi HWrel HRs HRr HRi HRw].
  set (B := Z.of_nat (length (queue_cells frames))) in *.
  destruct (length_queue_cells_8 frames) as [HB8 HB0].
  fold B in HB8, HB0.
  assert (forall q, 0 <= q < sz -> B <= (q - rp) mod sz ->
            Z.odd (peek (cells m) q) = false) as Hclear.
  { intros q Hq0 Ho. pose proof (queue_cell sz rp W R m frames q Hq Hq0) as H.
    cbn zeta in H. fold B in H.
    destruct (Z.ltb_spec ((q - rp) mod sz) B); [lia|exact H]. }
  unfold producer_scanned.
  rewrite (u32_small (inbuffer W)) by lia.
  rewrite HWs.
  rewrite (scan_released_window (cells m) sz (Z.to_nat (inbuffer W))
             (rptr W) (inbuffer W) (inbuffer W - B)); try lia.
  2:{ intros i Hi. apply Hclear; [apply Z.mod_pos_bound; lia|].
      rewrite Zminus_mod_idemp_l.
      replace (rptr W + i - rp)
        with (rptr W + (inbuffer W - B) - rp + (i - (inbuffer W - B)))
        by lia.
      rewrite Zplus_mod, Zminus_mod, HWrel, (Z.mod_small rp sz) by lia.
      rewrite Z.sub_diag, Z.mod_0_l, Z.add_0_l, Z.mod_mod by lia.
      replace ((i - (inbuffer W - B)) mod sz)
        with (i - (inbuffer W - B) + sz)
        by (apply (Z.mod_unique _ _ (-1)); lia).
      lia. }
  2:{ intros Hlt. rewrite HWrel.
      pose proof (Hheld 0 ltac:(lia)) as H0.
      rewrite Z.add_0_r, Z.mod_small in H0 by lia. rewrite H0.
      apply queue_cells_odd. fold B. lia. }
  cbn [fst snd]. rewrite HWrel. f_equal. lia.
Qed.

(** The blocks [memipc_add_req] counts as free on a queue are the blocks
    that no request holds: none on a full ring. *)
Lemma free_blocks_queue sz rp W R m frames :
  ring_queue sz rp W R m frames ->
  free_blocks (producer_scanned W m)
  = (sz - Z.of_nat (length (queue_cells frames))) / 8.
Proof.
  intros Hq. rewrite (producer_scanned_queue sz rp W R m frames Hq).
  pose proof Hq as [Hsz Hsz8 Hlen Hrp Hrp8 Hfits Hheld Hfree HWs HWw HWr
                      HWi HWrel HRs HRr HRi HRw].
  set (B := Z.of_nat (length (queue_cells frames))) in *.
  destruct (length_queue_cells_8 frames) as [HB8 HB0].
  fold B in HB8, HB0.
  pose proof (aligned_div8 sz Hsz8) as Esz.
  pose proof (aligned_div8 rp Hrp8) as Erp.
  assert ((sz - B) mod 8 = 0) as HsB8
    by (rewrite Zminus_mod, Hsz8, HB8; reflexivity).
  pose proof (aligned_div8 (sz - B) HsB8) as EsB.
  unfold free_blocks, EIGHT. cbn [wptr rptr size inbuffer].
  destruct (Z.eqb_spec B sz) as [Efull|Enot]; [lia|].
  rewrite HWw, (mod_small_wrap sz (rp + B)) by lia.
  destruct (Z.ltb_spec (rp + B) sz) as [Hlo|Hhi].
  - destruct (Z.ltb_spec (rp + B) rp); [lia|].
    assert ((sz - (rp + B)) mod 8 = 0) as H8
      by (rewrite Zminus_mod, Zplus_mod, Hsz8, Hrp8, HB8; reflexivity).
    pose proof (aligned_div8 _ H8). lia.
  - destruct (Z.ltb_spec (rp + B - sz) rp); [|lia].
    f_equal. lia.
Qed.

(** The queue is the same queue under the producer's refreshed
    descriptor. *)
Lemma producer_scanned_keeps_queue sz rp W R m frames :
  ring_queue sz rp W R m frames ->
  ring_queue sz rp (producer_scanned W m) R m frames.
Proof.
  intros Hq. rewrite (producer_scanned_queue sz rp W R m frames Hq).
  pose proof Hq as [Hsz Hsz8 Hlen Hrp Hrp8 Hfits Hheld Hfree HWs HWw HWr
                      HWi HWrel HRs HRr HRi HRw].
  constructor; cbn [size wptr rptr inbuffer writer reader];
    try assumption; try lia.
  rewrite Z.sub_diag, Z.add_0_r. apply Z.mod_small. lia.
Qed.

(** The consumer's scan on a queue finds the true write pointer and the
    bytes that are queued. *)
Lemma scan_written_queue sz rp W R m frames :
  ring_queue sz rp W R m frames ->
  scan_written (Z.to_nat (sz - u32 (inbuffer R))) (cells m) sz (wptr R)
    (u32 (inbuffer R))
  = ((rp + Z.of_nat (length (queue_cells frames))) mod sz,
     Z.of_nat (length (queue_cells frames))).
Proof.
  intros Hq.
  pose proof Hq as [Hsz Hsz8 Hlen Hrp Hrp8 Hfits Hheld Hfree HWs HWw HWr
                      HWi HWrel HRs HRr HRi HRw].
  set (B := Z.of_nat (length (queue_cells frames))) in *.
  rewrite (u32_small (inbuffer R)) by lia. rewrite HRw.
  rewrite (scan_written_window (cells m) sz
             (Z.to_nat (sz - inbuffer R)) ((rp + inbuffer R) mod sz)
             (inbuffer R) (B - inbuffer R));
    try lia; try (apply Z.mod_pos_bound; lia).
  - rewrite Zplus_mod_idemp_l. f_equal; [f_equal|]; lia.
  - intros i Hi. rewrite Zplus_mod_idemp_l, <- Z.add_assoc.
    rewrite Hheld by lia. apply queue_cells_odd. fold B. lia.
  - intros Hlt. rewrite Zplus_mod_idemp_l.
    replace (rp + inbuffer R + (B - inbuffer R)) with (rp + B) by lia.
    apply Hfree. lia.
Qed.

Lemma consumer_scanned_queue sz rp W R m frames :
  ring_queue sz rp W R m frames ->
  consumer_scanned R m
  = MemipcArea ((rp + Z.of_nat (length (queue_cells frames))) mod sz) rp sz
      (Z.of_nat (length (queue_cells frames))) (writer R) (reader R).
Proof.
  intros Hq. unfold consumer_scanned.
  rewrite (queue_R_size _ _ _ _ _ _ Hq), (queue_R_rptr _ _ _ _ _ _ Hq).
  rewrite (scan_written_queue sz rp W R m frames Hq). reflexivity.
Qed.

(** The queue is the same queue under the consumer's refreshed
    descriptor. *)
Lemma consumer_scanned_keeps_queue sz rp W R m frames :
  ring_queue sz rp W R m frames ->
  ring_queue sz rp W (consumer_scanned R m) m frames.
Proof.
  intros Hq. rewrite (consumer_scanned_queue sz rp W R m frames Hq).
  pose proof Hq as [Hsz Hsz8 Hlen Hrp Hrp8 Hfits Hheld Hfree HWs HWw HWr
                      HWi HWrel HRs HRr HRi HRw].
  constructor; cbn [size wptr rptr inbuffer writer reader];
    try assumption; try lia; reflexivity.
Qed.

(** *** The oldest request of a queue *)

Lemma queue_head_cells sz rp W R m t payload rest :
  ring_queue sz rp W R m ((t, payload) :: rest) ->
  forall j, 0 <= j < 8 * frame_blocks (t, payload) ->
    peek (cells m) ((rp + j) mod sz)
    = peek (frame_block t payload (j / 8)) (j mod 8).
Proof.
  intros Hq j Hj.
  change (ring_queue sz rp W R m (@cons frame (t, payload) rest)) in Hq.
  pose proof (length_frame_cells (t, payload)) as Hlf.
  destruct (length_queue_cells_8 rest) as [_ HB0].
  rewrite (queue_held _ _ _ _ _ _ Hq)
    by (rewrite queue_cells_cons, length_app, Nat2Z.inj_add; lia).
  rewrite queue_cells_cons, peek_app by lia.
  replace (j <? Z.of_nat (length (frame_cells (t, payload)))) with true
    by (symmetry; apply Z.ltb_lt; lia).
  apply (peek_frame_cells (t, payload)). lia.
Qed.

(** Sizes of the oldest request: its blocks are counted in, and its
    total size fits the 32 bits of the header. *)
Lemma queue_head_sizes sz rp W R m t payload rest :
  ring_queue sz rp W R m ((t, payload) :: rest) ->
  let L := Z.of_nat (length payload) in
  let c := frame_blocks (t, payload) in
  1 <= c /\ 7 * (c - 1) < L + 5 <= 7 * c /\
  8 * c <= Z.of_nat (length (queue_cells ((t, payload) :: rest))) <= sz /\
  L + HDR < 2 ^ 32.
Proof.
  intros Hq L c.
  change (ring_queue sz rp W R m (@cons frame (t, payload) rest)) in Hq.
  pose proof (queue_sz _ _ _ _ _ _ Hq) as Hsz.
  pose proof (queue_fits _ _ _ _ _ _ Hq) as Hfits.
  pose proof (frame_blocks_pos (t, payload)) as Hc1. fold c in Hc1.
  pose proof (length_frame_cells (t, payload)) as Hlf. fold c in Hlf.
  destruct (length_queue_cells_8 rest) as [_ HB0].
  rewrite queue_cells_cons, length_app, Nat2Z.inj_add, Hlf in Hfits |- *.
  pose proof (blocks_for_bounds (L + HDR) ltac:(unfold HDR; lia)) as Hb.
  change (blocks_for (L + HDR)) with c in Hb. unfold HDR in *.
  repeat split; lia.
Qed.

Lemma queue_head_block sz rp W R m t payload rest :
  ring_queue sz rp W R m ((t, payload) :: rest) ->
  block_holds (cells m) rp (frame_block t payload 0).
Proof.
  intros Hq j Hj.
  pose proof (queue_head_sizes sz rp W R m t payload rest Hq) as (Hc & _).
  pose proof (queue_head_cells sz rp W R m t payload rest Hq j ltac:(lia))
    as Hj0.
  change (ring_queue sz rp W R m (@cons frame (t, payload) rest)) in Hq.
  pose proof (queue_sz _ _ _ _ _ _ Hq) as Hsz.
  pose proof (queue_sz8 _ _ _ _ _ _ Hq) as Hsz8.
  pose proof (queue_rp _ _ _ _ _ _ Hq) as Hrp.
  pose proof (queue_rp8 _ _ _ _ _ _ Hq) as Hrp8.
  pose proof (aligned_div8 sz Hsz8). pose proof (aligned_div8 rp Hrp8).
  rewrite Z.mod_small in Hj0 by lia. rewrite Hj0.
  rewrite Z.div_small, Z.mod_small by lia. reflexivity.
Qed.

Lemma queue_head_total sz rp W R m t payload rest :
  ring_queue sz rp W R m ((t, payload) :: rest) ->
  Forall is_byte payload -> 0 <= t < 128 ->
  header_total (cells m) rp = Z.of_nat (length payload) + HDR.
Proof.
  intros Hq Hpay Ht.
  pose proof (queue_head_sizes sz rp W R m t payload rest Hq)
    as (_ & _ & _ & HL32).
  pose proof (queue_head_block sz rp W R m t payload rest Hq) as Hb0.
  pose proof (header_total_eq [] (cells m) rp (SEVEN - HDR) 0 0) as He.
  rewrite (read_header_frame [] (cells m) rp t payload
             (Z.of_nat (length payload)) 0 0) in He;
    try assumption; try reflexivity.
  rewrite (block_holds_presence _ _ _ _ _ Hb0) in He.
  cbn [snd Z.eqb Pos.eqb] in He. symmetry. exact He.
Qed.

(** With room for the payload, [memipc_get_req] takes the oldest request
    off the queue and hands it over. *)
Lemma get_req_queue_message
    sz rp W R m t payload rest rpid cap ty0 buf :
  ring_queue sz rp W R m ((t, payload) :: rest) ->
  reader R = rpid ->
  Forall is_byte payload -> 0 <= t < 128 ->
  Z.of_nat (length payload) <= cap < 2 ^ 63 - 5 ->
  (2 <= length buf)%nat -> (length payload <= length buf)%nat ->
  let g := memipc_get_req rpid R m ty0 cap buf in
  g_ret g = 0 /\ g_type g = t /\
  g_size g = Z.of_nat (length payload) /\
  take (length payload) (g_data g) = payload.
Proof.
  intros Hq HRpid Hpay Ht Hcap Hbuf2 HbufL g.
  pose proof (queue_head_sizes sz rp W R m t payload rest Hq)
    as (Hc1 & Hb & HB & HL32).
  pose proof (queue_head_cells sz rp W R m t payload rest Hq) as Hhead.
  pose proof (scan_written_queue sz rp W R m _ Hq) as Hscan.
  change (ring_queue sz rp W R m (@cons frame (t, payload) rest)) in Hq.
  pose proof Hq as [Hsz Hsz8 Hlen Hrp Hrp8 Hfits Hheld Hfree HWs HWw HWr
                      HWi HWrel HRs HRr HRi HRw].
  pose proof (aligned_div8 sz Hsz8) as Esz.
  destruct m as [cs jr]. cbn [cells] in *.
  destruct (get_req_queue_data sz rp R cs jr rpid t payload
              (Z.of_nat (length payload)) (frame_blocks (t, payload))
              cap ty0 buf _ _ Hhead Hscan)
    as (area' & cells' & data' & Hget & Htake);
    try assumption; try lia; try reflexivity.
  unfold g. rewrite Hget. cbn [g_ret g_type g_size g_data].
  repeat split; try reflexivity. exact Htake.
Qed.

(** Without room for the payload, [memipc_get_req] stops at the size
    test: the descriptor is the one the scan left, the cells are as they
    were, and the two bytes of the header block that belong to the
    payload have been stored in the caller's buffer. *)
Lemma get_req_queue_reject
    sz rp W R m t payload rest rpid cap ty0 buf :
  ring_queue sz rp W R m ((t, payload) :: rest) ->
  reader R = rpid ->
  Forall is_byte payload -> 0 <= t < 128 ->
  0 <= cap < Z.of_nat (length payload) ->
  memipc_get_req rpid R m ty0 cap buf
  = GetResult (-2) (consumer_scanned R m) m ty0 cap
      (poke (poke buf 1 (peek payload 1)) 0 (peek payload 0)).
Proof.
  intros Hq HRpid Hpay Ht Hcap.
  pose proof (queue_head_sizes sz rp W R m t payload rest Hq)
    as (Hc1 & Hb & HB & HL32).
  pose proof (queue_head_block sz rp W R m t payload rest Hq) as Hb0.
  pose proof (scan_written_queue sz rp W R m _ Hq) as Hscan.
  pose proof (queue_R_size _ _ _ _ _ _ Hq) as HRs.
  pose proof (queue_R_rptr _ _ _ _ _ _ Hq) as HRr.
  cbv zeta in Hc1, Hb, HB, HL32.
  set (B := Z.of_nat (length (queue_cells ((t, payload) :: rest)))) in *.
  unfold memipc_get_req, consumer_scanned.
  rewrite <- HRpid, Z.eqb_refl. cbn [negb].
  rewrite HRs, Hscan, HRr.
  cbv beta iota zeta. cbn [fst snd wptr rptr size inbuffer writer reader].
  replace (B <? EIGHT) with false
    by (symmetry; apply Z.ltb_ge; unfold EIGHT; lia).
  rewrite (read_header_frame buf (cells m) rp t payload
             (Z.of_nat (length payload)) 0 0);
    try assumption; try reflexivity.
  cbn [Z.eqb negb].
  rewrite (u64_small (cap + HDR)) by (unfold HDR in *; lia).
  replace (cap + HDR <? Z.of_nat (length payload) + HDR) with true
    by (symmetry; apply Z.ltb_lt; lia).
  reflexivity.
Qed.

(** *** A request that does not fit *)

(** C4, as the code has it.  [memipc_add_req] needs [n] blocks for a
    payload of [L] bytes, [n] being the ceiling of (5 + L) / 7, and
    returns -1 whenever the free blocks are fewer than [n]: the blocks up
    to the read pointer, counting the wrapped-around region, and none at
    all when the ring is full.  The shared cells and the write pointer
    are then as before; the descriptor's read pointer and byte count are
    those found by the scan at the head of the call: they are the
    descriptor's own when the consumer has released nothing since (the
    cell at the read pointer has its presence bit set, or no byte is
    counted in), and the byte count is lower otherwise.  On a ring that
    holds a queue of requests the free blocks so counted are the blocks
    no request holds, and the read pointer and the byte count found by
    the scan are the true ones. *)
Theorem add_req_would_block
    (wpid : Z) (W : memipc_area) (m : shmem) (t L : Z) (payload : list Z)
    (n : Z) :
  0 <= L < 2 ^ 63 ->
  writer W = wpid ->
  7 * (n - 1) < 5 + L <= 7 * n ->
  free_blocks (producer_scanned W m) < n ->
  blocks_for (u64 (L + HDR)) = n /\
  memipc_add_req wpid W m t L payload = (-1, producer_scanned W m, m) /\
  wptr (producer_scanned W m) = wptr W /\
  size (producer_scanned W m) = size W /\
  (0 <= inbuffer W < 2 ^ 32 ->
   inbuffer W = 0 \/ Z.odd (peek (cells m) (rptr W)) = true ->
   producer_scanned W m = W) /\
  (0 < inbuffer W < 2 ^ 32 -> 0 <= rptr W < size W ->
   Z.odd (peek (cells m) (rptr W)) = false ->
   inbuffer (producer_scanned W m) < inbuffer W) /\
  (forall sz rp R frames,
     ring_queue sz rp W R m frames ->
     free_blocks (producer_scanned W m)
       = (sz - Z.of_nat (length (queue_cells frames))) / 8 /\
     rptr (producer_scanned W m) = rp /\
     inbuffer (producer_scanned W m)
       = Z.of_nat (length (queue_cells frames)) /\
     ring_queue sz rp (producer_scanned W m) R m frames).
Proof.
  intros HL Hpid Hn Hfree.
  assert (blocks_for (u64 (L + HDR)) = n) as Hblocks.
  { rewrite u64_small by (unfold HDR; lia).
    pose proof (blocks_for_bounds (L + HDR) ltac:(unfold HDR; lia)) as Hb.
    unfold HDR in *. lia. }
  split; [exact Hblocks|].
  split; [|split; [reflexivity|split; [reflexivity|split; [|split]]]].
  - unfold memipc_add_req, free_blocks, producer_scanned in *.
    rewrite Hpid, Z.eqb_refl. cbn [negb].
    destruct (scan_released _ _ _ _ _) as [lp inb].
    cbn [fst snd wptr rptr size inbuffer writer reader] in *.
    destruct (inb =? size W); [reflexivity|].
    rewrite Hblocks.
    destruct (wptr W <? lp).
    + rewrite Z.add_0_r.
      destruct (Z.ltb_spec ((lp - wptr W) / EIGHT) n); [reflexivity|lia].
    + destruct (Z.ltb_spec ((size W - wptr W) / EIGHT + lp / EIGHT) n);
        [reflexivity|lia].
  - intros Hinb Hstay. unfold producer_scanned.
    rewrite (u32_small (inbuffer W)) by exact Hinb.
    replace (scan_released (Z.to_nat (inbuffer W)) (cells m) (size W)
               (rptr W) (inbuffer W)) with (rptr W, inbuffer W).
    { destruct W. reflexivity. }
    destruct (Z.to_nat (inbuffer W)) as [|fuel]; [reflexivity|].
    cbn [scan_released]. rewrite land_1_odd.
    destruct Hstay as [Hzero|Hodd].
    + rewrite Hzero. rewrite andb_false_r. reflexivity.
    + rewrite Hodd. reflexivity.
  - intros Hinb Hr Heven. unfold producer_scanned.
    rewrite (u32_small (inbuffer W)) by lia. cbn [inbuffer].
    destruct (Z.to_nat (inbuffer W)) as [|fuel] eqn:Efuel; [lia|].
    cbn [scan_released]. rewrite land_1_odd, Heven.
    replace (0 <? inbuffer W) with true by (symmetry; apply Z.ltb_lt; lia).
    cbn [Z.eqb andb].
    pose proof (scan_released_range (cells m) (size W) fuel
                  (if size W <=? rptr W + 1 then 0 else rptr W + 1)
                  (inbuffer W - 1) ltac:(lia)
                  ltac:(destruct (Z.leb_spec (size W) (rptr W + 1)); lia)
                  ltac:(lia)) as [_ Hle].
    lia.
  - intros sz rp R frames Hq.
    split; [exact (free_blocks_queue sz rp W R m frames Hq)|].
    rewrite (producer_scanned_queue sz rp W R m frames Hq).
    cbn [rptr inbuffer]. split; [reflexivity|]. split; [reflexivity|].
    rewrite <- (producer_scanned_queue sz rp W R m frames Hq).
    exact (producer_scanned_keeps_queue sz rp W R m frames Hq).
Qed.

(** On the full 32-byte ring a one-byte request (one block) finds no free
    block; nothing has been released, so the descriptor stays as it was.
    On the half-drained ring a sixteen-byte request needs three blocks
    and finds two; the refused call moves the read pointer to 16 and
    lowers the byte count to 16. *)
Lemma add_req_would_block_witness :
  (free_blocks (producer_scanned full_ring.1 full_ring.2) = 0 /\
   blocks_for (u64 (1 + HDR)) = 1 /\
   memipc_add_req 0 full_ring.1 full_ring.2 15 1 [7]
     = (-1, MemipcArea 0 0 32 32 0 0, full_ring.2) /\
   full_ring.1 = MemipcArea 0 0 32 32 0 0) /\
  (free_blocks (producer_scanned half_drained_ring.1 half_drained_ring.2)
     = 2 /\
   blocks_for (u64 (16 + HDR)) = 3 /\
   memipc_add_req 0 half_drained_ring.1 half_drained_ring.2 15 16
       (replicate 16 7)
     = (-1, MemipcArea 0 16 32 16 0 0, half_drained_ring.2) /\
   half_drained_ring.1 = MemipcArea 0 0 32 32 0 0).
Proof.
  split.
  - destruct (add_req_would_block 0 full_ring.1 full_ring.2 15 1 [7] 1)
      as (Hn & Hret & _).
    + lia.
    + reflexivity.
    + lia.
    + vm_compute. reflexivity.
    + split; [vm_compute; reflexivity|]. split; [exact Hn|].
      split; [exact Hret|vm_compute; reflexivity].
  - destruct (add_req_would_block 0 half_drained_ring.1 half_drained_ring.2
                15 16 (replicate 16 7) 3) as (Hn & Hret & _).
    + lia.
    + reflexivity.
    + lia.
    + vm_compute. reflexivity.
    + split; [vm_compute; reflexivity|]. split; [exact Hn|].
      split; [exact Hret|vm_compute; reflexivity].
Defined.

(** The claim as the specification words it (a refused request leaves the
    ring state as it was) fails on the half-drained ring: the refused call
    moves the producer's read pointer from 0 to 16 and lowers its byte
    count from 32 to 16. *)
Lemma add_req_would_block_changes_state :
  ~ (forall wpid W m t payload W' m',
       writer W = wpid ->
       memipc_add_req wpid W m t (Z.of_nat (length payload)) payload
         = (-1, W', m') ->
       W' = W /\ m' = m).
Proof.
  intros H.
  destruct (H 0 half_drained_ring.1 half_drained_ring.2 15 (replicate 16 7)
              (MemipcArea 0 16 32 16 0 0) half_drained_ring.2) as [HW _].
  - reflexivity.
  - vm_compute. reflexivity.
  - vm_compute in HW. discriminate HW.
Qed.

(** *** A request larger than the caller's buffer *)

(** With nothing queued, [memipc_get_req] stops at the test for a
    complete block. *)
Lemma get_req_queue_empty sz rp W R m rpid cap ty0 buf :
  ring_queue sz rp W R m [] -> reader R = rpid ->
  memipc_get_req rpid R m ty0 cap buf
  = GetResult (-1) (consumer_scanned R m) m ty0 cap buf.
Proof.
  intros Hq HRpid.
  pose proof (scan_written_queue sz rp W R m _ Hq) as Hscan.
  pose proof (queue_R_size _ _ _ _ _ _ Hq) as HRs.
  unfold memipc_get_req, consumer_scanned.
  rewrite <- HRpid, Z.eqb_refl. cbn [negb].
  rewrite HRs, Hscan. reflexivity.
Qed.

(** C5, as the code has it.  On a ring that holds a queue of requests,
    [memipc_get_req] by the consumer returns -1 when the queue is empty.
    When the oldest request has a payload of [L] bytes, the header block
    at the read pointer gives the total size [L + 5], and the call
    returns -2 exactly when [L] exceeds the capacity [cap] passed in
    [*req_size] (the total size exceeds the capacity plus the five header
    bytes).  The rejected request stays queued: the cells are untouched,
    so no presence bit is cleared; the read pointer is where it was;
    nothing is taken off the byte count; [*req_type] and [*req_size] are
    as the caller left them; and a later call with room for the payload
    returns 0 with the request's type, size and payload.  The
    descriptor's byte count is, however, not the one before the call: it
    is the one the scan at the head of the call found, the bytes of all
    the requests queued, and the write pointer is refreshed with it.  The
    first two bytes of the caller's buffer, which must be there, have
    been overwritten with what the header block carries of the
    payload. *)
Theorem get_req_too_large
    (sz rp : Z) (W R : memipc_area) (m : shmem) (frames : list frame)
    (rpid cap ty0 : Z) (buf : list Z) :
  ring_queue sz rp W R m frames ->
  reader R = rpid ->
  oldest_ok frames ->
  0 <= cap < 2 ^ 63 - 5 ->
  (2 <= length buf)%nat ->
  let B := Z.of_nat (length (queue_cells frames)) in
  let g := memipc_get_req rpid R m ty0 cap buf in
  match frames with
  | [] => g_ret g = -1
  | (t, payload) :: _ =>
      let L := Z.of_nat (length payload) in
      header_total (cells m) (rptr R) = L + HDR /\
      (g_ret g = -2 <-> cap < L) /\
      (cap < L ->
         g_ret g = -2 /\
         g_mem g = m /\
         rptr (g_area g) = rptr R /\
         size (g_area g) = size R /\
         inbuffer (g_area g) = B /\
         inbuffer R <= inbuffer (g_area g) /\
         wptr (g_area g) = (rp + B) mod sz /\
         g_type g = ty0 /\ g_size g = cap /\
         g_data g = poke (poke buf 1 (peek payload 1)) 0 (peek payload 0) /\
         ring_queue sz rp W (g_area g) (g_mem g) frames /\
         forall ty1 cap1 buf1,
           L <= cap1 < 2 ^ 63 - 5 ->
           (2 <= length buf1)%nat -> (length payload <= length buf1)%nat ->
           let g1 :=
             memipc_get_req rpid (g_area g) (g_mem g) ty1 cap1 buf1 in
           g_ret g1 = 0 /\ g_type g1 = t /\ g_size g1 = L /\
           take (length payload) (g_data g1) = payload)
  end.
Proof.
  intros Hq HRpid Hok Hcap Hbuf2 B g.
  destruct frames as [|[t payload] rest].
  { unfold g. rewrite (get_req_queue_empty sz rp W R m rpid cap ty0 buf Hq
                         HRpid). reflexivity. }
  destruct Hok as [Ht Hpay]. intros L.
  assert (cap < L -> g = GetResult (-2) (consumer_scanned R m) m ty0 cap
            (poke (poke buf 1 (peek payload 1)) 0 (peek payload 0)))
    as Hrej.
  { intros Hbig. unfold g.
    apply (get_req_queue_reject sz rp W R m t payload rest); try assumption.
    fold L. lia. }
  pose proof (queue_head_total sz rp W R m t payload rest Hq Hpay Ht)
    as Htotal.
  pose proof (queue_R_rptr _ _ _ _ _ _ Hq) as HRr.
  split; [rewrite HRr; exact Htotal|]. split.
  - split; [|intros Hbig; rewrite (Hrej Hbig); reflexivity].
    intros Hret.
    destruct (Z.lt_ge_cases cap L) as [Hbig|Hfits]; [exact Hbig|].
    pose proof (queue_R_inb _ _ _ _ _ _ Hq) as HRi.
    pose proof (queue_fits _ _ _ _ _ _ Hq) as Hfit.
    pose proof (queue_sz _ _ _ _ _ _ Hq) as Hsz.
    destruct (get_req_too_large_cases rpid R m ty0 cap buf
                ltac:(lia) Hcap) as [(_ & _ & _ & Hbig & _)|[_ Hne]].
    + rewrite HRr, Htotal in Hbig. fold L in Hbig. lia.
    + contradiction.
  - intros Hbig. rewrite (Hrej Hbig).
    cbn [g_ret g_area g_mem g_type g_size g_data].
    pose proof (consumer_scanned_keeps_queue sz rp W R m _ Hq) as Hq'.
    pose proof (queue_R_inb _ _ _ _ _ _ Hq) as HRi.
    rewrite (consumer_scanned_queue sz rp W R m _ Hq) in Hq' |- *.
    cbn [wptr rptr size inbuffer]. fold B in HRi |- *.
    pose proof (queue_R_size _ _ _ _ _ _ Hq) as HRs.
    split; [reflexivity|]. split; [reflexivity|].
    split; [symmetry; exact HRr|]. split; [symmetry; exact HRs|].
    split; [reflexivity|]. split; [lia|]. split; [reflexivity|].
    split; [reflexivity|]. split; [reflexivity|]. split; [reflexivity|].
    split; [exact Hq'|].
    intros ty1 cap1 buf1 Hcap1 Hbuf1 HbufL.
    apply (get_req_queue_message sz rp W _ m t payload rest); assumption.
Qed.

(** A three-byte request queued on a fresh 32-byte ring (two blocks,
    sixteen bytes) and read with room for two bytes, then with room for
    three. *)
Lemma get_req_too_large_witness :
  let r := memipc_add_req 0 (memipc_area_create 32) (fresh_cells 32) 15 3
             [104; 105; 10] in
  let R := memipc_area_create 32 in
  let g := memipc_get_req 0 R r.2 0 2 [0; 0; 0] in
  let g1 := memipc_get_req 0 (g_area g) (g_mem g) 0 3 [0; 0; 0] in
  r.1.1 = 0 /\
  g_ret g = -2 /\ g_mem g = r.2 /\
  rptr (g_area g) = 0 /\ inbuffer R = 0 /\ inbuffer (g_area g) = 16 /\
  wptr (g_area g) = 16 /\ g_type g = 0 /\ g_size g = 2 /\
  g_data g = [104; 105; 0] /\
  g_ret g1 = 0 /\ g_type g1 = 15 /\ g_size g1 = 3 /\
  take 3 (g_data g1) = [104; 105; 10].
Proof.
  intros r R g g1.
  assert (ring_queue 32 0 r.1.2 R r.2 [(15, [104; 105; 10])]) as Hq.
  { pose proof (add_req_queue_step 32 0 (memipc_area_create 32) R
                  (fresh_cells 32) [] 0 15 [104; 105; 10]) as H.
    cbv zeta in H.
    change (8 * frame_blocks (15, [104; 105; 10])
            <=? 32 - Z.of_nat (length (queue_cells []))) with true in H.
    apply H.
    - apply ring_idle_queue, (ring_idle_fresh 32 0 0); [lia|reflexivity].
    - reflexivity.
    - cbn. lia. }
  destruct (get_req_too_large 32 0 r.1.2 R r.2 [(15, [104; 105; 10])] 0 2 0
              [0; 0; 0] Hq) as (_ & _ & Hrej).
  - reflexivity.
  - split; [lia|]. repeat constructor; unfold is_byte; lia.
  - lia.
  - cbn. lia.
  - destruct (Hrej ltac:(cbn; lia))
      as (Hret & Hmem & Hr & _ & Hi & _ & Hw & Hty & Hsize & Hdata & _
          & Hlater).
    destruct (Hlater 0 3 [0; 0; 0] ltac:(cbn; lia) ltac:(cbn; lia)
                ltac:(cbn; lia)) as (H1 & H2 & H3 & H4).
    split; [reflexivity|]. split; [exact Hret|]. split; [exact Hmem|].
    split; [exact Hr|]. split; [reflexivity|]. split; [exact Hi|].
    split; [exact Hw|]. split; [exact Hty|]. split; [exact Hsize|].
    split; [exact Hdata|]. split; [exact H1|]. split; [exact H2|].
    split; [exact H3|exact H4].
Defined.

(** The claim as the specification words it (on a rejection the cells
    and the read pointer are as before and the byte count is not
    advanced) fails on a fresh 32-byte ring with one three-byte request
    queued: the call that rejects it with room for two bytes raises the
    consumer's byte count from 0 to 16. *)
Lemma get_req_too_large_raises_inbuffer :
  ~ (forall sz rp W R m t payload rest cap ty0 buf,
       ring_queue sz rp W R m ((t, payload) :: rest) ->
       Forall is_byte payload -> 0 <= t < 128 ->
       0 <= cap < 2 ^ 63 - 5 ->
       (2 <= length buf)%nat ->
       let g := memipc_get_req (reader R) R m ty0 cap buf in
       g_ret g = -2 ->
       g_mem g = m /\ rptr (g_area g) = rptr R /\
       inbuffer (g_area g) <= inbuffer R).
Proof.
  intros H.
  pose (r := memipc_add_req 0 (memipc_area_create 32) (fresh_cells 32) 15 3
               [104; 105; 10]).
  assert (ring_queue 32 0 r.1.2 (memipc_area_create 32) r.2
            [(15, [104; 105; 10])]) as Hq.
  { pose proof (add_req_queue_step 32 0 (memipc_area_create 32)
                  (memipc_area_create 32) (fresh_cells 32) [] 0 15
                  [104; 105; 10]) as Hs.
    cbv zeta in Hs.
    change (8 * frame_blocks (15, [104; 105; 10])
            <=? 32 - Z.of_nat (length (queue_cells []))) with true in Hs.
    apply Hs.
    - apply ring_idle_queue, (ring_idle_fresh 32 0 0); [lia|reflexivity].
    - reflexivity.
    - cbn. lia. }
  assert (Forall is_byte [104; 105; 10]) as Hpay
    by (repeat constructor; unfold is_byte; lia).
  specialize (H 32 0 r.1.2 (memipc_area_create 32) r.2 15 [104; 105; 10] []
                2 0 [0; 0; 0] Hq Hpay ltac:(lia) ltac:(lia)
                ltac:(cbn; lia)).
  cbv zeta in H.
  pose proof (H ltac:(vm_compute; reflexivity)) as (_ & _ & Hinb).
  vm_compute in Hinb. apply Hinb. reflexivity.
Qed.
